(* ===== verification/_CoqProject ===== *)
-Q . S2P
Prelude.v
Endian.v
Buffer.v
StdSet.v
Timestamp.v
TimerQueue.v
LoopTimers.v
TimerHistory.v
Channel.v
ChannelOwner.v
EPoller.v
LoopLife.v
TcpConnection.v
ConnectionFrame.v
EventLoop.v
Reactor.v
EventLoopThreadPool.v
Connector.v
TcpServer.v
Service.v
TcpClient.v
ClientEnd.v
Link.v
Printers.v
Discard.v
Finger.v
HttpContext.v
HttpServer.v
HttpConversation.v
Sudoku.v
SudokuServer.v
ProtobufCodec.v
PersonToy.v
Poller.v
InetAddress.v
Sockets.v
EventLoopThread.v
Socks4a.v
Tunnel.v
Proxy.v
Bench.v
BenchMain.v
PingPong.v
FileTransfer.v
