(* ===== verification/Prelude.v ===== *)
(** * chaonet: a verification development

    chaonet is a reactor library for TCP in C++17, in the manner of muduo, with
    example programs on top of it.  A loop ([EventLoop]) waits in a poller
    ([EPoller], or the older [Poller]) for the descriptors of its channels
    ([Channel]), runs the callbacks of the ready ones, and then the functors that
    its own thread or other threads have queued.  Timers ([TimerQueue]) are one
    more descriptor of the loop.  A connection ([TcpConnection]) is a channel with
    an input and an output [Buffer]; a server ([TcpServer]) makes connections from
    the sockets its [Acceptor] accepts and spreads them over the loops of a pool
    ([EventLoopThreadPool], each loop in an [EventLoopThread]); a client
    ([TcpClient]) makes them from the sockets its [Connector] connects.

    ** The files

    Each file models the classes or functions it names, with definitions under the
    sources' names; it lists in its own opening comment how the state is
    represented.  Paths are under [src/]; [include], [lib] and [ex] stand for
    [chaonet/include], [chaonet/src] and [examples].

    - [Prelude]: outcomes of C++ code, machine integers, bytes, lists, and the
      tactics and rewrite rules for them.
    - [Endian] ([include/SocketsOps.h]), [Buffer] ([include/Buffer.h],
      [lib/Buffer.cpp]), [InetAddress] ([InetAddress.h/.cpp] and the address
      functions of [lib/SocketsOps.cpp]), [Sockets] (its other functions,
      [Socket], and the [Acceptor] as the owner of its descriptor).
    - [StdSet]: [std::set] and [std::map] as sorted lists, used by the next three.
    - [Timestamp] ([include/utils/Timestamp.h]), [TimerQueue] ([Timer], [TimerId],
      [TimerQueue]), [LoopTimers] ([runAt], [runAfter], [runEvery], [cancel] of
      [lib/EventLoop.cpp]), [TimerHistory] (one timer through any history of its
      queue).
    - [Channel], [EPoller], [Poller]: the classes of these names; [ChannelOwner]
      is the interface a poller offers to the owners of channels.
    - [EventLoop]: the loop with its functor queue and its wakeup, interleaved
      with other threads; [Reactor]: one thread's loop with the poller and the
      channels, callback by callback; [LoopLife]: the loops of one thread from
      constructor to destructor, with their descriptors; [EventLoopThread] and
      [EventLoopThreadPool].
    - [TcpConnection], [Connector], [TcpServer] (with [Acceptor]), [TcpClient];
      [ClientEnd] the destructors of the last and of the connector;
      [ConnectionFrame] holds what every operation of a connection leaves alone;
      [Service] runs a server, its connections and the pollers of all its loops
      together, and [Link] a client, its connector, its connections and their
      poller.
    - Examples: [HttpContext], [HttpServer] and [HttpConversation] ([ex/http]: the
      parser, the answer to one request, the callbacks on a connection), [Sudoku]
      and [SudokuServer] ([ex/sudoku]), [ProtobufCodec] ([ex/protobuf]),
      [PersonToy] ([ex/protobuftoy]), [Socks4a], [Tunnel] and [Proxy]
      ([ex/socks4a]: the requests, one tunnel, the tables of tunnels), [Bench],
      [BenchMain] and [PingPong] ([ex/pingpong]), [FileTransfer]
      ([ex/filetransfer]), [Printers] ([ex/timer]), [Discard] ([ex/discard]) and
      [Finger] ([ex/finger]).

    ** How the code is rendered

    An operation that can fail returns [res A]: its value, or a [fault], which is
    a failed [assert] (the asserts are part of the program: its builds do not
    define [NDEBUG]), an exception the code does not catch, or the undefined
    behaviour it would run into.  Objects that are shared or referred to by raw
    pointers live in a store keyed by address.  Integers are [Z] with the
    conversions written out where the code converts or where they can wrap;
    signed arithmetic that can overflow is checked.  Threads are step relations
    whose steps are the pieces of code that other threads cannot see the inside
    of; in [TcpConnection], [Service] and [Link], where the loops' own steps are
    whole handlers, a call that another thread makes on a connection is split where
    it is not locked, into the late write of [state_] ([Mark]) and the late
    queueing ([Leave]).  User callbacks are arbitrary: functions of the state, or programs that
    choose each call from the state the last one left, or free events of a run.
    The theorems on a connection say what they ask of the other threads by a mode:
    [Wild] nothing, [Timely] that a late write comes before the close, [Strict]
    also that what they queued runs before it.
    System calls, the clock, the allocator, the resolver, the file system and the
    protobuf library are parameters or inputs; where the theorems use what such
    code does, the class that holds it states its documented behaviour as laws,
    and each file ends with a concrete instance on which the theorems are applied.

    ** The interfaces

    - [Buffer] promises to its users a queue of bytes: [Buffer.Inv] and the lemmas
      [*_ok] give each operation's effect on [Buffer.readable], and the parsers,
      codecs and servers are proved against these only.
    - [ChannelOwner] is a class with laws; [TcpConnection] is proved for every
      instance, and [EPoller] is one.  [ChannelHost] extends it to a poller that
      several owners share: what one does to its channel leaves the others'
      alone, a descriptor has one registered channel at most, and channels come
      and go.  [Service], [Link], [LoopLife] and [BenchMain] are proved for every
      instance of it, and [EPoller] is one.  [Poller] is not: a channel it removed
      cannot be registered again ([removed_cannot_return]).
    - [EPoller.Kernel] is the documented behaviour of [epoll_ctl].
    - [TcpConnection.Socket], [Connector.Net], [TimerQueue.Env],
      [Sockets.System], [Socks4a.Names] and [FileTransfer.Files] hold the answers
      of the system; [Bench] and [BenchMain] are given the room of a socket pair.

    ** What the theorems show

    - Data: [Buffer] is a byte queue under any sequence of its calls but [shrink]
      and never touches memory outside its storage; integers and addresses survive their round
      trips, on hosts of either byte order.
    - Timers: the sets of [TimerQueue] always agree; an expiration runs exactly
      the due timers, in order, and restarts exactly the periodic ones that were
      not cancelled; through any history of the queue a timer of [runAfter] is run
      once and never early, and one of [runEvery] once at each expiration past its
      time ([TimerHistory]).
    - The loop: functors run once each in the order they were queued, under every
      interleaving; no wakeup is lost, but for functors the owner queues before
      [loop()]; one iteration handles exactly the reported
      channels and never uses a channel that is gone; [EPoller] keeps its map,
      its marks and the kernel's table in step, and [Poller] implements the same
      table with swap-and-pop removal.
    - A thread's loops account for every descriptor they open, and the thread's
      pointer to its loop never dangles ([LoopLife]).
    - Threads: [startLoop] returns with a live loop under every schedule; the
      destructor returns if the loop has begun, and hangs if it has not.
    - Connections: the bytes written are the messages sent, in order and whole;
      callbacks come once up and once down, unless a close overtakes the unlocked
      write of another thread's [shutdown]; a shutdown waits for the output
      buffer; no assert fails while the callbacks keep to the rules stated there.
      A server's and a client's connections are established and destroyed once
      each, on their own loops; a connector accounts for every socket it opens
      and backs off as documented, from its start and from each restart, and an
      acceptor for every descriptor it gets.
    - The whole server: with any number of loops, clients and foreign calls, no
      assert fails, its map and its connections agree, and none that is down is
      forgotten ([Service]).
    - The whole client: its connector and its connections share descriptors and
      the poller without a failed assert, through any number of reconnections
      ([Link]), and a client without a connection can be destroyed, unless its
      connecting outlasts a second ([ClientEnd]); in both, cancelling a planned
      retry aborts when its timer is the last of the loop's queue.
    - Examples: the HTTP parser reads back what a request writer writes and does
      the same on a buffer as on its bytes; the page server's answer can be read
      back, and a connection's requests are answered in order, one for each
      message; the sudoku solver is correct and terminates; a protobuf frame is
      accepted again; the SOCKS handler is total, a tunnel relays both streams
      in order, and the proxies' tables lead to the tunnels of the connections
      that are up; the pipe benchmark runs its 25 rounds and returns if its first
      messages fit in a socket pair, and the pingpong client's last report is that
      of the whole run, with bytes that came after the timeout counted again; the
      timer programs print their numbers and end under every interleaving, the
      discard server loses no byte, and the finger server answers a line and hangs
      up.
    - Where the code does not do what it means to, a theorem says what it does
      instead: [incomplete_headers_hang], [idle_client_destroyed] and, beside the
      properties, [timer5_prints], [loop_lifetimes], [codec_never_delivers],
      [early_destructor_hangs], [timer4_prints], [getExpired_correct],
      [cancelInLoop_correct], [idle_queue_rearmed], [early_quit_lost],
      [early_functor_waits], [late_send_aborts], [refused_then_aborts],
      [last_reference_dangles], [busy_client_destroyed], [discard_messages_lost],
      [disabled_stays_ignored], [removed_cannot_return], [closed_callbacks_crash],
      [request_use_after_free], [id_request_echoed], [person_per_message] and
      [timeout_reaches].

    ** Fuel

    Loops without a structural argument have fuel, and end in [OutOfFuel] without
    it.  [HttpContext.parseRequest] needs one unit for each line of the request
    ([request_roundtrip] asks for two more than its headers); for an incomplete
    request no fuel is enough, and that is the theorem [incomplete_headers_hang].
    [Sudoku.traceback] is called with 82 units, the depth of its recursion over 81
    cells, and [solver_correct] shows that they suffice.  [SudokuServer.loop] and
    [FileTransfer.drain] need one unit more than there are lines or bytes, which
    their theorems give them; [ProtobufCodec.onMessage] takes any fuel, since the
    theorem is that it returns before using it.  The decimal and hexadecimal
    printers and [HttpServer.freads] recurse on the number of digits or bytes.
    [BenchMain.loop] needs one unit more than the messages of a round
    ([bench_main_ends]), and [HttpConversation.onMessage] what its parser needs.

    ** What is not modelled, and why

    - Logging, [Callbacks.h] and [tools.h] (type aliases and a null check), and the
      [main] functions and start-up code but that of the pipe benchmark.
    - The destructor of [TcpServer], which is empty, and the template
      [ProtobufCodecLiteT], which only forwards and cannot be instantiated.
    - The reads of [state_] and of the channel that another thread makes while a
      step of the loop is under way: in [TcpConnection] the loop's steps are whole.
    - The read through an erased iterator in the log call of
      [TimerQueue::cancelInLoop]: as a fault it would leave no successful
      cancellation to speak of.
    - In [Service] and [Link], the order of the server's or client's functors
      among those of the connections on the same loop: any order the queues allow
      is a run.
    - The loops themselves under [Service] and [Link]: what a loop reports and
      runs there are free events, and [Reactor] and [EventLoop] show what a loop
      does with them.
    - [timer1], [finger01] and [finger02], which are a [main] only, the code protoc
      generates, [google-inl.h] (third party), and the tests. *)

From stdpp Require Export prelude list gmap strings.
From Stdlib Require Export ZArith Lia.
From Stdlib Require Export Strings.Byte.

#[global] Open Scope Z_scope.

(** ** Outcomes of C++ code

    A run of a C++ operation either returns or stops with a fault: a failed
    [assert], an access outside an object (undefined behaviour), the
    [std::length_error] of a container, signed overflow, or the other
    undefined behaviours the sources can run into; or it waits for ever in a
    system call ([Blocked]). *)
Inductive fault :=
  | AssertFailed
  | OutOfBounds
  | LengthError
  | SignedOverflow
  | BadCast
  | NullDeref
  | UseAfterFree
  | NoReturn
  | Blocked
  | OutOfFuel.

#[export] Instance fault_eq_dec : EqDecision fault.
Proof. solve_decision. Defined.

Inductive res (A : Type) : Type :=
  | Ok (a : A)
  | Err (f : fault).
Arguments Ok {A} a.
Arguments Err {A} f.

#[export] Instance res_ret : MRet res := fun A => @Ok A.
#[export] Instance res_bind : MBind res := fun A B k m =>
  match m with Ok a => k a | Err f => Err f end.
#[export] Instance res_fmap : FMap res := fun A B g m =>
  match m with Ok a => Ok (g a) | Err f => Err f end.

(** [assert(b)], compiled in (the build files never define [NDEBUG]). *)
Definition assert_ (b : bool) : res () := if b then Ok () else Err AssertFailed.

(** A check whose failure is the given fault. *)
Definition check (b : bool) (f : fault) : res () := if b then Ok () else Err f.

Definition is_ok {A} (m : res A) : bool := match m with Ok _ => true | Err _ => false end.

Lemma bind_ok {A B} (k : A -> res B) (m : res A) (b : B) :
  m ≫= k = Ok b <-> exists a, m = Ok a /\ k a = Ok b.
Proof.
  destruct m as [a|f]; simpl; split.
  - intros H. by exists a.
  - intros (a' & [= ->] & H). exact H.
  - discriminate.
  - intros (a' & [=] & _).
Qed.

Lemma bind_ret_l {A B} (k : A -> res B) (a : A) : Ok a ≫= k = k a.
Proof. reflexivity. Qed.

Lemma assert_true (b : bool) : b = true -> assert_ b = Ok ().
Proof. by intros ->. Qed.

Lemma assert_ok (b : bool) u : assert_ b = Ok u <-> b = true.
Proof. destruct b, u; simpl; split; congruence. Qed.

Lemma check_ok (b : bool) f u : check b f = Ok u <-> b = true.
Proof. destruct b, u; simpl; split; congruence. Qed.

(** Run through the binds of a hypothesis [m = Ok x]. *)
Ltac inv_ok :=
  repeat match goal with
  | H : Ok () = Ok () |- _ => clear H
  | H : Ok _ = Ok _ |- _ => injection H as H; subst
  | H : Err _ = Ok _ |- _ => discriminate H
  | H : (_ ≫= _) = Ok _ |- _ =>
      apply bind_ok in H; destruct H as (? & ? & ?)
  | H : assert_ _ = Ok _ |- _ => apply assert_ok in H
  | H : check _ _ = Ok _ |- _ => apply check_ok in H
  | H : mret _ = Ok _ |- _ => unfold mret, res_ret in H
  end.

(** [H] tells what a run [m] gives on both branches of a condition, and [E]
    that it returned: keep the branch that returns and what [H] says of it. *)
Ltac returned H E :=
  lazymatch type of H with
  | if ?c then _ else _ => destruct c; [|congruence]
  end;
  let Heq := fresh in
  destruct H as (? & Heq & H); rewrite Heq in E; injection E as <-; clear Heq.

(** ** Weakest preconditions

    [wp E m Q]: the run [m] returns a value that satisfies [Q], or stops with a
    fault that [E] permits. *)
Definition wp {A} (E : fault -> Prop) (m : res A) (Q : A -> Prop) : Prop :=
  match m with Ok a => Q a | Err f => E f end.

Lemma wp_bind {A B} (E : fault -> Prop) (k : A -> res B) (m : res A) (Q : B -> Prop) :
  wp E m (fun a => wp E (k a) Q) -> wp E (m ≫= k) Q.
Proof. by destruct m. Qed.

Lemma wp_mono {A} (E : fault -> Prop) (m : res A) (Q Q' : A -> Prop) :
  wp E m Q -> (forall a, Q a -> Q' a) -> wp E m Q'.
Proof. destruct m; simpl; auto. Qed.

Lemma wp_assert (E : fault -> Prop) (b : bool) (Q : () -> Prop) :
  (b = false -> E AssertFailed) -> (b = true -> Q ()) -> wp E (assert_ b) Q.
Proof. destruct b; simpl; auto. Qed.

Lemma wp_ok {A} (E : fault -> Prop) (m : res A) (Q : A -> Prop) a :
  wp E m Q -> m = Ok a -> Q a.
Proof. by intros H ->. Qed.

Lemma wp_progress {A} (m : res A) (Q : A -> Prop) :
  wp (fun _ => False) m Q -> exists a, m = Ok a /\ Q a.
Proof. destruct m; simpl; [eauto|done]. Qed.

(** ** Machine integers *)

Definition u16 (x : Z) : Z := x mod 2 ^ 16.
Definition u32 (x : Z) : Z := x mod 2 ^ 32.
Definition u64 (x : Z) : Z := x mod 2 ^ 64.
(** Conversion to a signed type of 32 or 64 bits (two's complement). *)
Definition s32 (x : Z) : Z := (x + 2 ^ 31) mod 2 ^ 32 - 2 ^ 31.
Definition s64 (x : Z) : Z := (x + 2 ^ 63) mod 2 ^ 64 - 2 ^ 63.

Definition in_s64 (x : Z) : bool := bool_decide (- 2 ^ 63 <= x < 2 ^ 63).
Definition in_s32 (x : Z) : bool := bool_decide (- 2 ^ 31 <= x < 2 ^ 31).

(** Arithmetic on [int64_t] and [int]: overflow is undefined. *)
Definition chk64 (x : Z) : res Z := if in_s64 x then Ok x else Err SignedOverflow.
Definition chk32 (x : Z) : res Z := if in_s32 x then Ok x else Err SignedOverflow.

(** [SIZE_MAX / 2], the [max_size()] of a [std::vector<char>]. *)
Definition max_size : Z := 2 ^ 63 - 1.

Lemma u64_small x : 0 <= x < 2 ^ 64 -> u64 x = x.
Proof. intros. by apply Z.mod_small. Qed.
Lemma u32_small x : 0 <= x < 2 ^ 32 -> u32 x = x.
Proof. intros. by apply Z.mod_small. Qed.
Lemma u16_small x : 0 <= x < 2 ^ 16 -> u16 x = x.
Proof. intros. by apply Z.mod_small. Qed.
Lemma u64_range x : 0 <= u64 x < 2 ^ 64.
Proof. by apply Z.mod_pos_bound. Qed.
Lemma u32_range x : 0 <= u32 x < 2 ^ 32.
Proof. by apply Z.mod_pos_bound. Qed.
Lemma s32_range x : - 2 ^ 31 <= s32 x < 2 ^ 31.
Proof. unfold s32. pose proof (Z.mod_pos_bound (x + 2 ^ 31) (2 ^ 32)). lia. Qed.
Lemma s32_small x : - 2 ^ 31 <= x < 2 ^ 31 -> s32 x = x.
Proof. intros. unfold s32. rewrite Z.mod_small; lia. Qed.
Lemma s32_u32 x : s32 (u32 x) = s32 x.
Proof. unfold s32, u32. by rewrite Zplus_mod_idemp_l. Qed.
Lemma u32_s32 x : u32 (s32 x) = u32 x.
Proof.
  unfold s32, u32. rewrite Zminus_mod_idemp_l. f_equal. lia.
Qed.
Lemma chk64_ok x y : chk64 x = Ok y -> y = x /\ - 2 ^ 63 <= x < 2 ^ 63.
Proof. unfold chk64, in_s64. case_bool_decide; [|done]. by intros [= <-]. Qed.
Lemma chk64_in x : - 2 ^ 63 <= x < 2 ^ 63 -> chk64 x = Ok x.
Proof. intros. unfold chk64, in_s64. by rewrite bool_decide_true. Qed.
Lemma chk32_in x : - 2 ^ 31 <= x < 2 ^ 31 -> chk32 x = Ok x.
Proof. intros. unfold chk32, in_s32. by rewrite bool_decide_true. Qed.

Lemma chk32_ok x y : chk32 x = Ok y -> y = x /\ - 2 ^ 31 <= x < 2 ^ 31.
Proof. unfold chk32, in_s32. case_bool_decide; [|done]. by intros [= <-]. Qed.

(** ** Byte strings

    [char], [std::string] and [const void*] payloads are lists of bytes. *)

#[export] Instance byte_eq_dec : EqDecision byte := Byte.byte_eq_dec.

(** The bytes of a string literal. *)
Definition bytes (s : String.string) : list byte := String.list_byte_of_string s.

Definition byte_val (b : byte) : Z := Z.of_N (Byte.to_N b).
(** The byte of the low eight bits. *)
Definition byte_of (z : Z) : byte :=
  default x00 (Byte.of_N (Z.to_N (z mod 256))).

Lemma byte_val_range b : 0 <= byte_val b < 256.
Proof.
  unfold byte_val. pose proof (Byte.to_N_bounded b). lia.
Qed.

Lemma byte_of_val b : byte_of (byte_val b) = b.
Proof.
  unfold byte_of. rewrite Z.mod_small by apply byte_val_range.
  unfold byte_val. rewrite N2Z.id, Byte.of_to_N. reflexivity.
Qed.

Lemma byte_val_of z : byte_val (byte_of z) = z mod 256.
Proof.
  unfold byte_of, byte_val.
  pose proof (Z.mod_pos_bound z 256 ltac:(lia)) as Hr.
  destruct (Byte.of_N (Z.to_N (z mod 256))) as [b|] eqn:E; simpl.
  - apply Byte.to_of_N in E. rewrite E, Z2N.id; lia.
  - apply Byte.of_N_None_iff in E. lia.
Qed.

Lemma byte_val_inj b c : byte_val b = byte_val c -> b = c.
Proof. intros E. by rewrite <- (byte_of_val b), E, byte_of_val. Qed.

(** ** Lists measured and cut with [Z] *)

Definition zlen {A} (l : list A) : Z := Z.of_nat (length l).
Definition ztake {A} (n : Z) (l : list A) : list A := take (Z.to_nat n) l.
Definition zdrop {A} (n : Z) (l : list A) : list A := drop (Z.to_nat n) l.

(** The [n] elements from offset [off]. *)
Definition slice {A} (off n : Z) (l : list A) : list A := ztake n (zdrop off l).

(** [l] with the elements from offset [off] replaced by [d]. *)
Definition splice {A} (off : Z) (d l : list A) : list A :=
  ztake off l ++ d ++ zdrop (off + zlen d) l.

Section zlists.
Context {A : Type}.
Implicit Types l d e : list A.

Lemma zlen_nonneg l : 0 <= zlen l.
Proof. unfold zlen. lia. Qed.
Lemma zlen_nil : zlen (@nil A) = 0.
Proof. reflexivity. Qed.
Lemma zlen_cons x l : zlen (x :: l) = 1 + zlen l.
Proof. unfold zlen. simpl. lia. Qed.
Lemma zlen_app l d : zlen (l ++ d) = zlen l + zlen d.
Proof. unfold zlen. rewrite length_app. lia. Qed.
Lemma zlen_take n l : zlen (ztake n l) = Z.min (Z.max 0 n) (zlen l).
Proof. unfold zlen, ztake. rewrite length_take. lia. Qed.
Lemma zlen_drop n l : zlen (zdrop n l) = Z.max 0 (zlen l - Z.max 0 n).
Proof. unfold zlen, zdrop. rewrite length_drop. lia. Qed.
Lemma zlen_replicate n (x : A) : zlen (replicate (Z.to_nat n) x) = Z.max 0 n.
Proof. unfold zlen. rewrite length_replicate. lia. Qed.
Lemma zlen_slice off n l :
  0 <= off -> 0 <= n -> off + n <= zlen l -> zlen (slice off n l) = n.
Proof. intros. unfold slice. rewrite zlen_take, zlen_drop. lia. Qed.
Lemma zlen_splice off d l :
  0 <= off -> off + zlen d <= zlen l -> zlen (splice off d l) = zlen l.
Proof.
  intros. unfold splice. rewrite !zlen_app, zlen_take, zlen_drop.
  pose proof (zlen_nonneg d). lia.
Qed.

Lemma zlen_zero_nil l : zlen l = 0 -> l = [].
Proof. destruct l; [done|]. rewrite zlen_cons. pose proof (zlen_nonneg l). lia. Qed.

Lemma ztake_all n l : zlen l <= n -> ztake n l = l.
Proof. unfold zlen, ztake. intros. apply take_ge. lia. Qed.
Lemma ztake_0 l : ztake 0 l = [].
Proof. reflexivity. Qed.
Lemma zdrop_0 l : zdrop 0 l = l.
Proof. reflexivity. Qed.
Lemma zdrop_all n l : zlen l <= n -> zdrop n l = [].
Proof. unfold zlen, zdrop. intros. apply drop_ge. lia. Qed.
Lemma ztake_drop n l : ztake n l ++ zdrop n l = l.
Proof. apply take_drop. Qed.

Lemma ztake_app_le n l d : n <= zlen l -> ztake n (l ++ d) = ztake n l.
Proof. unfold zlen, ztake. intros. apply take_app_le. lia. Qed.
Lemma ztake_app_ge n l d : zlen l <= n -> ztake n (l ++ d) = l ++ ztake (n - zlen l) d.
Proof.
  unfold zlen, ztake. intros. rewrite take_app_ge by lia. do 2 f_equal. lia.
Qed.
Lemma zdrop_app_le n l d : n <= zlen l -> zdrop n (l ++ d) = zdrop n l ++ d.
Proof. unfold zlen, zdrop. intros. apply drop_app_le. lia. Qed.
Lemma zdrop_app_ge n l d : zlen l <= n -> zdrop n (l ++ d) = zdrop (n - zlen l) d.
Proof. unfold zlen, zdrop. intros. rewrite drop_app_ge by lia. f_equal. lia. Qed.
Lemma zdrop_drop n m l : 0 <= n -> 0 <= m -> zdrop n (zdrop m l) = zdrop (m + n) l.
Proof. intros. unfold zdrop. rewrite drop_drop. f_equal. lia. Qed.
Lemma ztake_take n m l : ztake n (ztake m l) = ztake (Z.min n m) l.
Proof. unfold ztake. rewrite take_take. f_equal. lia. Qed.
Lemma zdrop_take n m l :
  0 <= n -> zdrop n (ztake m l) = ztake (m - n) (zdrop n l).
Proof.
  intros. unfold zdrop, ztake. rewrite skipn_firstn_comm. f_equal. lia.
Qed.

(** What a [splice] leaves before, puts at, and leaves after its offset. *)
Lemma slice_splice_same off d l :
  0 <= off <= zlen l -> slice off (zlen d) (splice off d l) = d.
Proof.
  intros. unfold slice, splice.
  rewrite zdrop_app_ge by (rewrite zlen_take; lia).
  rewrite zlen_take, zdrop_app_le by (pose proof (zlen_nonneg d); lia).
  replace (off - _) with 0 by lia. rewrite zdrop_0.
  rewrite ztake_app_le by lia. by apply ztake_all.
Qed.

Lemma slice_splice_before off d l i n :
  0 <= i -> 0 <= n -> i + n <= off -> off <= zlen l ->
  slice i n (splice off d l) = slice i n l.
Proof.
  intros. unfold slice, splice.
  rewrite zdrop_app_le by (rewrite zlen_take; lia).
  rewrite ztake_app_le by (rewrite zlen_drop, zlen_take; lia).
  rewrite zdrop_take by lia. rewrite ztake_take. f_equal. lia.
Qed.

Lemma slice_splice_extend i off d l :
  0 <= i <= off -> off <= zlen l ->
  slice i (off - i + zlen d) (splice off d l) = slice i (off - i) l ++ d.
Proof.
  intros. unfold slice, splice.
  rewrite zdrop_app_le by (rewrite zlen_take; lia).
  rewrite zdrop_take by lia.
  rewrite ztake_app_ge by (rewrite zlen_take, zlen_drop; pose proof (zlen_nonneg d); lia).
  f_equal. rewrite zlen_take, zlen_drop.
  rewrite ztake_app_le by lia. apply ztake_all. lia.
Qed.

Lemma slice_prepend off d l n :
  0 <= off -> 0 <= n -> off + zlen d + n <= zlen l ->
  slice off (zlen d + n) (splice off d l) = d ++ slice (off + zlen d) n l.
Proof.
  intros. pose proof (zlen_nonneg d). unfold slice, splice.
  rewrite zdrop_app_ge by (rewrite zlen_take; lia).
  rewrite zlen_take. replace (off - _) with 0 by lia. rewrite zdrop_0.
  rewrite ztake_app_ge by lia. do 2 f_equal. lia.
Qed.

Lemma slice_app_l i n l d :
  0 <= i -> 0 <= n -> i + n <= zlen l -> slice i n (l ++ d) = slice i n l.
Proof.
  intros. unfold slice. rewrite zdrop_app_le by lia.
  apply ztake_app_le. rewrite zlen_drop. lia.
Qed.

Lemma slice_0 n l : slice 0 n l = ztake n l.
Proof. reflexivity. Qed.
Lemma slice_empty i l : slice i 0 l = [].
Proof. reflexivity. Qed.

Lemma zdrop_slice k i n l :
  0 <= k -> 0 <= i -> zdrop k (slice i n l) = slice (i + k) (n - k) l.
Proof. intros. unfold slice. rewrite zdrop_take by lia. by rewrite zdrop_drop by lia. Qed.

Lemma ztake_slice k i n l : k <= n -> ztake k (slice i n l) = slice i k l.
Proof. intros. unfold slice. rewrite ztake_take. f_equal. lia. Qed.

Lemma slice_take i n m l : 0 <= i -> i + n <= m -> slice i n (ztake m l) = slice i n l.
Proof.
  intros. unfold slice. rewrite zdrop_take by lia. rewrite ztake_take. f_equal. lia.
Qed.
End zlists.

Lemma ztake_app_zlen {A} (l r : list A) : ztake (zlen l) (l ++ r) = l.
Proof. rewrite ztake_app_le by lia. by apply ztake_all. Qed.

Lemma zdrop_app_zlen {A} (l r : list A) n : zdrop (zlen l + n) (l ++ r) = zdrop n r \/ n < 0.
Proof.
  destruct (decide (n < 0)); [by right|left]. rewrite zdrop_app_ge by lia. f_equal. lia.
Qed.

Create Rewrite HintDb zlen.
#[export] Hint Rewrite @zlen_nil @zlen_cons @zlen_app @zlen_take @zlen_drop
  @zlen_replicate : zlen.

(** Linear arithmetic with the lengths of lists: record that every length in
    sight is not negative, push lengths to the leaves, and call [lia]. *)
Ltac note_zlen :=
  repeat match goal with
  | |- context [zlen ?l] =>
      lazymatch goal with
      | _ : 0 <= zlen l |- _ => fail
      | _ => pose proof (zlen_nonneg l)
      end
  | _ : context [zlen ?l] |- _ =>
      lazymatch goal with
      | _ : 0 <= zlen l |- _ => fail
      | _ => pose proof (zlen_nonneg l)
      end
  end.
Ltac zl := autorewrite with zlen in *; note_zlen; autorewrite with zlen in *; lia.

(** ** Searching a byte *)

(** [std::find]: the offset of the first [c], the length when there is none. *)
Fixpoint index_of (c : byte) (l : list byte) : Z :=
  match l with
  | [] => 0
  | x :: l => if bool_decide (x = c) then 0 else 1 + index_of c l
  end.

Lemma index_of_range c l : 0 <= index_of c l <= zlen l.
Proof.
  induction l as [|x l IH]; simpl; [unfold zlen; simpl; lia|].
  rewrite zlen_cons. case_bool_decide; lia.
Qed.

Lemma index_of_app c l r : c ∉ l -> index_of c (l ++ c :: r) = zlen l.
Proof.
  induction l as [|x l IH]; simpl; intros Hn.
  - by rewrite bool_decide_true.
  - apply not_elem_of_cons in Hn as [Hx Hn]. rewrite bool_decide_false by congruence.
    rewrite IH by done. by rewrite zlen_cons.
Qed.

Lemma index_of_none c l : c ∉ l -> index_of c l = zlen l.
Proof.
  induction l as [|x l IH]; simpl; intros Hn; [done|].
  apply not_elem_of_cons in Hn as [Hx Hn]. rewrite bool_decide_false by congruence.
  rewrite IH by done. by rewrite zlen_cons.
Qed.

(** ** The calls of an application on its connection *)

Inductive action := Send (d : list byte) | Shutdown.

(** The bytes sent. *)
Definition sent (l : list action) : list byte :=
  l ≫= fun a => match a with Send d => d | Shutdown => [] end.

Lemma sent_app l1 l2 : sent (l1 ++ l2) = sent l1 ++ sent l2.
Proof. apply bind_app. Qed.

Section filters.
Context {A : Type} (P : A -> Prop) `{!forall x, Decision (P x)}.

Lemma filter_all (l : list A) : (forall x, x ∈ l -> P x) -> filter P l = l.
Proof.
  induction l as [|x l IH]; intros Hl; [done|].
  rewrite filter_cons_True by (apply Hl; by left). f_equal. apply IH.
  intros y Hy. apply Hl. by right.
Qed.

Lemma filter_none (l : list A) : (forall x, x ∈ l -> ~ P x) -> filter P l = [].
Proof.
  induction l as [|x l IH]; intros Hl; [done|].
  rewrite filter_cons_False by (apply Hl; by left). apply IH.
  intros y Hy. apply Hl. by right.
Qed.
End filters.
