(* ===== verification/Endian.v ===== *)
(** * Endian: the byte-order conversions of [SocketsOps.h]

    [chaonet/include/SocketsOps.h] wraps [htonl], [be32toh] and their 16 and
    64 bit versions.  The host's byte order is a parameter; an integer of [n]
    bytes is stored in memory by [mem] and read back by [mem_val], and the
    conversions swap bytes on a little-endian host only. *)

From S2P Require Import Prelude.

Inductive endianness := Little | Big.

(** The [n] low bytes of [x], the lowest first. *)
Fixpoint le_bytes (n : nat) (x : Z) : list byte :=
  match n with
  | O => []
  | S n => byte_of x :: le_bytes n (x / 256)
  end.

Fixpoint le_val (l : list byte) : Z :=
  match l with
  | [] => 0
  | b :: l => byte_val b + 256 * le_val l
  end.

(** The memory image of an [n]-byte integer, and the integer of an image. *)
Definition mem (h : endianness) (n : nat) (x : Z) : list byte :=
  match h with Little => le_bytes n x | Big => reverse (le_bytes n x) end.
Definition mem_val (h : endianness) (l : list byte) : Z :=
  match h with Little => le_val l | Big => le_val (reverse l) end.

Definition bswap (n : nat) (x : Z) : Z := le_val (reverse (le_bytes n x)).

(** Network byte order: the highest byte first. *)
Definition be_bytes (n : nat) (x : Z) : list byte := reverse (le_bytes n x).

Section conversions.
Context (h : endianness).

Definition swap_if_little (n : nat) (x : Z) : Z :=
  match h with Little => bswap n x | Big => x end.

Definition hostToNetwork64 (host64 : Z) : Z := swap_if_little 8 (u64 host64).
Definition hostToNetwork32 (host32 : Z) : Z := swap_if_little 4 (u32 host32).
Definition hostToNetwork16 (host16 : Z) : Z := swap_if_little 2 (u16 host16).
Definition networkToHost64 (net64 : Z) : Z := swap_if_little 8 (u64 net64).
Definition networkToHost32 (net32 : Z) : Z := swap_if_little 4 (u32 net32).
Definition networkToHost16 (net16 : Z) : Z := swap_if_little 2 (u16 net16).
End conversions.

(** ** Memory images *)

Lemma length_le_bytes n x : length (le_bytes n x) = n.
Proof. revert x. induction n; intros; simpl; auto. Qed.

Lemma zlen_mem h n x : zlen (mem h n x) = Z.of_nat n.
Proof.
  unfold zlen, mem. destruct h; rewrite ?length_reverse, length_le_bytes; done.
Qed.

Lemma pow256_S n : 256 ^ Z.of_nat (S n) = 256 * 256 ^ Z.of_nat n.
Proof. rewrite Nat2Z.inj_succ, Z.pow_succ_r; lia. Qed.

Lemma le_val_bytes n x : le_val (le_bytes n x) = x mod 256 ^ Z.of_nat n.
Proof.
  revert x. induction n as [|n IH]; intros x; simpl.
  - by rewrite Z.mod_1_r.
  - rewrite IH, byte_val_of, pow256_S.
    rewrite Z.rem_mul_r by (try lia; apply Z.pow_pos_nonneg; lia). lia.
Qed.

Lemma le_val_range l : 0 <= le_val l < 256 ^ zlen l.
Proof.
  unfold zlen. induction l as [|b l IH]; [simpl; lia|].
  pose proof (byte_val_range b). cbn [le_val length]. rewrite pow256_S.
  nia.
Qed.

Lemma le_bytes_val l : le_bytes (length l) (le_val l) = l.
Proof.
  induction l as [|b l IH]; simpl; [done|].
  pose proof (byte_val_range b). f_equal.
  - apply byte_val_inj. rewrite byte_val_of.
    rewrite Z.mul_comm, Z_mod_plus_full, Z.mod_small; lia.
  - replace ((byte_val b + 256 * le_val l) / 256) with (le_val l); [exact IH|].
    apply (Z.div_unique _ _ _ (byte_val b)); lia.
Qed.

Lemma mem_val_mem h n x : mem_val h (mem h n x) = x mod 256 ^ Z.of_nat n.
Proof.
  destruct h; simpl; rewrite ?reverse_involutive; apply le_val_bytes.
Qed.

Lemma le_bytes_bswap n x : le_bytes n (bswap n x) = reverse (le_bytes n x).
Proof.
  unfold bswap.
  pose proof (le_bytes_val (reverse (le_bytes n x))) as H.
  by rewrite length_reverse, length_le_bytes in H.
Qed.

Lemma le_bytes_mod n x : le_bytes n (x mod 256 ^ Z.of_nat n) = le_bytes n x.
Proof.
  pose proof (le_bytes_val (le_bytes n x)) as H.
  by rewrite length_le_bytes, le_val_bytes in H.
Qed.

(** Whatever the host, the memory image of a converted integer is the integer
    in network order. *)
Lemma mem_swap_if_little h n x : mem h n (swap_if_little h n x) = be_bytes n x.
Proof. destruct h; [apply le_bytes_bswap | reflexivity]. Qed.

Lemma bswap_involutive n x : bswap n (bswap n x) = x mod 256 ^ Z.of_nat n.
Proof.
  unfold bswap at 1. rewrite le_bytes_bswap, reverse_involutive. apply le_val_bytes.
Qed.

Lemma swap_if_little_twice h n x :
  0 <= x < 256 ^ Z.of_nat n -> swap_if_little h n (swap_if_little h n x) = x.
Proof.
  intros. destruct h; simpl; [|done].
  rewrite bswap_involutive. by apply Z.mod_small.
Qed.

Lemma swap_if_little_range h n x :
  0 <= x < 256 ^ Z.of_nat n -> 0 <= swap_if_little h n x < 256 ^ Z.of_nat n.
Proof.
  intros. destruct h; simpl; [|done]. unfold bswap.
  pose proof (le_val_range (reverse (le_bytes n x))) as Hr.
  unfold zlen in Hr. by rewrite length_reverse, length_le_bytes in Hr.
Qed.

(** The two directions undo each other at every width. *)
Lemma network_host_roundtrip h x :
  0 <= x ->
  (x < 2 ^ 16 -> networkToHost16 h (hostToNetwork16 h x) = x) /\
  (x < 2 ^ 32 -> networkToHost32 h (hostToNetwork32 h x) = x) /\
  (x < 2 ^ 64 -> networkToHost64 h (hostToNetwork64 h x) = x).
Proof.
  intros H0.
  unfold networkToHost16, hostToNetwork16, networkToHost32, hostToNetwork32,
    networkToHost64, hostToNetwork64.
  pose proof (swap_if_little_range h 2 x). pose proof (swap_if_little_range h 4 x).
  pose proof (swap_if_little_range h 8 x).
  repeat split; intros Hx.
  - rewrite (u16_small x) by lia.
    rewrite u16_small by lia. apply swap_if_little_twice. lia.
  - rewrite (u32_small x) by lia.
    rewrite u32_small by lia. apply swap_if_little_twice. lia.
  - rewrite (u64_small x) by lia.
    rewrite u64_small by lia. apply swap_if_little_twice. lia.
Qed.

(** The four bytes in network order of an [int32_t], read as the sources read
    them ([memcpy] into an [int32_t], then [networkToHost32]). *)
Lemma be_bytes_u32 x : be_bytes 4 (u32 x) = be_bytes 4 x.
Proof. unfold be_bytes, u32. f_equal. apply (le_bytes_mod 4). Qed.

Lemma network_read32 h x :
  s32 (networkToHost32 h (s32 (mem_val h (be_bytes 4 x)))) = s32 x.
Proof.
  rewrite <- be_bytes_u32, <- (mem_swap_if_little h 4), mem_val_mem.
  pose proof (swap_if_little_range h 4 (u32 x) (u32_range x)) as Hr.
  rewrite Z.mod_small by exact Hr.
  unfold networkToHost32. rewrite u32_s32, u32_small by exact Hr.
  rewrite swap_if_little_twice by exact (u32_range x). apply s32_u32.
Qed.

Lemma zlen_be_bytes n x : zlen (be_bytes n x) = Z.of_nat n.
Proof. unfold zlen, be_bytes. by rewrite length_reverse, length_le_bytes. Qed.
