(* ===== verification/Buffer.v ===== *)
(** * Buffer: the growable byte queue ([Buffer.h], [Buffer.cpp])

    The record has the fields of [class Buffer]; a pointer into [buffer_] is
    its offset from [begin()].  Every operation of the class is a definition
    with the class's asserts, its unchecked memory accesses (an access outside
    [buffer_] is [OutOfBounds]), its [size_t] arithmetic modulo 2^64 and the
    [std::length_error] of [vector::resize].  The theorems refine the class to
    a queue of bytes, [readable]. *)

From S2P Require Import Prelude Endian.

Module Buffer.

Record t := mk {
  buffer_ : list byte;
  readerIndex_ : Z;
  writerIndex_ : Z
}.

Definition kCheapPrepend : Z := 8.
Definition kInitialSize : Z := 1024.
Definition kCRLF : list byte := [x0d; x0a].
(** [sizeof(extrabuf)] of [readFd]. *)
Definition kExtraBuf : Z := 65536.

Definition size (b : t) : Z := zlen (buffer_ b).

(** [Buffer()] *)
Definition init : t :=
  mk (replicate (Z.to_nat (kCheapPrepend + kInitialSize)) x00) kCheapPrepend kCheapPrepend.

(** [swap]: both objects, exchanged. *)
Definition swap (b rhs : t) : t * t :=
  (mk (buffer_ rhs) (readerIndex_ rhs) (writerIndex_ rhs),
   mk (buffer_ b) (readerIndex_ b) (writerIndex_ b)).

Definition readableBytes (b : t) : Z := u64 (writerIndex_ b - readerIndex_ b).
Definition writableBytes (b : t) : Z := u64 (size b - writerIndex_ b).
Definition prependableBytes (b : t) : Z := readerIndex_ b.

Definition peek (b : t) : Z := readerIndex_ b.
Definition beginWrite (b : t) : Z := writerIndex_ b.

(** Memory accesses through a pointer into [buffer_]. *)
Definition load (b : t) (off n : Z) : res (list byte) :=
  if bool_decide (0 <= off /\ 0 <= n /\ off + n <= size b)
  then Ok (slice off n (buffer_ b)) else Err OutOfBounds.
Definition store (b : t) (off : Z) (d : list byte) : res t :=
  if bool_decide (0 <= off /\ off + zlen d <= size b)
  then Ok (mk (splice off d (buffer_ b)) (readerIndex_ b) (writerIndex_ b))
  else Err OutOfBounds.

(** [peekInt32] on a host of byte order [h]. *)
Definition peekInt32 (h : endianness) (b : t) : res Z :=
  assert_ (4 <=? readableBytes b) ;;
  m ← load b (peek b) 4 ;
  let be32 := s32 (mem_val h m) in
  Ok (s32 (networkToHost32 h be32)).

(** [std::search] of [pat]: the offset of its first occurrence in [l], the
    length of [l] when there is none. *)
Fixpoint search (pat l : list byte) : Z :=
  match l with
  | [] => 0
  | _ :: l' => if bool_decide (take (length pat) l = pat) then 0 else 1 + search pat l'
  end.

(** [findCRLF]: [None] is [nullptr]. *)
Definition findCRLF (b : t) : res (option Z) :=
  l ← load b (peek b) (beginWrite b - peek b) ;
  let crlf := peek b + search kCRLF l in
  Ok (if crlf =? beginWrite b then None else Some crlf).

Definition retrieve (b : t) (len : Z) : res t :=
  assert_ (len <=? readableBytes b) ;;
  Ok (mk (buffer_ b) (u64 (readerIndex_ b + len)) (writerIndex_ b)).

Definition retrieveUntil (b : t) (e : Z) : res t :=
  assert_ (peek b <=? e) ;;
  assert_ (e <=? beginWrite b) ;;
  retrieve b (u64 (e - peek b)).

Definition retrieveAll (b : t) : t := mk (buffer_ b) kCheapPrepend kCheapPrepend.

Definition retrieveAsString (b : t) : res (list byte * t) :=
  str ← load b (peek b) (readableBytes b) ;
  Ok (str, retrieveAll b).

(** [vector::resize]: the new elements are zero. *)
Definition resize (b : t) (n : Z) : res t :=
  if n <=? max_size
  then Ok (mk (ztake n (buffer_ b) ++ replicate (Z.to_nat (n - size b)) x00)
              (readerIndex_ b) (writerIndex_ b))
  else Err LengthError.

(** The second branch of [makeSpace]: move the readable bytes to the front. *)
Definition compact (b : t) : res t :=
  assert_ (kCheapPrepend <? readerIndex_ b) ;;
  let readable := readableBytes b in
  d ← load b (readerIndex_ b) (writerIndex_ b - readerIndex_ b) ;
  b1 ← store b kCheapPrepend d ;
  let b2 := mk (buffer_ b1) kCheapPrepend (u64 (kCheapPrepend + readable)) in
  assert_ (readable =? readableBytes b2) ;;
  Ok b2.

Definition makeSpace (b : t) (len : Z) : res t :=
  if u64 (writableBytes b + prependableBytes b) <? u64 (len + kCheapPrepend)
  then resize b (u64 (writerIndex_ b + len))
  else compact b.

Definition ensureWritableBytes (b : t) (len : Z) : res t :=
  b' ← (if writableBytes b <? len then makeSpace b len else Ok b) ;
  assert_ (len <=? writableBytes b') ;;
  Ok b'.

Definition hasWritten (b : t) (len : Z) : t :=
  mk (buffer_ b) (readerIndex_ b) (u64 (writerIndex_ b + len)).

(** [append(data, len)], of the [len] bytes [d]. *)
Definition append (b : t) (d : list byte) : res t :=
  b1 ← ensureWritableBytes b (zlen d) ;
  b2 ← store b1 (beginWrite b1) d ;
  Ok (hasWritten b2 (zlen d)).

Definition appendInt32 (h : endianness) (b : t) (x : Z) : res t :=
  let be32 := s32 (hostToNetwork32 h x) in
  append b (mem h 4 (u32 be32)).

Definition prepend (b : t) (d : list byte) : res t :=
  assert_ (zlen d <=? prependableBytes b) ;;
  let b1 := mk (buffer_ b) (u64 (readerIndex_ b - zlen d)) (writerIndex_ b) in
  store b1 (readerIndex_ b1) d.

(** [shrink]: the indices are left as they are. *)
Definition shrink (b : t) (reserve : Z) : res t :=
  let n := u64 (kCheapPrepend + readableBytes b + reserve) in
  check (n <=? max_size) LengthError ;;
  let buf := mk (replicate (Z.to_nat n) x00) 0 0 in
  d ← load b (peek b) (readableBytes b) ;
  buf' ← store buf kCheapPrepend d ;
  Ok (mk (buffer_ buf') (readerIndex_ b) (writerIndex_ b)).

(** What [readv] gives: the bytes that arrived, or [-1] with [errno]. *)
Inductive readv_result := RvData (d : list byte) | RvError (errno : Z).

(** [readFd]: the result, [savedErrno] when it is written, and the buffer.
    [readv] scatters the bytes over the writable part of [buffer_] and then
    [extrabuf]. *)
Definition readFd (b : t) (rv : readv_result) : res (Z * option Z * t) :=
  let writable := writableBytes b in
  match rv with
  | RvError e => Ok (-1, Some e, b)
  | RvData d =>
      let n := zlen d in
      b1 ← store b (beginWrite b) (ztake writable d) ;
      if n <=? writable
      then Ok (n, None, mk (buffer_ b1) (readerIndex_ b1) (u64 (writerIndex_ b1 + n)))
      else
        let b2 := mk (buffer_ b1) (readerIndex_ b1) (size b1) in
        b3 ← append b2 (zdrop writable d) ;
        Ok (n, None, b3)
  end.

(** ** The abstraction: a queue of bytes *)

(** The bytes between the two indices. *)
Definition readable (b : t) : list byte :=
  slice (readerIndex_ b) (writerIndex_ b - readerIndex_ b) (buffer_ b).

Definition Inv (b : t) : Prop :=
  0 <= readerIndex_ b <= writerIndex_ b /\ writerIndex_ b <= size b /\
  kCheapPrepend <= size b <= max_size.

Lemma inv_readableBytes b :
  Inv b -> readableBytes b = writerIndex_ b - readerIndex_ b.
Proof. intros (? & ? & Hm). apply u64_small. unfold max_size in Hm. lia. Qed.
Lemma inv_writableBytes b : Inv b -> writableBytes b = size b - writerIndex_ b.
Proof. intros (? & ? & Hm). apply u64_small. unfold max_size in Hm. lia. Qed.

Lemma zlen_readable b : Inv b -> zlen (readable b) = writerIndex_ b - readerIndex_ b.
Proof. intros (? & ? & ?). unfold readable, size in *. apply zlen_slice; lia. Qed.

Lemma readableBytes_len b : Inv b -> readableBytes b = zlen (readable b).
Proof. intros. by rewrite inv_readableBytes, zlen_readable. Qed.

Lemma buffer_init_inv : Inv init.
Proof. vm_compute. intuition discriminate. Qed.
Lemma init_readable : readable init = [].
Proof. reflexivity. Qed.

Lemma retrieveAll_inv b : Inv b -> Inv (retrieveAll b).
Proof. unfold Inv, retrieveAll, size, kCheapPrepend. simpl. lia. Qed.

Lemma retrieveAll_readable b : readable (retrieveAll b) = [].
Proof. reflexivity. Qed.

Lemma load_ok b off n :
  0 <= off -> 0 <= n -> off + n <= size b -> load b off n = Ok (slice off n (buffer_ b)).
Proof. intros. unfold load. by rewrite bool_decide_true. Qed.
Lemma store_ok b off d :
  0 <= off -> off + zlen d <= size b ->
  store b off d = Ok (mk (splice off d (buffer_ b)) (readerIndex_ b) (writerIndex_ b)).
Proof. intros. unfold store. by rewrite bool_decide_true. Qed.

Lemma load_readable b :
  Inv b -> load b (peek b) (readableBytes b) = Ok (readable b).
Proof.
  intros HI. rewrite inv_readableBytes by done. destruct HI as (? & ? & ?).
  apply load_ok; unfold peek; lia.
Qed.

(** ** Making room *)

(** Whether [len] more bytes fit without growing the vector. *)
Definition fits (b : t) (len : Z) : bool :=
  (len <=? size b - writerIndex_ b)
  || (len + kCheapPrepend <=? size b - writerIndex_ b + readerIndex_ b).

(** The compaction succeeds: its two asserts hold. *)
Lemma compact_ok b :
  Inv b -> kCheapPrepend < readerIndex_ b ->
  exists b', compact b = Ok b' /\ Inv b' /\ readable b' = readable b /\
    size b' = size b /\ readerIndex_ b' = kCheapPrepend.
Proof.
  intros HI Hk. assert (HI' := HI). destruct HI as (Hr & Hw & Hm).
  unfold compact. rewrite inv_readableBytes by done.
  unfold kCheapPrepend, max_size, size in *.
  set (d := slice (readerIndex_ b) (writerIndex_ b - readerIndex_ b) (buffer_ b)).
  assert (Hd : zlen d = writerIndex_ b - readerIndex_ b) by (apply zlen_slice; lia).
  assert (Hs : zlen (splice 8 d (buffer_ b)) = zlen (buffer_ b))
    by (apply zlen_splice; lia).
  rewrite assert_true by lia. simpl.
  rewrite load_ok by (unfold size; lia). simpl. fold d.
  rewrite store_ok by (unfold size; lia). simpl.
  unfold readableBytes; simpl.
  rewrite !u64_small by (rewrite ?u64_small; lia).
  rewrite assert_true by lia. simpl.
  eexists; split; [reflexivity|].
  unfold Inv, readable, size, max_size, kCheapPrepend; simpl.
  rewrite Hs. repeat split; try lia.
  replace (8 + _ - 8) with (zlen d) by lia. apply slice_splice_same. lia.
Qed.

Lemma resize_ok b n :
  Inv b -> writerIndex_ b <= n <= max_size -> size b <= n ->
  exists b', resize b n = Ok b' /\ Inv b' /\ readable b' = readable b /\ size b' = n.
Proof.
  intros (Hr & Hw & Hm) Hn Hs. unfold resize.
  replace (n <=? max_size) with true by lia.
  eexists; split; [reflexivity|]. unfold Inv, readable, size in *; simpl.
  rewrite ztake_all by lia. rewrite zlen_app, zlen_replicate.
  repeat split; try lia. apply slice_app_l; lia.
Qed.

(** [makeSpace] under [writableBytes() < len], the only way it is called. *)
Lemma makeSpace_ok b len :
  Inv b -> size b - writerIndex_ b < len <= max_size ->
  if fits b len || (writerIndex_ b + len <=? max_size) then
    exists b', makeSpace b len = Ok b' /\ Inv b' /\ readable b' = readable b /\
      len <= size b' - writerIndex_ b' /\
      size b' = (if fits b len then size b else writerIndex_ b + len)
  else makeSpace b len = Err LengthError.
Proof.
  intros HI Hl. assert (HI' := HI). destruct HI' as (Hr & Hw & Hm).
  unfold makeSpace, fits, prependableBytes.
  rewrite inv_writableBytes by done.
  unfold kCheapPrepend, max_size in *. pose proof (zlen_nonneg (buffer_ b)).
  replace (len <=? _) with false by lia. rewrite orb_false_l.
  rewrite !u64_small by lia.
  destruct (Z.ltb_spec (size b - writerIndex_ b + readerIndex_ b) (len + 8)) as [Hlt|Hge].
  - replace (_ <=? size b - _ + _) with false by lia. simpl.
    case_match.
    + destruct (resize_ok b (writerIndex_ b + len)) as (b' & E & HI' & Hrd & Hsz);
        unfold max_size; try done; try lia.
      exists b'. repeat split_and; try done; try apply HI'.
      rewrite Hsz. assert (writerIndex_ b' = writerIndex_ b) as ->; [|lia].
      unfold resize in E. case_match; by simplify_eq.
    + unfold resize. by replace (_ <=? max_size) with false.
  - replace (_ <=? size b - _ + _) with true by lia. simpl.
    destruct (compact_ok b HI) as (b' & E & HI' & Hrd & Hsz & Hk);
      [unfold kCheapPrepend; lia|].
    exists b'. repeat split_and; try done.
    assert (zlen (readable b') = zlen (readable b)) as Hlen by congruence.
    rewrite !zlen_readable in Hlen by done. unfold kCheapPrepend in Hk. lia.
Qed.

Lemma ensureWritableBytes_ok b len :
  Inv b -> 0 <= len <= max_size ->
  if fits b len || (writerIndex_ b + len <=? max_size) then
    exists b', ensureWritableBytes b len = Ok b' /\ Inv b' /\ readable b' = readable b /\
      len <= size b' - writerIndex_ b' /\
      size b' = (if fits b len then size b else writerIndex_ b + len)
  else ensureWritableBytes b len = Err LengthError.
Proof.
  intros HI Hl. unfold ensureWritableBytes. rewrite inv_writableBytes by done.
  destruct (Z.ltb_spec (size b - writerIndex_ b) len) as [Hlt|Hge].
  - pose proof (makeSpace_ok b len HI ltac:(lia)) as Hms.
    destruct (_ || _).
    + destruct Hms as (b' & -> & HI' & ? & ? & ?). simpl.
      rewrite inv_writableBytes, assert_true by (done || lia). simpl. eauto 10.
    + by rewrite Hms.
  - assert (fits b len = true) as -> by (unfold fits; lia). simpl.
    rewrite inv_writableBytes, assert_true by (done || lia). simpl. eauto 10.
Qed.

(** ** The operations on the abstraction *)

Lemma append_ok b d :
  Inv b -> zlen d <= max_size ->
  if fits b (zlen d) || (writerIndex_ b + zlen d <=? max_size) then
    exists b', append b d = Ok b' /\ Inv b' /\ readable b' = readable b ++ d /\
      size b' = (if fits b (zlen d) then size b else writerIndex_ b + zlen d)
  else append b d = Err LengthError.
Proof.
  intros HI Hl. pose proof (zlen_nonneg d). unfold append.
  pose proof (ensureWritableBytes_ok b (zlen d) HI ltac:(lia)) as He.
  destruct (_ || _); [|by rewrite He].
  destruct He as (b1 & -> & HI1 & Hrd & Hroom & Hsz). simpl.
  destruct HI1 as (Hr & Hw & Hm). unfold max_size in *.
  rewrite store_ok by (unfold beginWrite; lia). simpl.
  eexists; split; [reflexivity|]. unfold hasWritten; simpl.
  rewrite u64_small by lia. unfold Inv, readable, size, beginWrite, max_size in *; simpl.
  rewrite zlen_splice by lia. repeat split; try lia.
  rewrite <- Hrd.
  replace (writerIndex_ b1 + zlen d - readerIndex_ b1)
    with (writerIndex_ b1 - readerIndex_ b1 + zlen d) by lia.
  apply slice_splice_extend; lia.
Qed.

Lemma retrieve_ok b len :
  Inv b -> 0 <= len ->
  if len <=? zlen (readable b) then
    exists b', retrieve b len = Ok b' /\ Inv b' /\
      readable b' = zdrop len (readable b) /\ size b' = size b
  else retrieve b len = Err AssertFailed.
Proof.
  intros HI Hl. unfold retrieve. rewrite readableBytes_len by done.
  rewrite zlen_readable by done. destruct HI as (Hr & Hw & Hm).
  unfold max_size in *.
  destruct (Z.leb_spec len (writerIndex_ b - readerIndex_ b)); [|done]. simpl.
  eexists; split; [reflexivity|]. unfold Inv, readable, size, max_size in *; simpl.
  rewrite u64_small by lia. repeat split; try lia.
  rewrite zdrop_slice by lia. f_equal. lia.
Qed.

Lemma retrieveUntil_ok b e :
  Inv b -> 0 <= e ->
  if bool_decide (peek b <= e <= beginWrite b) then
    exists b', retrieveUntil b e = Ok b' /\ Inv b' /\
      readable b' = zdrop (e - peek b) (readable b) /\ size b' = size b
  else retrieveUntil b e = Err AssertFailed.
Proof.
  intros HI He. unfold retrieveUntil.
  case_bool_decide as Hb.
  - rewrite !assert_true by lia. simpl.
    pose proof (zlen_readable b HI) as Hz. assert (HI' := HI).
    destruct HI' as (Hr & Hw & Hm). unfold max_size, peek, beginWrite in *.
    rewrite u64_small by lia.
    pose proof (retrieve_ok b (e - readerIndex_ b) HI ltac:(lia)) as Hret.
    by replace (e - readerIndex_ b <=? zlen (readable b)) with true in Hret by lia.
  - destruct (Z.leb_spec (peek b) e); simpl; [|done].
    destruct (Z.leb_spec e (beginWrite b)); simpl; [lia|done].
Qed.

Lemma retrieveAsString_ok b :
  Inv b -> retrieveAsString b = Ok (readable b, retrieveAll b).
Proof. intros. unfold retrieveAsString. by rewrite load_readable. Qed.

Lemma prepend_ok b d :
  Inv b -> zlen d <= max_size ->
  if zlen d <=? readerIndex_ b then
    exists b', prepend b d = Ok b' /\ Inv b' /\ readable b' = d ++ readable b /\
      size b' = size b
  else prepend b d = Err AssertFailed.
Proof.
  intros (Hr & Hw & Hm) Hl. unfold prepend, prependableBytes, max_size in *.
  pose proof (zlen_nonneg d).
  destruct (Z.leb_spec (zlen d) (readerIndex_ b)); [|done]. simpl.
  rewrite u64_small by lia. unfold size in *.
  rewrite store_ok by (unfold size; simpl; lia). simpl.
  eexists; split; [reflexivity|]. unfold Inv, readable, size, max_size; simpl.
  rewrite zlen_splice by lia. repeat split; try lia.
  replace (writerIndex_ b - (readerIndex_ b - zlen d))
    with (zlen d + (writerIndex_ b - readerIndex_ b)) by lia.
  rewrite slice_prepend by lia. do 2 f_equal. lia.
Qed.

(** What [readv] can give for the two buffers. *)
Definition rv_fits (b : t) (rv : readv_result) : Prop :=
  match rv with
  | RvData d => zlen d <= size b - writerIndex_ b + kExtraBuf
  | RvError _ => True
  end.

Lemma readFd_wp b d :
  Inv b -> rv_fits b (RvData d) ->
  wp (fun f => f = LengthError /\ max_size < size b + kExtraBuf) (readFd b (RvData d))
    (fun r => fst r = (zlen d, None) /\ Inv (snd r) /\ readable (snd r) = readable b ++ d).
Proof.
  unfold rv_fits. intros HI Hl. assert (HI' := HI). destruct HI' as (Hr & Hw & Hmx).
  pose proof (zlen_nonneg d). unfold kExtraBuf, max_size in *.
  unfold readFd. rewrite inv_writableBytes by done. simpl.
  set (wr := size b - writerIndex_ b) in *. unfold beginWrite.
  assert (Hd1 : zlen (ztake wr d) = Z.min wr (zlen d)) by (rewrite zlen_take; lia).
  rewrite store_ok by lia. simpl.
  set (bb := splice (writerIndex_ b) (ztake wr d) (buffer_ b)).
  assert (Hbb : zlen bb = size b) by (unfold bb, size in *; apply zlen_splice; lia).
  assert (Hsl : slice (readerIndex_ b)
    (writerIndex_ b - readerIndex_ b + Z.min wr (zlen d)) bb = readable b ++ ztake wr d)
    by (rewrite <- Hd1; apply slice_splice_extend; unfold size in *; lia).
  destruct (Z.leb_spec (zlen d) wr).
  - rewrite u64_small by lia. cbn [wp]. split; [reflexivity|]. cbn [snd].
    unfold Inv, size; simpl. rewrite Hbb. unfold size, max_size in *.
    repeat split; try lia. unfold readable at 1; simpl.
    rewrite ztake_all in Hsl by lia. rewrite <- Hsl. f_equal. lia.
  - set (b2 := mk bb (readerIndex_ b) _).
    assert (HI2 : Inv b2) by (unfold b2, Inv, size, max_size in *; simpl; lia).
    assert (Hrd2 : readable b2 = readable b ++ ztake wr d).
    { rewrite <- Hsl. unfold b2, readable, size in *; simpl. f_equal. lia. }
    assert (Hd2 : zlen (zdrop wr d) = zlen d - wr) by (rewrite zlen_drop; lia).
    pose proof (append_ok b2 (zdrop wr d) HI2 ltac:(unfold max_size; lia)) as Ha.
    destruct (fits b2 _); [|destruct (Z.leb_spec (writerIndex_ b2 + zlen (zdrop wr d)) max_size)].
    3:{ cbn [orb] in Ha. rewrite Ha. simpl. split; [done|].
        unfold b2, max_size, size in *; simpl in *. lia. }
    all: destruct Ha as (b3 & -> & HI3 & Hrd3 & _); simpl; split_and!; try done;
      by rewrite Hrd3, Hrd2, <- app_assoc, ztake_drop.
Qed.

Lemma readFd_ok b d :
  Inv b -> rv_fits b (RvData d) -> size b + kExtraBuf <= max_size ->
  exists b', readFd b (RvData d) = Ok (zlen d, None, b') /\ Inv b' /\
    readable b' = readable b ++ d.
Proof.
  intros HI Hl Hm. pose proof (readFd_wp b d HI Hl) as H.
  destruct (readFd b (RvData d)) as [[r b']|f]; simpl in H; [|lia].
  destruct H as (-> & ? & ?). eauto.
Qed.

(** ** [findCRLF] finds the first occurrence *)

Lemma search_range pat l : 0 <= search pat l <= zlen l.
Proof.
  induction l as [|x l IH]; cbn [search]; [unfold zlen; simpl; lia|].
  rewrite zlen_cons. case_bool_decide; note_zlen; lia.
Qed.

Lemma search_found pat l :
  search pat l < zlen l -> slice (search pat l) (zlen pat) l = pat.
Proof.
  induction l as [|x l IH]; cbn [search]; [unfold zlen; simpl; lia|].
  rewrite zlen_cons. case_bool_decide as E.
  - intros _. unfold slice, ztake, zlen. by rewrite zdrop_0, Nat2Z.id.
  - intros. pose proof (search_range pat l).
    replace (1 + search pat l) with (Z.of_nat (S (Z.to_nat (search pat l)))) by lia.
    unfold slice, zdrop. rewrite Nat2Z.id. simpl. apply IH. lia.
Qed.

Lemma search_first pat l i :
  0 < zlen pat -> 0 <= i < search pat l -> slice i (zlen pat) l <> pat.
Proof.
  intros Hp. revert i. induction l as [|x l IH]; intros i; cbn [search]; [lia|].
  case_bool_decide as E; [lia|]. intros Hi Hs.
  destruct (decide (i = 0)) as [->|].
  - apply E. revert Hs. unfold slice, ztake, zlen. by rewrite zdrop_0, Nat2Z.id.
  - apply (IH (i - 1)); [lia|]. rewrite <- Hs at 2.
    replace i with (Z.of_nat (S (Z.to_nat (i - 1)))) at 2 by lia.
    unfold slice, zdrop. rewrite Nat2Z.id. done.
Qed.

Lemma findCRLF_ok b :
  Inv b -> findCRLF b =
    Ok (let i := search kCRLF (readable b) in
        if i =? zlen (readable b) then None else Some (peek b + i)).
Proof.
  intros HI. unfold findCRLF.
  assert (Hz := zlen_readable b HI). destruct HI as (Hr & Hw & Hm).
  rewrite load_ok by (unfold peek, beginWrite; lia). simpl.
  unfold peek, beginWrite in *. fold (readable b).
  pose proof (search_range kCRLF (readable b)).
  destruct (Z.eqb_spec (search kCRLF (readable b)) (zlen (readable b)));
    destruct (Z.eqb_spec (readerIndex_ b + search kCRLF (readable b)) (writerIndex_ b));
    try done; lia.
Qed.

(** ** Lines *)

(** The line before the first CRLF, and the buffer after it. *)
Lemma crlf_line b :
  Inv b -> let l := readable b in let n := search kCRLF l in
  n <> zlen l ->
  load b (peek b) (peek b + n - peek b) = Ok (ztake n l) /\
  exists b', retrieveUntil b (peek b + n + 2) = Ok b' /\ Inv b' /\
    readable b' = zdrop (n + 2) l.
Proof.
  intros HI l n Hn. pose proof (search_range kCRLF l) as Hr. fold n in Hr.
  assert (Hf := search_found kCRLF l ltac:(fold n; lia)). fold n in Hf.
  assert (Hlen : n + 2 <= zlen l).
  { apply (f_equal zlen) in Hf. unfold slice in Hf. rewrite zlen_take, zlen_drop in Hf.
    change (zlen kCRLF) with 2 in Hf. lia. }
  assert (Hz := zlen_readable b HI). fold l in Hz. pose proof HI as (H1 & H2 & H3).
  split.
  - rewrite load_ok by (unfold peek; lia). f_equal.
    replace (peek b + n - peek b) with n by lia.
    unfold l, readable, peek. rewrite ztake_slice by lia. done.
  - pose proof (retrieveUntil_ok b (peek b + n + 2) HI ltac:(unfold peek; lia)) as Hu.
    rewrite bool_decide_true in Hu by (unfold peek, beginWrite; lia).
    destruct Hu as (b' & E & HI' & Hb & _). exists b'. split_and!; try done.
    rewrite Hb. f_equal. lia.
Qed.

Lemma search_line line rest :
  x0d ∉ line -> search kCRLF (line ++ kCRLF ++ rest) = zlen line.
Proof.
  induction line as [|x line IH]; intros Hn; [done|].
  apply not_elem_of_cons in Hn as [Hx Hn]. rewrite <- app_comm_cons, zlen_cons. cbn [search].
  rewrite bool_decide_false; [by rewrite IH|]. unfold kCRLF. simpl. congruence.
Qed.

Lemma first_line line rest :
  x0d ∉ line -> let l := line ++ kCRLF ++ rest in
  (search kCRLF l =? zlen l) = false /\
  ztake (search kCRLF l) l = line /\
  zdrop (search kCRLF l + 2) l = rest.
Proof.
  intros Hn l. unfold l. rewrite search_line by done. change (zlen kCRLF) with 2.
  pose proof (zlen_nonneg rest). split_and!.
  - apply Z.eqb_neq. autorewrite with zlen. change (zlen kCRLF) with 2. lia.
  - apply ztake_app_zlen.
  - rewrite zdrop_app_ge by lia. replace (_ - _) with 2 by lia. done.
Qed.

(** A buffer with given readable bytes. *)
Definition buffer_of (l : list byte) : t := mk (replicate 8 x00 ++ l) 8 (8 + zlen l).

Lemma buffer_of_ok l : zlen l < 2 ^ 32 -> Inv (buffer_of l) /\ readable (buffer_of l) = l.
Proof.
  intros Hl. pose proof (zlen_nonneg l).
  assert (Hr : zlen (replicate 8 x00) = 8) by done.
  split.
  - unfold Inv, buffer_of, size, kCheapPrepend, max_size.
    cbn [buffer_ readerIndex_ writerIndex_]. rewrite zlen_app, Hr. lia.
  - unfold readable, buffer_of. cbn [buffer_ readerIndex_ writerIndex_].
    unfold slice. rewrite zdrop_app_ge, Hr, Z.sub_diag, zdrop_0 by (rewrite Hr; lia).
    apply ztake_all. lia.
Qed.

End Buffer.

(** ** The class as a whole *)

Section refinement.
Import Buffer.
Context (h : endianness).

(** The calls of a client that change the buffer, all but [shrink], which does not
    keep the contents ([shrink_drops_consumed]): [retrieveUntil] of a pointer [len]
    bytes behind [peek()], [swap] with another buffer, the bytes [d] written at
    [beginWrite()] and announced with [hasWritten], and [readFd] with the kernel's
    answer to [readv]. *)
Inductive op :=
  | OAppend (d : list byte)
  | OAppendInt32 (x : Z)
  | OPrepend (d : list byte)
  | OEnsureWritable (len : Z)
  | ORetrieve (len : Z)
  | ORetrieveUntil (len : Z)
  | ORetrieveAll
  | ORetrieveAsString
  | OSwap (rhs : t)
  | OHasWritten (d : list byte)
  | OReadFd (rv : readv_result).

Definition exec (b : t) (o : op) : res t :=
  match o with
  | OAppend d => append b d
  | OAppendInt32 x => appendInt32 h b x
  | OPrepend d => prepend b d
  | OEnsureWritable len => ensureWritableBytes b len
  | ORetrieve len => retrieve b len
  | ORetrieveUntil len => retrieveUntil b (peek b + len)
  | ORetrieveAll => Ok (retrieveAll b)
  | ORetrieveAsString => snd <$> retrieveAsString b
  | OSwap rhs => Ok (fst (swap b rhs))
  | OHasWritten d => b ← store b (beginWrite b) d ; Ok (hasWritten b (zlen d))
  | OReadFd rv => snd <$> readFd b rv
  end.

(** The same calls on a queue of bytes. *)
Definition queue_op (q : list byte) (o : op) : list byte :=
  match o with
  | OAppend d => q ++ d
  | OAppendInt32 x => q ++ be_bytes 4 x
  | OPrepend d => d ++ q
  | OEnsureWritable _ => q
  | ORetrieve len | ORetrieveUntil len => zdrop len q
  | ORetrieveAll | ORetrieveAsString => []
  | OSwap rhs => readable rhs
  | OHasWritten d | OReadFd (RvData d) => q ++ d
  | OReadFd (RvError _) => q
  end.

(** A [size_t] that a string or an [int] can give, a pointer not before [peek()],
    a buffer of the class to swap with, bytes written inside the writable part,
    and what [readv] can return for the two buffers it is given. *)
Definition op_wf (b : t) (o : op) : Prop :=
  match o with
  | OAppend d | OPrepend d => zlen d <= max_size
  | OAppendInt32 x => - 2 ^ 31 <= x < 2 ^ 31
  | OEnsureWritable len => 0 <= len <= max_size
  | ORetrieve len | ORetrieveUntil len => 0 <= len < 2 ^ 64
  | OSwap rhs => Inv rhs
  | OHasWritten d => zlen d <= writableBytes b
  | OReadFd (RvData d) => zlen d <= size b - writerIndex_ b + kExtraBuf /\
      size b + kExtraBuf <= max_size
  | _ => True
  end.

Fixpoint exec_all (b : t) (os : list op) : res t :=
  match os with
  | [] => Ok b
  | o :: os => b' ← exec b o ; exec_all b' os
  end.

(** The well-formedness of each call in the state it is made in. *)
Fixpoint ops_wf (b : t) (os : list op) : Prop :=
  match os with
  | [] => True
  | o :: os => op_wf b o /\ forall b', exec b o = Ok b' -> ops_wf b' os
  end.

Lemma appendInt32_bytes b x :
  appendInt32 h b x = append b (be_bytes 4 x).
Proof.
  unfold appendInt32, hostToNetwork32. f_equal.
  rewrite u32_s32.
  assert (Hr := swap_if_little_range h 4 (u32 x) (u32_range x)).
  rewrite u32_small by exact Hr. rewrite mem_swap_if_little. apply be_bytes_u32.
Qed.

Lemma append_inv b d b' :
  Inv b -> zlen d <= max_size -> append b d = Ok b' ->
  Inv b' /\ readable b' = readable b ++ d.
Proof.
  intros HI Hl E. pose proof (append_ok b d HI Hl) as H. returned H E. tauto.
Qed.

(** Bytes written behind the readable ones and announced. *)
Lemma written_ok b d b' :
  Inv b -> zlen d <= writableBytes b ->
  (b ← store b (beginWrite b) d ; Ok (hasWritten b (zlen d))) = Ok b' ->
  Inv b' /\ readable b' = readable b ++ d.
Proof.
  intros HI Hl E. rewrite inv_writableBytes in Hl by done. destruct HI as (Hr & Hw & Hm).
  pose proof (zlen_nonneg d). unfold max_size in *.
  rewrite store_ok in E by (unfold beginWrite; lia). simpl in E. injection E as <-.
  unfold hasWritten, Inv, readable, size, beginWrite, max_size in *; simpl.
  rewrite u64_small, zlen_splice by lia. split; [lia|].
  replace (writerIndex_ b + zlen d - readerIndex_ b)
    with (writerIndex_ b - readerIndex_ b + zlen d) by lia.
  apply slice_splice_extend; lia.
Qed.

Lemma exec_refines b o b' :
  Inv b -> op_wf b o -> exec b o = Ok b' ->
  Inv b' /\ readable b' = queue_op (readable b) o.
Proof.
  intros HI Hwf E. destruct o as [d|x|d|len|len|len| | |rhs|d|[d|e]];
    cbn [exec op_wf queue_op] in *.
  - by eapply append_inv.
  - rewrite appendInt32_bytes in E. by eapply append_inv.
  - pose proof (prepend_ok b d HI Hwf) as H. returned H E. tauto.
  - pose proof (ensureWritableBytes_ok b len HI Hwf) as H. returned H E. tauto.
  - pose proof (retrieve_ok b len HI ltac:(lia)) as H. returned H E. tauto.
  - pose proof (retrieveUntil_ok b (peek b + len) HI) as H.
    destruct HI as (Hr & Hw & Hm). unfold peek in *. specialize (H ltac:(lia)). returned H E.
    replace (readerIndex_ b + len - readerIndex_ b) with len in H by lia. tauto.
  - injection E as <-. split; [by apply retrieveAll_inv|done].
  - rewrite retrieveAsString_ok in E by done. simpl in E. injection E as <-.
    split; [by apply retrieveAll_inv|done].
  - injection E as <-. by destruct rhs.
  - by apply (written_ok b).
  - destruct Hwf as [Hn Hm].
    destruct (readFd_ok b d HI Hn Hm) as (b2 & E2 & ? & ?). rewrite E2 in E.
    simpl in E. by injection E as <-.
  - simpl in E. by injection E as <-.
Qed.

Lemma exec_all_refines os b b' :
  Inv b -> ops_wf b os -> exec_all b os = Ok b' ->
  Inv b' /\ readable b' = foldl queue_op (readable b) os.
Proof.
  revert b. induction os as [|o os IH]; intros b HI Hwf E; simpl in *.
  - by injection E as <-.
  - apply bind_ok in E as (b1 & E1 & E2). destruct Hwf as [Hwf1 Hwf2].
    destruct (exec_refines b o b1) as [HI1 Hq]; try done.
    rewrite <- Hq. apply IH; auto.
Qed.

End refinement.

Import Buffer.

(** C1. From its construction on the class behaves as a queue of bytes: after any
    sequence of [append], [appendInt32], [prepend], [ensureWritableBytes],
    [retrieve], [retrieveUntil], [retrieveAll], [retrieveAsString], [swap],
    [hasWritten] and [readFd] that returns, the indices are ordered and inside
    [buffer_], and the readable bytes are those of the same sequence on the queue.
    [shrink], the one other call that changes the buffer, is left out, since
    it loses bytes. *)
Theorem buffer_refines_queue h os b' :
  ops_wf h init os -> exec_all h init os = Ok b' ->
  Inv b' /\ readable b' = foldl queue_op [] os.
Proof.
  intros Hwf E. rewrite <- init_readable.
  exact (exec_all_refines h os init b' buffer_init_inv Hwf E).
Qed.

Lemma buffer_refines_queue_witness :
  readable (mk (replicate 8 x00 ++ bytes "abcde" ++ replicate 1019 x00) 8 13)
    = bytes "abcde" /\
  exists b', Inv b' /\ readable b' = bytes "xycdef".
Proof.
  split; [reflexivity|].
  destruct (buffer_refines_queue Little
    [OAppend (bytes "abcd"); ORetrieveUntil 2; OReadFd (RvData (bytes "ef")); OPrepend (bytes "xy")]
    (mk (replicate 8 x00 ++ bytes "xycdef" ++ replicate 1018 x00) 8 14)) as [HI Hq].
  - simpl. split; [vm_compute; discriminate|]. intros b1 E1. vm_compute in E1. injection E1 as <-.
    split; [vm_compute; intuition discriminate|]. intros b1 E1. vm_compute in E1. injection E1 as <-.
    split; [vm_compute; intuition discriminate|]. intros b1 E1. vm_compute in E1. injection E1 as <-.
    split; [vm_compute; discriminate|]. intros b1 E1. exact I.
  - vm_compute. reflexivity.
  - eexists. split; [exact HI|]. rewrite Hq. reflexivity.
Defined.

(** [append] on every branch: when the bytes fit behind the writer index,
    or fit once the readable bytes are moved to the front, they are appended
    and the vector keeps its size; otherwise the vector grows to exactly the
    size needed; and when that exceeds [max_size] the call throws.  No assert
    fails and no byte outside the vector is touched. *)
Theorem append_correct b d :
  Inv b -> zlen d <= max_size ->
  if fits b (zlen d) || (writerIndex_ b + zlen d <=? max_size) then
    exists b', append b d = Ok b' /\ Inv b' /\ readable b' = readable b ++ d /\
      size b' = (if fits b (zlen d) then size b else writerIndex_ b + zlen d)
  else append b d = Err LengthError.
Proof. apply append_ok. Qed.

Lemma append_correct_witness :
  exists b', append (mk (replicate 20 x61) 18 19) (bytes "0123456789") = Ok b' /\
    readable b' = bytes "a0123456789" /\ size b' = 20.
Proof.
  assert (H := append_correct (mk (replicate 20 x61) 18 19) (bytes "0123456789")
    ltac:(vm_compute; intuition discriminate) ltac:(vm_compute; discriminate)).
  destruct H as (b' & E & _ & Hr & Hs). exists b'. split; [exact E|].
  split; [rewrite Hr | rewrite Hs]; vm_compute; reflexivity.
Defined.

(** An [int32_t] written with [appendInt32] behind nothing is read back by
    [peekInt32], on hosts of either byte order, and the four bytes in between
    are the integer in network order. *)
Theorem int32_roundtrip h b x b' :
  Inv b -> readable b = [] -> - 2 ^ 31 <= x < 2 ^ 31 -> appendInt32 h b x = Ok b' ->
  readable b' = be_bytes 4 x /\ peekInt32 h b' = Ok x.
Proof.
  intros HI Hq Hx E. rewrite appendInt32_bytes in E.
  destruct (append_inv b (be_bytes 4 x) b' HI ltac:(rewrite zlen_be_bytes; done) E) as [HI' Hr].
  rewrite Hq in Hr. simpl in Hr. split; [done|].
  assert (Hn := readableBytes_len b' HI'). rewrite Hr, zlen_be_bytes in Hn.
  unfold peekInt32. rewrite Hn. simpl.
  assert (Hl := load_readable b' HI'). rewrite Hn in Hl.
  change (Z.of_nat 4) with 4 in Hl. rewrite Hl, Hr. simpl.
  by rewrite network_read32, s32_small.
Qed.

Lemma int32_roundtrip_witness :
  exists b', appendInt32 Little init (-2) = Ok b' /\ peekInt32 Little b' = Ok (-2).
Proof.
  destruct (appendInt32 Little init (-2)) as [b'|f] eqn:E; [|vm_compute in E; discriminate].
  exists b'. split; [reflexivity|].
  apply (int32_roundtrip Little init (-2) b');
    [vm_compute; intuition discriminate | reflexivity | lia | exact E].
Defined.

(** [findCRLF] on a well-formed buffer never leaves [buffer_]: it returns
    [nullptr] exactly when no CRLF is readable, and otherwise the position of
    the first one, so that the line before it holds no CRLF. *)
Theorem findCRLF_correct b :
  Inv b ->
  match findCRLF b with
  | Ok (Some p) =>
      let i := p - peek b in
      0 <= i /\ i + 2 <= zlen (readable b) /\ slice i 2 (readable b) = kCRLF /\
      forall j, 0 <= j < i -> slice j 2 (readable b) <> kCRLF
  | Ok None => forall j, 0 <= j -> slice j 2 (readable b) <> kCRLF
  | Err _ => False
  end.
Proof.
  intros HI. rewrite findCRLF_ok by done. cbv zeta.
  assert (Hr := search_range kCRLF (readable b)).
  assert (Hfst := fun j => search_first kCRLF (readable b) j eq_refl).
  destruct (Z.eqb_spec (search kCRLF (readable b)) (zlen (readable b))) as [He|Hne].
  - intros j Hj. destruct (decide (j < zlen (readable b))) as [Hlt|Hge].
    + apply Hfst. lia.
    + unfold slice. rewrite zdrop_all by lia. discriminate.
  - replace (peek b + _ - peek b) with (search kCRLF (readable b)) by lia.
    assert (Hs := search_found kCRLF (readable b) ltac:(lia)).
    change (zlen kCRLF) with 2 in *.
    split_and!; [lia | | exact Hs | exact Hfst].
    apply (f_equal zlen) in Hs. unfold slice in Hs.
    rewrite zlen_take, zlen_drop in Hs. change (zlen kCRLF) with 2 in Hs. lia.
Qed.

Lemma findCRLF_correct_witness :
  findCRLF (mk (bytes "--------GET" ++ [x0d; x0a; x0d; x0a]) 8 15) = Ok (Some 11) /\
  slice 3 2 (bytes "GET" ++ [x0d; x0a; x0d; x0a]) = kCRLF.
Proof.
  split; [reflexivity|].
  exact (proj1 (proj2 (proj2 (findCRLF_correct
    (mk (bytes "--------GET" ++ [x0d; x0a; x0d; x0a]) 8 15)
    ltac:(vm_compute; intuition discriminate))))).
Defined.

(** [readFd] with whatever [readv] may deliver into the writable part and
    the 64 KiB [extrabuf]: it returns the count, no assert fails, and the bytes
    are appended in order across the two vectors; an error leaves the buffer
    alone and reports [errno]. *)
Theorem readFd_correct b rv :
  Inv b -> op_wf b (OReadFd rv) ->
  match rv with
  | RvData d => exists b', readFd b rv = Ok (zlen d, None, b') /\ Inv b' /\
      readable b' = readable b ++ d
  | RvError e => readFd b rv = Ok (-1, Some e, b)
  end.
Proof.
  intros HI Hwf. destruct rv as [d|e]; [|done].
  destruct Hwf. by apply readFd_ok.
Qed.

Lemma readFd_correct_witness :
  exists b', readFd (mk (replicate 12 x61) 8 10) (RvData (bytes "0123456789")) = Ok (10, None, b')
    /\ readable b' = bytes "aa0123456789".
Proof.
  destruct (readFd_correct (mk (replicate 12 x61) 8 10) (RvData (bytes "0123456789")))
    as (b' & E & _ & Hr);
    [vm_compute; intuition discriminate | vm_compute; intuition discriminate |].
  exists b'. split; [exact E|]. rewrite Hr. reflexivity.
Defined.

Lemma slice_app_from {A} (i n : Z) (l d : list A) :
  zlen l <= i -> slice i n (l ++ d) = slice (i - zlen l) n d.
Proof. intros. unfold slice. by rewrite zdrop_app_ge. Qed.

(** [shrink] moves the readable bytes to offset 8 of the new vector but
    leaves the indices: with the reader at [8 + k], the first [k] readable
    bytes are lost and [k] zero bytes of the reserve are read instead.  The
    contents survive only when the reader index is 8. *)
Theorem shrink_drops_consumed b reserve :
  Inv b -> 0 <= reserve <= max_size -> size b + reserve <= max_size ->
  kCheapPrepend <= readerIndex_ b <= kCheapPrepend + reserve ->
  exists b', shrink b reserve = Ok b' /\
    readable b' =
      let k := readerIndex_ b - kCheapPrepend in
      zdrop k (readable b) ++
      replicate (Z.to_nat (Z.min k (zlen (readable b)))) x00.
Proof.
  intros HI Hres Hm Hk. assert (HI' := HI). destruct HI' as (Hr & Hw & Hmx).
  unfold shrink. rewrite load_readable, inv_readableBytes by done.
  assert (Hz := zlen_readable b HI).
  unfold kCheapPrepend, max_size in *. rewrite u64_small by lia.
  unfold check. replace (_ <=? 2 ^ 63 - 1) with true by lia. simpl.
  set (n := 8 + (writerIndex_ b - readerIndex_ b) + reserve).
  assert (Hn : zlen (replicate (Z.to_nat n) x00) = n) by (rewrite zlen_replicate; lia).
  rewrite store_ok by (unfold size; simpl; lia). simpl.
  eexists; split; [reflexivity|]. unfold readable at 1; simpl.
  unfold splice. rewrite slice_app_from by (rewrite zlen_take; lia).
  rewrite zlen_take, Hn. replace (Z.min _ n) with 8 by lia.
  set (k := readerIndex_ b - 8). rewrite <- Hz.
  assert (Hnn := zlen_nonneg (readable b)).
  destruct (decide (k <= zlen (readable b))) as [Hle|Hgt].
  - unfold slice. rewrite zdrop_app_le by lia.
    rewrite ztake_app_ge by (rewrite zlen_drop; lia). f_equal.
    rewrite zlen_drop, Z.min_l by lia. unfold zdrop, ztake.
    rewrite drop_replicate, take_replicate. f_equal. lia.
  - rewrite (zdrop_all k) by lia. rewrite slice_app_from by lia. simpl.
    rewrite Z.min_r by lia. unfold slice, zdrop, ztake.
    rewrite !drop_replicate, take_replicate. f_equal. lia.
Qed.

Lemma shrink_drops_consumed_witness :
  exists b', shrink (mk (bytes "--------xxhello") 10 15) 4 = Ok b' /\
    readable b' = bytes "llo" ++ [x00; x00].
Proof.
  destruct (shrink_drops_consumed (mk (bytes "--------xxhello") 10 15) 4) as (b' & E & Hr).
  1-4: vm_compute; intuition discriminate.
  exists b'. split; [exact E|]. rewrite Hr. reflexivity.
Defined.
