(* ===== verification/StdSet.v ===== *)
(** * StdSet: [std::set] and [std::map] as sorted lists

    The containers of the sources whose order matters: elements are kept
    sorted by a key ([key] is the identity for a set and [fst] for a map), and
    two elements with equivalent keys are never both present.  [insert] is
    [insert] of both containers, [assign] is [m[k] = v], [erase] is
    [erase(k)] with its count, [lower_bound] splits at the first key not below
    the given one. *)

From Stdlib Require Import Sorted.
From S2P Require Import Prelude.

Module SSet.
Section sorted_container.
Context {A K : Type} (key : A -> K) (lt : K -> K -> Prop).
Context `{!EqDecision K, !RelDecision lt, !StrictOrder lt, !TrichotomyT lt}.

Fixpoint insert (x : A) (l : list A) : list A * bool :=
match l with
| [] => ([x], true)
| y :: l' =>
    if decide (lt (key x) (key y)) then (x :: y :: l', true)
    else if decide (lt (key y) (key x)) then
      let r := insert x l' in (y :: fst r, snd r)
    else (y :: l', false)
end.

Fixpoint assign (x : A) (l : list A) : list A :=
match l with
| [] => [x]
| y :: l' =>
    if decide (lt (key x) (key y)) then x :: y :: l'
    else if decide (lt (key y) (key x)) then y :: assign x l'
    else x :: l'
end.

Fixpoint find (k : K) (l : list A) : option A :=
match l with
| [] => None
| y :: l' =>
    if decide (lt (key y) k) then find k l'
    else if decide (lt k (key y)) then None else Some y
end.

Fixpoint erase (k : K) (l : list A) : list A * Z :=
match l with
| [] => ([], 0)
| y :: l' =>
    if decide (lt (key y) k) then let r := erase k l' in (y :: fst r, snd r)
    else if decide (lt k (key y)) then (y :: l', 0) else (l', 1)
end.

(** The elements before [lower_bound(k)], and those from it on. *)
Fixpoint lower_bound (k : K) (l : list A) : list A * list A :=
match l with
| [] => ([], [])
| y :: l' =>
    if decide (lt (key y) k) then let r := lower_bound k l' in (y :: fst r, snd r)
    else ([], y :: l')
end.

(** The element that follows key [k], [None] at the end. *)
Fixpoint upper_bound (k : K) (l : list A) : option A :=
match l with
| [] => None
| y :: l' => if decide (lt k (key y)) then Some y else upper_bound k l'
end.

Definition sorted (l : list A) : Prop :=
StronglySorted (fun x y => lt (key x) (key y)) l.

Implicit Types l : list A.

Lemma trichotomy_cases (k1 k2 : K) : lt k1 k2 \/ k1 = k2 \/ lt k2 k1.
Proof. destruct (trichotomyT lt k1 k2) as [[?|?]|?]; auto. Qed.

Lemma not_lt_both (k1 k2 : K) : ~ lt k1 k2 -> ~ lt k2 k1 -> k1 = k2.
Proof. destruct (trichotomy_cases k1 k2) as [?|[?|?]]; tauto. Qed.

Lemma lt_irrefl (k : K) : ~ lt k k.
Proof. intros H. exact (irreflexivity lt k H). Qed.

Lemma sorted_cons x l :
sorted (x :: l) <-> sorted l /\ forall y, y ∈ l -> lt (key x) (key y).
Proof.
unfold sorted. split.
- intros H. inversion H as [|? ? Hs Hf]; subst. split; [done|].
  by rewrite Forall_forall in Hf.
- intros [Hs Hf]. constructor; [done|]. by rewrite Forall_forall.
Qed.

Lemma sorted_nil : sorted [].
Proof. constructor. Qed.

Lemma sorted_key_inj l x y :
sorted l -> x ∈ l -> y ∈ l -> key x = key y -> x = y.
Proof.
induction l as [|z l IH]; intros Hs Hx Hy E; [by apply not_elem_of_nil in Hx|].
apply sorted_cons in Hs as [Hs Hz].
apply elem_of_cons in Hx as [->|Hx], Hy as [->|Hy]; try done; try by apply IH.
- apply Hz in Hy. rewrite E in Hy. by apply lt_irrefl in Hy.
- apply Hz in Hx. rewrite E in Hx. by apply lt_irrefl in Hx.
Qed.

Lemma sorted_nodup_key l : sorted l -> NoDup (key <$> l).
Proof.
induction l as [|z l IH]; intros Hs; [constructor|].
apply sorted_cons in Hs as [Hs Hz]. simpl. constructor; [|auto].
rewrite list_elem_of_fmap. intros (y & E & Hy). apply Hz in Hy.
rewrite E in Hy. by apply lt_irrefl in Hy.
Qed.

Lemma sorted_nodup l : sorted l -> NoDup l.
Proof. intros Hs. apply sorted_nodup_key in Hs. by apply NoDup_fmap_1 in Hs. Qed.

(** ** [insert] *)

Lemma insert_fresh x l :
(forall y, y ∈ l -> key y <> key x) -> sorted l ->
snd (insert x l) = true /\ sorted (fst (insert x l)) /\ fst (insert x l) ≡ₚ x :: l.
Proof.
induction l as [|z l IH]; intros Hf Hs; simpl.
- split_and!; [done| |done]. apply sorted_cons. split; [done|]. set_solver.
- assert (Hs' := Hs). apply sorted_cons in Hs as [Hs Hz].
  case_decide as H1; [|case_decide as H2]; simpl.
  + split_and!; [done| |done]. apply sorted_cons. split; [done|].
    intros y [->|Hy]%elem_of_cons; [done|]. etrans; [exact H1|]. auto.
  + destruct IH as (Hb & Hsr & Hp); [set_solver|done|].
    split_and!; [done| |].
    * apply sorted_cons. split; [done|]. intros y. rewrite Hp.
      intros [->|Hy]%elem_of_cons; auto.
    * rewrite Hp. by constructor.
  + exfalso. apply (Hf z); [set_solver|]. symmetry. by apply not_lt_both.
Qed.

Lemma insert_present x y l :
sorted l -> y ∈ l -> key y = key x -> insert x l = (l, false).
Proof.
induction l as [|z l IH]; intros Hs Hy E; simpl; [by apply not_elem_of_nil in Hy|].
apply sorted_cons in Hs as [Hs Hz]. rewrite <- E.
apply elem_of_cons in Hy as [->|Hy].
- rewrite !decide_False by apply lt_irrefl. done.
- assert (lt (key z) (key y)) by auto.
  rewrite decide_False, decide_True; [|done|].
  + rewrite IH; done.
  + intros ?. apply (lt_irrefl (key z)). etrans; eauto.
Qed.

Lemma elem_of_insert_old x y l : y ∈ l -> y ∈ fst (insert x l).
Proof.
induction l as [|z l IH]; simpl; [set_solver|]. repeat case_decide; set_solver.
Qed.

Lemma elem_of_insert x y l : y ∈ fst (insert x l) -> y = x \/ y ∈ l.
Proof.
induction l as [|z l IH]; simpl; [set_solver|]. repeat case_decide; set_solver.
Qed.

Lemma insert_sorted x l : sorted l -> sorted (fst (insert x l)).
Proof.
intros Hs. destruct (decide (Forall (fun y => key y <> key x) l)) as [Hf|Hf].
- apply insert_fresh; [|done]. by rewrite Forall_forall in Hf.
- apply not_Forall_Exists in Hf; [|apply _]. apply Exists_exists in Hf as (y & Hy & E).
  rewrite (insert_present x y); [done|done|done|].
  by destruct (decide (key y = key x)).
Qed.

Lemma elem_of_insert_new x l :
sorted l -> exists y, y ∈ fst (insert x l) /\ key y = key x.
Proof.
intros Hs. destruct (decide (Forall (fun y => key y <> key x) l)) as [Hf|Hf].
- exists x. split; [|done]. rewrite Forall_forall in Hf.
  destruct (insert_fresh x l Hf Hs) as (_ & _ & ->). set_solver.
- apply not_Forall_Exists in Hf; [|apply _]. apply Exists_exists in Hf as (y & Hy & E).
  assert (Ek : key y = key x) by (by destruct (decide (key y = key x))).
  exists y. by rewrite (insert_present x y).
Qed.

(** ** [find] *)

Lemma find_some k l x : sorted l -> find k l = Some x <-> x ∈ l /\ key x = k.
Proof.
induction l as [|z l IH]; intros Hs; simpl.
- split; [done|]. by intros [?%not_elem_of_nil _].
- apply sorted_cons in Hs as [Hs Hz].
  case_decide as H1; [|case_decide as H2].
  + rewrite (IH Hs). split; [set_solver|].
    intros [[->|?]%elem_of_cons Ek]; [|done]. rewrite Ek in H1. by apply lt_irrefl in H1.
  + split; [done|]. intros [[->|Hx]%elem_of_cons <-]; [by apply lt_irrefl in H2|].
    apply Hz in Hx. destruct (lt_irrefl (key z)). etrans; eauto.
  + split.
    * intros [= <-]. split; [set_solver|]. by apply not_lt_both.
    * intros [[->|Hx]%elem_of_cons <-]; [done|]. exfalso. auto.
Qed.

Lemma find_none k l : sorted l -> find k l = None <-> forall x, x ∈ l -> key x <> k.
Proof.
intros Hs. split.
- intros Hn x Hx Ek. pose proof (proj2 (find_some k l x Hs) (conj Hx Ek)). congruence.
- intros Hf. destruct (find k l) eqn:E; [|done].
  apply find_some in E as [Hx Ek]; [|done]. by apply Hf in Hx.
Qed.

(** ** [erase] *)

Lemma erase_elem k l x :
sorted l -> x ∈ l -> key x = k ->
snd (erase k l) = 1 /\ sorted (fst (erase k l)) /\ l ≡ₚ x :: fst (erase k l).
Proof.
induction l as [|z l IH]; intros Hs Hx Ek; simpl; [by apply not_elem_of_nil in Hx|].
apply sorted_cons in Hs as [Hs Hz]. subst k.
apply elem_of_cons in Hx as [->|Hx].
- rewrite !decide_False by apply lt_irrefl. done.
- rewrite decide_True by auto. destruct IH as (H1 & H2 & H3); try done. simpl.
  split_and!; [done| |].
  + apply sorted_cons. split; [done|]. intros y Hy. apply Hz. rewrite H3. set_solver.
  + rewrite Permutation_swap. by constructor.
Qed.

Lemma erase_absent k l :
sorted l -> (forall x, x ∈ l -> key x <> k) -> erase k l = (l, 0).
Proof.
induction l as [|z l IH]; intros Hs Hf; simpl; [done|].
apply sorted_cons in Hs as [Hs Hz].
case_decide as H1; [|case_decide as H2]; [|done|].
- rewrite IH; [done|done|set_solver].
- exfalso. apply (Hf z); [set_solver|]. by apply not_lt_both.
Qed.

(** ** [lower_bound] and [upper_bound] *)

Lemma lower_bound_split k l :
sorted l ->
l = fst (lower_bound k l) ++ snd (lower_bound k l) /\
(forall x, x ∈ fst (lower_bound k l) -> lt (key x) k) /\
(forall x, x ∈ snd (lower_bound k l) -> ~ lt (key x) k).
Proof.
induction l as [|z l IH]; intros Hs; simpl; [set_solver|].
apply sorted_cons in Hs as [Hs Hz].
case_decide as H1; simpl.
- destruct IH as (E & Hb & Hr); [done|]. split_and!; [by f_equal| |done].
  intros x [->|Hx]%elem_of_cons; auto.
- split_and!; [done|set_solver|]. intros x [->|Hx]%elem_of_cons; [done|].
  intros Hlt. apply H1. etrans; eauto.
Qed.

Lemma upper_bound_none k l :
sorted l -> upper_bound k l = None <-> forall x, x ∈ l -> ~ lt k (key x).
Proof.
induction l as [|z l IH]; intros Hs; simpl; [set_solver|].
apply sorted_cons in Hs as [Hs Hz].
case_decide as H1.
- split; [done|]. intros Hf. exfalso. apply (Hf z); [set_solver|done].
- rewrite (IH Hs). set_solver.
Qed.

Lemma sorted_app l1 l2 :
sorted (l1 ++ l2) <->
sorted l1 /\ sorted l2 /\ forall x y, x ∈ l1 -> y ∈ l2 -> lt (key x) (key y).
Proof.
induction l1 as [|z l1 IH]; simpl.
- split; [|tauto]. intros. split_and!; [constructor|done|set_solver].
- rewrite !sorted_cons, IH. set_solver.
Qed.

(** ** [assign] *)

Lemma assign_find_same x l : sorted l -> find (key x) (assign x l) = Some x.
Proof.
induction l as [|z l IH]; intros Hs; simpl.
- by rewrite !decide_False by apply lt_irrefl.
- apply sorted_cons in Hs as [Hs Hz].
  case_decide as H1; [|case_decide as H2]; simpl;
    try by rewrite !decide_False by apply lt_irrefl.
  rewrite decide_True by done. auto.
Qed.

Lemma elem_of_assign x y l : y ∈ assign x l -> y = x \/ y ∈ l.
Proof.
induction l as [|z l IH]; simpl; [set_solver|].
repeat case_decide; set_solver.
Qed.

Lemma assign_sorted x l : sorted l -> sorted (assign x l).
Proof.
induction l as [|z l IH]; intros Hs; simpl.
- apply sorted_cons. split; [done|set_solver].
- assert (Hs' := Hs). apply sorted_cons in Hs as [Hs Hz].
  case_decide as H1; [|case_decide as H2].
  + apply sorted_cons. split; [done|].
    intros y [->|Hy]%elem_of_cons; [done|]. etrans; [exact H1|]. auto.
  + apply sorted_cons. split; [auto|]. intros y [->|Hy]%elem_of_assign; auto.
  + apply sorted_cons. split; [done|]. intros y Hy.
    rewrite (not_lt_both (key x) (key z)); auto.
Qed.

Lemma assign_find_other x k l :
sorted l -> k <> key x -> find k (assign x l) = find k l.
Proof.
intros Hs Hk. induction l as [|z l IH]; simpl.
- case_decide; [done|]. case_decide; [done|].
  destruct Hk. symmetry. by apply not_lt_both.
- apply sorted_cons in Hs as [Hs Hz].
  case_decide as H1; [|case_decide as H2]; simpl.
  + case_decide as H3; [done|]. case_decide as H4.
    * rewrite decide_False; [by rewrite decide_True by (etrans; eauto)|].
      intros H5. apply H3. etrans; eauto.
    * destruct Hk. symmetry. by apply not_lt_both.
  + rewrite (IH Hs). done.
  + rewrite <- (not_lt_both (key x) (key z)) by done.
    case_decide as H3.
    * done.
    * case_decide; [done|]. destruct Hk. symmetry. by apply not_lt_both.
Qed.
End sorted_container.
End SSet.

(** ** The orders of the keys in use *)

(** [std::pair]'s lexicographic order on integers and addresses. *)
Definition pair_lt (p q : Z * Z) : Prop := fst p < fst q \/ (fst p = fst q /\ snd p < snd q).

#[export] Instance pair_lt_dec : RelDecision pair_lt.
Proof. intros p q. unfold pair_lt. apply _. Defined.
#[export] Instance pair_lt_strict : StrictOrder pair_lt.
Proof.
  unfold pair_lt. split; [intros p H; unfold complement in *; lia|].
  intros p q r. lia.
Qed.
#[export] Instance pair_lt_trichotomy : TrichotomyT pair_lt.
Proof.
  intros [a b] [c d]. unfold pair_lt; simpl.
  destruct (decide (a < c \/ (a = c /\ b < d))); [auto|].
  destruct (decide ((a, b) = (c, d))) as [|Hne]; [auto|].
  right. destruct (decide (a = c)) as [->|].
  - assert (b <> d) by congruence. lia.
  - lia.
Defined.

(** ** The order of [std::string]: lexicographic on unsigned bytes *)

Fixpoint bytes_cmp (l k : list byte) : comparison :=
  match l, k with
  | [], [] => Eq
  | [], _ => Lt
  | _, [] => Gt
  | x :: l, y :: k =>
      match byte_val x ?= byte_val y with
      | Eq => bytes_cmp l k
      | c => c
      end
  end.

Definition bytes_lt (l k : list byte) : Prop := bytes_cmp l k = Lt.

Lemma bytes_cmp_eq l k : bytes_cmp l k = Eq -> l = k.
Proof.
  revert k. induction l as [|x l IH]; intros [|y k]; simpl; try done.
  destruct (Z.compare_spec (byte_val x) (byte_val y)); try done.
  intros E. f_equal; [by apply byte_val_inj|by apply IH].
Qed.

Lemma bytes_cmp_refl l : bytes_cmp l l = Eq.
Proof. induction l as [|x l IH]; simpl; [done|]. by rewrite Z.compare_refl. Qed.

Lemma bytes_cmp_antisym l k : bytes_cmp k l = CompOpp (bytes_cmp l k).
Proof.
  revert k. induction l as [|x l IH]; intros [|y k]; simpl; try done.
  rewrite (Z.compare_antisym (byte_val x)). destruct (byte_val x ?= byte_val y); simpl; auto.
Qed.

Lemma bytes_cmp_trans l k m : bytes_lt l k -> bytes_lt k m -> bytes_lt l m.
Proof.
  unfold bytes_lt. revert k m. induction l as [|x l IH]; intros [|y k] [|z m]; simpl; try done.
  destruct (Z.compare_spec (byte_val x) (byte_val y)) as [E1|E1|E1]; try done;
    destruct (Z.compare_spec (byte_val y) (byte_val z)) as [E2|E2|E2]; try done; intros H1 H2;
    destruct (Z.compare_spec (byte_val x) (byte_val z)) as [E3|E3|E3]; try done; try lia.
  by eapply IH.
Qed.

#[export] Instance bytes_lt_dec : RelDecision bytes_lt.
Proof. intros l k. unfold bytes_lt. apply _. Defined.

#[export] Instance bytes_lt_strict : StrictOrder bytes_lt.
Proof.
  split; [|exact bytes_cmp_trans].
  intros l H. unfold bytes_lt in H. by rewrite bytes_cmp_refl in H.
Qed.

#[export] Instance bytes_lt_trichotomy : TrichotomyT bytes_lt.
Proof.
  intros l k. unfold bytes_lt. rewrite (bytes_cmp_antisym l k).
  destruct (bytes_cmp l k) eqn:E; simpl.
  - left. right. by apply bytes_cmp_eq.
  - left. by left.
  - by right.
Defined.
