(* ===== verification/Timestamp.v ===== *)
(** * Timestamp: [utils/Timestamp.h]

    A [Timestamp] is its [time_point] of [std::chrono::system_clock]: a signed
    64-bit count of nanoseconds since the epoch (libstdc++).  [double]s are the
    IEEE-754 binary64 values of [SpecFloat], and the conversions to and from
    integers are those of C++, with the undefined ones as faults. *)

From Stdlib Require Import SpecFloat.
From stdpp Require Import pretty.
From S2P Require Import Prelude.

(** ** [double] *)

Definition double : Type := spec_float.
Definition dprec : Z := 53.
Definition demax : Z := 1024.

(** The nearest double of an integer. *)
Definition double_of_Z (z : Z) : double := binary_normalize dprec demax z 0 false.
Definition dmul (x y : double) : double := SFmul dprec demax x y.
Definition ddiv (x y : double) : double := SFdiv dprec demax x y.
Definition dlt (x y : double) : bool := SFltb x y.

(** [static_cast<int64_t>(x)]: truncation; out of range is undefined. *)
Definition int64_of_double (x : double) : res Z :=
  match x with
  | S754_zero _ => Ok 0
  | S754_infinity _ | S754_nan => Err BadCast
  | S754_finite s m e =>
      let a := if 0 <=? e then Z.pos m * 2 ^ e else Z.pos m / 2 ^ (- e) in
      let v := if s then - a else a in
      if in_s64 v then Ok v else Err BadCast
  end.

(** ** [class Timestamp] *)

Abbreviation Timestamp := Z (only parsing).
Definition kMicroSecondsPerSecond : Z := 1000 * 1000.

(** [duration_cast] to microseconds and seconds truncates toward zero. *)
Definition microSecondsSinceEpoch (t : Timestamp) : Z := Z.quot t 1000.
Definition secondsSinceEpoch (t : Timestamp) : Z := Z.quot t 1000000000.

Definition invalid : Timestamp := 0.
Definition valid (t : Timestamp) : bool := 0 <=? t.

Definition timestamp_lt (l r : Timestamp) : bool := l <? r.
Definition timestamp_eq (l r : Timestamp) : bool := l =? r.

(** [timeDifference]: the quotient is taken on integers, then converted. *)
Definition timeDifference (high low : Timestamp) : res double :=
  d ← chk64 (high - low) ;
  Ok (double_of_Z (Z.quot (Z.quot d 1000) kMicroSecondsPerSecond)).

(** [addTime]: the microseconds are truncated, then converted to the clock's
    nanoseconds and added. *)
Definition addTime (timestamp : Timestamp) (s : double) : res Timestamp :=
  us ← int64_of_double (dmul s (double_of_Z kMicroSecondsPerSecond)) ;
  ns ← chk64 (us * 1000) ;
  chk64 (timestamp + ns).

(** ** Properties *)

(** [timeDifference] returns whole seconds only: the fraction of a second
    is discarded by the integer division, although the function returns a
    [double]; in particular any difference below one second is 0.0. *)
Theorem timeDifference_whole_seconds high low :
  0 <= high - low < 2 ^ 63 ->
  timeDifference high low = Ok (double_of_Z ((high - low) / 1000000000)).
Proof.
  intros H. unfold timeDifference. rewrite chk64_in by lia. simpl.
  unfold kMicroSecondsPerSecond. rewrite Z.quot_quot by lia.
  do 2 f_equal. apply Z.quot_div_nonneg; lia.
Qed.

Lemma timeDifference_whole_seconds_witness :
  timeDifference 1700000000999999999 1700000000000000000 = Ok (S754_zero false).
Proof.
  rewrite (timeDifference_whole_seconds 1700000000999999999 1700000000000000000) by lia.
  reflexivity.
Defined.

Example addTime_half : addTime 7 (ddiv (double_of_Z 500) (double_of_Z 1000)) = Ok 500000007.
Proof. vm_compute. reflexivity. Qed.
Example addTime_third : addTime 0 (ddiv (double_of_Z 1) (double_of_Z 3)) = Ok 333333000.
Proof. vm_compute. reflexivity. Qed.
Example addTime_nan : addTime 0 S754_nan = Err BadCast.
Proof. reflexivity. Qed.

(** ** [toFormattedString]

    [std::put_time] of [std::localtime] is the text of a [time_t] in the zone of the
    machine, a parameter. *)

Section format.
Context (put_time : Z -> list byte).

Definition toFormattedString (t : Timestamp) (showMicroseconds : bool) : list byte :=
  put_time (secondsSinceEpoch t) ++
  if showMicroseconds
  then bytes (pretty (Z.rem (microSecondsSinceEpoch t) kMicroSecondsPerSecond))
  else [].

Definition toString (t : Timestamp) : list byte := toFormattedString t true.

Lemma bytes_inj s1 s2 : bytes s1 = bytes s2 -> s1 = s2.
Proof.
  intros H. apply (f_equal String.string_of_list_byte) in H. unfold bytes in H.
  by rewrite !String.string_of_list_byte_of_string in H.
Qed.

Lemma seconds_micro t :
  microSecondsSinceEpoch t =
    secondsSinceEpoch t * kMicroSecondsPerSecond + Z.rem (microSecondsSinceEpoch t) kMicroSecondsPerSecond.
Proof.
  unfold secondsSinceEpoch, microSecondsSinceEpoch, kMicroSecondsPerSecond.
  pose proof (Z.quot_rem' (Z.quot t 1000) (1000 * 1000)) as H.
  rewrite Z.quot_quot in H by lia. change (1000 * (1000 * 1000)) with 1000000000 in H. lia.
Qed.

(** Where the texts of the seconds have one length and tell the seconds apart, what
    is printed tells every microsecond apart: the missing zeros mislead a reader but
    lose nothing. *)
Theorem toString_exact t1 t2 :
  length (put_time (secondsSinceEpoch t1)) = length (put_time (secondsSinceEpoch t2)) ->
  (put_time (secondsSinceEpoch t1) = put_time (secondsSinceEpoch t2) ->
    secondsSinceEpoch t1 = secondsSinceEpoch t2) ->
  (toString t1 = toString t2 <-> microSecondsSinceEpoch t1 = microSecondsSinceEpoch t2).
Proof.
  intros Hlen Hinj. unfold toString, toFormattedString. split.
  - intros H. apply app_inj_1 in H as [Hs Hm]; [|apply Hlen]. apply Hinj in Hs.
    apply bytes_inj, (inj pretty) in Hm. rewrite (seconds_micro t1), (seconds_micro t2). congruence.
  - intros H. rewrite H. do 2 f_equal.
    assert (Hq : forall t, secondsSinceEpoch t = Z.quot (microSecondsSinceEpoch t) 1000000).
    { intros t. unfold secondsSinceEpoch, microSecondsSinceEpoch. by rewrite Z.quot_quot by lia. }
    by rewrite !Hq, H.
Qed.
End format.

(** Five microseconds past the second are printed as half a second is. *)
Example toString_unpadded :
  toString (fun _ => bytes "1970-01-01 00:00:00.") 5000 = bytes "1970-01-01 00:00:00.5".
Proof. vm_compute. reflexivity. Qed.

Lemma toString_exact_witness :
  toString (fun s => [byte_of s]) 5000 <> toString (fun s => [byte_of s]) 500000000.
Proof.
  rewrite (toString_exact (fun s => [byte_of s]) 5000 500000000); [discriminate|reflexivity|reflexivity].
Defined.
