(* ===== verification/TimerQueue.v ===== *)
(** * TimerQueue: timers of one event loop
    ([Timer.h], [Timer.cpp], [TimerId.h], [TimerQueue.h], [TimerQueue.cpp])

    [timers_], [activeTimers_] and [cancelingTimers_] are [std::set]s of pairs,
    kept as sorted lists of [SSet]; a [shared_ptr<Timer>] is the address of its
    object in [heap_] and [nullptr] is 0, so that the sets order pointers as
    the sources do.  The clock is any sequence of readings, the allocator any
    function that returns an address not in use, and what a timer callback does
    to its own queue is any function of the queue's state to a list of calls of
    the public interface. *)

From Stdlib Require Import SpecFloat.
From S2P Require Import Prelude StdSet Timestamp.

Module TimerQueue.

(** ** [class Timer] and [class TimerId] *)

Record Timer := mkTimer {
  callback_ : Z;
  expiration_ : Timestamp;
  interval_ : double;
  repeat_ : bool;
  sequence_ : Z
}.

(** [Timer(cb, when, interval)] with the value of [s_numCreated_]. *)
Definition newTimer (cb : Z) (when : Timestamp) (interval : double) (numCreated : Z) : Timer :=
  mkTimer cb when interval (dlt (S754_zero false) interval) numCreated.

Definition restart (tm : Timer) (now : Timestamp) : res Timer :=
  e ← (if repeat_ tm then addTime now (interval_ tm) else Ok invalid) ;
  Ok (mkTimer (callback_ tm) e (interval_ tm) (repeat_ tm) (sequence_ tm)).

(** A [TimerId]: the [weak_ptr]'s object and the sequence number. *)
Abbreviation TimerId := (Z * Z)%type (only parsing).
Definition nullTimerId : TimerId := (0, 0).

(** ** The queue *)

Abbreviation Entry := (Timestamp * Z)%type (only parsing).
Abbreviation ActiveTimer := (Z * Z)%type (only parsing).

Record t := mk {
  timers_ : list Entry;
  callingExpiredTimers_ : bool;
  activeTimers_ : list ActiveTimer;
  cancelingTimers_ : list ActiveTimer;
  (* the [Timer] objects, and the static [s_numCreated_] *)
  heap_ : gmap Z Timer;
  s_numCreated_ : Z;
  (* the objects kept alive by the vector [expired] of a running [handleRead] *)
  held_ : list Z;
  (* readings of the clock made so far *)
  ticks_ : nat;
  (* values given to [timerfd_settime], the last one first *)
  settimes_ : list (Z * Z);
  (* timers whose callback was run, the last one first *)
  ran_ : list Z
}.

Definition set_timers q x := mk x (callingExpiredTimers_ q) (activeTimers_ q)
  (cancelingTimers_ q) (heap_ q) (s_numCreated_ q) (held_ q) (ticks_ q) (settimes_ q) (ran_ q).
Definition set_active q x := mk (timers_ q) (callingExpiredTimers_ q) x
  (cancelingTimers_ q) (heap_ q) (s_numCreated_ q) (held_ q) (ticks_ q) (settimes_ q) (ran_ q).
Definition set_calling q x := mk (timers_ q) x (activeTimers_ q)
  (cancelingTimers_ q) (heap_ q) (s_numCreated_ q) (held_ q) (ticks_ q) (settimes_ q) (ran_ q).
Definition set_canceling q x := mk (timers_ q) (callingExpiredTimers_ q) (activeTimers_ q)
  x (heap_ q) (s_numCreated_ q) (held_ q) (ticks_ q) (settimes_ q) (ran_ q).
Definition set_heap q x n := mk (timers_ q) (callingExpiredTimers_ q) (activeTimers_ q)
  (cancelingTimers_ q) x n (held_ q) (ticks_ q) (settimes_ q) (ran_ q).
Definition set_held q x := mk (timers_ q) (callingExpiredTimers_ q) (activeTimers_ q)
  (cancelingTimers_ q) (heap_ q) (s_numCreated_ q) x (ticks_ q) (settimes_ q) (ran_ q).
Definition set_ticks q x := mk (timers_ q) (callingExpiredTimers_ q) (activeTimers_ q)
  (cancelingTimers_ q) (heap_ q) (s_numCreated_ q) (held_ q) x (settimes_ q) (ran_ q).
Definition set_settimes q x := mk (timers_ q) (callingExpiredTimers_ q) (activeTimers_ q)
  (cancelingTimers_ q) (heap_ q) (s_numCreated_ q) (held_ q) (ticks_ q) x (ran_ q).
Definition set_ran q x := mk (timers_ q) (callingExpiredTimers_ q) (activeTimers_ q)
  (cancelingTimers_ q) (heap_ q) (s_numCreated_ q) (held_ q) (ticks_ q) (settimes_ q) x.

Definition init : t := mk [] false [] [] ∅ 0 [] 0 [] [].

(** What a user callback may do to the queue that runs it. *)
Inductive action :=
  | AddTimer (cb : Z) (when : Timestamp) (interval : double)
  | Cancel (id : TimerId).

(** The code outside the queue: the clock, [operator new] and the callbacks. *)
Class Env := {
  clock : nat -> Timestamp;
  alloc : gmap Z Timer -> Z;
  alloc_fresh : forall h, 0 < alloc h /\ h !! alloc h = None;
  run_callback : Z -> t -> list action
}.

Section operations.
Context `{E : Env}.

(** [Timestamp::now()] *)
Definition now (q : t) : Timestamp * t := (clock (ticks_ q), set_ticks q (S (ticks_ q))).

Definition lookup_timer (q : t) (a : Z) : res Timer :=
  match heap_ q !! a with Some tm => Ok tm | None => Err NullDeref end.

(** [weak_ptr::lock()]: null once no [shared_ptr] owns the object. *)
Definition alive (q : t) (a : Z) : bool :=
  bool_decide (a ∈ (snd <$> timers_ q)) || bool_decide (a ∈ (fst <$> activeTimers_ q))
  || bool_decide (a ∈ (fst <$> cancelingTimers_ q)) || bool_decide (a ∈ held_ q).
Definition lock (q : t) (a : Z) : Z := if alive q a then a else 0.

(** [howMuchTimeFromNow(when)], as seconds and nanoseconds. *)
Definition howMuchTimeFromNow (when nowT : Timestamp) : res (Z * Z) :=
  microseconds ← chk64 (microSecondsSinceEpoch when - microSecondsSinceEpoch nowT) ;
  let microseconds := if microseconds <? 100 then 100 else microseconds in
  Ok (Z.quot microseconds kMicroSecondsPerSecond,
      Z.rem microseconds kMicroSecondsPerSecond * 1000).

Definition resetTimerfd (q : t) (expiration : Timestamp) : res t :=
  let '(n, q) := now q in
  ts ← howMuchTimeFromNow expiration n ;
  Ok (set_settimes q (ts :: settimes_ q)).

Definition sizes_equal (q : t) : bool :=
  Nat.eqb (length (timers_ q)) (length (activeTimers_ q)).

(** [insert(timer)] and its result [earliestChanged]. *)
Definition insert (q : t) (timer : Z) : res (bool * t) :=
  assert_ (sizes_equal q) ;;
  tm ← lookup_timer q timer ;
  let when := expiration_ tm in
  let earliestChanged :=
    match timers_ q with [] => true | e :: _ => timestamp_lt when (fst e) end in
  let r1 := SSet.insert id pair_lt (when, timer) (timers_ q) in
  assert_ (snd r1) ;;
  let q := set_timers q (fst r1) in
  let r2 := SSet.insert id pair_lt (timer, sequence_ tm) (activeTimers_ q) in
  assert_ (snd r2) ;;
  let q := set_active q (fst r2) in
  assert_ (sizes_equal q) ;;
  Ok (earliestChanged, q).

Definition addTimerInLoop (q : t) (timer : Z) : res t :=
  r ← insert q timer ;
  if fst r : bool then
    tm ← lookup_timer (snd r) timer ;
    resetTimerfd (snd r) (expiration_ tm)
  else Ok (snd r).

(** [addTimer], called on the loop's thread. *)
Definition addTimer (q : t) (cb : Z) (when : Timestamp) (interval : double)
  : res (TimerId * t) :=
  let tm := newTimer cb when interval (s_numCreated_ q) in
  let timer := alloc (heap_ q) in
  let q := set_heap q (<[timer := tm]> (heap_ q)) (s_numCreated_ q + 1) in
  q ← addTimerInLoop q timer ;
  Ok ((timer, sequence_ tm), q).

(** [cancelInLoop]; the iterator returned by the second [erase] is [end()]
    when the erased element was the last. *)
Definition cancelInLoop (q : t) (timerId : TimerId) : res t :=
  assert_ (sizes_equal q) ;;
  let timer := (lock q (fst timerId), snd timerId) in
  q ← match SSet.find id pair_lt timer (activeTimers_ q) with
      | Some it =>
          tm ← lookup_timer q (fst it) ;
          let r := SSet.erase id pair_lt (expiration_ tm, fst it) (timers_ q) in
          assert_ (snd r =? 1) ;;
          let q := set_timers q (fst r) in
          let itErase := SSet.upper_bound id pair_lt it (activeTimers_ q) in
          let q := set_active q (fst (SSet.erase id pair_lt it (activeTimers_ q))) in
          assert_ (bool_decide (is_Some itErase)) ;;
          Ok q
      | None =>
          if callingExpiredTimers_ q
          then Ok (set_canceling q (fst (SSet.insert id pair_lt timer (cancelingTimers_ q))))
          else Ok q
      end ;
  assert_ (sizes_equal q) ;;
  Ok q.

(** The loop of [getExpired] over the expired entries. *)
Fixpoint erase_active (q : t) (expired : list Entry) : res t :=
  match expired with
  | [] => Ok q
  | entry :: expired =>
      tm ← lookup_timer q (snd entry) ;
      let r := SSet.erase id pair_lt (snd entry, sequence_ tm) (activeTimers_ q) in
      assert_ (snd r =? 1) ;;
      erase_active (set_active q (fst r)) expired
  end.

(** [getExpired(now)]: the sentry is [(now, nullptr)]. *)
Definition getExpired (q : t) (now : Timestamp) : res (list Entry * t) :=
  assert_ (sizes_equal q) ;;
  let sentry := (now, 0) in
  let r := SSet.lower_bound id pair_lt sentry (timers_ q) in
  assert_ (match snd r with [] => true | e :: _ => timestamp_lt now (fst e) end) ;;
  q ← erase_active (set_timers q (snd r)) (fst r) ;
  assert_ (sizes_equal q) ;;
  Ok (fst r, q).

Definition do_action (q : t) (a : action) : res t :=
  match a with
  | AddTimer cb when interval => snd <$> addTimer q cb when interval
  | Cancel id => cancelInLoop q id
  end.

Fixpoint do_actions (q : t) (l : list action) : res t :=
  match l with
  | [] => Ok q
  | a :: l => q ← do_action q a ; do_actions q l
  end.

(** [it->second->run()] for each expired entry. *)
Fixpoint run_expired (q : t) (expired : list Entry) : res t :=
  match expired with
  | [] => Ok q
  | entry :: expired =>
      tm ← lookup_timer q (snd entry) ;
      let q := set_ran q (snd entry :: ran_ q) in
      q ← do_actions q (run_callback (callback_ tm) q) ;
      run_expired q expired
  end.

(** The loop of [reset]: restart the periodic timers not cancelled. *)
Fixpoint reinsert (q : t) (expired : list Entry) (now : Timestamp) : res t :=
  match expired with
  | [] => Ok q
  | entry :: expired =>
      let a := snd entry in
      tm ← lookup_timer q a ;
      q ← (if repeat_ tm &&
              bool_decide (SSet.find id pair_lt (a, sequence_ tm) (cancelingTimers_ q) = None)
           then
             tm' ← restart tm now ;
             let q := set_heap q (<[a := tm']> (heap_ q)) (s_numCreated_ q) in
             snd <$> insert q a
           else Ok q) ;
      reinsert q expired now
  end.

Definition reset (q : t) (expired : list Entry) (now : Timestamp) : res t :=
  q ← reinsert q expired now ;
  nextExpire ← match timers_ q with
               | [] => Ok invalid
               | e :: _ => expiration_ <$> lookup_timer q (snd e)
               end ;
  if valid nextExpire then resetTimerfd q nextExpire else Ok q.

Definition handleRead (q : t) : res t :=
  let '(n, q) := now q in
  r ← getExpired q n ;
  let '(expired, q) := r in
  let q := set_held q (snd <$> expired) in
  let q := set_calling q true in
  let q := set_canceling q [] in
  q ← run_expired q expired ;
  let q := set_calling q false in
  q ← reset q expired n ;
  Ok (set_held q []).
End operations.

(** ** The invariant: [timers_] and [activeTimers_] hold the same timers *)

Definition exp_of (h : gmap Z Timer) (a : Z) : Timestamp :=
  match h !! a with Some tm => expiration_ tm | None => 0 end.
Definition entry_of (h : gmap Z Timer) (p : ActiveTimer) : Entry := (exp_of h (fst p), fst p).
Definition active_addrs (q : t) : list Z := fst <$> activeTimers_ q.

Record Inv (q : t) : Prop := {
  inv_timers : SSet.sorted id pair_lt (timers_ q);
  inv_active : SSet.sorted id pair_lt (activeTimers_ q);
  inv_canceling : SSet.sorted id pair_lt (cancelingTimers_ q);
  inv_same : timers_ q ≡ₚ entry_of (heap_ q) <$> activeTimers_ q;
  inv_seq : forall p, p ∈ activeTimers_ q ->
    exists tm, heap_ q !! fst p = Some tm /\ sequence_ tm = snd p;
  inv_null : forall a, is_Some (heap_ q !! a) -> 0 < a
}.

Lemma inv_sizes q : Inv q -> sizes_equal q = true.
Proof.
  intros HI. unfold sizes_equal. rewrite (inv_same q HI), length_fmap. apply Nat.eqb_refl.
Qed.

Lemma tq_init_inv : Inv init.
Proof.
  split; simpl; [apply SSet.sorted_nil.. | done | |].
  - by intros p ?%not_elem_of_nil.
  - intros a. rewrite lookup_empty. by intros [? ?].
Qed.

Lemma elem_timers q e :
  Inv q -> e ∈ timers_ q <->
    exists tm, heap_ q !! snd e = Some tm /\ fst e = expiration_ tm /\
      (snd e, sequence_ tm) ∈ activeTimers_ q.
Proof.
  intros HI. rewrite (inv_same q HI), list_elem_of_fmap. split.
  - intros (p & -> & Hp). destruct (inv_seq q HI p Hp) as (tm & Hh & Hs).
    exists tm. unfold entry_of, exp_of; simpl. rewrite Hh. split_and!; try done.
    rewrite Hs. by destruct p.
  - intros (tm & Hh & He & Ha). eexists; split; [|exact Ha].
    unfold entry_of, exp_of; simpl. rewrite Hh, <- He. by destruct e.
Qed.

(** The sequence number is determined by the address. *)
Lemma active_unique q p p' :
  Inv q -> p ∈ activeTimers_ q -> p' ∈ activeTimers_ q -> fst p = fst p' -> p = p'.
Proof.
  intros HI Hp Hp' E. destruct (inv_seq q HI p Hp) as (tm & Hh & Hs).
  destruct (inv_seq q HI p' Hp') as (tm' & Hh' & Hs').
  destruct p as [a s], p' as [a' s']; simpl in *. congruence.
Qed.

Lemma timers_addrs q a :
  Inv q -> a ∈ (snd <$> timers_ q) <-> a ∈ active_addrs q.
Proof.
  intros HI. unfold active_addrs. rewrite (inv_same q HI), !list_elem_of_fmap. split.
  - intros (? & -> & (p & -> & Hp)%list_elem_of_fmap). by exists p.
  - intros (p & -> & Hp). exists (entry_of (heap_ q) p). split; [done|].
    apply list_elem_of_fmap. by exists p.
Qed.

Lemma timers_addrs_nodup q : Inv q -> NoDup (snd <$> timers_ q).
Proof.
  intros HI. rewrite (inv_same q HI), <- list_fmap_compose.
  apply NoDup_fmap_2_strong.
  - intros p p' Hp Hp' E. by apply (active_unique q).
  - apply (SSet.sorted_nodup id pair_lt), (inv_active q HI).
Qed.

Lemma entry_of_heap_ext (h h' : gmap Z Timer) (l : list ActiveTimer) :
  (forall p, p ∈ l -> h' !! fst p = h !! fst p) ->
  entry_of h' <$> l = entry_of h <$> l.
Proof.
  intros H. apply list_fmap_ext. intros i p Hp%list_elem_of_lookup_2.
  unfold entry_of, exp_of. by rewrite H.
Qed.

(** A heap that agrees on the active timers keeps the invariant. *)
Lemma inv_heap_ext q h n :
  Inv q -> (forall p, p ∈ activeTimers_ q -> h !! fst p = heap_ q !! fst p) ->
  (forall a, is_Some (h !! a) -> 0 < a) -> Inv (set_heap q h n).
Proof.
  intros HI Hh Hn. destruct HI as [H1 H2 H2' H3 H4 H5]. split; simpl; try done.
  - by rewrite (entry_of_heap_ext (heap_ q)).
  - intros p Hp. rewrite Hh by done. auto.
Qed.

Section insert.
Context `{E : Env}.

(** Inserting a timer that is not in the queue. *)
Lemma insert_ok q a tm :
  Inv q -> heap_ q !! a = Some tm -> a ∉ active_addrs q ->
  exists T A,
    insert q a = Ok (match timers_ q with
                     | [] => true | e :: _ => timestamp_lt (expiration_ tm) (fst e) end,
                     set_active (set_timers q T) A) /\
    Inv (set_active (set_timers q T) A) /\
    T ≡ₚ (expiration_ tm, a) :: timers_ q /\ A ≡ₚ (a, sequence_ tm) :: activeTimers_ q.
Proof.
  intros HI Hh Ha. unfold insert. rewrite inv_sizes by done. simpl.
  unfold lookup_timer. rewrite Hh. simpl.
  destruct (SSet.insert_fresh id pair_lt (expiration_ tm, a) (timers_ q)) as (Hb & Hs & Hp).
  { intros e He E'. apply Ha, timers_addrs; [done|]. apply list_elem_of_fmap.
    exists e. unfold id in E'. by subst e. }
  { apply (inv_timers q HI). }
  destruct (SSet.insert_fresh id pair_lt (a, sequence_ tm) (activeTimers_ q)) as (Hb' & Hs' & Hp').
  { intros p Hp1 E'. apply Ha, list_elem_of_fmap. exists p. unfold id in E'. by subst p. }
  { apply (inv_active q HI). }
  rewrite Hb. simpl. rewrite Hb'. simpl.
  set (T := fst (SSet.insert id pair_lt (expiration_ tm, a) _)) in *.
  set (A := fst (SSet.insert id pair_lt (a, sequence_ tm) _)) in *.
  assert (HI' : Inv (set_active (set_timers q T) A)).
  { destruct HI as [H1 H2 H2' H3 H4 H5]. split; simpl; try done.
    - rewrite Hp, Hp'. simpl. unfold entry_of at 1, exp_of; simpl. rewrite Hh.
      by constructor.
    - intros p. rewrite Hp'. intros [->|Hp1]%elem_of_cons; [by exists tm|auto]. }
  rewrite (inv_sizes _ HI'). simpl. by exists T, A.
Qed.
End insert.

(** ** What an operation may change

    No operation of the interface changes a [Timer] that exists, makes an
    existing timer active, forgets a cancellation, or touches the locals of a
    running [handleRead]. *)
Record framed (q q' : t) : Prop := {
  fr_heap : forall a tm, heap_ q !! a = Some tm -> heap_ q' !! a = Some tm;
  fr_active : forall a, is_Some (heap_ q !! a) -> a ∈ active_addrs q' -> a ∈ active_addrs q;
  fr_canceling : forall p, p ∈ cancelingTimers_ q -> p ∈ cancelingTimers_ q';
  fr_calling : callingExpiredTimers_ q' = callingExpiredTimers_ q;
  fr_held : held_ q' = held_ q;
  fr_ran : ran_ q' = ran_ q
}.

#[export] Instance framed_preorder : PreOrder framed.
Proof.
  split.
  - intros q. by split.
  - intros q1 q2 q3 [A1 A2 A3 A4 A5 A6] [B1 B2 B3 B4 B5 B6].
    split; [auto | | auto | congruence..].
    intros a [tm Hh] Ha. apply A2; [by exists tm|]. apply B2; [|done].
    exists tm. auto.
Qed.

Section preservation.
Context `{E : Env}.

Lemma resetTimerfd_ok q e q' :
  Inv q -> resetTimerfd q e = Ok q' -> Inv q' /\ framed q q'.
Proof.
  unfold resetTimerfd, now. intros HI H. inv_ok. destruct HI. by split; split.
Qed.

Lemma insert_inv q a tm b q' :
  Inv q -> heap_ q !! a = Some tm -> a ∉ active_addrs q -> insert q a = Ok (b, q') ->
  Inv q' /\ heap_ q' = heap_ q /\ cancelingTimers_ q' = cancelingTimers_ q /\
  timers_ q' ≡ₚ (expiration_ tm, a) :: timers_ q /\
  activeTimers_ q' ≡ₚ (a, sequence_ tm) :: activeTimers_ q /\
  callingExpiredTimers_ q' = callingExpiredTimers_ q /\ held_ q' = held_ q /\
  ran_ q' = ran_ q.
Proof.
  intros HI Hh Ha H. destruct (insert_ok q a tm HI Hh Ha) as (T & A & Hi & HI' & HT & HA).
  rewrite Hi in H. injection H as <- <-. done.
Qed.

Lemma addTimerInLoop_inv q a tm q' :
  Inv q -> heap_ q !! a = Some tm -> a ∉ active_addrs q -> addTimerInLoop q a = Ok q' ->
  Inv q' /\ exists q1, framed q1 q' /\ heap_ q1 = heap_ q /\
    cancelingTimers_ q1 = cancelingTimers_ q /\
    activeTimers_ q1 ≡ₚ (a, sequence_ tm) :: activeTimers_ q /\
    callingExpiredTimers_ q1 = callingExpiredTimers_ q /\ held_ q1 = held_ q /\
    ran_ q1 = ran_ q.
Proof.
  intros HI Hh Ha H. unfold addTimerInLoop in H.
  apply bind_ok in H as ([b q1] & Hi & H).
  destruct (insert_inv q a tm b q1 HI Hh Ha Hi) as (HI1 & ? & ? & ? & ? & ? & ? & ?).
  destruct b; simpl in H.
  - apply bind_ok in H as (tm' & _ & H). apply resetTimerfd_ok in H as [HI' Hf]; [|done].
    split; [done|]. by exists q1.
  - injection H as <-. split; [done|]. by exists q1.
Qed.

Lemma addTimer_inv q cb when interval id q' :
  Inv q -> addTimer q cb when interval = Ok (id, q') -> Inv q' /\ framed q q'.
Proof.
  intros HI H. unfold addTimer in H.
  set (tm := newTimer cb when interval (s_numCreated_ q)) in *.
  set (a := alloc (heap_ q)) in *.
  destruct (alloc_fresh (heap_ q)) as [Ha Hn]. fold a in Ha, Hn.
  apply bind_ok in H as (q2 & H & Heq). injection Heq as _ <-.
  set (q0 := set_heap q _ _) in *.
  assert (Hna : a ∉ active_addrs q0).
  { intros (p & Hp & Hpa)%list_elem_of_fmap. simpl in Hpa.
    destruct (inv_seq q HI p Hpa) as (tm' & Hh & _). rewrite <- Hp in Hh. congruence. }
  assert (HI0 : Inv q0).
  { apply inv_heap_ext; [done| |].
    - intros p Hp. rewrite lookup_insert_ne; [done|]. intros Hap.
      destruct (inv_seq q HI p Hp) as (tm' & Hh & _). rewrite <- Hap in Hh. congruence.
    - intros a'. destruct (decide (a = a')) as [<-|]; [done|].
      rewrite lookup_insert_ne by done. apply (inv_null q HI). }
  apply (addTimerInLoop_inv q0 a tm) in H as (HI' & q1 & Hf & Hh & Hc & Hact & Hcl & Hhd & Hr);
    [|done|by apply lookup_insert_eq|done].
  split; [done|]. etrans; [|exact Hf]. split; [| | | done..].
  - intros a' tm' Ha'. rewrite Hh. simpl. rewrite lookup_insert_ne; [done|].
    intros <-. congruence.
  - intros a' [tm' Ha']. unfold active_addrs. rewrite Hact. simpl.
    intros [->|]%elem_of_cons; [congruence|done].
  - by rewrite Hc.
Qed.

Lemma active_alive q a s : (a, s) ∈ activeTimers_ q -> lock q a = a.
Proof.
  intros Ha. unfold lock, alive.
  rewrite (bool_decide_true (a ∈ fst <$> activeTimers_ q)).
  - by rewrite orb_true_r.
  - apply list_elem_of_fmap. by exists (a, s).
Qed.

(** Erasing the active timer [(a, s)] from both sets. *)
Lemma erase_both q a s tm :
  Inv q -> (a, s) ∈ activeTimers_ q -> heap_ q !! a = Some tm ->
  let r := SSet.erase id pair_lt (expiration_ tm, a) (timers_ q) in
  let r' := SSet.erase id pair_lt (a, s) (activeTimers_ q) in
  snd r = 1 /\ snd r' = 1 /\ Inv (set_active (set_timers q (fst r)) (fst r')) /\
  timers_ q ≡ₚ (expiration_ tm, a) :: fst r /\ activeTimers_ q ≡ₚ (a, s) :: fst r'.
Proof.
  intros HI Ha Hh r r'. destruct (inv_seq q HI _ Ha) as (tm' & Hh' & Hs). simpl in *.
  assert (tm' = tm) as -> by congruence.
  destruct (SSet.erase_elem id pair_lt (expiration_ tm, a) (timers_ q) (expiration_ tm, a))
    as (H1 & H2 & H3); [apply (inv_timers q HI)| |done|].
  { apply elem_timers; [done|]. exists tm. simpl. by rewrite Hs. }
  destruct (SSet.erase_elem id pair_lt (a, s) (activeTimers_ q) (a, s))
    as (H1' & H2' & H3'); [apply (inv_active q HI)|done|done|].
  split_and!; try done. destruct HI as [I1 I2 I3 I4 I5 I6]. split; simpl; try done.
  - rewrite H3, H3' in I4. simpl in I4. unfold entry_of at 1, exp_of in I4. simpl in I4.
    rewrite Hh in I4. by apply Permutation_cons_inv in I4.
  - intros p Hp. apply I5. rewrite H3'. by apply elem_of_cons; right.
Qed.

(** [cancelInLoop] on a timer that is active: the two erasures, and the
    assert on the iterator that follows the erased element. *)
Lemma cancelInLoop_active q a s :
  Inv q -> (a, s) ∈ activeTimers_ q ->
  exists q', Inv q' /\ framed q q' /\ activeTimers_ q ≡ₚ (a, s) :: activeTimers_ q' /\
    heap_ q' = heap_ q /\ ticks_ q' = ticks_ q /\ settimes_ q' = settimes_ q /\
    cancelInLoop q (a, s) =
      if bool_decide (Exists (pair_lt (a, s)) (activeTimers_ q))
      then Ok q' else Err AssertFailed.
Proof.
  intros HI Ha. destruct (inv_seq q HI _ Ha) as (tm & Hh & Hs). simpl in Hh, Hs.
  destruct (erase_both q a s tm HI Ha Hh) as (H1 & H2 & HI' & HT & HA).
  unfold cancelInLoop. rewrite inv_sizes by done. simpl.
  rewrite (active_alive q a s Ha).
  rewrite (proj2 (SSet.find_some id pair_lt (a, s) (activeTimers_ q) (a, s) (inv_active q HI)))
    by done. simpl.
  unfold lookup_timer. rewrite Hh. simpl. rewrite H1. simpl.
  set (q' := set_active _ _) in *. exists q'.
  split_and!; try done.
  - split; simpl; try done. intros a' _ Ha'. unfold active_addrs in *.
    rewrite HA. apply elem_of_cons. by right.
  - case_bool_decide as Hx; case_bool_decide as Hy; simpl.
    + by rewrite (inv_sizes q' HI').
    + exfalso. apply Hy. destruct Hx as [p Hp].
      destruct (decide (Exists (pair_lt (a, s)) (activeTimers_ q))) as [|Hn]; [done|].
      rewrite (proj2 (SSet.upper_bound_none id pair_lt _ _ (inv_active q HI))) in Hp; [done|].
      intros x Hx Hlt. apply Hn, Exists_exists. by exists x.
    + exfalso. apply Hx. destruct (SSet.upper_bound id pair_lt (a, s) (activeTimers_ q)) eqn:Eu;
        [done|]. exfalso. apply Exists_exists in Hy as (x & Hx' & Hlt).
      by apply (proj1 (SSet.upper_bound_none id pair_lt _ _ (inv_active q HI)) Eu x).
    + done.
Qed.

(** [cancelInLoop] on a timer that is not active. *)
Lemma cancelInLoop_inactive q a s :
  Inv q -> (a, s) ∉ activeTimers_ q ->
  exists q', Inv q' /\ framed q q' /\ cancelInLoop q (a, s) = Ok q' /\
    timers_ q' = timers_ q /\ activeTimers_ q' = activeTimers_ q /\ heap_ q' = heap_ q /\
    (callingExpiredTimers_ q = false -> q' = q) /\
    (callingExpiredTimers_ q = true -> (lock q a, s) ∈ cancelingTimers_ q').
Proof.
  intros HI Ha. unfold cancelInLoop. rewrite inv_sizes by done. simpl.
  assert (Hf : SSet.find id pair_lt (lock q a, s) (activeTimers_ q) = None).
  { apply (SSet.find_none id pair_lt); [apply (inv_active q HI)|].
    intros p Hp Heq. unfold id in Heq. subst p. unfold lock in Hp.
    destruct (alive q a); [done|].
    destruct (inv_seq q HI _ Hp) as (tm & Hh & _). simpl in Hh.
    assert (0 < 0); [|lia]. apply (inv_null q HI). by exists tm. }
  rewrite Hf. destruct (callingExpiredTimers_ q) eqn:Hc; simpl.
  - set (q' := set_canceling _ _). exists q'.
    assert (HI' : Inv q').
    { destruct HI as [I1 I2 I3 I4 I5 I6]. split; simpl; try done.
      by apply (SSet.insert_sorted id pair_lt). }
    rewrite (inv_sizes q' HI'). simpl. split_and!; try done.
    + split; simpl; try done; try congruence. intros p Hp.
      by apply (SSet.elem_of_insert_old id pair_lt).
    + intros _. destruct (SSet.elem_of_insert_new id pair_lt (lock q a, s) (cancelingTimers_ q))
        as (y & Hy & Hk); [apply (inv_canceling q HI)|]. unfold id in Hk. by subst y.
  - exists q. rewrite inv_sizes by done. by split_and!.
Qed.

Lemma cancelInLoop_inv q id q' :
  Inv q -> cancelInLoop q id = Ok q' -> Inv q' /\ framed q q'.
Proof.
  intros HI H. destruct id as [a s].
  destruct (decide ((a, s) ∈ activeTimers_ q)) as [Ha|Ha].
  - destruct (cancelInLoop_active q a s HI Ha) as (q1 & HI1 & Hf & _ & _ & _ & _ & Heq).
    rewrite Heq in H. case_bool_decide; [|done]. by injection H as <-.
  - destruct (cancelInLoop_inactive q a s HI Ha) as (q1 & HI1 & Hf & Heq & _).
    rewrite Heq in H. by injection H as <-.
Qed.

Lemma do_action_inv q a q' : Inv q -> do_action q a = Ok q' -> Inv q' /\ framed q q'.
Proof.
  intros HI H. destruct a as [cb when interval|id]; simpl in H.
  - destruct (addTimer q cb when interval) as [[tid q1]|] eqn:Ha; [|done].
    simpl in H. injection H as <-. by eapply addTimer_inv.
  - by eapply cancelInLoop_inv.
Qed.

Lemma do_actions_inv q l q' : Inv q -> do_actions q l = Ok q' -> Inv q' /\ framed q q'.
Proof.
  revert q. induction l as [|a l IH]; intros q HI H; simpl in H.
  - injection H as <-. by split.
  - apply bind_ok in H as (q1 & H1 & H2).
    destruct (do_action_inv q a q1 HI H1) as [HI1 Hf1].
    destruct (IH q1 HI1 H2) as [HI2 Hf2]. split; [done|]. by etrans.
Qed.
(** ** [getExpired] *)

Lemma erase_active_ok q expired :
  Inv (set_timers q (expired ++ timers_ q)) ->
  exists A, erase_active q expired = Ok (set_active q A) /\ Inv (set_active q A) /\
    forall p, p ∈ A <-> p ∈ activeTimers_ q /\ fst p ∉ snd <$> expired.
Proof.
  revert q. induction expired as [|e ex IH]; intros q HI; simpl in *.
  - exists (activeTimers_ q). split_and!; [by destruct q| by destruct q|].
    intros p. split; [|tauto]. intros Hp. split; [done|]. apply not_elem_of_nil.
  - set (q0 := set_timers q (e :: ex ++ timers_ q)) in *.
    assert (He : e ∈ timers_ q0) by (apply elem_of_cons; by left).
    apply elem_timers in He as (tm & Hh & Het & Ha); [|done].
    destruct (erase_both q0 (snd e) (sequence_ tm) tm HI Ha Hh) as (H1 & H2 & HI' & HT & HA).
    unfold lookup_timer. simpl in Hh. rewrite Hh. simpl. simpl in H2. rewrite H2. simpl.
    set (A1 := fst (SSet.erase id pair_lt _ (activeTimers_ q0))) in *.
    change (fst (SSet.erase id pair_lt (snd e, sequence_ tm) (activeTimers_ q))) with A1.
    destruct (IH (set_active q A1)) as (A & HA' & HI2 & Hin).
    { simpl. simpl in HI'.
      rewrite <- Het, <- (surjective_pairing e) in HI'. unfold id in HI'.
      rewrite !decide_False in HI' by apply SSet.lt_irrefl, _. exact HI'. }
    exists A. split_and!; [by rewrite HA'|done|].
    intros p. rewrite Hin. simpl. simpl in HA. rewrite HA, !not_elem_of_cons. split.
    + intros [Hp Hne]. split_and!; [by right| |done].
      intros Hps. assert (Hp' : p = (snd e, sequence_ tm)).
      { apply (active_unique q0); [done| |done|done]. simpl. rewrite HA. by right. }
      subst p. assert (Hnd := SSet.sorted_nodup id pair_lt _ (inv_active q0 HI)).
      simpl in Hnd. rewrite HA in Hnd. by apply NoDup_cons in Hnd as [? _].
    + intros [[->|Hp]%elem_of_cons [Hne Hnx]]; [done|]. done.
Qed.

Lemma timer_addr_pos q e : Inv q -> e ∈ timers_ q -> 0 < snd e.
Proof.
  intros HI He. apply elem_timers in He as (tm & Hh & _); [|done].
  apply (inv_null q HI). by exists tm.
Qed.

Lemma inv_drop q l1 l2 :
  Inv q -> timers_ q = l1 ++ l2 -> Inv (set_timers (set_timers q l2) (l1 ++ l2)).
Proof. intros HI Ht. destruct HI. split; simpl; rewrite <- ?Ht; done. Qed.

Lemma getExpired_ok q now :
  Inv q ->
  if bool_decide (Exists (fun e => fst e = now) (timers_ q))
  then getExpired q now = Err AssertFailed
  else exists expired A,
    getExpired q now = Ok (expired, set_active (set_timers q (filter (fun e => now < fst e) (timers_ q))) A) /\
    timers_ q = expired ++ filter (fun e => now < fst e) (timers_ q) /\
    (forall e, e ∈ expired -> fst e < now) /\
    Inv (set_active (set_timers q (filter (fun e => now < fst e) (timers_ q))) A) /\
    forall p, p ∈ A <-> p ∈ activeTimers_ q /\ fst p ∉ snd <$> expired.
Proof.
  intros HI. unfold getExpired. rewrite inv_sizes by done. simpl.
  destruct (SSet.lower_bound_split id pair_lt (now, 0) (timers_ q) (inv_timers q HI))
    as (Hsplit & Hbefore & Hafter).
  set (ex := fst (SSet.lower_bound id pair_lt (now, 0) (timers_ q))) in *.
  set (rest := snd (SSet.lower_bound id pair_lt (now, 0) (timers_ q))) in *.
  assert (Hex : forall e, e ∈ ex -> fst e < now).
  { intros e He. specialize (Hbefore e He). unfold pair_lt, id in Hbefore; simpl in Hbefore.
    assert (0 < snd e); [|lia]. apply (timer_addr_pos q); [done|]. rewrite Hsplit. set_solver. }
  assert (Hrest : forall e, e ∈ rest -> now <= fst e).
  { intros e He. specialize (Hafter e He). unfold pair_lt, id in Hafter; simpl in Hafter. lia. }
  assert (Hsr : SSet.sorted id pair_lt rest).
  { assert (Hs := inv_timers q HI). rewrite Hsplit in Hs.
    by apply (SSet.sorted_app id pair_lt) in Hs as (_ & ? & _). }
  assert (Hassert : match rest with [] => true | e :: _ => timestamp_lt now (fst e) end
    = negb (bool_decide (Exists (fun e => fst e = now) (timers_ q)))).
  { rewrite Hsplit. unfold timestamp_lt.
    case_bool_decide as Hb; simpl.
    - apply Exists_app in Hb as [Hb|Hb]; apply Exists_exists in Hb as (e & He & Heq); simpl in Heq.
      { apply Hex in He. lia. }
      destruct rest as [|e0 l]; [by apply not_elem_of_nil in He|].
      apply (SSet.sorted_cons id pair_lt) in Hsr as [_ Hlt].
      assert (now <= fst e0) by (apply Hrest; set_solver).
      apply elem_of_cons in He as [->|He]; [lia|].
      apply Hlt in He. unfold pair_lt, id in He. lia.
    - destruct rest as [|e0 l]; [done|].
      assert (now <= fst e0) by (apply Hrest; set_solver).
      assert (fst e0 <> now); [|lia]. intros Heq. apply Hb, Exists_app. right.
      by constructor. }
  rewrite Hassert. case_bool_decide as Hb; simpl; [done|].
  assert (Hgt : forall e, e ∈ rest -> now < fst e).
  { intros e He. assert (fst e <> now); [|specialize (Hrest e He); lia].
    intros Heq. apply Hb, Exists_exists. exists e. rewrite Hsplit. set_solver. }
  assert (Hfilter : filter (fun e => now < fst e) (timers_ q) = rest).
  { rewrite Hsplit, filter_app.
    rewrite filter_none by (intros e He%Hex; lia). by apply filter_all. }
  rewrite Hfilter.
  destruct (erase_active_ok (set_timers q rest) ex) as (A & HA & HIA & Hin).
  { simpl. by apply inv_drop. }
  rewrite HA. simpl. rewrite (inv_sizes _ HIA). simpl. by exists ex, A.
Qed.
(** ** Running the callbacks *)

Lemma framed_set_ran q q' r : framed q q' -> framed (set_ran q r) (set_ran q' r).
Proof. intros [H1 H2 H3 H4 H5 H6]. by split. Qed.

Lemma inv_set_ran q r : Inv q -> Inv (set_ran q r).
Proof. intros HI. by destruct HI; split. Qed.

Lemma run_expired_inv q (ex : list Entry) q' :
  Inv q -> run_expired q ex = Ok q' ->
  Inv q' /\ framed (set_ran q (reverse (snd <$> ex) ++ ran_ q)) q'.
Proof.
  revert q. induction ex as [|e ex IH]; intros q HI H; simpl in H.
  - injection H as <-. split; [done|]. by destruct q.
  - apply bind_ok in H as (tm & _ & H). apply bind_ok in H as (q2 & H2 & H).
    apply do_actions_inv in H2 as [HI2 Hf2]; [|by apply inv_set_ran].
    destruct (IH q2 HI2 H) as [HI' Hf]. split; [done|].
    etrans; [|exact Hf]. rewrite (fr_ran _ _ Hf2). simpl.
    rewrite ?fmap_cons, reverse_cons, <- app_assoc. simpl.
    by apply (framed_set_ran _ _ (reverse (snd <$> ex) ++ snd e :: ran_ q)) in Hf2.
Qed.

(** A [Cancel] of a timer being run is remembered in [cancelingTimers_]. *)
Definition running (q : t) (a : Z) : Prop :=
  callingExpiredTimers_ q = true /\ a ∈ held_ q /\ is_Some (heap_ q !! a) /\
  a ∉ active_addrs q.

Lemma running_framed q q' a : framed q q' -> running q a -> running q' a.
Proof.
  intros [H1 H2 H3 H4 H5 H6] (Hc & Hh & [tm Ht] & Ha). split_and!.
  - congruence.
  - congruence.
  - exists tm. auto.
  - intros Ha'. apply Ha, H2; [by exists tm|done].
Qed.

Lemma do_actions_cancel q l q' a s :
  Inv q -> running q a -> Cancel (a, s) ∈ l -> do_actions q l = Ok q' ->
  (a, s) ∈ cancelingTimers_ q'.
Proof.
  revert q. induction l as [|x l IH]; intros q HI Hr Hin H; [by apply not_elem_of_nil in Hin|].
  simpl in H. apply bind_ok in H as (q1 & H1 & H2).
  destruct (do_action_inv q x q1 HI H1) as [HI1 Hf1].
  apply elem_of_cons in Hin as [<-|Hin].
  - simpl in H1. destruct Hr as (Hc & Hheld & _ & Hna).
    assert (Ha : (a, s) ∉ activeTimers_ q).
    { intros Hin. apply Hna, list_elem_of_fmap. by exists (a, s). }
    destruct (cancelInLoop_inactive q a s HI Ha) as (q2 & _ & _ & Heq & _ & _ & _ & _ & Hcan).
    rewrite Heq in H1. injection H1 as <-. specialize (Hcan Hc).
    apply do_actions_inv in H2 as [_ Hf2]; [|done]. apply (fr_canceling _ _ Hf2).
    unfold lock, alive in Hcan. rewrite (bool_decide_true (a ∈ held_ q)) in Hcan by done.
    by rewrite orb_true_r in Hcan.
  - apply (IH q1); try done. by eapply running_framed.
Qed.

Lemma run_expired_cancel q (ex : list Entry) q' e tm :
  Inv q -> (forall e', e' ∈ ex -> running q (snd e')) -> e ∈ ex ->
  heap_ q !! snd e = Some tm ->
  (forall q1, Cancel (snd e, sequence_ tm) ∈ run_callback (callback_ tm) q1) ->
  run_expired q ex = Ok q' -> (snd e, sequence_ tm) ∈ cancelingTimers_ q'.
Proof.
  revert q. induction ex as [|e0 ex IH]; intros q HI Hr He Hh Hcb H;
    [by apply not_elem_of_nil in He|].
  simpl in H. apply bind_ok in H as (tm0 & Hl & H). apply bind_ok in H as (q2 & H2 & H).
  assert (HI1 : Inv (set_ran q (snd e0 :: ran_ q))) by by apply inv_set_ran.
  destruct (do_actions_inv _ _ _ HI1 H2) as [HI2 Hf2].
  apply elem_of_cons in He as [<-|He].
  - unfold lookup_timer in Hl. rewrite Hh in Hl. injection Hl as <-.
    apply (do_actions_cancel _ _ _ (snd e) (sequence_ tm)) in H2;
      [|done|by apply Hr, elem_of_cons; left|by apply Hcb].
    destruct (run_expired_inv q2 ex q' HI2 H) as [_ Hf]. by apply (fr_canceling _ _ Hf).
  - apply (IH q2); try done.
    + intros e' He'. eapply running_framed; [exact Hf2|].
      apply (Hr e'), elem_of_cons. by right.
    + apply (fr_heap _ _ Hf2). done.
Qed.

(** ** Restarting the periodic timers *)

(** The entry a periodic timer is restarted with, unless cancelled. *)
Definition renew (h : gmap Z Timer) (canceling : list ActiveTimer) (now : Timestamp)
  (e : Entry) : option Entry :=
  match h !! snd e with
  | Some tm =>
      if repeat_ tm && bool_decide (SSet.find id pair_lt (snd e, sequence_ tm) canceling = None)
      then match addTime now (interval_ tm) with Ok t => Some (t, snd e) | Err _ => None end
      else None
  | None => None
  end.

Lemma renew_heap_ext h h' c now (ex : list Entry) :
  (forall e, e ∈ ex -> h' !! snd e = h !! snd e) ->
  omap (renew h' c now) ex = omap (renew h c now) ex.
Proof.
  induction ex as [|e ex IH]; intros Hh; [done|].
  assert (IH' := IH (fun e' He' => Hh e' (proj2 (elem_of_cons ex e' e) (or_intror He')))). clear IH.
  assert (He : renew h' c now e = renew h c now e)
    by (unfold renew; by rewrite (Hh e) by (apply elem_of_cons; by left)).
  simpl. rewrite He. destruct (renew h c now e); [f_equal|]; exact IH'.
Qed.

Lemma reinsert_inv q (ex : list Entry) now q' :
  Inv q -> NoDup (snd <$> ex) ->
  (forall e, e ∈ ex -> is_Some (heap_ q !! snd e) /\ snd e ∉ active_addrs q) ->
  reinsert q ex now = Ok q' ->
  Inv q' /\ timers_ q' ≡ₚ omap (renew (heap_ q) (cancelingTimers_ q) now) ex ++ timers_ q /\
  ran_ q' = ran_ q /\ callingExpiredTimers_ q' = callingExpiredTimers_ q.
Proof.
  revert q. induction ex as [|e ex IH]; intros q HI Hnd Hex H; simpl in H.
  - by injection H as <-.
  - apply NoDup_cons in Hnd as [Hne Hnd].
    destruct (Hex e) as [[tm Hh] Hna]; [by apply elem_of_cons; left|].
    unfold lookup_timer in H. rewrite Hh in H. simpl in H.
    apply bind_ok in H as (q1 & H1 & H2).
    assert (Hne' : forall e', e' ∈ ex -> snd e' <> snd e).
    { intros e' He' Heq. apply Hne, list_elem_of_fmap. by exists e'. }
    simpl. unfold renew at 1. rewrite Hh.
    destruct (repeat_ tm && _) eqn:Hrep.
    + apply bind_ok in H1 as (tm' & Hre & H1).
      apply andb_true_iff in Hrep as [Hrp _].
      unfold restart in Hre. rewrite Hrp in Hre. apply bind_ok in Hre as (t' & Ht & Hre).
      injection Hre as <-. rewrite Ht.
      set (tm' := mkTimer _ _ _ _ _) in *. set (q0 := set_heap q _ _) in *.
      destruct (insert q0 (snd e)) as [[b q2]|] eqn:Hi; [|done]. simpl in H1.
      injection H1 as ->.
      assert (HI0 : Inv q0).
      { apply inv_heap_ext; [done| |].
        - intros p Hp. rewrite lookup_insert_ne; [done|]. intros Heq. apply Hna.
          apply list_elem_of_fmap. exists p. by rewrite <- Heq.
        - intros a. destruct (decide (snd e = a)) as [<-|].
          + intros _. apply (inv_null q HI). by exists tm.
          + rewrite lookup_insert_ne by done. apply (inv_null q HI). }
      apply (insert_inv q0 (snd e) tm') in Hi as (HI1 & Hh1 & Hc1 & Ht1 & Ha1 & Hcl1 & _ & Hr1);
        [|done|apply lookup_insert_eq|done].
      destruct (IH q1 HI1 Hnd) as (HI' & Hp' & Hr' & Hcl'); [|done|].
      { intros e' He'. rewrite Hh1. simpl. rewrite lookup_insert_ne
          by (intros Heq; by apply (Hne' e')).
        destruct (Hex e') as [Hs Hn]; [by apply elem_of_cons; right|]. split; [done|].
        unfold active_addrs. rewrite Ha1. simpl. apply not_elem_of_cons.
        split; [by apply Hne'|done]. }
      split_and!; [done| |by rewrite Hr', Hr1|by rewrite Hcl', Hcl1].
      rewrite Hp', Hc1, Ht1, Hh1. simpl.
      rewrite (renew_heap_ext (heap_ q)).
      * by rewrite Permutation_middle.
      * intros e' He'. rewrite lookup_insert_ne; [done|].
        intros Heq. by apply (Hne' e').
    + injection H1 as <-. apply (IH q); try done.
      intros e' He'. apply Hex, elem_of_cons. by right.
Qed.

Lemma reset_inv q (ex : list Entry) now q' :
  Inv q -> NoDup (snd <$> ex) ->
  (forall e, e ∈ ex -> is_Some (heap_ q !! snd e) /\ snd e ∉ active_addrs q) ->
  reset q ex now = Ok q' ->
  Inv q' /\ timers_ q' ≡ₚ omap (renew (heap_ q) (cancelingTimers_ q) now) ex ++ timers_ q /\
  ran_ q' = ran_ q /\ callingExpiredTimers_ q' = callingExpiredTimers_ q.
Proof.
  intros HI Hnd Hex H. unfold reset in H. apply bind_ok in H as (q1 & H1 & H).
  destruct (reinsert_inv q ex now q1 HI Hnd Hex H1) as (HI1 & Hp & Hr & Hcl).
  apply bind_ok in H as (nx & _ & H). destruct (valid nx).
  - unfold resetTimerfd, TimerQueue.now in H. apply bind_ok in H as (ts & _ & H).
    injection H as <-. simpl. split; [by destruct HI1; split|done].
  - by injection H as <-.
Qed.
(** ** The whole of [handleRead] *)

(** The state in which the callbacks start. *)
Definition firing (q : t) (n : Timestamp) (ex : list Entry) (A : list ActiveTimer) : t :=
  set_canceling (set_calling (set_held
    (set_active (set_timers (set_ticks q (S (ticks_ q)))
      (filter (fun e => n < fst e) (timers_ q))) A) (snd <$> ex)) true) [].

Lemma handleRead_inv q q' :
  let n := clock (ticks_ q) in
  let ex := filter (fun e => fst e < n) (timers_ q) in
  Inv q -> handleRead q = Ok q' ->
  exists A qc,
    Inv (firing q n ex A) /\ (forall e, e ∈ ex -> running (firing q n ex A) (snd e)) /\
    run_expired (firing q n ex A) ex = Ok qc /\ Inv qc /\
    (exists qr, reset (set_calling qc false) ex n = Ok qr /\ q' = set_held qr []) /\
    Inv q' /\
    timers_ q' ≡ₚ omap (renew (heap_ q) (cancelingTimers_ qc) n) ex ++ timers_ qc /\
    ran_ q' = reverse (snd <$> ex) ++ ran_ q /\ callingExpiredTimers_ q' = false.
Proof.
  intros n ex HI H. unfold handleRead, now in H. fold n in H.
  set (q0 := set_ticks q _) in *.
  assert (HI0 : Inv q0) by (destruct HI; by split).
  apply bind_ok in H as ([ex' q1] & H1 & H).
  pose proof (getExpired_ok q0 n HI0) as Hg. case_bool_decide; [congruence|].
  destruct Hg as (ex2 & A & Hg & Hsplit & Hlt & HI1 & HA).
  rewrite Hg in H1. injection H1 as <- <-. change (timers_ q0) with (timers_ q) in *.
  assert (Hex : ex = ex2).
  { unfold ex. rewrite Hsplit, filter_app, filter_all by done.
    rewrite filter_none; [by rewrite app_nil_r|].
    intros e He%list_elem_of_filter. lia. }
  rewrite <- Hex in *. clear ex2 Hex.
  apply bind_ok in H as (qc & Hrun & H). fold (firing q n ex A) in Hrun.
  apply bind_ok in H as (qr & Hres & H). injection H as <-.
  assert (HIf : Inv (firing q n ex A)).
  { destruct HI1 as [I1 I2 I3 I4 I5 I6]. split; simpl; try done. apply SSet.sorted_nil. }
  assert (Hrunning : forall e, e ∈ ex -> running (firing q n ex A) (snd e)).
  { intros e He. split_and!; [done| | |].
    - apply list_elem_of_fmap. by exists e.
    - simpl. assert (Het : e ∈ timers_ q) by (rewrite Hsplit; apply elem_of_app; by left).
      apply elem_timers in Het as (tm & Hh & _); [|done]. by exists tm.
    - intros (p & Hp & Hin)%list_elem_of_fmap. simpl in Hin. apply HA in Hin as [_ Hn].
      apply Hn. rewrite <- Hp. apply list_elem_of_fmap. by exists e. }
  destruct (run_expired_inv _ ex qc HIf Hrun) as [HIc Hfc].
  assert (Hnd : NoDup (snd <$> ex)).
  { pose proof (timers_addrs_nodup q HI) as Hn. rewrite Hsplit, fmap_app in Hn.
    by apply NoDup_app in Hn as (? & _). }
  assert (HIc' : Inv (set_calling qc false)) by (destruct HIc; by split).
  destruct (reset_inv (set_calling qc false) ex n qr HIc' Hnd) as (HIr & Hp & Hr & Hcl); [|done|].
  { intros e He. destruct (running_framed _ _ (snd e) Hfc) as (_ & _ & ? & ?);
      [|done]. destruct (Hrunning e He) as (? & ? & ? & ?). by split_and!. }
  exists A, qc. split_and!; try done.
  - by exists qr.
  - destruct HIr; by split.
  - simpl. rewrite Hp. simpl. rewrite (renew_heap_ext (heap_ q)); [done|].
    intros e He. destruct (Hrunning e He) as (_ & _ & [tm Hh] & _).
    simpl in Hh. rewrite Hh. by apply (fr_heap _ _ Hfc).
  - simpl. rewrite Hr. simpl. by rewrite (fr_ran _ _ Hfc).
Qed.

(** ** Programming the timer descriptor *)

Lemma microseconds_range x :
  - 2 ^ 63 <= x < 2 ^ 63 -> - 2 ^ 61 < microSecondsSinceEpoch x < 2 ^ 61.
Proof. intros. unfold microSecondsSinceEpoch. Z.quot_rem_to_equations. lia. Qed.

(** The delay given to [timerfd_settime], in microseconds. *)
Definition delay_us (when nowT : Timestamp) : Z :=
  Z.max 100 (microSecondsSinceEpoch when - microSecondsSinceEpoch nowT).

Lemma howMuchTimeFromNow_ok when nowT :
  - 2 ^ 63 <= when < 2 ^ 63 -> - 2 ^ 63 <= nowT < 2 ^ 63 ->
  howMuchTimeFromNow when nowT =
    Ok (delay_us when nowT / 1000000, delay_us when nowT mod 1000000 * 1000).
Proof.
  intros Hw Hn%microseconds_range. apply microseconds_range in Hw.
  unfold howMuchTimeFromNow, delay_us. rewrite chk64_in by lia. simpl.
  set (d := microSecondsSinceEpoch when - microSecondsSinceEpoch nowT) in *.
  unfold kMicroSecondsPerSecond.
  destruct (Z.ltb_spec d 100).
  - by rewrite Z.max_l by lia.
  - rewrite Z.max_r by lia. rewrite Z.quot_div_nonneg, Z.rem_mod_nonneg by lia. done.
Qed.
End preservation.

(** ** The life of a queue: calls from the loop, and expirations *)

Inductive event :=
  | EvAdd (cb : Z) (when : Timestamp) (interval : double)
  | EvCancel (id : TimerId)
  | EvExpire
  | EvElsewhere (created : Z) (ticks : nat).

Section life.
Context `{E : Env}.

(** [EvElsewhere]: other queues create timers, others read the clock. *)
Definition step (q : t) (ev : event) : res t :=
  match ev with
  | EvAdd cb when interval => snd <$> addTimer q cb when interval
  | EvCancel id => cancelInLoop q id
  | EvExpire => handleRead q
  | EvElsewhere c n =>
      Ok (set_heap (set_ticks q (ticks_ q + n)) (heap_ q) (s_numCreated_ q + c))
  end.

Inductive reachable : t -> Prop :=
  | reach_init : reachable init
  | reach_step q ev q' : reachable q -> step q ev = Ok q' -> reachable q'.

Lemma step_inv q ev q' :
  Inv q -> callingExpiredTimers_ q = false -> step q ev = Ok q' ->
  Inv q' /\ callingExpiredTimers_ q' = false.
Proof.
  intros HI Hc H. destruct ev as [cb when interval|id| |c n]; simpl in H.
  - destruct (addTimer q cb when interval) as [[tid q1]|] eqn:Ha; [|done].
    simpl in H. injection H as <-. apply addTimer_inv in Ha as [? Hf]; [|done].
    split; [done|]. by rewrite (fr_calling _ _ Hf).
  - apply cancelInLoop_inv in H as [? Hf]; [|done].
    split; [done|]. by rewrite (fr_calling _ _ Hf).
  - by destruct (handleRead_inv q q' HI H)
      as (A & qc & _ & _ & _ & _ & _ & HI' & _ & _ & Hcl).
  - injection H as <-. split; [|done]. apply inv_heap_ext; [|done|apply (inv_null q HI)].
    destruct HI; by split.
Qed.

Lemma reachable_inv q : reachable q -> Inv q /\ callingExpiredTimers_ q = false.
Proof.
  induction 1 as [|q ev q' _ [HI Hc] H]; [split; [apply tq_init_inv|done]|].
  by eapply step_inv.
Qed.

(** C6. In every state a queue can reach, the three sets are sorted,
    [timers_] and [activeTimers_] have the same size (the assert made at the
    entry and the exit of every operation), and they hold the same timers:
    an entry is in [timers_] exactly when its timer is active, under the
    timer's own expiration. *)
Theorem queue_invariant q :
  reachable q ->
  sizes_equal q = true /\
  SSet.sorted id pair_lt (timers_ q) /\ SSet.sorted id pair_lt (activeTimers_ q) /\
  forall when a, (when, a) ∈ timers_ q <->
    exists tm, heap_ q !! a = Some tm /\ when = expiration_ tm /\
      (a, sequence_ tm) ∈ activeTimers_ q.
Proof.
  intros [HI _]%reachable_inv. split_and!; try apply HI; [by apply inv_sizes|].
  intros when a. by rewrite (elem_timers q (when, a) HI).
Qed.

(** [getExpired]: when no timer expires at [now] itself the expired
    timers are those with an earlier time, in order, and they leave both
    sets; but the sentry [(now, nullptr)] sorts before a timer that expires
    exactly at [now], and then the assert on [lower_bound] fails. *)
Theorem getExpired_correct q now :
  Inv q ->
  if bool_decide (Exists (fun e => fst e = now) (timers_ q))
  then getExpired q now = Err AssertFailed
  else exists expired q',
    getExpired q now = Ok (expired, q') /\ Inv q' /\
    timers_ q = expired ++ timers_ q' /\
    (forall e, e ∈ expired -> fst e < now) /\ (forall e, e ∈ timers_ q' -> now < fst e) /\
    forall p, p ∈ activeTimers_ q' <-> p ∈ activeTimers_ q /\ fst p ∉ snd <$> expired.
Proof.
  intros HI. pose proof (getExpired_ok q now HI) as H. case_bool_decide; [done|].
  destruct H as (ex & A & H & Hs & Hlt & HI' & HA). eexists _, _. split; [exact H|].
  split_and!; try done. simpl. by intros e [? _]%list_elem_of_filter.
Qed.

(** C40. [cancelInLoop] of an active timer erases it from both sets, and
    then asserts that the iterator after the erased element is not [end()]:
    the call aborts exactly when no active timer has a greater address (or
    sequence), so always when the timer is the only one.  A timer that is
    not active is left alone outside [handleRead], and recorded in
    [cancelingTimers_] inside. *)
Theorem cancelInLoop_correct q a s :
  Inv q ->
  if bool_decide ((a, s) ∈ activeTimers_ q) then
    if bool_decide (Exists (pair_lt (a, s)) (activeTimers_ q))
    then exists q', cancelInLoop q (a, s) = Ok q' /\ Inv q' /\
      activeTimers_ q ≡ₚ (a, s) :: activeTimers_ q' /\ a ∉ snd <$> timers_ q'
    else cancelInLoop q (a, s) = Err AssertFailed
  else exists q', cancelInLoop q (a, s) = Ok q' /\ Inv q' /\ timers_ q' = timers_ q /\
    (if callingExpiredTimers_ q then (lock q a, s) ∈ cancelingTimers_ q' else q' = q).
Proof.
  intros HI. case_bool_decide as Ha.
  - destruct (cancelInLoop_active q a s HI Ha) as (q' & HI' & _ & HA & _ & _ & _ & Heq).
    rewrite Heq. case_bool_decide; [|done]. exists q'. split_and!; try done.
    rewrite timers_addrs by done. intros (p & Hp & Hin)%list_elem_of_fmap.
    assert (p = (a, s)) as ->.
    { apply (active_unique q); [done| |done|done]. rewrite HA. by right. }
    assert (Hnd := SSet.sorted_nodup id pair_lt _ (inv_active q HI)).
    rewrite HA in Hnd. by apply NoDup_cons in Hnd as [? _].
  - destruct (cancelInLoop_inactive q a s HI Ha)
      as (q' & HI' & _ & Heq & Ht & _ & _ & Hf & Htr).
    exists q'. split_and!; try done. destruct (callingExpiredTimers_ q); auto.
Qed.

(** C7. [handleRead], with the clock reading [n]: the callbacks of the
    timers with a time before [n] are run, each once, in the order of their
    times; then exactly the periodic ones among them that no callback
    cancelled are in the queue again, at [n] plus their interval, beside
    the timers ([timers_ qc]) that were left or that the callbacks added;
    one-shot timers are gone. *)
Theorem handleRead_correct q q' :
  let n := clock (ticks_ q) in
  let ex := filter (fun e => fst e < n) (timers_ q) in
  Inv q -> handleRead q = Ok q' ->
  Inv q' /\ ran_ q' = reverse (snd <$> ex) ++ ran_ q /\
  callingExpiredTimers_ q' = false /\
  exists A qc, run_expired (firing q n ex A) ex = Ok qc /\
    timers_ q' ≡ₚ omap (renew (heap_ q) (cancelingTimers_ qc) n) ex ++ timers_ qc.
Proof.
  intros n ex HI H.
  destruct (handleRead_inv q q' HI H) as (A & qc & _ & _ & Hr & _ & _ & HI' & Hp & Hran & Hcl).
  split_and!; try done. by exists A, qc.
Qed.

(** A timer that cancels itself in its own callback is not restarted,
    whatever the other callbacks do. *)
Theorem self_cancel_stops q q' when a tm :
  Inv q -> handleRead q = Ok q' ->
  (when, a) ∈ timers_ q -> when < clock (ticks_ q) -> heap_ q !! a = Some tm ->
  (forall q1, Cancel (a, sequence_ tm) ∈ run_callback (callback_ tm) q1) ->
  a ∉ snd <$> timers_ q'.
Proof.
  intros HI H Hin Hw Hh Hcb.
  destruct (handleRead_inv q q' HI H)
    as (A & qc & HIf & Hrun & Hr & HIc & _ & HI' & Hp & _ & _).
  set (n := clock (ticks_ q)) in *. set (ex := filter _ (timers_ q)) in *.
  assert (Hex : (when, a) ∈ ex) by (by apply list_elem_of_filter).
  assert (Hcan : (a, sequence_ tm) ∈ cancelingTimers_ qc).
  { by apply (run_expired_cancel _ _ _ (when, a) tm HIf Hrun). }
  destruct (run_expired_inv _ ex qc HIf Hr) as [_ Hfc].
  destruct (Hrun _ Hex) as (_ & _ & Hs & Hna).
  rewrite Hp, fmap_app, elem_of_app. intros [Hr1|Hr1].
  - apply list_elem_of_fmap in Hr1 as ([w b] & Hb & Hr1). simpl in Hb. subst b.
    apply list_elem_of_omap in Hr1 as ([w' b'] & Hex' & Hren). unfold renew in Hren.
    simpl in Hren. destruct (heap_ q !! b') as [tm'|] eqn:Hh'; [|done].
    destruct (repeat_ tm' && _) eqn:Hcond; [|done].
    destruct (addTime n (interval_ tm')); [|done]. injection Hren as _ ->.
    assert (tm' = tm) as -> by congruence.
    apply andb_true_iff in Hcond as [_ Hcond]. apply bool_decide_eq_true in Hcond.
    by apply (proj1 (SSet.find_none id pair_lt _ _ (inv_canceling qc HIc)) Hcond
      (a, sequence_ tm) Hcan).
  - rewrite timers_addrs in Hr1 by done. apply Hna, (fr_active _ _ Hfc); [|done].
    exact Hs.
Qed.
Definition is_time (x : Timestamp) : Prop := - 2 ^ 63 <= x < 2 ^ 63.

Lemma resetTimerfd_prog q e :
  is_time e -> is_time (clock (ticks_ q)) ->
  resetTimerfd q e = Ok (set_settimes (set_ticks q (S (ticks_ q)))
    ((delay_us e (clock (ticks_ q)) / 1000000,
      delay_us e (clock (ticks_ q)) mod 1000000 * 1000) :: settimes_ q)).
Proof. intros He Hn. unfold resetTimerfd, now. by rewrite howMuchTimeFromNow_ok. Qed.

(** [addTimer] returns for every representable time: the timer is in
    both sets under a fresh address, and the descriptor is programmed when
    and only when the timer is earlier than all others, with the distance
    to its time but never less than 100 microseconds. *)
Theorem addTimer_correct q cb when interval :
  Inv q -> is_time when -> is_time (clock (ticks_ q)) ->
  exists a q',
    addTimer q cb when interval = Ok ((a, s_numCreated_ q), q') /\ Inv q' /\
    heap_ q !! a = None /\
    timers_ q' ≡ₚ (when, a) :: timers_ q /\
    activeTimers_ q' ≡ₚ (a, s_numCreated_ q) :: activeTimers_ q /\
    settimes_ q' =
      (if match timers_ q with [] => true | e :: _ => when <? fst e end
       then let d := delay_us when (clock (ticks_ q)) in
            [(d / 1000000, d mod 1000000 * 1000)]
       else []) ++ settimes_ q.
Proof.
  intros HI Hw Hn. unfold addTimer.
  set (tm := newTimer cb when interval (s_numCreated_ q)).
  destruct (alloc_fresh (heap_ q)) as [Ha Hfree].
  set (a := alloc (heap_ q)) in *. set (q0 := set_heap q _ _).
  assert (Hna : a ∉ active_addrs q0).
  { intros (p & Hp & Hpa)%list_elem_of_fmap. simpl in Hpa.
    destruct (inv_seq q HI p Hpa) as (tm' & Hh & _). rewrite <- Hp in Hh. congruence. }
  assert (HI0 : Inv q0).
  { apply inv_heap_ext; [done| |].
    - intros p Hp. rewrite lookup_insert_ne; [done|]. intros Hap.
      destruct (inv_seq q HI p Hp) as (tm' & Hh & _). rewrite <- Hap in Hh. congruence.
    - intros b. destruct (decide (a = b)) as [<-|]; [done|].
      rewrite lookup_insert_ne by done. apply (inv_null q HI). }
  assert (Hh : heap_ q0 !! a = Some tm) by apply lookup_insert_eq.
  destruct (insert_ok q0 a tm HI0 Hh Hna) as (T & A & Hi & HI' & HT & HA).
  unfold addTimerInLoop. rewrite Hi. simpl. unfold timestamp_lt.
  destruct (match timers_ q with [] => true | e :: _ => when <? fst e end).
  - unfold lookup_timer; simpl. change (<[a:=tm]> (heap_ q)) with (heap_ q0).
    rewrite Hh. simpl. rewrite resetTimerfd_prog by done. simpl.
    eexists a, _. split; [reflexivity|]. split_and!; try done. by destruct HI'; split.
  - eexists a, _. split; [reflexivity|]. split_and!; done.
Qed.

(** [Timestamp::invalid()] is [valid()], so [reset] programs the
    descriptor even when no timer is left: an expiration that empties the
    queue arms it again for 100 microseconds, and the descriptor keeps
    firing with nothing to run. *)
Theorem idle_queue_rearmed q q' :
  (forall k, 0 <= clock k < 2 ^ 63) ->
  Inv q -> handleRead q = Ok q' -> timers_ q' = [] ->
  head (settimes_ q') = Some (0, 100000).
Proof.
  intros Hck HI H Hnil.
  destruct (handleRead_inv q q' HI H) as (A & qc & _ & _ & _ & _ & (qr & Hres & ->) & _).
  unfold reset in Hres. apply bind_ok in Hres as (q1 & _ & Hres). simpl in Hnil.
  destruct (timers_ q1) as [|e l] eqn:Ht.
  - simpl in Hres. rewrite resetTimerfd_prog in Hres;
      [|unfold is_time, invalid; lia|specialize (Hck (ticks_ q1)); unfold is_time; lia].
    injection Hres as <-. simpl. unfold delay_us, invalid.
    assert (0 <= microSecondsSinceEpoch (clock (ticks_ q1))).
    { unfold microSecondsSinceEpoch. apply Z.quot_pos; [apply Hck|lia]. }
    change (microSecondsSinceEpoch 0) with 0. rewrite Z.max_l by lia. reflexivity.
  - exfalso. apply bind_ok in Hres as (nx & _ & Hres).
    assert (timers_ qr = timers_ q1); [|congruence].
    destruct (valid nx); [|by injection Hres as <-].
    unfold resetTimerfd, now in Hres. apply bind_ok in Hres as (ts & _ & Hres).
    by injection Hres as <-.
Qed.
End life.

(** ** A concrete environment

    A clock that reads 1 s, 2 s, ... after the epoch (up to 2^62 ns), a bump allocator, and
    callbacks by number: 1 cancels the timer at address 1 with sequence 0, 2
    cancels the timer (2, 1), and any other does nothing to the queue. *)

Definition bump (h : gmap Z Timer) : Z := 1 + foldr Z.max 0 (fst <$> map_to_list h).

Lemma bump_fresh h : 0 < bump h /\ h !! bump h = None.
Proof.
  unfold bump. set (l := fst <$> map_to_list h).
  assert (Hmax : forall a, a ∈ l -> a <= foldr Z.max 0 l).
  { induction l as [|b l IH]; intros a; simpl; [by intros ?%not_elem_of_nil|].
    intros [->|Ha]%elem_of_cons; [lia|]. specialize (IH a Ha). lia. }
  assert (0 <= foldr Z.max 0 l) by (clear; induction l; simpl; lia).
  split; [lia|]. apply eq_None_not_Some. intros [tm Htm].
  assert (1 + foldr Z.max 0 l ∈ l); [|apply Hmax in H0; lia].
  apply list_elem_of_fmap. eexists (_, tm). split; [|by apply elem_of_map_to_list]. done.
Qed.

#[local] Instance demo_env : Env := {|
  clock k := Z.min (2 ^ 62) (1000000000 * (Z.of_nat k + 1));
  alloc := bump;
  alloc_fresh := bump_fresh;
  run_callback cb _ :=
    if cb =? 1 then [Cancel (1, 0)] else if cb =? 2 then [Cancel (2, 1)] else []
|}.

Definition one_second : double := double_of_Z 1.

(** A periodic timer that cancels itself, then two one-shot timers. *)
Definition demo_queue : t :=
  match step init (EvAdd 1 1500000000 one_second) with
  | Ok q1 =>
      match step q1 (EvAdd 0 1600000000 (S754_zero false)) with
      | Ok q2 =>
          match step q2 (EvAdd 7 9000000000 one_second) with Ok q3 => q3 | Err _ => init end
      | Err _ => init
      end
  | Err _ => init
  end.

Lemma demo_reachable : reachable demo_queue.
Proof.
  apply (reach_step (match step init (EvAdd 1 1500000000 one_second) with
    | Ok q1 => match step q1 (EvAdd 0 1600000000 (S754_zero false)) with
               | Ok q2 => q2 | Err _ => init end | Err _ => init end)
    (EvAdd 7 9000000000 one_second)); [|vm_compute; reflexivity].
  apply (reach_step (match step init (EvAdd 1 1500000000 one_second) with
    | Ok q1 => q1 | Err _ => init end) (EvAdd 0 1600000000 (S754_zero false)));
    [|vm_compute; reflexivity].
  apply (reach_step init (EvAdd 1 1500000000 one_second)); [constructor|vm_compute; reflexivity].
Qed.

Lemma demo_inv : Inv demo_queue.
Proof. apply reachable_inv, demo_reachable. Qed.

Lemma queue_invariant_witness :
  timers_ demo_queue = [(1500000000, 1); (1600000000, 2); (9000000000, 3)] /\
  sizes_equal demo_queue = true.
Proof.
  split; [vm_compute; reflexivity|].
  exact (proj1 (queue_invariant demo_queue demo_reachable)).
Defined.

Lemma getExpired_correct_witness :
  getExpired demo_queue 1600000000 = Err AssertFailed /\
  fst <$> getExpired demo_queue 1550000000 = Ok [(1500000000, 1)].
Proof.
  split.
  - pose proof (getExpired_correct demo_queue 1600000000 demo_inv) as H.
    rewrite bool_decide_true in H by (apply (bool_decide_unpack _); vm_compute; exact I). exact H.
  - vm_compute. reflexivity.
Defined.

Lemma cancelInLoop_correct_witness :
  is_ok (cancelInLoop demo_queue (1, 0)) = true /\
  cancelInLoop demo_queue (3, 2) = Err AssertFailed.
Proof.
  split.
  - pose proof (cancelInLoop_correct demo_queue 1 0 demo_inv) as H.
    rewrite !bool_decide_true in H by (apply (bool_decide_unpack _); vm_compute; exact I).
    destruct H as (q' & E & _). rewrite E. reflexivity.
  - pose proof (cancelInLoop_correct demo_queue 3 2 demo_inv) as H.
    rewrite bool_decide_true in H by (apply (bool_decide_unpack _); vm_compute; exact I).
    rewrite bool_decide_false in H; [exact H|].
    apply (bool_decide_unpack _); vm_compute; exact I.
Defined.

(** The queue after its first expiration. *)
Definition demo_expired : t :=
  match handleRead demo_queue with Ok q' => q' | Err _ => init end.

Lemma handleRead_correct_witness :
  clock (ticks_ demo_queue) = 2000000000 /\
  handleRead demo_queue = Ok demo_expired /\ ran_ demo_expired = [2; 1] /\
  timers_ demo_expired = [(9000000000, 3)].
Proof.
  split; [vm_compute; reflexivity|].
  assert (H : handleRead demo_queue = Ok demo_expired) by (vm_compute; reflexivity).
  split; [exact H|]. split; [|vm_compute; reflexivity].
  destruct (handleRead_correct demo_queue demo_expired demo_inv H) as (_ & Hr & _).
  rewrite Hr. vm_compute. reflexivity.
Defined.

Lemma self_cancel_stops_witness : 1 ∉ snd <$> timers_ demo_expired.
Proof.
  apply (self_cancel_stops demo_queue demo_expired 1500000000 1
    (mkTimer 1 1500000000 one_second true 0)).
  - exact demo_inv.
  - vm_compute. reflexivity.
  - apply elem_of_cons. left. vm_compute. reflexivity.
  - vm_compute. reflexivity.
  - vm_compute. reflexivity.
  - intros q1. apply elem_of_cons. left. reflexivity.
Defined.

Lemma addTimer_correct_witness :
  exists a q', addTimer demo_queue 0 1000 (S754_zero false) = Ok ((a, 3), q') /\
    head (settimes_ q') = Some (0, 100000).
Proof.
  destruct (addTimer_correct demo_queue 0 1000 (S754_zero false))
    as (a & q' & E & _ & _ & _ & _ & Hs);
    [exact demo_inv | unfold is_time; lia | vm_compute; intuition discriminate |].
  exists a, q'. split; [exact E|]. rewrite Hs. vm_compute. reflexivity.
Defined.

Lemma idle_queue_rearmed_witness :
  exists q q', handleRead q = Ok q' /\ timers_ q' = [] /\
    head (settimes_ q') = Some (0, 100000).
Proof.
  pose (q1 := match step init (EvAdd 0 1500000000 (S754_zero false)) with
              | Ok q => q | Err _ => init end).
  pose (q2 := match handleRead q1 with Ok q => q | Err _ => init end).
  exists q1, q2.
  assert (H : handleRead q1 = Ok q2) by (vm_compute; reflexivity).
  split; [exact H|]. split; [vm_compute; reflexivity|].
  apply (idle_queue_rearmed q1 q2).
  - intros k. simpl. lia.
  - apply reachable_inv, (reach_step init (EvAdd 0 1500000000 (S754_zero false)));
      [constructor|vm_compute; reflexivity].
  - exact H.
  - vm_compute. reflexivity.
Defined.

End TimerQueue.
