(* ===== verification/LoopTimers.v ===== *)
(** * LoopTimers: [runAt], [runAfter], [runEvery] and [cancel] of a loop
      ([EventLoop.cpp], over [TimerQueue])

    The calls as the loop's own thread makes them; a delay is a [double] of
    seconds.  The lemmas follow one timer from its call through the next
    expiration of the queue; [TimerHistory] follows it through any number. *)

From Stdlib Require Import SpecFloat.
From S2P Require Import Prelude StdSet Timestamp TimerQueue.

Module LoopTimers.
Import TimerQueue.

Section timers.
Context `{E : Env}.

Definition runAt (q : t) (time : Timestamp) (cb : Z) : res (TimerId * t) :=
  addTimer q cb time (S754_zero false).

Definition runAfter (q : t) (delay : double) (cb : Z) : res (TimerId * t) :=
  let '(n, q) := now q in
  time ← addTime n delay ;
  runAt q time cb.

Definition runEvery (q : t) (interval : double) (cb : Z) : res (TimerId * t) :=
  let '(n, q) := now q in
  time ← addTime n interval ;
  addTimer q cb time interval.

Definition cancel (q : t) (timerId : TimerId) : res t := cancelInLoop q timerId.

(** ** What one call does to a timer that it does not name *)

Lemma addTimer_entry q cb when interval a s q' :
  Inv q -> addTimer q cb when interval = Ok ((a, s), q') ->
  Inv q' /\ s = s_numCreated_ q /\ 0 < a /\ heap_ q !! a = None /\
  heap_ q' !! a = Some (newTimer cb when interval s) /\
  activeTimers_ q' ≡ₚ (a, s) :: activeTimers_ q /\
  cancelingTimers_ q' = cancelingTimers_ q /\ ran_ q' = ran_ q.
Proof.
  intros HI H. destruct (addTimer_inv q cb when interval (a, s) q' HI H) as [HI' Hf].
  unfold addTimer in H. apply bind_ok in H as (q2 & H & Heq).
  destruct (alloc_fresh (heap_ q)) as [Hpos Hn]. set (a0 := alloc (heap_ q)) in *.
  set (tm := newTimer cb when interval (s_numCreated_ q)) in *. set (q0 := set_heap q _ _) in *.
  injection Heq as Ea Es Eq. subst q2. change (sequence_ tm) with (s_numCreated_ q) in Es. subst a s.
  assert (Hh : heap_ q0 !! a0 = Some tm) by apply lookup_insert_eq.
  assert (Hna : a0 ∉ active_addrs q0).
  { intros (p & Hp & Hpa)%list_elem_of_fmap. destruct (inv_seq q HI p Hpa) as (tm' & Hh' & _). congruence. }
  assert (HI0 : Inv q0).
  { apply inv_heap_ext; [done| |].
    - intros p Hp. rewrite lookup_insert_ne; [done|]. intros Hap.
      destruct (inv_seq q HI p Hp) as (tm' & Hh' & _). congruence.
    - intros b. destruct (decide (a0 = b)) as [<-|]; [done|].
      rewrite lookup_insert_ne by done. apply (inv_null q HI). }
  unfold addTimerInLoop in H. apply bind_ok in H as ([b q1] & Hi & H).
  destruct (insert_inv q0 a0 tm b q1 HI0 Hh Hna Hi) as (_ & Hh1 & Hc1 & _ & Ha1 & _ & _ & Hr1).
  assert (Hsame : heap_ q' = heap_ q1 /\ activeTimers_ q' = activeTimers_ q1 /\
    cancelingTimers_ q' = cancelingTimers_ q1 /\ ran_ q' = ran_ q1).
  { destruct b; cbn [fst snd] in H; [|by injection H as <-].
    apply bind_ok in H as (tm' & _ & H). unfold resetTimerfd, now in H.
    apply bind_ok in H as (ts & _ & H). by injection H as <-. }
  destruct Hsame as (-> & -> & -> & ->). by rewrite Hh1, Hc1, Hr1, Ha1.
Qed.

Lemma cancelInLoop_others q a s q' :
  Inv q -> cancelInLoop q (a, s) = Ok q' ->
  (forall p, p ∈ activeTimers_ q -> p <> (a, s) -> p ∈ activeTimers_ q') /\
  (forall p, p ∈ cancelingTimers_ q' -> p ∈ cancelingTimers_ q \/ p = (lock q a, s)).
Proof.
  intros HI H. split.
  - intros p Hp Hne. destruct (decide ((a, s) ∈ activeTimers_ q)) as [Ha|Ha].
    + destruct (cancelInLoop_active q a s HI Ha) as (q1 & _ & _ & HA & _ & _ & _ & Heq).
      rewrite Heq in H. case_bool_decide; [|done]. simplify_eq.
      rewrite HA in Hp. by apply elem_of_cons in Hp as [?|?].
    + destruct (cancelInLoop_inactive q a s HI Ha) as (q1 & _ & _ & Heq & _ & HA & _).
      rewrite Heq in H. simplify_eq. by rewrite HA.
  - intros p Hp. unfold cancelInLoop in H. apply bind_ok in H as ([] & _ & H).
    apply bind_ok in H as (q1 & H & H'). apply bind_ok in H' as ([] & _ & H'). injection H' as ->.
    cbn [fst snd] in H. destruct (SSet.find id pair_lt (lock q a, s) (activeTimers_ q)) as [it|].
    + left. inv_ok. exact Hp.
    + destruct (callingExpiredTimers_ q); injection H as <-; [|by left].
      apply (SSet.elem_of_insert id pair_lt) in Hp as [->|Hp]; [by right|by left].
Qed.

(** The timer [(a, s)] is where it was, in the set and among the cancellations. *)
Definition untouched (a s : Z) (q q' : t) : Prop :=
  ((a, s) ∈ activeTimers_ q -> (a, s) ∈ activeTimers_ q') /\
  ((a, s) ∈ cancelingTimers_ q' -> (a, s) ∈ cancelingTimers_ q).

Lemma do_action_untouched q x q' a s :
  Inv q -> 0 < a -> x <> Cancel (a, s) -> do_action q x = Ok q' -> untouched a s q q'.
Proof.
  intros HI Ha Hx H. destruct x as [cb when interval|[a' s']]; cbn [do_action] in H.
  - destruct (addTimer q cb when interval) as [[[a' s'] q1]|] eqn:Had; simplify_eq/=.
    destruct (addTimer_entry _ _ _ _ _ _ _ HI Had) as (_ & _ & _ & _ & _ & HA & HC & _).
    split; [rewrite HA; intros; apply elem_of_cons; by right|by rewrite HC].
  - destruct (cancelInLoop_others q a' s' q' HI H) as [H1 H2]. split.
    + intros Hin. apply H1; [done|]. congruence.
    + intros [Hin|Heq]%H2; [done|]. unfold lock in Heq. destruct (alive q a'); simplify_eq; lia.
Qed.

Lemma do_actions_untouched l a s : forall q q',
  Inv q -> 0 < a -> Cancel (a, s) ∉ l -> do_actions q l = Ok q' -> untouched a s q q'.
Proof.
  induction l as [|x l IH]; intros q q' HI Ha Hl H; cbn [do_actions] in H; [simplify_eq; by split|].
  apply bind_ok in H as (q1 & H1 & H2). apply not_elem_of_cons in Hl as [Hx Hl].
  destruct (do_action_inv q x q1 HI H1) as [HI1 _].
  destruct (do_action_untouched q x q1 a s HI Ha) as [A1 A2]; [congruence|done|].
  destruct (IH q1 q' HI1 Ha Hl H2) as [B1 B2]. split; auto.
Qed.

Lemma run_expired_untouched (ex : list Entry) a s : forall q q',
  Inv q -> 0 < a -> (forall cb q1, Cancel (a, s) ∉ run_callback cb q1) ->
  run_expired q ex = Ok q' -> untouched a s q q'.
Proof.
  induction ex as [|e ex IH]; intros q q' HI Ha Hcb H; cbn [run_expired] in H; [simplify_eq; by split|].
  apply bind_ok in H as (tm & _ & H). apply bind_ok in H as (q1 & H1 & H2).
  assert (HI0 : Inv (set_ran q (snd e :: ran_ q))) by by apply inv_set_ran.
  destruct (do_actions_inv _ _ _ HI0 H1) as [HI1 _].
  destruct (do_actions_untouched _ a s _ q1 HI0 Ha (Hcb _ _) H1) as [A1 A2].
  destruct (IH q1 q' HI1 Ha Hcb H2) as [B1 B2]. split; auto.
Qed.

(** ** One expiration of the queue, seen from one timer *)

(** [handleRead] returns only when no timer expires at the very reading of its clock. *)
Lemma handleRead_not_now q q' e :
  Inv q -> handleRead q = Ok q' -> e ∈ timers_ q -> fst e <> clock (ticks_ q).
Proof.
  intros HI H He Heq. unfold handleRead, now in H. apply bind_ok in H as (r & H & _).
  assert (HI0 : Inv (set_ticks q (S (ticks_ q)))) by (destruct HI; by split).
  pose proof (getExpired_ok _ (clock (ticks_ q)) HI0) as Hg. rewrite bool_decide_true in Hg; [congruence|].
  apply Exists_exists. by exists e.
Qed.

Lemma expired_iff q (a s : Z) tm :
  Inv q -> (a, s) ∈ activeTimers_ q -> heap_ q !! a = Some tm ->
  (expiration_ tm, a) ∈ timers_ q /\
  forall n, a ∈ (snd <$> filter (fun e => fst e < n) (timers_ q)) <-> expiration_ tm < n.
Proof.
  intros HI Ha Hh. destruct (inv_seq q HI _ Ha) as (tm' & Hh' & Hs). cbn [fst snd] in *. simplify_eq.
  assert (Hin : (expiration_ tm, a) ∈ timers_ q) by (apply elem_timers; [done|by exists tm]).
  split; [exact Hin|]. intros n. rewrite list_elem_of_fmap. split.
  - intros ([w b] & Hb & [Hlt Hw]%list_elem_of_filter). cbn [fst snd] in *. subst b.
    apply elem_timers in Hw as (tm' & Hh2 & He & _); [|done]. cbn [fst snd] in *. by simplify_eq.
  - intros Hlt. exists (expiration_ tm, a). split; [done|]. by apply list_elem_of_filter.
Qed.

Lemma active_filtered q n A ex (a s : Z) tm :
  Inv q -> Inv (firing q n ex A) -> (a, s) ∈ activeTimers_ q -> heap_ q !! a = Some tm ->
  n < expiration_ tm -> (a, s) ∈ A.
Proof.
  intros HI HIf Ha Hh Hlt. destruct (expired_iff q a s tm HI Ha Hh) as [Hin _].
  destruct (inv_seq q HI _ Ha) as (tm' & Hh' & Hs). cbn [fst snd] in *. simplify_eq.
  assert (Hf : (expiration_ tm, a) ∈ timers_ (firing q n ex A)) by (simpl; apply list_elem_of_filter; by split).
  apply elem_timers in Hf as (tm2 & Hh2 & _ & HA); [|done]. cbn [fst snd] in *. simpl in HA, Hh2. congruence.
Qed.

Lemma one_expiration q q2 (a s : Z) tm :
  let n := clock (ticks_ q) in
  Inv q -> (a, s) ∈ activeTimers_ q -> heap_ q !! a = Some tm -> handleRead q = Ok q2 ->
  (forall cb q', Cancel (a, s) ∉ run_callback cb q') ->
  exists fired, ran_ q2 = fired ++ ran_ q /\ NoDup fired /\
    if expiration_ tm <? n then
      a ∈ fired /\
      (if repeat_ tm then forall next, addTime n (interval_ tm) = Ok next -> (next, a) ∈ timers_ q2
       else a ∉ snd <$> timers_ q2)
    else a ∉ fired /\ (expiration_ tm, a) ∈ timers_ q2.
Proof.
  intros n HI Ha Hh H Hcb. destruct (expired_iff q a s tm HI Ha Hh) as [Hin Hex].
  destruct (handleRead_inv q q2 HI H) as (A & qc & HIf & Hrun & Hr & HIc & _ & HI2 & Hp & Hran & _).
  fold n in HIf, Hrun, Hr, Hp, Hran. set (ex := filter _ _) in *.
  assert (Hpos : 0 < a) by (apply (inv_null q HI); by exists tm).
  destruct (inv_seq q HI _ Ha) as (tm' & Hh' & Hs). cbn [fst snd] in *. simplify_eq.
  destruct (run_expired_inv _ ex qc HIf Hr) as [_ Hfc].
  destruct (run_expired_untouched ex a (sequence_ tm) _ qc HIf Hpos Hcb Hr) as [Hact Hcan].
  assert (Hhc : heap_ qc !! a = Some tm) by (by apply (fr_heap _ _ Hfc)).
  exists (reverse (snd <$> ex)). split; [done|]. split.
  { rewrite reverse_Permutation. unfold ex.
    eapply sublist_NoDup; [apply (timers_addrs_nodup q HI)|]. apply fmap_sublist, sublist_filter. }
  destruct (Z.ltb_spec (expiration_ tm) n) as [Hlt|Hge].
  - assert (Hx : a ∈ snd <$> ex) by by apply Hex.
    split; [by apply elem_of_reverse|]. apply list_elem_of_fmap in Hx as ([w b] & Hb & Hx). cbn [snd] in Hb. subst b.
    destruct (repeat_ tm) eqn:Hrep.
    + intros next Hn. rewrite Hp. apply elem_of_app. left. apply list_elem_of_omap.
      exists (w, a). split; [done|]. unfold renew. cbn [snd]. rewrite Hh, Hrep, bool_decide_true; [by rewrite Hn|].
      apply (SSet.find_none id pair_lt); [apply (inv_canceling qc HIc)|]. intros p Hpc Heq. unfold id in Heq. subst p.
      apply Hcan in Hpc. by apply not_elem_of_nil in Hpc.
    + rewrite Hp, fmap_app, elem_of_app. intros [Hy|Hy].
      * apply list_elem_of_fmap in Hy as ([w' b] & Hb & Hy). cbn [snd] in Hb. subst b.
        apply list_elem_of_omap in Hy as ([w2 b] & _ & Hy). unfold renew in Hy. cbn [snd] in Hy.
        destruct (heap_ q !! b) as [tm'|] eqn:Hb; [|done]. destruct (repeat_ tm' && _) eqn:Hc; [|done].
        destruct (addTime n (interval_ tm')); simplify_eq. by rewrite Hrep in Hc.
      * rewrite timers_addrs in Hy by done. destruct (Hrun _ Hx) as (_ & _ & Hsome & Hna).
        apply Hna. by apply (fr_active _ _ Hfc).
  - assert (Hne := handleRead_not_now q q2 _ HI H Hin). cbn [fst] in Hne. fold n in Hne.
    split; [intros Hx%elem_of_reverse%Hex; lia|]. rewrite Hp. apply elem_of_app. right.
    apply elem_timers; [done|]. exists tm. cbn [fst snd]. split_and!; [done..|].
    apply Hact, (active_filtered q n A ex a _ tm); try done. lia.
Qed.

End timers.

End LoopTimers.
