(* ===== verification/TimerHistory.v ===== *)
(** * TimerHistory: a timer of [runAfter] or [runEvery] through any history of its
      queue ([EventLoop.cpp], [TimerQueue.cpp])

    [LoopTimers] follows a timer through one expiration; here other timers are
    added and cancelled, other queues and threads read the clock, and the queue
    expires any number of times.  What the history does to the timer depends only
    on the readings of the clock at the expirations: [follow]. *)

From Stdlib Require Import SpecFloat.
From S2P Require Import Prelude StdSet Timestamp TimerQueue LoopTimers.

Module TimerHistory.
Import TimerQueue LoopTimers.

Section history.
Context `{E : Env}.

Fixpoint steps (q : t) (es : list event) : res t :=
  match es with
  | [] => Ok q
  | e :: es => q ← step q e ; steps q es
  end.

(** The clock at each expiration of the queue. *)
Fixpoint expirations (q : t) (es : list event) : list Timestamp :=
  match es with
  | [] => []
  | e :: es =>
      (match e with EvExpire => [clock (ticks_ q)] | _ => [] end) ++
      match step q e with Ok q' => expirations q' es | Err _ => [] end
  end.

(** How often a timer that is due at [w] runs when its queue expires at [ns], and
    when it is due afterwards. *)
Fixpoint follow (repeat : bool) (interval : double) (w : Timestamp) (ns : list Timestamp) :
    nat * option Timestamp :=
  match ns with
  | [] => (0%nat, Some w)
  | n :: ns =>
      if w <? n then
        match repeat, addTime n interval with
        | true, Ok next => let r := follow repeat interval next ns in (S (fst r), snd r)
        | _, _ => (1%nat, None)
        end
      else follow repeat interval w ns
  end.

Definition runs (a : Z) (l : list Z) : nat := length (filter (fun b => b = a) l).

Lemma runs_app a l1 l2 : runs a (l1 ++ l2) = (runs a l1 + runs a l2)%nat.
Proof. unfold runs. by rewrite filter_app, length_app. Qed.

Lemma runs_none a l : a ∉ l -> runs a l = 0%nat.
Proof. intros Ha. unfold runs. rewrite filter_none; [done|]. by intros b Hb ->. Qed.

Lemma runs_one a l : NoDup l -> a ∈ l -> runs a l = 1%nat.
Proof.
  intros Hn (l1 & l2 & ->)%list_elem_of_split. apply NoDup_app in Hn as (_ & Hn1 & Hn2).
  apply NoDup_cons in Hn2 as [Hn2 _]. rewrite (runs_app a l1 (a :: l2)).
  rewrite (runs_none a l1) by (intros Hin; apply (Hn1 a Hin); by left).
  unfold runs. rewrite filter_cons_True by done. simpl. f_equal. by apply (runs_none a l2).
Qed.

(** ** What an expiration does to the objects *)

(** The same timer, but for its time. *)
Definition like (tm tm' : Timer) : Prop :=
  sequence_ tm' = sequence_ tm /\ repeat_ tm' = repeat_ tm /\ interval_ tm' = interval_ tm.

Definition alike (h h' : gmap Z Timer) : Prop :=
  forall a tm, h !! a = Some tm -> exists tm', h' !! a = Some tm' /\ like tm tm'.

Lemma alike_refl h : alike h h.
Proof. intros a tm H. by exists tm. Qed.

Lemma alike_trans h1 h2 h3 : alike h1 h2 -> alike h2 h3 -> alike h1 h3.
Proof.
  intros H1 H2 a tm (tm' & H & L1 & L2 & L3)%H1. apply H2 in H as (tm2 & H & M1 & M2 & M3).
  exists tm2. split; [done|]. split_and!; congruence.
Qed.

Lemma insert_heap q a r : insert q a = Ok r -> heap_ (snd r) = heap_ q.
Proof. unfold insert. intros H. by inv_ok. Qed.

Lemma reinsert_alike (ex : list Entry) n : forall q q', reinsert q ex n = Ok q' -> alike (heap_ q) (heap_ q').
Proof.
  induction ex as [|e ex IH]; intros q q' H; simpl in H; [inv_ok; apply alike_refl|].
  apply bind_ok in H as (tm & Hl & H). apply bind_ok in H as (q1 & H1 & H).
  apply (alike_trans _ (heap_ q1)); [|by apply IH].
  unfold lookup_timer in Hl. destruct (heap_ q !! snd e) as [tm0|] eqn:Hh; [|done]. injection Hl as ->.
  destruct (repeat_ tm && _); [|inv_ok; apply alike_refl].
  apply bind_ok in H1 as (tm' & Hr & H1).
  destruct (insert _ (snd e)) as [r|] eqn:Hi; [|done]. injection H1 as <-. rewrite (insert_heap _ _ _ Hi). simpl.
  unfold restart in Hr. apply bind_ok in Hr as (x & _ & Hr). injection Hr as <-.
  intros a tm2 Ha. destruct (decide (snd e = a)) as [<-|Hne].
  - rewrite lookup_insert_eq. eexists. split; [done|]. assert (tm2 = tm) as -> by congruence. by split_and!.
  - rewrite lookup_insert_ne by done. exists tm2. by split_and!.
Qed.

Lemma handleRead_alike q q' : Inv q -> handleRead q = Ok q' -> alike (heap_ q) (heap_ q').
Proof.
  intros HI H. destruct (handleRead_inv q q' HI H) as (A & qc & HIf & _ & Hr & _ & (qr & Hres & ->) & _).
  destruct (run_expired_inv _ _ qc HIf Hr) as [_ Hf].
  apply (alike_trans _ (heap_ qc)); [intros a tm Ha; exists tm; split; [by apply (fr_heap _ _ Hf)|done]|].
  unfold reset in Hres. apply bind_ok in Hres as (q1 & H1 & Hres). apply reinsert_alike in H1. simpl in H1.
  apply (alike_trans _ (heap_ q1) _ H1). apply bind_ok in Hres as (nx & _ & Hres).
  destruct (valid nx); [|injection Hres as <-; apply alike_refl].
  unfold resetTimerfd, now in Hres. apply bind_ok in Hres as (ts & _ & Hres). injection Hres as <-. apply alike_refl.
Qed.

(** ** A timer that is gone *)

Definition gone (q : t) (a : Z) : Prop := is_Some (heap_ q !! a) /\ a ∉ active_addrs q.

Lemma gone_framed q q' a : framed q q' -> gone q a -> gone q' a.
Proof.
  intros Hf [[tm Hh] Ha]. split; [exists tm; by apply (fr_heap _ _ Hf)|].
  intros Hin. apply Ha. apply (fr_active _ _ Hf); [by exists tm|done].
Qed.

Lemma gone_expired q q' a : Inv q -> gone q a -> handleRead q = Ok q' -> gone q' a /\
  exists new, ran_ q' = new ++ ran_ q /\ a ∉ new.
Proof.
  intros HI [[tm Hh] Ha] H.
  destruct (handleRead_inv q q' HI H) as (A & qc & HIf & _ & Hr & HIc & _ & HI' & Hp & Hran & _).
  set (ex := filter (fun e => fst e < clock (ticks_ q)) (timers_ q)) in *.
  assert (Hex : a ∉ snd <$> ex).
  { intros (e & -> & [_ He]%list_elem_of_filter)%list_elem_of_fmap. apply Ha.
    rewrite <- (timers_addrs q) by done. apply list_elem_of_fmap. by exists e. }
  split; [|exists (reverse (snd <$> ex)); split; [done|by rewrite elem_of_reverse]]. split.
  - destruct (handleRead_alike q q' HI H a tm Hh) as (tm' & ? & _). by exists tm'.
  - rewrite <- (timers_addrs q'), Hp, fmap_app, elem_of_app by done. intros [Hin|Hin].
    + apply list_elem_of_fmap in Hin as ([w b] & -> & Hin). apply list_elem_of_omap in Hin as (e & He & Hren).
      unfold renew in Hren. apply Hex, list_elem_of_fmap. exists e. split; [|done]. cbn [snd].
      destruct (heap_ q !! snd e); [|done]. destruct (_ && _); [|done]. destruct (addTime _ _); by simplify_eq.
    + rewrite timers_addrs in Hin by done. destruct (run_expired_inv _ ex qc HIf Hr) as [_ Hf].
      apply (fr_active _ _ Hf) in Hin; [|by exists tm]. apply Ha.
      change (a ∈ active_addrs (firing q (clock (ticks_ q)) ex A)) in Hin.
      rewrite <- timers_addrs in Hin by done. rewrite <- timers_addrs by done.
      apply list_elem_of_fmap in Hin as (e & -> & [_ He]%list_elem_of_filter).
      apply list_elem_of_fmap. by exists e.
Qed.

(** Adding, cancelling and what happens elsewhere run no timer. *)
Lemma step_framed q e q' : Inv q -> step q e = Ok q' -> e <> EvExpire -> Inv q' /\ framed q q'.
Proof.
  intros HI H He. destruct e as [cb w i|id| |c k]; simpl in H; [|..]; try done.
  - destruct (addTimer q cb w i) as [[id q1]|] eqn:Ha; [|done]. injection H as <-.
    by apply addTimer_inv in Ha.
  - by apply cancelInLoop_inv in H.
  - injection H as <-. split; [|by split].
    apply inv_heap_ext; [by destruct HI; split|done|apply (inv_null q HI)].
Qed.

Lemma step_keeps_inv q e q' : Inv q -> step q e = Ok q' -> Inv q'.
Proof.
  intros HI H. destruct e as [cb w i|id| |c k]; [by eapply step_framed..| |by eapply step_framed].
  simpl in H. by destruct (handleRead_inv q q' HI H) as (A & qc & _ & _ & _ & _ & _ & HI' & _).
Qed.

Lemma steps_keep_inv es : forall q q', Inv q -> steps q es = Ok q' -> Inv q'.
Proof.
  induction es as [|e es IH]; intros q q' HI H; simpl in H; [by inv_ok|].
  apply bind_ok in H as (q1 & H1 & H). apply (IH q1); [by apply (step_keeps_inv q e)|done].
Qed.

Lemma gone_steps es : forall q q' a, Inv q -> gone q a -> steps q es = Ok q' ->
  gone q' a /\ exists new, ran_ q' = new ++ ran_ q /\ a ∉ new.
Proof.
  induction es as [|e es IH]; intros q q' a HI Hg H; simpl in H.
  { inv_ok. split; [done|]. exists []. split; [done|apply not_elem_of_nil]. }
  apply bind_ok in H as (q1 & H1 & H).
  assert (Hs : gone q1 a /\ exists new, ran_ q1 = new ++ ran_ q /\ a ∉ new).
  { destruct e; [..|by apply gone_expired|]; (destruct (step_framed q _ q1 HI H1) as [_ Hf]; [done|]);
      (split; [by apply (gone_framed q)|exists []; split; [apply Hf|apply not_elem_of_nil]]). }
  destruct Hs as (Hg1 & new1 & Hr1 & Hn1).
  destruct (IH q1 q' a (step_keeps_inv q e q1 HI H1) Hg1 H) as (Hg' & new & Hr & Hn).
  split; [done|]. exists (new ++ new1). rewrite Hr, Hr1, app_assoc. split; [done|]. set_solver.
Qed.

(** ** A timer that waits *)

Record waits (q : t) (a s : Z) (w : Timestamp) (rep : bool) (interval : double) : Prop := {
  wait_active : (a, s) ∈ activeTimers_ q;
  wait_timer : exists tm, heap_ q !! a = Some tm /\ sequence_ tm = s /\ expiration_ tm = w /\
    repeat_ tm = rep /\ interval_ tm = interval
}.

Lemma waits_entry q a s w rep interval :
  Inv q -> waits q a s w rep interval -> (w, a) ∈ timers_ q.
Proof. intros HI [H1 (tm & Hh & <- & <- & _)]. apply elem_timers; [done|]. by exists tm. Qed.

(** The timer is the one whose entry is in [timers_]. *)
Lemma entry_waits q q' a s w w' rep interval :
  Inv q' -> alike (heap_ q) (heap_ q') -> waits q a s w rep interval -> (w', a) ∈ timers_ q' ->
  waits q' a s w' rep interval.
Proof.
  intros HI Hal [H1 (tm & Hh & Hs & Hw & Hr & Hi)] Hin.
  destruct (Hal a tm Hh) as (tm' & Hh' & L1 & L2 & L3).
  apply elem_timers in Hin as (tm2 & Hh2 & He & Ha); [|done]. cbn [fst snd] in *.
  assert (tm2 = tm') as -> by congruence. split.
  - by rewrite <- Hs, <- L1.
  - exists tm'. split_and!; congruence.
Qed.

Section one_timer.
Context (a s : Z) (rep : bool) (interval : double).
Context (Hcb : forall cb q, Cancel (a, s) ∉ run_callback cb q).

Lemma waits_step q e q' w :
  Inv q -> waits q a s w rep interval -> e <> EvExpire -> e <> EvCancel (a, s) -> step q e = Ok q' ->
  waits q' a s w rep interval /\ ran_ q' = ran_ q.
Proof.
  intros HI [H1 (tm & Hh & Ht)] He Hc H. destruct (step_framed q e q' HI H He) as [HI' Hf].
  split; [|apply Hf]. split; [|exists tm; split; [by apply (fr_heap _ _ Hf)|done]].
  destruct e as [cb when i|[a' s']| |c k]; simpl in H; [| |done|by injection H as <-].
  - destruct (addTimer q cb when i) as [[[a' s'] q1]|] eqn:Had; [|done]. injection H as <-.
    destruct (addTimer_entry _ _ _ _ _ _ _ HI Had) as (_ & _ & _ & _ & _ & HA & _).
    rewrite HA. apply elem_of_cons. by right.
  - apply (proj1 (cancelInLoop_others q a' s' q' HI H)); [done|]. congruence.
Qed.

(** One expiration. *)
Lemma waits_expired q q' w :
  let n := clock (ticks_ q) in
  Inv q -> waits q a s w rep interval -> handleRead q = Ok q' ->
  exists new, ran_ q' = new ++ ran_ q /\
    if w <? n then runs a new = 1%nat /\
      match rep, addTime n interval with
      | true, Ok next => waits q' a s next rep interval
      | _, _ => gone q' a
      end
    else runs a new = 0%nat /\ waits q' a s w rep interval.
Proof.
  intros n HI HW H. destruct HW as [H1 (tm & Hh & Hs & Hw & Hr & Hi)] eqn:EW. clear EW.
  pose proof (handleRead_alike q q' HI H) as Hal.
  destruct (handleRead_inv q q' HI H) as (A & qc & HIf & Hrunning & Hrun & HIc & _ & HI' & Hp & _).
  destruct (one_expiration q q' a s tm HI H1 Hh H Hcb) as (new & Hran & Hnd & Hcase).
  exists new. split; [done|]. fold n in Hcase, Hp, Hrun, Hrunning. rewrite Hw, Hr, Hi in Hcase.
  destruct (Z.ltb_spec w n) as [Hlt|Hge].
  - destruct Hcase as [Hf Hcase]. split; [by apply runs_one|].
    assert (Hg : a ∉ snd <$> timers_ q' -> gone q' a).
    { intros Hn. split; [destruct (Hal a tm Hh) as (tm' & ? & _); by exists tm'|].
      by rewrite <- timers_addrs. }
    destruct rep; [|by apply Hg]. destruct (addTime n interval) as [next|f] eqn:Hadd.
    { by apply (entry_waits q q' a s w); [..|by apply Hcase]. }
    apply Hg. rewrite Hp, fmap_app, elem_of_app. set (ex := filter _ (timers_ q)) in *. intros [Hin|Hin].
    + apply list_elem_of_fmap in Hin as ([w2 b] & -> & Hin). apply list_elem_of_omap in Hin as (e & He & Hren).
      unfold renew in Hren. destruct (heap_ q !! snd e) as [tm2|] eqn:Hb; [|done].
      destruct (_ && _); [|done]. destruct (addTime n (interval_ tm2)) eqn:Ha2; [|done]. simplify_eq/=; congruence.
    + destruct (expired_iff q a s tm HI H1 Hh) as [_ Hex]. assert (Hx : a ∈ snd <$> ex) by (apply Hex; lia).
      apply list_elem_of_fmap in Hx as (e & -> & He). destruct (Hrunning e He) as (_ & _ & Hsome & Hna).
      destruct (run_expired_inv _ ex qc HIf Hrun) as [_ Hfc]. rewrite timers_addrs in Hin by done.
      by apply Hna, (fr_active _ _ Hfc).
  - destruct Hcase as [Hf Hin]. split; [by apply runs_none|]. by apply (entry_waits q q' a s w).
Qed.

(** Any history. *)
Lemma waits_steps es : forall q q' w,
  Inv q -> waits q a s w rep interval -> EvCancel (a, s) ∉ es -> steps q es = Ok q' ->
  let r := follow rep interval w (expirations q es) in
  exists new, ran_ q' = new ++ ran_ q /\ runs a new = fst r /\
    match snd r with Some w' => waits q' a s w' rep interval | None => gone q' a end.
Proof.
  induction es as [|e es IH]; intros q q' w HI HW Hc H; cbn [steps expirations] in *.
  { inv_ok. by exists []. }
  apply bind_ok in H as (q1 & H1 & H). rewrite H1. apply not_elem_of_cons in Hc as [He Hc].
  assert (HI1 := step_keeps_inv q e q1 HI H1).
  assert (Hcase : e <> EvExpire \/ e = EvExpire) by (destruct e; by (left + right)).
  destruct Hcase as [Hne| ->].
  - assert (E0 : (match e with EvExpire => [clock (ticks_ q)] | _ => [] end) = []) by (by destruct e).
    rewrite E0. destruct (waits_step q e q1 w HI HW Hne ltac:(congruence) H1) as [HW1 Hr1].
    destruct (IH q1 q' w HI1 HW1 Hc H) as (new & Hr & Hn & Hw). exists new. by rewrite Hr, Hr1.
  - destruct (waits_expired q q1 w HI HW H1) as (new1 & Hr1 & Hcase). cbn [app follow].
    destruct (w <? clock (ticks_ q)); destruct Hcase as [Hn1 Hcase].
    + assert (Hgone : gone q1 a -> exists new, ran_ q' = new ++ ran_ q /\ runs a new = 1%nat /\ gone q' a).
      { intros Hg. destruct (gone_steps es q1 q' a HI1 Hg H) as (Hg' & new & Hr & Hn).
        exists (new ++ new1). by rewrite Hr, Hr1, app_assoc, runs_app, Hn1, (runs_none a new). }
      destruct rep; [|by apply Hgone]. destruct (addTime (clock (ticks_ q)) interval) as [next|f]; [|by apply Hgone].
      destruct (IH q1 q' next HI1 Hcase Hc H) as (new & Hr & Hn & Hw). exists (new ++ new1).
      rewrite Hr, Hr1, app_assoc, runs_app, Hn1, Hn. cbn [fst snd]. split_and!; [done|lia|done].
    + destruct (IH q1 q' w HI1 Hcase Hc H) as (new & Hr & Hn & Hw). exists (new ++ new1).
      by rewrite Hr, Hr1, app_assoc, runs_app, Hn1, Hn, Nat.add_0_r.
Qed.

End one_timer.

(** The timer a call of [runAfter] or [runEvery] has made. *)
Lemma added_waits q cb when interval a s q1 :
  Inv q -> addTimer (set_ticks q (S (ticks_ q))) cb when interval = Ok ((a, s), q1) ->
  Inv q1 /\ waits q1 a s when (dlt (S754_zero false) interval) interval /\ ran_ q1 = ran_ q.
Proof.
  intros HI H. assert (HI0 : Inv (set_ticks q (S (ticks_ q)))) by (destruct HI; by split).
  destruct (addTimer_entry _ _ _ _ _ _ _ HI0 H) as (HI1 & Hs & _ & _ & Hh & HA & _ & Hran).
  split_and!; [done| |done]. split; [rewrite HA; apply elem_of_cons; by left|].
  eexists. split; [exact Hh|]. by split_and!.
Qed.

Lemma follow_once interval w ns :
  follow false interval w ns =
    if existsb (fun n => w <? n) ns then (1%nat, None) else (0%nat, Some w).
Proof.
  induction ns as [|n ns IH]; [done|]. cbn [follow existsb]. by destruct (w <? n).
Qed.

(** C11. A one-shot timer of [runAfter] that is not cancelled, through any history
    of its queue, in which other timers come and go and the queue expires any number
    of times.  As long as no expiration's clock has passed the start plus the delay
    the timer has not run and waits under that time; once one has, it has run
    exactly once, at the first of them, and is gone from the queue. *)
Theorem runAfter_once q delay cb a s q1 es q2 when :
  reachable q -> addTime (clock (ticks_ q)) delay = Ok when ->
  runAfter q delay cb = Ok ((a, s), q1) -> steps q1 es = Ok q2 ->
  EvCancel (a, s) ∉ es -> (forall cb' q', Cancel (a, s) ∉ run_callback cb' q') ->
  exists new, ran_ q2 = new ++ ran_ q /\
    if existsb (fun n => when <? n) (expirations q1 es)
    then runs a new = 1%nat /\ a ∉ snd <$> timers_ q2
    else runs a new = 0%nat /\ (when, a) ∈ timers_ q2.
Proof.
  intros [HI _]%reachable_inv Hw H Hes Hc Hcb. unfold runAfter, now, runAt in H. rewrite Hw, bind_ret_l in H.
  destruct (added_waits q cb when _ a s q1 HI H) as (HI1 & HW & Hr1).
  destruct (waits_steps a s _ _ Hcb es q1 q2 when HI1 HW Hc Hes) as (new & Hr & Hn & Hend).
  exists new. rewrite Hr, Hr1. split; [done|].
  change (dlt (S754_zero false) (S754_zero false)) with false in *. rewrite follow_once in Hn, Hend.
  pose proof (steps_keep_inv es q1 q2 HI1 Hes) as HI2.
  destruct (existsb _ _); (split; [done|]).
  - rewrite timers_addrs by done. apply Hend.
  - by apply (waits_entry q2 a s when false (S754_zero false)).
Qed.

(** C19. A periodic timer of [runEvery] that is not cancelled, through any history of
    its queue: it has run as often as [follow] counts, which is once at each
    expiration whose clock has passed its time, and each of these puts it back at
    that expiration's clock plus the interval; it waits under the last time so
    computed. *)
Theorem runEvery_repeats q interval cb a s q1 es q2 when :
  reachable q -> addTime (clock (ticks_ q)) interval = Ok when -> dlt (S754_zero false) interval = true ->
  runEvery q interval cb = Ok ((a, s), q1) -> steps q1 es = Ok q2 ->
  EvCancel (a, s) ∉ es -> (forall cb' q', Cancel (a, s) ∉ run_callback cb' q') ->
  let r := follow true interval when (expirations q1 es) in
  exists new, ran_ q2 = new ++ ran_ q /\ runs a new = fst r /\
    match snd r with
    | Some next => (next, a) ∈ timers_ q2
    | None => a ∉ snd <$> timers_ q2
    end.
Proof.
  intros [HI _]%reachable_inv Hw Hpos H Hes Hc Hcb. unfold runEvery, now in H. rewrite Hw, bind_ret_l in H.
  destruct (added_waits q cb when _ a s q1 HI H) as (HI1 & HW & Hr1). rewrite Hpos in HW.
  destruct (waits_steps a s _ _ Hcb es q1 q2 when HI1 HW Hc Hes) as (new & Hr & Hn & Hend).
  exists new. rewrite Hr, Hr1. split_and!; [done..|].
  pose proof (steps_keep_inv es q1 q2 HI1 Hes) as HI2.
  destruct (snd _) as [w'|]; [by apply (waits_entry q2 a s w' true interval)|].
  rewrite timers_addrs by done. apply Hend.
Qed.

End history.

(** ** A clock of whole seconds, and callbacks that do nothing *)

#[local] Instance demo_env : Env := {|
  clock k := Z.min (2 ^ 62) (1000000000 * (Z.of_nat k + 1));
  alloc := bump;
  alloc_fresh := bump_fresh;
  run_callback _ _ := []
|}.

Definition half : double := ddiv (double_of_Z 1) (double_of_Z 2).
Definition demo_call (r : res (TimerId * t)) : t := match r with Ok (_, q) => q | Err _ => init end.

(** Another timer is added, the queue expires, the other timer is cancelled, and the
    queue expires twice more. *)
Definition demo_es : list event :=
  [EvAdd 8 50000000000 half; EvExpire; EvAdd 9 60000000000 half; EvCancel (2, 1); EvExpire; EvExpire].
Definition demo_after (q : t) : t := match steps q demo_es with Ok q => q | Err _ => init end.

Lemma demo_not_cancelled : EvCancel (1, 0) ∉ demo_es.
Proof. unfold demo_es. rewrite !not_elem_of_cons. split_and!; try discriminate. apply not_elem_of_nil. Qed.

Lemma runAfter_once_witness :
  let q1 := demo_call (runAfter init half 7) in
  runs 1 (ran_ (demo_after q1)) = 1%nat /\ 1 ∉ snd <$> timers_ (demo_after q1).
Proof.
  intros q1.
  assert (Hw : addTime (clock (ticks_ init)) half = Ok 1500000000) by (vm_compute; reflexivity).
  assert (H : runAfter init half 7 = Ok ((1, 0), q1)) by (vm_compute; reflexivity).
  assert (H2 : steps q1 demo_es = Ok (demo_after q1)) by (vm_compute; reflexivity).
  split; [vm_compute; reflexivity|].
  destruct (runAfter_once init half 7 1 0 q1 demo_es (demo_after q1) 1500000000 reach_init Hw H H2
    demo_not_cancelled) as (new & _ & Hc).
  - intros cb' q' Hin. exact (not_elem_of_nil _ Hin).
  - assert (Ex : existsb (fun n => 1500000000 <? n) (expirations q1 demo_es) = true) by (vm_compute; reflexivity).
    rewrite Ex in Hc. exact (proj2 Hc).
Defined.

Lemma runEvery_repeats_witness :
  let q1 := demo_call (runEvery init half 7) in
  runs 1 (ran_ (demo_after q1)) = 3%nat /\ exists next, (next, 1) ∈ timers_ (demo_after q1).
Proof.
  intros q1.
  assert (Hw : addTime (clock (ticks_ init)) half = Ok 1500000000) by (vm_compute; reflexivity).
  assert (Hp : dlt (S754_zero false) half = true) by (vm_compute; reflexivity).
  assert (H : runEvery init half 7 = Ok ((1, 0), q1)) by (vm_compute; reflexivity).
  assert (H2 : steps q1 demo_es = Ok (demo_after q1)) by (vm_compute; reflexivity).
  split; [vm_compute; reflexivity|].
  destruct (runEvery_repeats init half 7 1 0 q1 demo_es (demo_after q1) 1500000000 reach_init Hw Hp H H2
    demo_not_cancelled) as (new & _ & _ & Hc).
  - intros cb' q' Hin. exact (not_elem_of_nil _ Hin).
  - assert (Ef : snd (follow true half 1500000000 (expirations q1 demo_es)) = Some 7500000000)
      by (vm_compute; reflexivity).
    rewrite Ef in Hc. exists 7500000000. exact Hc.
Defined.

End TimerHistory.
