(* ===== verification/Channel.v ===== *)
(** * Channel: one descriptor and its callbacks ([Channel.h], [Channel.cpp])

    The interest set [events_] and the ready set [revents_] are integers with
    the bits of [poll.h].  A callback is modelled by whether it is set; what
    [handleEvent] does is the list of callbacks it calls, in order.  The call of
    [update()] at the end of the enabling operations is made by the pollers'
    files, which own the channel objects. *)

From S2P Require Import Prelude.

Module Channel.

Definition POLLIN : Z := 1.
Definition POLLPRI : Z := 2.
Definition POLLOUT : Z := 4.
Definition POLLERR : Z := 8.
Definition POLLHUP : Z := 16.
Definition POLLNVAL : Z := 32.
Definition POLLRDHUP : Z := 8192.

Definition kNoneEvent : Z := 0.
Definition kReadEvent : Z := Z.lor POLLIN POLLPRI.
Definition kWriteEvent : Z := POLLOUT.

Record t := mk {
  fd_ : Z;
  events_ : Z;
  revents_ : Z;
  index_ : Z;
  readCallback_ : bool;
  writeCallback_ : bool;
  errorCallback_ : bool;
  closeCallback_ : bool;
  (* [None]: never written *)
  eventHandling : option bool
}.

(** [Channel(loop, fd)]: [eventHandling] is not initialised. *)
Definition new (fd : Z) : t := mk fd 0 0 (-1) false false false false None.

Definition set_events (c : t) (e : Z) : t :=
  mk (fd_ c) e (revents_ c) (index_ c) (readCallback_ c) (writeCallback_ c)
    (errorCallback_ c) (closeCallback_ c) (eventHandling c).
Definition set_revents (c : t) (revt : Z) : t :=
  mk (fd_ c) (events_ c) revt (index_ c) (readCallback_ c) (writeCallback_ c)
    (errorCallback_ c) (closeCallback_ c) (eventHandling c).
Definition set_index (c : t) (idx : Z) : t :=
  mk (fd_ c) (events_ c) (revents_ c) idx (readCallback_ c) (writeCallback_ c)
    (errorCallback_ c) (closeCallback_ c) (eventHandling c).
Definition set_handling (c : t) (b : option bool) : t :=
  mk (fd_ c) (events_ c) (revents_ c) (index_ c) (readCallback_ c) (writeCallback_ c)
    (errorCallback_ c) (closeCallback_ c) b.
Definition set_callbacks (c : t) (read write error close : bool) : t :=
  mk (fd_ c) (events_ c) (revents_ c) (index_ c) read write error close (eventHandling c).

Definition isNoneEvent (c : t) : bool := events_ c =? kNoneEvent.
Definition isWriting (c : t) : bool := negb (Z.land (events_ c) kWriteEvent =? 0).
Definition isReading (c : t) : bool := negb (Z.land (events_ c) kReadEvent =? 0).

(** The five ways to change the interest set, before [update()]. *)
Inductive interest :=
  | EnableReading | DisableReading | EnableWriting | DisableWriting | DisableAll.

#[global] Instance interest_eq_dec : EqDecision interest.
Proof. solve_decision. Defined.

Definition change (i : interest) (c : t) : t :=
  set_events c
    match i with
    | EnableReading => Z.lor (events_ c) kReadEvent
    | DisableReading => Z.land (events_ c) (Z.lnot kReadEvent)
    | EnableWriting => Z.lor (events_ c) kWriteEvent
    | DisableWriting => Z.land (events_ c) (Z.lnot kWriteEvent)
    | DisableAll => kNoneEvent
    end.

(** [~Channel()]: the assert reads [eventHandling]; [None] is an indeterminate
    value. *)
Definition destroy (c : t) : res () :=
  match eventHandling c with
  | None => Err BadCast
  | Some b => assert_ (negb b)
  end.

Inductive callback := CbClose | CbError | CbRead | CbWrite.

Definition has (revents bits : Z) : bool := negb (Z.land revents bits =? 0).

(** [handleEvent]: the callbacks called, in order. *)
Definition handleEvent (c : t) : list callback * t :=
  let r := revents_ c in
  ((if has r POLLHUP && negb (has r POLLIN) && closeCallback_ c then [CbClose] else []) ++
   (if has r (Z.lor POLLERR POLLNVAL) && errorCallback_ c then [CbError] else []) ++
   (if has r (Z.lor (Z.lor POLLIN POLLPRI) POLLRDHUP) && readCallback_ c then [CbRead] else []) ++
   (if has r POLLOUT && writeCallback_ c then [CbWrite] else []),
   set_handling c (Some false)).

(** ** The bits of the interest set *)

(** The values [events_] can take. *)
Definition wf (c : t) : Prop :=
  events_ c = 0 \/ events_ c = 3 \/ events_ c = 4 \/ events_ c = 7.

Lemma channel_new_wf fd : wf (new fd).
Proof. by left. Qed.

Ltac events H := destruct H as [H|[H|[H|H]]]; unfold wf, isWriting, isReading, isNoneEvent, change;
  simpl; rewrite ?H; simpl; auto 10.

Lemma change_wf i c : wf c -> wf (change i c).
Proof. intros H. destruct i; events H. Qed.

Lemma change_writing i c :
  wf c -> isWriting (change i c) =
    match i with
    | EnableWriting => true | DisableWriting | DisableAll => false | _ => isWriting c
    end.
Proof. intros H. destruct i; events H. Qed.

Lemma change_reading i c :
  wf c -> isReading (change i c) =
    match i with
    | EnableReading => true | DisableReading | DisableAll => false | _ => isReading c
    end.
Proof. intros H. destruct i; events H. Qed.

Lemma none_event_iff c : wf c -> isNoneEvent c = negb (isReading c || isWriting c).
Proof. intros H. events H. Qed.

Lemma index_writing c i : isWriting (set_index c i) = isWriting c.
Proof. done. Qed.

Lemma index_reading c i : isReading (set_index c i) = isReading c.
Proof. done. Qed.

Lemma change_index i c : index_ (change i c) = index_ c.
Proof. done. Qed.

Lemma change_fd i c : fd_ (change i c) = fd_ c.
Proof. done. Qed.

End Channel.
