(* ===== verification/ChannelOwner.v ===== *)
(** * ChannelOwner: what a poller promises to the owners of channels

    [EventLoop::updateChannel] and [EventLoop::removeChannel] forward to the
    poller.  The classes that own a channel (a connection, an acceptor, a
    connector) see the poller through this interface: [good w p] says that the
    channel at address [p] is theirs to register, [update] is one of the five
    enabling operations with its [update()], [remove] is [removeChannel]. *)

From S2P Require Import Prelude Channel.
From stdpp Require Import functions.

#[local] Open Scope Z_scope.

(** Registered with the poller: both pollers give such a channel an index that
    is not negative. *)
Definition registered (c : Channel.t) : bool := 0 <=? Channel.index_ c.

Class ChannelOwner (P : Type) := {
  channelAt : P -> Z -> option Channel.t;
  update : P -> Channel.interest -> Z -> res P;
  remove : P -> Z -> res P;
  good : P -> Z -> Prop;
  good_channel : forall w p, good w p -> exists c, channelAt w p = Some c /\ Channel.wf c;
  update_law : forall w p c i, good w p -> channelAt w p = Some c ->
    exists w' idx, update w i p = Ok w' /\ good w' p /\ 0 <= idx /\
      channelAt w' p = Some (Channel.set_index (Channel.change i c) idx);
  remove_law : forall w p c, good w p -> channelAt w p = Some c ->
    if registered c && Channel.isNoneEvent c then
      exists w', remove w p = Ok w' /\ good w' p /\
        channelAt w' p = Some (Channel.set_index c (-1))
    else remove w p = Err AssertFailed
}.

(** ** Several owners on one poller

    Two channels are [apart] when they differ in address and descriptor.
    [touches p] relates the pollers before and after any number of enabling
    operations on the channel at [p] alone. *)

Section owners.
Context {P : Type} `{HP : ChannelOwner P}.

Definition apart (w : P) (p q : Z) : Prop :=
  p <> q /\ exists c1 c2, channelAt w p = Some c1 /\ channelAt w q = Some c2 /\
    Channel.fd_ c1 <> Channel.fd_ c2.

Inductive touches (p : Z) : P -> P -> Prop :=
  | touches_refl w : touches p w w
  | touches_update w w1 w2 i : touches p w w1 -> update w1 i p = Ok w2 -> touches p w w2.

Lemma touches_trans p w1 w2 w3 : touches p w1 w2 -> touches p w2 w3 -> touches p w1 w3.
Proof. intros H. induction 1; eauto using touches_update. Qed.

Lemma touches_one p w i w' : update w i p = Ok w' -> touches p w w'.
Proof. eauto using touches. Qed.

Lemma apart_sym w p q : apart w p q -> apart w q p.
Proof. intros (Hne & c1 & c2 & H1 & H2 & Hf). split; [done|]. by exists c2, c1. Qed.

(** A channel's address, descriptor and registration survive its own updates. *)
Lemma touches_self p w w' c :
  touches p w w' -> good w p -> channelAt w p = Some c ->
  good w' p /\ exists c', channelAt w' p = Some c' /\ Channel.fd_ c' = Channel.fd_ c /\
    (registered c = true -> registered c' = true).
Proof.
  intros Ht Hg Hc. induction Ht as [w|w w1 w2 i _ IH E]; [eauto|].
  destruct (IH Hg Hc) as (Hg1 & c1 & Hc1 & Hf & Hr).
  destruct (update_law w1 p c1 i Hg1 Hc1) as (w' & idx & E' & Hg' & Hi & Hc').
  assert (w2 = w') as -> by congruence. split; [done|].
  eexists. split; [exact Hc'|]. split; [done|]. intros _. by apply Z.leb_le.
Qed.

End owners.

(** What the poller promises to those who share it: where channels are made and
    destroyed, that a descriptor has one registered channel at most, and that an
    operation on one leaves the others as they are.  A channel that is not
    registered may outlive its descriptor, whose number then comes again. *)
Class ChannelHost (P : Type) `{HP : ChannelOwner P} := {
  consistent : P -> Prop;
  newChannel : P -> Z -> Z -> P;
  deleteChannel : P -> Z -> P;
  good_consistent : forall w p, good w p -> consistent w;
  one_law : forall w p q c d, consistent w -> channelAt w p = Some c -> channelAt w q = Some d ->
    registered c = true -> registered d = true -> Channel.fd_ c = Channel.fd_ d -> p = q;
  new_law : forall w p fd, consistent w -> channelAt w p = None ->
    (forall q c, channelAt w q = Some c -> registered c = true -> Channel.fd_ c <> fd) ->
    good (newChannel w p fd) p /\ channelAt (newChannel w p fd) p = Some (Channel.new fd) /\
    forall q, q <> p -> channelAt (newChannel w p fd) q = channelAt w q /\
      (good w q -> good (newChannel w p fd) q);
  update_frame : forall w p q i w', good w p -> good w q -> apart w p q ->
    update w i p = Ok w' -> good w' q /\ channelAt w' q = channelAt w q;
  remove_frame : forall w p q w', good w p -> good w q -> apart w p q ->
    remove w p = Ok w' -> good w' q /\ channelAt w' q = channelAt w q;
  update_other : forall w p q i w', good w p -> q <> p ->
    update w i p = Ok w' -> channelAt w' q = channelAt w q;
  remove_other : forall w p q w', good w p -> q <> p ->
    remove w p = Ok w' -> channelAt w' q = channelAt w q;
  delete_law : forall w p c, consistent w -> channelAt w p = Some c -> registered c = false ->
    consistent (deleteChannel w p) /\ channelAt (deleteChannel w p) p = None /\
    forall q, q <> p -> channelAt (deleteChannel w p) q = channelAt w q /\
      (good w q -> good (deleteChannel w p) q)
}.

Section hosts.
Context {P : Type} `{HH : ChannelHost P}.

(** The updates of one channel leave every channel apart from it alone. *)
Lemma touches_frame p q w w' :
  touches p w w' -> good w p -> good w q -> apart w p q ->
  good w' q /\ channelAt w' q = channelAt w q.
Proof.
  intros Ht Hg Hq Ha. induction Ht as [w|w w1 w2 i Ht IH E]; [done|].
  destruct (IH Hg Hq Ha) as [Hq1 Hs1]. destruct Ha as (Hne & c1 & c2 & H1 & H2 & Hf).
  destruct (touches_self p w w1 c1 Ht Hg H1) as (Hg1 & c1' & Hc1' & Hf1 & _).
  destruct (update_frame w1 p q i w2 Hg1 Hq1) as [Hq2 Hs2]; [|done|].
  - split; [done|]. exists c1', c2. split_and!; try done; congruence.
  - split; [done|]. congruence.
Qed.

(** Nor do they touch any other object at all. *)
Lemma touches_other p q w w' : touches p w w' -> good w p -> q <> p -> channelAt w' q = channelAt w q.
Proof.
  intros Ht Hg Hne. destruct (good_channel w p Hg) as (c & Hc & _).
  induction Ht as [w|w w1 w2 i Ht IH E]; [done|].
  destruct (touches_self p w w1 c Ht Hg Hc) as (Hg1 & _).
  by rewrite (update_other w1 p q i w2), IH.
Qed.

(** An operation on the channel at [p] alone. *)
Definition leaves (p : Z) (w w' : P) : Prop :=
  good w' p /\
  (forall c, channelAt w p = Some c ->
     exists c', channelAt w' p = Some c' /\ Channel.fd_ c' = Channel.fd_ c) /\
  forall q, good w q -> apart w p q -> good w' q /\ channelAt w' q = channelAt w q.

Lemma touches_leaves p w w' : touches p w w' -> good w p -> leaves p w w'.
Proof.
  intros Ht Hg. destruct (good_channel w p Hg) as (c & Hc & _).
  destruct (touches_self p w w' c Ht Hg Hc) as (Hg' & c' & Hc' & Hf & _).
  split_and!; [done| |].
  - intros c2 Hc2. exists c'. split; [done|]. congruence.
  - intros q Hq Ha. by apply (touches_frame p q w w').
Qed.

Lemma remove_leaves p w w' : remove w p = Ok w' -> good w p -> leaves p w w'.
Proof.
  intros E Hg. destruct (good_channel w p Hg) as (c & Hc & _).
  pose proof (remove_law w p c Hg Hc) as Hr. case_match; [|congruence].
  destruct Hr as (w2 & E2 & Hg2 & Hc2). assert (w2 = w') as -> by congruence.
  split_and!; [done| |].
  - intros c' Hc'. eexists. split; [exact Hc2|]. simpl. congruence.
  - intros q Hq Ha. by apply (remove_frame w p q w').
Qed.

(** ** Owners on several pollers

    [place k] is the poller and the address of the channel that the owner [k]
    has, if it has one. *)

Definition separate {O} (pollers : Z -> P) (place : O -> option (Z * Z)) : Prop :=
  (forall k lp q, place k = Some (lp, q) -> good (pollers lp) q) /\
  forall k1 k2 lp q1 q2, k1 <> k2 -> place k1 = Some (lp, q1) -> place k2 = Some (lp, q2) ->
    apart (pollers lp) q1 q2.

Lemma separate_leaves {O} pollers (place : O -> option (Z * Z)) k lp q l :
  separate pollers place -> place k = Some (lp, q) -> leaves q (pollers lp) l ->
  separate (<[lp := l]> pollers) place /\
  forall k' lp' q', k' <> k -> place k' = Some (lp', q') ->
    channelAt (<[lp := l]> pollers lp') q' = channelAt (pollers lp') q'.
Proof.
  intros [Hg Ha] Hk (Hq & Hfd & Hrest).
  assert (Hother : forall k' q', k' <> k -> place k' = Some (lp, q') ->
    good l q' /\ channelAt l q' = channelAt (pollers lp) q').
  { intros k' q' Hne Hk'. apply Hrest; [by apply (Hg k')|]. by apply (Ha k k' lp). }
  assert (Hself : forall k' q', k' <> k -> place k' = Some (lp, q') -> apart l q q').
  { intros k' q' Hne Hk'. destruct (Ha k k' lp q q') as (Hnq & c1 & c2 & H1 & H2 & Hf); try done.
    destruct (Hfd c1 H1) as (c1' & H1' & Hf'). destruct (Hother k' q' Hne Hk') as [_ Hs].
    split; [done|]. exists c1', c2. split_and!; congruence. }
  split; [split|].
  - intros k' lp' q' Hk'. destruct (decide (lp' = lp)) as [->|Hl].
    + rewrite fn_lookup_insert. destruct (decide (q' = q)) as [->|Hne]; [done|].
      apply (Hother k' q'); [|done]. intros ->. congruence.
    + rewrite fn_lookup_insert_ne by done. by apply (Hg k').
  - intros k1 k2 lp' q1 q2 Hne H1 H2. destruct (decide (lp' = lp)) as [->|Hl].
    2:{ rewrite fn_lookup_insert_ne by done. by apply (Ha k1 k2). }
    rewrite fn_lookup_insert. destruct (decide (q1 = q)) as [->|Hn1].
    { destruct (decide (q2 = q)) as [->|Hn2].
      - exfalso. by destruct (Ha k1 k2 lp q q Hne H1 H2).
      - apply (Hself k2); [|done]. intros ->. congruence. }
    destruct (decide (q2 = q)) as [->|Hn2].
    { apply apart_sym, (Hself k1); [|done]. intros ->. congruence. }
    destruct (Ha k1 k2 lp q1 q2 Hne H1 H2) as (Hnq & c1 & c2 & Hc1 & Hc2 & Hf).
    split; [done|]. exists c1, c2.
    rewrite (proj2 (Hother k1 q1 ltac:(congruence) H1)).
    by rewrite (proj2 (Hother k2 q2 ltac:(congruence) H2)).
  - intros k' lp' q' Hne Hk'. destruct (decide (lp' = lp)) as [->|Hl].
    + rewrite fn_lookup_insert. by apply (Hother k').
    + by rewrite fn_lookup_insert_ne.
Qed.

(** A poller replaced by one that agrees with it where the owners are. *)
Lemma separate_agree {O} pollers (place : O -> option (Z * Z)) lp l :
  separate pollers place ->
  (forall k q, place k = Some (lp, q) -> channelAt l q = channelAt (pollers lp) q /\ good l q) ->
  separate (<[lp := l]> pollers) place.
Proof.
  intros [Hg Ha] Hl. split.
  - intros k lp' q Hk. destruct (decide (lp' = lp)) as [->|].
    + rewrite fn_lookup_insert. by apply (Hl k).
    + rewrite fn_lookup_insert_ne by done. by apply (Hg k).
  - intros k1 k2 lp' q1 q2 Hne H1 H2.
    destruct (decide (lp' = lp)) as [->|]; [|rewrite fn_lookup_insert_ne by done; by apply (Ha k1 k2)].
    rewrite fn_lookup_insert. destruct (Ha k1 k2 lp q1 q2 Hne H1 H2) as (? & c1 & c2 & ? & ? & ?).
    split; [done|]. exists c1, c2. by rewrite (proj1 (Hl k1 q1 H1)), (proj1 (Hl k2 q2 H2)).
Qed.

(** ** One address, and all the rest *)

(** No registered channel but the one at [p] has the descriptor [fd]. *)
Definition lone (w : P) (p fd : Z) : Prop :=
  forall q c, q <> p -> channelAt w q = Some c -> registered c = true -> Channel.fd_ c <> fd.

(** The object at [q] is as it was, and its owner's if it is registered. *)
Definition untouched (w w' : P) (q : Z) : Prop :=
  channelAt w' q = channelAt w q /\
  forall c, channelAt w q = Some c -> registered c = true -> good w q -> good w' q.

Definition spares (p : Z) (w w' : P) : Prop := forall q, q <> p -> untouched w w' q.

Lemma spares_refl p w : spares p w w.
Proof. by split. Qed.

Lemma spares_trans p w1 w2 w3 : spares p w1 w2 -> spares p w2 w3 -> spares p w1 w3.
Proof.
  intros H1 H2 q Hne. destruct (H1 q Hne) as [E1 G1], (H2 q Hne) as [E2 G2]. split; [congruence|].
  intros c Hc Hr Hg. apply (G2 c); [congruence|done|]. by apply (G1 c).
Qed.

Lemma lone_spares p fd w w' : lone w p fd -> spares p w w' -> lone w' p fd.
Proof. intros H Hs q c Hne Hc. apply (H q c Hne). by rewrite <- (proj1 (Hs q Hne)). Qed.

Lemma lone_registered w p c :
  consistent w -> channelAt w p = Some c -> registered c = true -> lone w p (Channel.fd_ c).
Proof. intros HC Hc Hr q d Hne Hd Hrd Hf. by apply Hne, (one_law w q p d c). Qed.

Lemma lone_apart w p c q d :
  lone w p (Channel.fd_ c) -> channelAt w p = Some c -> q <> p -> channelAt w q = Some d ->
  registered d = true -> apart w p q.
Proof.
  intros Hl Hc Hne Hd Hr. split; [done|]. exists c, d. split_and!; [done..|].
  intros E. by apply (Hl q d).
Qed.

Lemma spares_new w p fd :
  consistent w -> channelAt w p = None -> lone w p fd -> spares p w (newChannel w p fd).
Proof.
  intros HC Hp Hl. destruct (new_law w p fd HC Hp) as (_ & _ & H).
  { intros q c Hq. apply (Hl q c); congruence. }
  intros q Hne. destruct (H q Hne) as [H1 H2]. split; auto.
Qed.

Lemma spares_update w p c i w' :
  good w p -> channelAt w p = Some c -> lone w p (Channel.fd_ c) -> update w i p = Ok w' -> spares p w w'.
Proof.
  intros Hg Hc Hl E q Hne. split; [by apply (update_other w p q i)|].
  intros d Hd Hr Hgq. apply (update_frame w p q i w'); try done. by apply (lone_apart w p c q d).
Qed.

Lemma spares_remove w p c w' :
  good w p -> channelAt w p = Some c -> lone w p (Channel.fd_ c) -> remove w p = Ok w' -> spares p w w'.
Proof.
  intros Hg Hc Hl E q Hne. split; [by apply (remove_other w p q)|].
  intros d Hd Hr Hgq. apply (remove_frame w p q w'); try done. by apply (lone_apart w p c q d).
Qed.

Lemma spares_delete w p c :
  consistent w -> channelAt w p = Some c -> registered c = false -> spares p w (deleteChannel w p).
Proof.
  intros HC Hc Hr q Hne. destruct (delete_law w p c HC Hc Hr) as (_ & _ & H).
  destruct (H q Hne). split; auto.
Qed.

Lemma spares_touches w p c w' :
  touches p w w' -> good w p -> channelAt w p = Some c -> lone w p (Channel.fd_ c) -> spares p w w'.
Proof.
  intros Ht Hg Hc Hl. induction Ht as [w|w w1 w2 i Ht IH E]; [apply spares_refl|].
  specialize (IH Hg Hc Hl). destruct (touches_self p w w1 c Ht Hg Hc) as (Hg1 & c1 & Hc1 & Hf & _).
  apply (spares_trans p w w1 w2 IH), (spares_update w1 p c1 i); try done.
  rewrite Hf. by apply (lone_spares p _ w).
Qed.

End hosts.
