(* ===== verification/EPoller.v ===== *)
(** * EPoller: the epoll poller of a loop ([EPoller.h], [EPoller.cpp])

    The kernel's side of epoll is code outside the repository: [Kernel] is its
    interface, with the behaviour epoll_ctl(2) documents (a descriptor that is
    watched cannot be added, one that is not cannot be modified or deleted),
    for open descriptors and below the limits.  The channel objects live in
    [store], keyed by their address, because the poller changes them through
    pointers; [update w i p] is what [enableReading()] and its kin do on the
    channel at [p]: change the interest set, then [EPoller::updateChannel]. *)

From S2P Require Import Prelude Channel ChannelOwner.

Module EPoller.

Definition kNew : Z := -1.
Definition kAdded : Z := 1.
Definition kDeleted : Z := 2.
Definition kInitEventListSize : Z := 16.

Inductive ctl := EPOLL_CTL_ADD | EPOLL_CTL_DEL | EPOLL_CTL_MOD.

(** The kernel: its watched descriptors with their events and user data. *)
Class Kernel := {
  K : Type;
  watched : K -> gmap Z (Z * Z);
  epoll_ctl : K -> ctl -> Z -> Z -> Z -> Z * K;
  ctl_add : forall k fd ev p, watched k !! fd = None ->
    fst (epoll_ctl k EPOLL_CTL_ADD fd ev p) = 0 /\
    watched (snd (epoll_ctl k EPOLL_CTL_ADD fd ev p)) = <[fd := (ev, p)]> (watched k);
  ctl_mod : forall k fd ev p, is_Some (watched k !! fd) ->
    fst (epoll_ctl k EPOLL_CTL_MOD fd ev p) = 0 /\
    watched (snd (epoll_ctl k EPOLL_CTL_MOD fd ev p)) = <[fd := (ev, p)]> (watched k);
  ctl_del : forall k fd ev p, is_Some (watched k !! fd) ->
    fst (epoll_ctl k EPOLL_CTL_DEL fd ev p) = 0 /\
    watched (snd (epoll_ctl k EPOLL_CTL_DEL fd ev p)) = delete fd (watched k);
  ctl_error : forall k op fd ev p,
    match op with EPOLL_CTL_ADD => is_Some (watched k !! fd) | _ => watched k !! fd = None end ->
    fst (epoll_ctl k op fd ev p) < 0 /\ watched (snd (epoll_ctl k op fd ev p)) = watched k
}.

Section poller.
Context `{Kern : Kernel}.

Record t := mk {
  store : gmap Z Channel.t;
  kernel : K;
  (* [events_.size()] *)
  eventsSize : Z;
  channels_ : gmap Z Z;
  (* how many calls of epoll_ctl failed *)
  ctlErrors : nat
}.

Definition init (k : K) : t := mk ∅ k kInitEventListSize ∅ 0.

Definition channel (w : t) (p : Z) : res Channel.t :=
  match store w !! p with Some c => Ok c | None => Err NullDeref end.
Definition set_channel (w : t) (p : Z) (c : Channel.t) : t :=
  mk (<[p := c]> (store w)) (kernel w) (eventsSize w) (channels_ w) (ctlErrors w).
Definition set_channels (w : t) (m : gmap Z Z) : t :=
  mk (store w) (kernel w) (eventsSize w) m (ctlErrors w).

(** [EPoller::update]: one [epoll_ctl]; a failure is only logged. *)
Definition update (w : t) (operation : ctl) (p : Z) (c : Channel.t) : t :=
  let r := epoll_ctl (kernel w) operation (Channel.fd_ c) (Channel.events_ c) p in
  mk (store w) (snd r) (eventsSize w) (channels_ w)
    (if fst r <? 0 then S (ctlErrors w) else ctlErrors w).

Definition maps_to (w : t) (fd p : Z) : bool := bool_decide (channels_ w !! fd = Some p).
Definition unmapped (w : t) (fd : Z) : bool := bool_decide (channels_ w !! fd = None).

Definition updateChannel (w : t) (p : Z) : res t :=
  c ← channel w p ;
  let index := Channel.index_ c in
  let fd := Channel.fd_ c in
  if (index =? kNew) || (index =? kDeleted) then
    w ← (if index =? kNew then
           assert_ (unmapped w fd) ;;
           Ok (set_channels w (<[fd := p]> (channels_ w)))
         else
           assert_ (negb (unmapped w fd)) ;;
           assert_ (maps_to w fd p) ;;
           Ok w) ;
    let c := Channel.set_index c kAdded in
    Ok (update (set_channel w p c) EPOLL_CTL_ADD p c)
  else
    assert_ (negb (unmapped w fd)) ;;
    assert_ (maps_to w fd p) ;;
    assert_ (index =? kAdded) ;;
    if Channel.isNoneEvent c then
      let w := update w EPOLL_CTL_DEL p c in
      Ok (set_channel w p (Channel.set_index c kDeleted))
    else Ok (update w EPOLL_CTL_MOD p c).

Definition removeChannel (w : t) (p : Z) : res t :=
  c ← channel w p ;
  let fd := Channel.fd_ c in
  assert_ (negb (unmapped w fd)) ;;
  assert_ (maps_to w fd p) ;;
  assert_ (Channel.isNoneEvent c) ;;
  let index := Channel.index_ c in
  assert_ ((index =? kAdded) || (index =? kDeleted)) ;;
  let w := set_channels w (delete fd (channels_ w)) in
  let w := if index =? kAdded then update w EPOLL_CTL_DEL p c else w in
  Ok (set_channel w p (Channel.set_index c kNew)).

(** [fillActiveChannels] over the events [epoll_wait] wrote. *)
Fixpoint fillActiveChannels (w : t) (events : list (Z * Z)) : res (list Z * t) :=
  match events with
  | [] => Ok ([], w)
  | (revents, p) :: events =>
      c ← channel w p ;
      let fd := Channel.fd_ c in
      assert_ (negb (unmapped w fd)) ;;
      assert_ (maps_to w fd p) ;;
      r ← fillActiveChannels (set_channel w p (Channel.set_revents c revents)) events ;
      Ok (p :: fst r, snd r)
  end.

(** [poll] with the answer of [epoll_wait]: the events, or [None] for -1. *)
Definition poll (w : t) (answer : option (list (Z * Z))) : res (list Z * t) :=
  match answer with
  | Some (e :: l) =>
      let events := e :: l in
      assert_ (zlen events <=? eventsSize w) ;;
      r ← fillActiveChannels w events ;
      let w := snd r in
      Ok (fst r, if zlen events =? eventsSize w
                 then mk (store w) (kernel w) (eventsSize w * 2) (channels_ w) (ctlErrors w)
                 else w)
  | _ => Ok ([], w)
  end.

(** ** The operations of a channel, with their [update()] *)

Definition change (w : t) (i : Channel.interest) (p : Z) : res t :=
  c ← channel w p ;
  updateChannel (set_channel w p (Channel.change i c)) p.

(** [new Channel(loop, fd)] at a fresh address. *)
Definition create (w : t) (p fd : Z) : t := set_channel w p (Channel.new fd).

(** ** The invariant: the kernel watches exactly the channels marked [kAdded] *)

Record Inv (w : t) : Prop := {
  inv_index : forall p c, store w !! p = Some c ->
    Channel.index_ c = kNew \/ Channel.index_ c = kAdded \/ Channel.index_ c = kDeleted;
  inv_mapped : forall p c, store w !! p = Some c ->
    Channel.index_ c <> kNew <-> channels_ w !! Channel.fd_ c = Some p;
  inv_stored : forall fd p, channels_ w !! fd = Some p ->
    exists c, store w !! p = Some c /\ Channel.fd_ c = fd;
  inv_watched : forall fd ev p, watched (kernel w) !! fd = Some (ev, p) <->
    exists c, store w !! p = Some c /\ Channel.fd_ c = fd /\ Channel.index_ c = kAdded /\
      Channel.events_ c = ev;
  inv_events : forall p c, store w !! p = Some c -> Channel.wf c;
  inv_errors : ctlErrors w = 0%nat
}.

(** ** One channel replaced, the rest unchanged *)

Lemma inv_replace w w' p c cn :
  Inv w -> store w !! p = Some c -> Channel.fd_ cn = Channel.fd_ c ->
  (channels_ w !! Channel.fd_ c = None \/ channels_ w !! Channel.fd_ c = Some p) ->
  Channel.wf cn ->
  (Channel.index_ cn = kNew \/ Channel.index_ cn = kAdded \/ Channel.index_ cn = kDeleted) ->
  store w' = <[p := cn]> (store w) ->
  channels_ w' = (if Channel.index_ cn =? kNew then delete (Channel.fd_ c) (channels_ w)
                  else <[Channel.fd_ c := p]> (channels_ w)) ->
  watched (kernel w') = (if Channel.index_ cn =? kAdded
                         then <[Channel.fd_ c := (Channel.events_ cn, p)]> (watched (kernel w))
                         else delete (Channel.fd_ c) (watched (kernel w))) ->
  ctlErrors w' = 0%nat -> Inv w'.
Proof.
  intros HI Hp Hfd Hmap Hwf Hidx Hs Hc Hk He.
  assert (Hother : forall p' c', p' <> p -> store w !! p' = Some c' ->
    Channel.index_ c' <> kNew -> Channel.fd_ c' <> Channel.fd_ c).
  { intros p' c' Hne Hp' Hi Hf. apply (inv_mapped w HI p' c' Hp') in Hi.
    rewrite Hf in Hi. destruct Hmap; congruence. }
  split; try done.
  - intros p' c'. rewrite Hs. destruct (decide (p = p')) as [<-|].
    + rewrite lookup_insert_eq. by intros [= <-].
    + rewrite lookup_insert_ne by done. apply (inv_index w HI).
  - intros p' c'. rewrite Hs, Hc. destruct (decide (p = p')) as [<-|Hne].
    + rewrite lookup_insert_eq. intros [= <-]. rewrite Hfd.
      destruct (Z.eqb_spec (Channel.index_ cn) kNew).
      * rewrite lookup_delete_eq. split; congruence.
      * by rewrite lookup_insert_eq.
    + rewrite lookup_insert_ne by done. intros Hp'.
      rewrite (inv_mapped w HI p' c' Hp').
      destruct (decide (Channel.fd_ c' = Channel.fd_ c)) as [Hf|Hf].
      * rewrite Hf. destruct (Z.eqb_spec (Channel.index_ cn) kNew).
        -- rewrite lookup_delete_eq. split; [|done]. destruct Hmap; congruence.
        -- rewrite lookup_insert_eq. destruct Hmap; split; congruence.
      * destruct (Z.eqb_spec (Channel.index_ cn) kNew).
        -- by rewrite lookup_delete_ne by done.
        -- by rewrite lookup_insert_ne by done.
  - intros fd p'. rewrite Hc, Hs.
    assert (Hold : channels_ w !! fd = Some p' ->
      exists c', <[p:=cn]> (store w) !! p' = Some c' /\ Channel.fd_ c' = fd).
    { intros H. apply (inv_stored w HI) in H as (c' & Hc' & Hf).
      destruct (decide (p = p')) as [<-|]; [|by exists c'; rewrite lookup_insert_ne].
      exists cn. rewrite lookup_insert_eq. split; [done|]. congruence. }
    destruct (Z.eqb_spec (Channel.index_ cn) kNew).
    + intros [_ H]%lookup_delete_Some. auto.
    + intros [[<- <-]|[_ H]]%lookup_insert_Some; [|auto].
      exists cn. by rewrite lookup_insert_eq.
  - intros fd ev p'. rewrite Hk, Hs.
    assert (Hrest : fd <> Channel.fd_ c ->
      watched (kernel w) !! fd = Some (ev, p') <->
      exists c', <[p:=cn]> (store w) !! p' = Some c' /\ Channel.fd_ c' = fd /\
        Channel.index_ c' = kAdded /\ Channel.events_ c' = ev).
    { intros Hne. rewrite (inv_watched w HI). split; intros (c' & H1 & H2 & H3 & H4).
      - exists c'. rewrite lookup_insert_ne; [done|]. intros <-. congruence.
      - exists c'. rewrite lookup_insert_ne in H1; [done|]. intros <-.
        rewrite lookup_insert_eq in H1. congruence. }
    assert (Hsame : forall c', <[p:=cn]> (store w) !! p' = Some c' ->
      Channel.fd_ c' = Channel.fd_ c -> Channel.index_ c' = kAdded -> p' = p /\ c' = cn).
    { intros c' H1 H2 H3. destruct (decide (p = p')) as [<-|Hne].
      - rewrite lookup_insert_eq in H1. split; congruence.
      - rewrite lookup_insert_ne in H1 by done. exfalso. apply (Hother p' c'); auto.
        rewrite H3. done. }
    destruct (decide (fd = Channel.fd_ c)) as [->|Hne].
    + destruct (Z.eqb_spec (Channel.index_ cn) kAdded) as [Ha|Ha].
      * rewrite lookup_insert_eq. split.
        -- intros [= <- <-]. exists cn. by rewrite lookup_insert_eq.
        -- intros (c' & H1 & H2 & H3 & H4). destruct (Hsame c') as [-> ->]; try done. congruence.
      * rewrite lookup_delete_eq. split; [done|].
        intros (c' & H1 & H2 & H3 & H4). destruct (Hsame c') as [-> ->]; done.
    + destruct (Channel.index_ cn =? kAdded).
      * rewrite lookup_insert_ne by done. auto.
      * rewrite lookup_delete_ne by done. auto.
  - intros p' c'. rewrite Hs. destruct (decide (p = p')) as [<-|].
    + rewrite lookup_insert_eq. by intros [= <-].
    + rewrite lookup_insert_ne by done. apply (inv_events w HI).
Qed.

(** What the kernel watches for the descriptor of a channel. *)
Lemma watched_channel w p c :
  Inv w -> store w !! p = Some c -> channels_ w !! Channel.fd_ c = Some p ->
  watched (kernel w) !! Channel.fd_ c =
    if Channel.index_ c =? kAdded then Some (Channel.events_ c, p) else None.
Proof.
  intros HI Hp Hm. destruct (Z.eqb_spec (Channel.index_ c) kAdded) as [Ha|Ha].
  - apply (inv_watched w HI). by exists c.
  - destruct (watched (kernel w) !! Channel.fd_ c) as [[ev p']|] eqn:Hw; [|done].
    apply (inv_watched w HI) in Hw as (c' & H1 & H2 & H3 & H4).
    assert (Channel.index_ c' <> kNew) as Hn by (rewrite H3; done).
    apply (inv_mapped w HI p' c' H1) in Hn. congruence.
Qed.

Lemma unwatched_new w p c :
  Inv w -> store w !! p = Some c -> channels_ w !! Channel.fd_ c = None ->
  watched (kernel w) !! Channel.fd_ c = None.
Proof.
  intros HI Hp Hm. destruct (watched (kernel w) !! Channel.fd_ c) as [[ev p']|] eqn:Hw; [|done].
  apply (inv_watched w HI) in Hw as (c' & H1 & H2 & H3 & H4).
  assert (Channel.index_ c' <> kNew) as Hn by (rewrite H3; done).
  apply (inv_mapped w HI p' c' H1) in Hn. congruence.
Qed.

Lemma mapped_checks w fd p :
  channels_ w !! fd = Some p -> unmapped w fd = false /\ maps_to w fd p = true.
Proof.
  intros H. unfold unmapped, maps_to. rewrite H. split.
  - by apply bool_decide_false.
  - by apply bool_decide_true.
Qed.

(** The state of a channel's registration after [updateChannel]. *)
Definition next_index (c : Channel.t) : Z :=
  if (Channel.index_ c =? kAdded) && Channel.isNoneEvent c then kDeleted else kAdded.

Lemma update_ok w p c c' :
  Inv w -> store w !! p = Some c -> Channel.wf c' ->
  Channel.fd_ c' = Channel.fd_ c -> Channel.index_ c' = Channel.index_ c ->
  (Channel.index_ c = kNew -> channels_ w !! Channel.fd_ c = None) ->
  exists w', updateChannel (set_channel w p c') p = Ok w' /\ Inv w' /\
    store w' = <[p := Channel.set_index c' (next_index c')]> (store w).
Proof.
  intros HI Hp Hwf Hfd Hidx Hnew. unfold updateChannel, channel; simpl.
  rewrite lookup_insert_eq. simpl. rewrite Hfd, Hidx. unfold next_index. rewrite Hidx.
  assert (He := inv_errors w HI).
  destruct (inv_index w HI p c Hp) as [Hi|[Hi|Hi]]; rewrite Hi; simpl.
  - (* a new channel *)
    specialize (Hnew Hi). assert (Hun := unwatched_new w p c HI Hp Hnew).
    unfold unmapped; simpl. rewrite (bool_decide_true _ Hnew). simpl.
    destruct (ctl_add (kernel w) (Channel.fd_ c) (Channel.events_ c') p Hun) as [Hr Hk].
    eexists; split; [reflexivity|]. simpl. rewrite insert_insert_eq. split; [|done].
    eapply (inv_replace w _ p c (Channel.set_index c' kAdded)); try done; simpl; auto.
    + apply insert_insert_eq.
    + by rewrite Hfd.
    + by rewrite Hfd, Hr.
  - (* an added channel *)
    assert (Hm : channels_ w !! Channel.fd_ c = Some p)
      by (apply (inv_mapped w HI p c Hp); rewrite Hi; done).
    assert (Hw := watched_channel w p c HI Hp Hm). rewrite Hi in Hw. simpl in Hw.
    destruct (mapped_checks (set_channel w p c') (Channel.fd_ c) p Hm) as [-> ->]. simpl. destruct (Channel.isNoneEvent c') eqn:Hn; simpl.
    + destruct (ctl_del (kernel w) (Channel.fd_ c) (Channel.events_ c') p) as [Hr Hk]; [by rewrite Hw|].
      eexists; split; [reflexivity|]. simpl. rewrite insert_insert_eq. split; [|done].
      eapply (inv_replace w _ p c (Channel.set_index c' kDeleted)); try done; simpl; auto.
      * apply insert_insert_eq.
      * by rewrite insert_id.
      * by rewrite Hfd.
      * by rewrite Hfd, Hr.
    + destruct (ctl_mod (kernel w) (Channel.fd_ c) (Channel.events_ c') p) as [Hr Hk]; [by rewrite Hw|].
      assert (Hc : c' = Channel.set_index c' kAdded)
        by (destruct c'; simpl in *; unfold Channel.set_index; simpl; congruence).
      eexists; split; [reflexivity|]. simpl. rewrite <- Hc. split; [|done].
      eapply (inv_replace w _ p c c'); try done; simpl; auto.
      * rewrite Hidx, Hi. auto.
      * rewrite Hidx, Hi. simpl. by rewrite insert_id.
      * rewrite Hidx, Hi, Hfd. done.
      * by rewrite Hfd, Hr.
  - (* a deleted channel *)
    assert (Hm : channels_ w !! Channel.fd_ c = Some p)
      by (apply (inv_mapped w HI p c Hp); rewrite Hi; done).
    assert (Hw := watched_channel w p c HI Hp Hm). rewrite Hi in Hw. simpl in Hw.
    destruct (mapped_checks (set_channel w p c') (Channel.fd_ c) p Hm) as [-> ->]. simpl.
    destruct (ctl_add (kernel w) (Channel.fd_ c) (Channel.events_ c') p Hw) as [Hr Hk].
    eexists; split; [reflexivity|]. simpl. rewrite insert_insert_eq. split; [|done].
    eapply (inv_replace w _ p c (Channel.set_index c' kAdded)); try done; simpl; auto.
    + apply insert_insert_eq.
    + by rewrite insert_id.
    + by rewrite Hfd.
    + by rewrite Hfd, Hr.
Qed.

Lemma remove_ok w p c :
  Inv w -> store w !! p = Some c -> channels_ w !! Channel.fd_ c = Some p ->
  Channel.isNoneEvent c = true ->
  exists w', removeChannel w p = Ok w' /\ Inv w' /\
    store w' = <[p := Channel.set_index c kNew]> (store w) /\
    watched (kernel w') = delete (Channel.fd_ c) (watched (kernel w)).
Proof.
  intros HI Hp Hm Hn. unfold removeChannel, channel. rewrite Hp. simpl.
  destruct (mapped_checks w (Channel.fd_ c) p Hm) as [-> ->]. simpl. rewrite Hn. simpl.
  assert (He := inv_errors w HI). assert (Hwf := inv_events w HI p c Hp).
  assert (Hw := watched_channel w p c HI Hp Hm).
  assert (Hi : Channel.index_ c <> kNew) by (apply (inv_mapped w HI p c Hp); exact Hm).
  destruct (inv_index w HI p c Hp) as [Hx|[Hx|Hx]]; [congruence| |]; rewrite Hx in Hw; rewrite Hx; simpl in *.
  - destruct (ctl_del (kernel w) (Channel.fd_ c) (Channel.events_ c) p) as [Hr Hk]; [by rewrite Hw|].
    eexists; split; [reflexivity|]. simpl. split; [|done].
    eapply (inv_replace w _ p c (Channel.set_index c kNew)); try done; simpl; auto.
    by rewrite Hr.
  - eexists; split; [reflexivity|]. simpl.
    rewrite (delete_id (watched (kernel w))) by done. split; [|done].
    eapply (inv_replace w _ p c (Channel.set_index c kNew)); try done; simpl; auto.
    by rewrite delete_id.
Qed.

(** A change of what the invariant does not speak of. *)
Lemma inv_same w p c cn :
  Inv w -> store w !! p = Some c ->
  Channel.fd_ cn = Channel.fd_ c -> Channel.index_ cn = Channel.index_ c ->
  Channel.events_ cn = Channel.events_ c -> Inv (set_channel w p cn).
Proof.
  intros [H1 H2 H3 H4 H5 H6] Hp Ef Ei Ee.
  assert (Hstore : forall p' c', <[p := cn]> (store w) !! p' = Some c' ->
    exists c0, store w !! p' = Some c0 /\ Channel.fd_ c' = Channel.fd_ c0 /\
      Channel.index_ c' = Channel.index_ c0 /\ Channel.events_ c' = Channel.events_ c0).
  { intros p' c' [[<- <-]|[_ H]]%lookup_insert_Some; eauto. }
  assert (Hback : forall p' c0, store w !! p' = Some c0 -> exists c',
    <[p := cn]> (store w) !! p' = Some c' /\ Channel.fd_ c' = Channel.fd_ c0 /\
      Channel.index_ c' = Channel.index_ c0 /\ Channel.events_ c' = Channel.events_ c0).
  { intros p' c0 H. destruct (decide (p = p')) as [<-|].
    - assert (c0 = c) as -> by congruence. exists cn. by rewrite lookup_insert_eq.
    - exists c0. by rewrite lookup_insert_ne. }
  split; simpl; try done.
  - intros p' c' (c0 & Hc & _ & -> & _)%Hstore. eauto.
  - intros p' c' (c0 & Hc & -> & -> & _)%Hstore. eauto.
  - intros fd p' (c0 & Hc & Hf)%H3. apply Hback in Hc as (c' & Hc' & Hf' & _).
    exists c'. split; [done|]. congruence.
  - intros fd ev p'. rewrite H4. split.
    + intros (c0 & (c' & Hc' & Hf & Hi & He)%Hback & <- & <- & <-). by exists c'.
    + intros (c' & (c0 & Hc & Hf & Hi & He)%Hstore & <- & <- & <-). exists c0. by rewrite Hi.
  - intros p' c' (c0 & Hc & _ & _ & He)%Hstore. unfold Channel.wf. rewrite He. by apply (H5 p' c0).
Qed.

Lemma inv_set_revents w p c r :
  Inv w -> store w !! p = Some c -> Inv (set_channel w p (Channel.set_revents c r)).
Proof. intros HI Hp. by apply (inv_same w p c). Qed.

(** A channel that is not registered can be taken from the store. *)
Lemma inv_delete w p c :
  Inv w -> store w !! p = Some c -> Channel.index_ c = kNew ->
  Inv (mk (delete p (store w)) (kernel w) (eventsSize w) (channels_ w) (ctlErrors w)).
Proof.
  intros [H1 H2 H3 H4 H5 H6] Hp Hi.
  assert (Hne : forall p' c', store w !! p' = Some c' -> Channel.index_ c' <> kNew -> p' <> p)
    by (intros; congruence).
  split; simpl; try done.
  - intros p' c' [_ H]%lookup_delete_Some. eauto.
  - intros p' c' [_ H]%lookup_delete_Some. eauto.
  - intros fd p' Hm. destruct (H3 fd p' Hm) as (c' & Hc' & <-). exists c'. split; [|done].
    rewrite lookup_delete_ne; [done|]. apply not_eq_sym, (Hne p' c' Hc'). by apply (H2 p' c').
  - intros fd ev p'. rewrite H4. split; intros (c' & Hc' & Hf & Hx & He); exists c'.
    + rewrite lookup_delete_ne; [done|]. apply not_eq_sym, (Hne p' c' Hc'). by rewrite Hx.
    + apply lookup_delete_Some in Hc' as [_ Hc']. by split_and!.
  - intros p' c' [_ H]%lookup_delete_Some. eauto.
Qed.

(** Each reported event carries the user data of a watched descriptor. *)
Definition reported (w : t) (events : list (Z * Z)) : Prop :=
  forall r p, (r, p) ∈ events -> exists fd ev, watched (kernel w) !! fd = Some (ev, p).

Lemma fill_ok events : forall w,
  Inv w -> reported w events ->
  exists w', fillActiveChannels w events = Ok (snd <$> events, w') /\ Inv w' /\
    kernel w' = kernel w /\ channels_ w' = channels_ w /\ eventsSize w' = eventsSize w /\
    (forall p, p ∉ snd <$> events -> store w' !! p = store w !! p) /\
    (NoDup (snd <$> events) -> forall r p, (r, p) ∈ events ->
      exists c, store w !! p = Some c /\ store w' !! p = Some (Channel.set_revents c r)).
Proof.
  induction events as [|[r p] events IH]; intros w HI Hrep; simpl.
  - exists w. split_and!; try done. by intros _ ? ? ?%not_elem_of_nil.
  - destruct (Hrep r p) as (fd & ev & Hw); [by apply elem_of_cons; left|].
    assert (Hw' := Hw). apply (inv_watched w HI) in Hw' as (c & Hp & Hf & Hi & _).
    unfold channel. rewrite Hp. simpl.
    assert (Hm : channels_ w !! Channel.fd_ c = Some p)
      by (apply (inv_mapped w HI p c Hp); rewrite Hi; done).
    destruct (mapped_checks w (Channel.fd_ c) p Hm) as [-> ->]. simpl.
    set (w1 := set_channel w p (Channel.set_revents c r)).
    destruct (IH w1) as (w' & Hr & HI' & Hk & Hc & Hs & Hst & Hrev).
    { by apply inv_set_revents. }
    { intros r' p' Hin. apply (Hrep r' p'), elem_of_cons. by right. }
    rewrite Hr. simpl. exists w'. split_and!; try done.
    + intros p' [Hne Hnin]%not_elem_of_cons. rewrite Hst by done. simpl.
      by rewrite lookup_insert_ne.
    + intros [Hnin Hnd]%NoDup_cons r' p' [[= -> ->]|Hin]%elem_of_cons.
      * exists c. rewrite Hst by done. simpl. by rewrite lookup_insert_eq.
      * destruct (Hrev Hnd r' p' Hin) as (c' & Hc' & Hc2). exists c'. split; [|done].
        simpl in Hc'. rewrite lookup_insert_ne in Hc'; [done|]. intros <-.
        apply Hnin, list_elem_of_fmap. by exists (r', p).
Qed.

(** ** The life of a poller *)

Inductive op :=
  | OCreate (p fd : Z)
  | OChange (i : Channel.interest) (p : Z)
  | ORemove (p : Z)
  | OPoll (answer : option (list (Z * Z))).

Definition run (w : t) (o : op) : res t :=
  match o with
  | OCreate p fd => Ok (create w p fd)
  | OChange i p => change w i p
  | ORemove p => removeChannel w p
  | OPoll a => snd <$> poll w a
  end.

(** The calls the classes above the poller make: a channel is created at a
    fresh address, is first registered on a descriptor no other channel has, is
    removed when registered and without interest; and [epoll_wait] returns at
    most as many events as it was given room for, all of watched channels. *)
Definition allowed (w : t) (o : op) : Prop :=
  match o with
  | OCreate p _ => store w !! p = None
  | OChange _ p => exists c, store w !! p = Some c /\
      (Channel.index_ c = kNew -> channels_ w !! Channel.fd_ c = None)
  | ORemove p => exists c, store w !! p = Some c /\ Channel.index_ c <> kNew /\
      Channel.isNoneEvent c = true
  | OPoll (Some events) => zlen events <= eventsSize w /\ reported w events
  | OPoll None => True
  end.

Inductive reachable : t -> Prop :=
  | reach_init k : watched k = ∅ -> reachable (init k)
  | reach_op w o w' : reachable w -> allowed w o -> run w o = Ok w' -> reachable w'.

Lemma epoller_init_inv k : watched k = ∅ -> Inv (init k).
Proof.
  intros Hk. split; simpl; try done; try by intros ? ?; rewrite lookup_empty.
  intros fd ev p. rewrite Hk, lookup_empty. split; [done|].
  by intros (c & Hc & _).
Qed.

Lemma create_inv w p fd : Inv w -> store w !! p = None -> Inv (create w p fd).
Proof.
  intros [H1 H2 H3 H4 H5 H6] Hp. unfold create. split; simpl; try done.
  - intros p' c' [[<- <-]|[_ H]]%lookup_insert_Some; [by left|]. eauto.
  - intros p' c' [[<- <-]|[_ H]]%lookup_insert_Some; [|by apply H2].
    split; [done|]. intros (c & Hc & _)%H3. congruence.
  - intros fd' p' (c & Hc & Hf)%H3. exists c. split; [|done].
    rewrite lookup_insert_ne; [done|]. intros <-. congruence.
  - intros fd' ev p'. rewrite H4. split; intros (c & Hc & Hf & Hi & He); exists c.
    + split_and!; try done. rewrite lookup_insert_ne; [done|]. intros <-. congruence.
    + apply lookup_insert_Some in Hc as [[<- <-]|[_ Hc]]; [done|]. by split_and!.
  - intros p' c' [[<- <-]|[_ H]]%lookup_insert_Some; [apply Channel.channel_new_wf|]. eauto.
Qed.

Lemma run_ok w o : Inv w -> allowed w o -> exists w', run w o = Ok w' /\ Inv w'.
Proof.
  intros HI Ha. destruct o as [p fd|i p|p|[[|[r p] l]|]]; simpl in *.
  - eexists. split; [reflexivity|]. by apply create_inv.
  - destruct Ha as (c & Hp & Hnew). unfold change, channel. rewrite Hp. simpl.
    destruct (update_ok w p c (Channel.change i c) HI Hp) as (w' & -> & HI' & _); try done.
    + apply Channel.change_wf, (inv_events w HI p c Hp).
    + by exists w'.
  - destruct Ha as (c & Hp & Hi & Hn).
    destruct (remove_ok w p c HI Hp) as (w' & -> & HI' & _); try done.
    + by apply (inv_mapped w HI p c Hp).
    + by exists w'.
  - by exists w.
  - destruct Ha as [Hl Hrep].
    destruct (fill_ok ((r, p) :: l) w HI Hrep) as (w' & Hf & HI' & _).
    rewrite assert_true by lia. simpl. simpl in Hf. rewrite Hf. simpl.
    eexists; split; [reflexivity|]. case_match; [|done]. by destruct HI'; split.
  - by exists w.
Qed.

Lemma epoller_reachable_inv w : reachable w -> Inv w.
Proof.
  induction 1 as [k Hk|w o w' _ HI Ha Hr]; [by apply epoller_init_inv|].
  destruct (run_ok w o HI Ha) as (w2 & Hr2 & HI2). by assert (w' = w2) as -> by congruence.
Qed.

(** C10. In every state an epoll poller can reach, no [epoll_ctl] call has
    failed, the map holds exactly the registered channels, and the kernel
    watches exactly the channels marked [kAdded], each with the channel's
    current interest set and its own address as user data. *)
Theorem epoller_invariant w :
  reachable w ->
  ctlErrors w = 0%nat /\
  (forall p c, store w !! p = Some c ->
    Channel.index_ c <> kNew <-> channels_ w !! Channel.fd_ c = Some p) /\
  forall fd ev p, watched (kernel w) !! fd = Some (ev, p) <->
    exists c, store w !! p = Some c /\ Channel.fd_ c = fd /\ Channel.index_ c = kAdded /\
      Channel.events_ c = ev.
Proof. intros HI%epoller_reachable_inv. split_and!; apply HI. Qed.

(** No assert of the poller fails: every call the classes above it make
    returns, in every reachable state. *)
Theorem epoller_progress w o :
  reachable w -> allowed w o -> exists w', run w o = Ok w' /\ reachable w'.
Proof.
  intros Hr Ha. destruct (run_ok w o (epoller_reachable_inv w Hr) Ha) as (w' & E & _).
  exists w'. split; [done|]. by eapply reach_op.
Qed.

(** [poll] hands out the channels of the reported events, in the kernel's
    order, each with its ready set stored, registers and unregisters nothing,
    and doubles the event array exactly when the kernel filled it. *)
Theorem poll_correct w events :
  reachable w -> events <> [] -> allowed w (OPoll (Some events)) -> NoDup (snd <$> events) ->
  exists w', poll w (Some events) = Ok (snd <$> events, w') /\
    (forall r p, (r, p) ∈ events -> exists c, store w' !! p = Some c /\ Channel.revents_ c = r) /\
    (forall p, p ∉ snd <$> events -> store w' !! p = store w !! p) /\
    watched (kernel w') = watched (kernel w) /\ channels_ w' = channels_ w /\
    eventsSize w' = eventsSize w * (if zlen events =? eventsSize w then 2 else 1).
Proof.
  intros HI%epoller_reachable_inv Hne [Hl Hrep] Hnd.
  destruct (fill_ok events w HI Hrep) as (w' & Hf & _ & Hk & Hc & Hs & Hst & Hrev).
  destruct events as [|e l]; [done|]. unfold poll.
  rewrite assert_true by lia. rewrite bind_ret_l, Hf, bind_ret_l. cbn [fst snd].
  rewrite Hs. eexists; split; [reflexivity|]. rewrite <- Hk, <- Hc.
  destruct (zlen (e :: l) =? eventsSize w); simpl; rewrite ?Z.mul_1_r; split_and!; auto;
    intros r p Hin; destruct (Hrev Hnd r p Hin) as (c & _ & Hc'); by eexists.
Qed.

(** ** The promise of [ChannelOwner], kept *)

Definition owned (w : t) (p : Z) : Prop :=
  Inv w /\ exists c, store w !! p = Some c /\
    (Channel.index_ c = kNew -> channels_ w !! Channel.fd_ c = None).

Lemma owned_update w p c i :
  owned w p -> store w !! p = Some c ->
  exists w' idx, change w i p = Ok w' /\ owned w' p /\ 0 <= idx /\
    store w' !! p = Some (Channel.set_index (Channel.change i c) idx).
Proof.
  intros [HI (c' & Hc' & Hnew)] Hp. assert (c' = c) as -> by congruence.
  destruct (update_ok w p c (Channel.change i c) HI Hp) as (w' & E & HI' & Hs); try done.
  { apply Channel.change_wf, (inv_events w HI p c Hp). }
  assert (0 <= next_index (Channel.change i c)) by (unfold next_index; by case_match).
  exists w', (next_index (Channel.change i c)). unfold change, channel. rewrite Hp.
  assert (Hl : store w' !! p = Some (Channel.set_index (Channel.change i c)
    (next_index (Channel.change i c)))) by (by rewrite Hs, lookup_insert_eq).
  split; [exact E|]. split; [|done]. split; [done|].
  eexists. split; [exact Hl|]. cbn [Channel.index_ Channel.set_index]. unfold kNew. lia.
Qed.

Lemma owned_remove w p c :
  owned w p -> store w !! p = Some c ->
  if registered c && Channel.isNoneEvent c then
    exists w', removeChannel w p = Ok w' /\ owned w' p /\
      store w' !! p = Some (Channel.set_index c (-1))
  else removeChannel w p = Err AssertFailed.
Proof.
  intros [HI (c' & Hc' & Hnew)] Hp. assert (c' = c) as -> by congruence.
  assert (Hreg : registered c = true <-> Channel.index_ c <> kNew).
  { destruct (inv_index w HI p c Hp) as [Hi|[Hi|Hi]]; unfold registered; rewrite Hi; done. }
  destruct (registered c) eqn:Hr; simpl.
  - assert (Hm : channels_ w !! Channel.fd_ c = Some p)
      by (apply (inv_mapped w HI p c Hp), Hreg; done).
    destruct (Channel.isNoneEvent c) eqn:Hn.
    + destruct (remove_ok w p c HI Hp Hm Hn) as (w' & E & HI' & Hs & _).
      assert (Hl : store w' !! p = Some (Channel.set_index c kNew))
        by (by rewrite Hs, lookup_insert_eq).
      exists w'. split; [done|]. split; [|done]. split; [done|].
      eexists. split; [exact Hl|]. intros _. simpl.
      destruct (channels_ w' !! Channel.fd_ c) as [p'|] eqn:Hc; [|done]. exfalso.
      assert (p' = p) as ->.
      { destruct (inv_stored w' HI' _ _ Hc) as (c2 & H2 & Hf).
        destruct (decide (p' = p)) as [|Hne]; [done|].
        rewrite Hs, lookup_insert_ne in H2 by done.
        assert (Hi2 : Channel.index_ c2 <> kNew).
        { apply (inv_mapped w' HI' p' c2); [by rewrite Hs, lookup_insert_ne|]. by rewrite Hf. }
        apply (inv_mapped w HI p' c2 H2) in Hi2. congruence. }
      apply (inv_mapped w' HI' p _ Hl) in Hc. by simpl in Hc.
    + unfold removeChannel, channel. rewrite Hp. simpl.
      destruct (mapped_checks w (Channel.fd_ c) p Hm) as [-> ->]. simpl. by rewrite Hn.
  - assert (Hi : Channel.index_ c = kNew).
    { destruct (decide (Channel.index_ c = kNew)) as [|Hne]; [done|].
      apply Hreg in Hne. discriminate. }
    unfold removeChannel, channel. rewrite Hp. simpl. unfold unmapped.
    by rewrite (bool_decide_true _ (Hnew Hi)).
Qed.

#[export] Program Instance epoller_owner : ChannelOwner t :=
  {| channelAt w p := store w !! p; ChannelOwner.update := change; remove := removeChannel;
     good := owned |}.
Next Obligation. intros w p [HI (c & Hc & _)]. exists c. split; [done|]. by apply (inv_events w HI p). Qed.
Next Obligation. intros w p c i. apply owned_update. Qed.
Next Obligation. intros w p c. apply owned_remove. Qed.

(** ** The promise of [ChannelHost], kept *)

Lemma unmapped_frame w w' p q c cp :
  Inv w -> Inv w' -> p <> q -> store w !! q = Some c -> Channel.fd_ cp <> Channel.fd_ c ->
  store w' = <[p := cp]> (store w) ->
  (Channel.index_ c = kNew -> channels_ w !! Channel.fd_ c = None) ->
  owned w' q /\ store w' !! q = store w !! q.
Proof.
  intros HI HI' Hne Hc Hf Hs Hnew.
  assert (Hq : store w' !! q = store w !! q) by (by rewrite Hs, lookup_insert_ne).
  split; [|done]. split; [done|]. exists c. rewrite Hq. split; [done|]. intros Hi.
  destruct (channels_ w' !! Channel.fd_ c) as [p'|] eqn:Hm; [|done]. exfalso.
  destruct (inv_stored w' HI' _ _ Hm) as (c' & Hc' & Hf'). assert (Hc2 := Hc').
  rewrite Hs in Hc2. apply lookup_insert_Some in Hc2 as [[<- <-]|[_ Hc2]]; [congruence|].
  assert (Hi' : Channel.index_ c' <> kNew) by (apply (inv_mapped w' HI' p' c' Hc'); congruence).
  apply (inv_mapped w HI p' c' Hc2) in Hi'. specialize (Hnew Hi). congruence.
Qed.

Lemma change_frame w p q i w' :
  owned w p -> owned w q -> apart (HP := epoller_owner) w p q -> change w i p = Ok w' ->
  owned w' q /\ store w' !! q = store w !! q.
Proof.
  intros [HI (c & Hc & Hnew)] [_ (c2 & Hc2 & Hnew2)] (Hne & c1 & c2' & H1 & H2 & Hf) E.
  simpl in H1, H2. assert (c1 = c) as -> by congruence. assert (c2' = c2) as -> by congruence.
  destruct (update_ok w p c (Channel.change i c) HI Hc) as (w2 & E2 & HI' & Hs); try done.
  { apply Channel.change_wf, (inv_events w HI p c Hc). }
  unfold change, channel in E. rewrite Hc in E. simpl in E. assert (w2 = w') as -> by congruence.
  by eapply (unmapped_frame w w' p q c2); [..|exact Hs|].
Qed.

Lemma remove_frame_ok w p q w' :
  owned w p -> owned w q -> apart (HP := epoller_owner) w p q -> removeChannel w p = Ok w' ->
  owned w' q /\ store w' !! q = store w !! q.
Proof.
  intros Hp [_ (c2 & Hc2 & Hnew2)] (Hne & c1 & c2' & H1 & H2 & Hf) E. simpl in H1, H2.
  assert (c2' = c2) as -> by congruence. pose proof (owned_remove w p c1 Hp H1) as Hr.
  destruct (registered c1 && Channel.isNoneEvent c1) eqn:Hb; [|congruence].
  destruct Hp as [HI (c & Hc & Hnew)]. assert (c = c1) as -> by congruence.
  apply andb_true_iff in Hb as [Hreg Hn].
  assert (Hi : Channel.index_ c1 <> kNew) by (unfold registered, kNew in *; lia).
  destruct (remove_ok w p c1 HI Hc) as (w2 & E2 & HI' & Hs & _); try done.
  { by apply (inv_mapped w HI p c1 Hc). }
  assert (w2 = w') as -> by congruence.
  by eapply (unmapped_frame w w' p q c2); [..|exact Hs|].
Qed.

(** The channel object is freed. *)
Definition erase (w : t) (p : Z) : t :=
  mk (delete p (store w)) (kernel w) (eventsSize w) (channels_ w) (ctlErrors w).

Lemma one_channel w p q c d :
  Inv w -> store w !! p = Some c -> store w !! q = Some d ->
  registered c = true -> registered d = true -> Channel.fd_ c = Channel.fd_ d -> p = q.
Proof.
  intros HI Hc Hd Hrc Hrd Hf. unfold registered in *.
  assert (H1 : channels_ w !! Channel.fd_ c = Some p) by (apply (inv_mapped w HI p c Hc); unfold kNew; lia).
  assert (H2 : channels_ w !! Channel.fd_ d = Some q) by (apply (inv_mapped w HI q d Hd); unfold kNew; lia).
  congruence.
Qed.

Lemma unregistered_new w p c : Inv w -> store w !! p = Some c -> registered c = false -> Channel.index_ c = kNew.
Proof.
  intros HI Hc Hr. unfold registered in Hr.
  destruct (inv_index w HI p c Hc) as [?|[?|?]]; unfold kNew, kAdded, kDeleted in *; lia.
Qed.

Lemma change_other w p q i w' :
  owned w p -> q <> p -> change w i p = Ok w' -> store w' !! q = store w !! q.
Proof.
  intros [HI (c & Hc & Hnew)] Hne E.
  destruct (update_ok w p c (Channel.change i c) HI Hc) as (w2 & E2 & _ & Hs); try done.
  { apply Channel.change_wf, (inv_events w HI p c Hc). }
  unfold change, channel in E. rewrite Hc in E. simpl in E. assert (w2 = w') as -> by congruence.
  by rewrite Hs, lookup_insert_ne.
Qed.

Lemma remove_other_ok w p q w' :
  q <> p -> removeChannel w p = Ok w' -> store w' !! q = store w !! q.
Proof.
  intros Hne E. unfold removeChannel in E. inv_ok. simpl. rewrite lookup_insert_ne by done. by case_match.
Qed.

#[export] Program Instance epoller_host : ChannelHost t :=
  {| consistent := Inv; newChannel := create; deleteChannel := erase |}.
Next Obligation. by intros w p [HI _]. Qed.
Next Obligation. intros w p q c d. apply one_channel. Qed.
Next Obligation.
  intros w p fd HI Hp Hfd. simpl in *. split_and!.
  - split; [by apply create_inv|]. exists (Channel.new fd). simpl. rewrite lookup_insert_eq.
    split; [done|]. intros _. destruct (channels_ w !! fd) as [p'|] eqn:Hm; [|done].
    destruct (inv_stored w HI _ _ Hm) as (c & Hc & Hf).
    destruct (registered c) eqn:Hr; [by destruct (Hfd p' c Hc Hr)|].
    apply (unregistered_new w p' c HI Hc) in Hr. rewrite <- Hf in Hm.
    by apply (inv_mapped w HI p' c Hc) in Hm.
  - by rewrite lookup_insert_eq.
  - intros q Hq. rewrite lookup_insert_ne by done. split; [done|].
    intros [_ (c & Hc & Hn)]. split; [by apply create_inv|]. exists c. simpl.
    by rewrite lookup_insert_ne.
Qed.
Next Obligation. intros w p q i w'. apply change_frame. Qed.
Next Obligation. intros w p q w'. apply remove_frame_ok. Qed.
Next Obligation. intros w p q i w'. apply change_other. Qed.
Next Obligation. intros w p q w' _. apply remove_other_ok. Qed.
Next Obligation.
  intros w p c HI Hc Hr. simpl in *. pose proof (unregistered_new w p c HI Hc Hr) as Hi.
  assert (HI' : Inv (erase w p)) by (by apply (inv_delete w p c)).
  split_and!; [done|by rewrite lookup_delete_eq|]. intros q Hq.
  rewrite lookup_delete_ne by done. split; [done|]. intros [_ (c2 & Hc2 & Hn)].
  split; [done|]. exists c2. simpl. by rewrite lookup_delete_ne.
Qed.

End poller.

(** ** A concrete kernel, and the life of two channels on it *)

Definition demo_ctl (k : gmap Z (Z * Z)) (op : ctl) (fd ev p : Z) : Z * gmap Z (Z * Z) :=
  match op, k !! fd with
  | EPOLL_CTL_ADD, None => (0, <[fd := (ev, p)]> k)
  | EPOLL_CTL_MOD, Some _ => (0, <[fd := (ev, p)]> k)
  | EPOLL_CTL_DEL, Some _ => (0, delete fd k)
  | _, _ => (-1, k)
  end.

#[export] Program Instance demo_kernel : Kernel :=
  {| K := gmap Z (Z * Z); watched k := k; epoll_ctl := demo_ctl |}.
Next Obligation. intros k fd ev p H. unfold demo_ctl. by rewrite H. Qed.
Next Obligation. intros k fd ev p [x H]. unfold demo_ctl. by rewrite H. Qed.
Next Obligation. intros k fd ev p [x H]. unfold demo_ctl. by rewrite H. Qed.
Next Obligation.
  intros k [] fd ev p H; unfold demo_ctl; solve [by rewrite H|destruct H as [x H]; by rewrite H].
Qed.

Definition result {A} (d : A) (r : res A) : A := match r with Ok a => a | Err _ => d end.

(** A channel at address 100 on descriptor 5 that is read, then disabled. *)
Definition demo0 : t := init (Kern := demo_kernel) ∅.
Definition demo1 : t := create demo0 100 5.
Definition demo2 : t := result demo1 (change demo1 Channel.EnableReading 100).
Definition demo3 : t := result demo2 (change demo2 Channel.DisableAll 100).

Lemma demo1_reachable : reachable demo1.
Proof.
  apply (reach_op demo0 (OCreate 100 5)); [by apply reach_init|by apply lookup_empty|done].
Qed.

Lemma demo2_reachable : reachable demo2.
Proof.
  apply (reach_op demo1 (OChange Channel.EnableReading 100)); [apply demo1_reachable| |].
  - exists (Channel.new 5). split; [by vm_compute|]. by vm_compute.
  - by vm_compute.
Qed.

Lemma demo3_reachable : reachable demo3.
Proof.
  apply (reach_op demo2 (OChange Channel.DisableAll 100)); [apply demo2_reachable| |].
  - eexists. split; [by vm_compute|]. by vm_compute.
  - by vm_compute.
Qed.

Lemma epoller_invariant_witness :
  reachable demo3 /\ ctlErrors demo3 = 0%nat.
Proof.
  split; [apply demo3_reachable|]. apply (epoller_invariant demo3), demo3_reachable.
Defined.

Lemma epoller_progress_witness :
  exists w', run demo3 (ORemove 100) = Ok w' /\ reachable w'.
Proof.
  apply (epoller_progress demo3 (ORemove 100)); [apply demo3_reachable|].
  eexists. split; [by vm_compute|]. by vm_compute.
Defined.

Lemma poll_correct_witness :
  exists w', poll demo2 (Some [(1, 100)]) = Ok ([100], w') /\ eventsSize w' = 16.
Proof.
  destruct (poll_correct demo2 [(1, 100)]) as (w' & E & _ & _ & _ & _ & H).
  - apply demo2_reachable.
  - done.
  - split; [by vm_compute|]. intros r p [[= -> ->]|H%not_elem_of_nil]%elem_of_cons; [|done].
    exists 5, 3. by vm_compute.
  - apply NoDup_singleton.
  - exists w'. split; [exact E|]. rewrite H. by vm_compute.
Defined.

End EPoller.
