(* ===== verification/LoopLife.v ===== *)
(** * The loops of a thread, from their constructors to their destructors
      ([EventLoop.cpp], [EPoller.cpp], [TimerQueue.cpp])

    A loop owns three descriptors, of its poller, its timers and its wakeup, and
    the channels of the last two, registered with its poller (any [ChannelHost]).
    The thread has the pointer [t_loopInThisThread].  What [epoll_create],
    [timerfd_create] and [eventfd] return and the addresses of the channels are
    inputs; the descriptors opened and closed are recorded in order, and the errors
    logged are counted. *)

From S2P Require Import Prelude Channel ChannelOwner EPoller.

Module LoopLife.

Section life.
Context {P : Type} `{HH : ChannelHost P}.
(** A poller just constructed. *)
Context (empty : P).

Record loop := mk_loop {
  looping_ : bool;
  poller_ : P;
  epollfd_ : Z;
  timerfd_ : Z;
  timerfdChannel_ : Z;
  wakeupFd_ : Z;
  wakeupChannel_ : Z;
  (* whether [handleEvent] of the channel has run *)
  expired : bool;
  woken : bool
}.

Record t := mk {
  t_loopInThisThread : option Z;
  loops : gmap Z loop;
  opened : list Z;
  closed : list Z;
  errors : nat
}.

Definition init : t := mk None ∅ [] [] 0.

(** What the constructor gets from outside. *)
Record given := mk_given {
  self : Z;
  epollfd : Z;
  timerfd : Z;
  evtfd : Z;
  timerChannel : Z;
  wakeupChannel : Z
}.

Definition failed (fd : Z) : nat := if fd <? 0 then 1 else 0.
Definition got (fd : Z) : list Z := if fd <? 0 then [] else [fd].

(** [timerfdChannel_(loop, timerfd_)], [new Channel(this, wakeupFd_)], and the
    [enableReading()] that follows. *)
Definition watch (w : P) (p fd : Z) : res P := update (newChannel w p fd) Channel.EnableReading p.

(** [createEventfd()] aborts when there is none. *)
Definition createEventfd (evtfd : Z) : res Z := check (0 <=? evtfd) NoReturn ;; Ok evtfd.

(** [EventLoop()]: the poller, the timer queue, the event descriptor, the pointer
    of the thread, the wakeup channel. *)
Definition construct (th : t) (g : given) : res t :=
  w ← watch empty (timerChannel g) (timerfd g) ;
  wakeupFd ← createEventfd (evtfd g) ;
  let taken := match t_loopInThisThread th with Some _ => true | None => false end in
  w ← watch w (wakeupChannel g) wakeupFd ;
  Ok (mk (if taken then t_loopInThisThread th else Some (self g))
        (<[self g := mk_loop false w (epollfd g) (timerfd g) (timerChannel g) wakeupFd (wakeupChannel g) false false]>
           (loops th))
        (opened th ++ got (epollfd g) ++ got (timerfd g) ++ [wakeupFd])
        (closed th)
        (errors th + failed (epollfd g) + failed (timerfd g) + (if taken then 1 else 0))).

(** [~Channel()] of the channel at [p]. *)
Definition destroy_channel (l : loop) (p : Z) (handled : bool) : res () :=
  match channelAt (poller_ l) p with
  | None => Err NullDeref
  | Some c => Channel.destroy (Channel.set_handling c (if handled then Some false else None))
  end.

(** [~EventLoop()] and then its members in reverse order: the wakeup channel,
    [~TimerQueue()] with its channel, [~EPoller()]. *)
Definition destroy (th : t) (p : Z) : res t :=
  match loops th !! p with
  | None => Err UseAfterFree
  | Some l =>
      assert_ (negb (looping_ l)) ;;
      destroy_channel l (wakeupChannel_ l) (woken l) ;;
      destroy_channel l (timerfdChannel_ l) (expired l) ;;
      Ok (mk None (delete p (loops th)) (opened th)
            (closed th ++ got (wakeupFd_ l) ++ got (timerfd_ l) ++ got (epollfd_ l)) (errors th))
  end.

(** What else happens to a loop here: [loop()] is entered and left, and its two
    channels handle events. *)
Inductive happening := Enter | Leave | Wake | Expire.

Definition happens (l : loop) (h : happening) : loop :=
  mk_loop (match h with Enter => true | Leave => false | _ => looping_ l end)
    (poller_ l) (epollfd_ l) (timerfd_ l) (timerfdChannel_ l) (wakeupFd_ l) (wakeupChannel_ l)
    (match h with Expire => true | _ => expired l end)
    (match h with Wake => true | _ => woken l end).

Inductive event := Construct (g : given) | Destroy (p : Z) | Happen (p : Z) (h : happening).

Definition step (th : t) (e : event) : res t :=
  match e with
  | Construct g => construct th g
  | Destroy p => destroy th p
  | Happen p h =>
      match loops th !! p with
      | None => Err UseAfterFree
      | Some l =>
          match h with Enter => assert_ (negb (looping_ l)) | _ => Ok () end ;;
          Ok (mk (t_loopInThisThread th) (<[p := happens l h]> (loops th)) (opened th) (closed th) (errors th))
      end
  end.

(** The system calls succeed, and the new objects have addresses of their own;
    [loop()] is left after it was entered, and wakes and expires meanwhile. *)
Definition allowed (th : t) (e : event) : Prop :=
  match e with
  | Construct g =>
      loops th !! self g = None /\ 0 <= epollfd g /\ 0 <= timerfd g /\ 0 <= evtfd g /\
      timerfd g <> evtfd g /\ timerChannel g <> wakeupChannel g
  | Destroy p => is_Some (loops th !! p)
  | Happen p h => exists l, loops th !! p = Some l /\
      looping_ l = match h with Enter => false | _ => true end
  end.

Inductive reachable : t -> Prop :=
  | reach_init : reachable init
  | reach_step th e th' : reachable th -> allowed th e -> step th e = Ok th' -> reachable th'.

(** ** One loop *)

Context (Hempty : consistent empty) (Hnone : forall p, channelAt empty p = None).

Definition listens (w : P) (p fd : Z) : Prop :=
  good w p /\ exists c, channelAt w p = Some c /\ Channel.fd_ c = fd /\
    registered c = true /\ Channel.isReading c = true.

(** The poller of a loop watches both its descriptors. *)
Definition Loop_ok (l : loop) : Prop :=
  listens (poller_ l) (timerfdChannel_ l) (timerfd_ l) /\
  listens (poller_ l) (wakeupChannel_ l) (wakeupFd_ l).

Lemma watch_ok w p fd :
  consistent w -> channelAt w p = None ->
  (forall q c, channelAt w q = Some c -> registered c = true -> Channel.fd_ c <> fd) ->
  exists w', watch w p fd = Ok w' /\ listens w' p fd /\
    (forall q, q <> p -> channelAt w' q = channelAt w q) /\
    forall q fd', q <> p -> listens w q fd' -> listens w' q fd'.
Proof.
  intros HC Hp Hfd. destruct (new_law w p fd HC Hp Hfd) as (Hg & Hc & Hrest). unfold watch.
  destruct (update_law _ p _ Channel.EnableReading Hg Hc) as (w' & idx & E & Hg' & Hi & Hc').
  assert (Hother : forall q, q <> p -> channelAt w' q = channelAt w q).
  { intros q Hq. rewrite (update_other _ p q _ w' Hg Hq E). by apply Hrest. }
  exists w'. split_and!; [done| |done|].
  - split; [done|]. eexists. split; [exact Hc'|]. split_and!; [done|by apply Z.leb_le|done].
  - intros q fd' Hq (Hgq & c & Hcq & Hf & Hr & Hrd). destruct (Hrest q Hq) as [E1 Hk]. split.
    + apply (update_frame _ p q Channel.EnableReading w' Hg (Hk Hgq)); [|done].
      split; [done|]. exists (Channel.new fd), c. split_and!; [done|by rewrite E1|].
      intros H. by apply (Hfd q c Hcq Hr).
    + exists c. by rewrite Hother.
Qed.

Lemma construct_ok th g :
  allowed th (Construct g) ->
  exists l, Loop_ok l /\ looping_ l = false /\ woken l = false /\ expired l = false /\
    wakeupFd_ l = evtfd g /\ timerfd_ l = timerfd g /\ epollfd_ l = epollfd g /\
    construct th g = Ok (mk (match t_loopInThisThread th with Some p => Some p | None => Some (self g) end)
      (<[self g := l]> (loops th)) (opened th ++ [epollfd g; timerfd g; evtfd g]) (closed th)
      (errors th + match t_loopInThisThread th with Some _ => 1 | None => 0 end)).
Proof.
  intros (Hself & He & Ht & Hv & Hne & Hnp). unfold construct.
  destruct (watch_ok empty (timerChannel g) (timerfd g)) as (w1 & E1 & L1 & O1 & _); [done|done|by intros q c; rewrite Hnone|].
  unfold createEventfd. rewrite E1, bind_ret_l, (proj2 (Z.leb_le 0 (evtfd g))) by done.
  cbn [check mbind res_bind].
  destruct (watch_ok w1 (wakeupChannel g) (evtfd g)) as (w2 & E2 & L2 & _ & K2).
  - by apply (good_consistent _ (timerChannel g)), L1.
  - by rewrite O1.
  - intros q c Hq Hr. destruct (decide (q = timerChannel g)) as [->|Hqt].
    + destruct L1 as (_ & c1 & Hc1 & Hf & _). congruence.
    + by rewrite O1, Hnone in Hq.
  - rewrite E2, bind_ret_l. eexists (mk_loop false w2 _ _ _ _ _ false false).
    split_and!; [split; [by apply K2|done]|done..|]. unfold got, failed.
    rewrite (proj2 (Z.ltb_ge (epollfd g) 0)), (proj2 (Z.ltb_ge (timerfd g) 0)) by done.
    destruct (t_loopInThisThread th); do 2 f_equal; lia.
Qed.

Lemma destroys_one th p l :
  loops th !! p = Some l -> Loop_ok l -> looping_ l = false ->
  destroy th p =
    if woken l && expired l then
      Ok (mk None (delete p (loops th)) (opened th)
            (closed th ++ got (wakeupFd_ l) ++ got (timerfd_ l) ++ got (epollfd_ l)) (errors th))
    else Err BadCast.
Proof.
  intros Hl [(_ & ct & Ht & _) (_ & cw & Hw & _)] Hlo. unfold destroy, destroy_channel.
  rewrite Hl, Hlo, Hw, Ht. by destruct (woken l), (expired l).
Qed.

(** ** The loops of the thread *)

Definition descriptors (l : loop) : list Z := got (wakeupFd_ l) ++ got (timerfd_ l) ++ got (epollfd_ l).

(** The descriptors of the loops that live. *)
Definition held (m : gmap Z loop) : list Z := map_to_list m ≫= fun e => descriptors (snd e).

Lemma held_insert m p l : m !! p = None -> held (<[p := l]> m) ≡ₚ descriptors l ++ held m.
Proof. intros Hp. unfold held. by rewrite map_to_list_insert. Qed.

Lemma held_delete m p l : m !! p = Some l -> held m ≡ₚ descriptors l ++ held (delete p m).
Proof. intros Hp. unfold held. by rewrite <- (map_to_list_delete m p l Hp). Qed.

Lemma held_same m p l l' :
  m !! p = Some l -> descriptors l' = descriptors l -> held (<[p := l']> m) ≡ₚ held m.
Proof.
  intros Hp E. rewrite <- insert_delete_eq, held_insert by apply lookup_delete_eq.
  by rewrite E, <- held_delete.
Qed.

Record Inv (th : t) : Prop := {
  inv_pointer : forall p, t_loopInThisThread th = Some p -> is_Some (loops th !! p);
  inv_descriptors : opened th ≡ₚ closed th ++ held (loops th);
  inv_loops : forall p l, loops th !! p = Some l -> Loop_ok l;
  inv_errors : errors th = 0%nat ->
    match t_loopInThisThread th with
    | None => loops th = ∅
    | Some p => exists l, loops th = {[p := l]}
    end
}.

Lemma inv_construct th g th' :
  Inv th -> allowed th (Construct g) -> construct th g = Ok th' -> Inv th'.
Proof.
  intros [H1 H2 H3 H4] Ha E. destruct (construct_ok th g Ha) as (l & Hl & _ & _ & _ & Hw & Ht & He & E').
  rewrite E' in E. injection E as <-. destruct Ha as (Hself & He0 & Ht0 & Hv0 & _). split; cbn.
  - intros p Hp. destruct (decide (p = self g)) as [->|Hne]; [by rewrite lookup_insert_eq|].
    rewrite lookup_insert_ne by done. apply H1. revert Hp. destruct (t_loopInThisThread th); congruence.
  - rewrite held_insert by done. unfold descriptors. rewrite Hw, Ht, He. unfold got.
    rewrite (proj2 (Z.ltb_ge _ 0) He0), (proj2 (Z.ltb_ge _ 0) Ht0), (proj2 (Z.ltb_ge _ 0) Hv0).
    rewrite H2. simpl. solve_Permutation.
  - intros p l' Hp. apply lookup_insert_Some in Hp as [[<- <-]|[_ Hp]]; [done|by apply (H3 p)].
  - intros Herr. destruct (t_loopInThisThread th); [lia|]. rewrite H4 by lia. by exists l.
Qed.

Lemma inv_destroy th p th' : Inv th -> is_Some (loops th !! p) -> destroy th p = Ok th' -> Inv th'.
Proof.
  intros [H1 H2 H3 H4] [l Hp] E.
  assert (Hlo : looping_ l = false) by (unfold destroy in E; rewrite Hp in E; by destruct (looping_ l)).
  rewrite (destroys_one th p l Hp (H3 p l Hp) Hlo) in E. destruct (_ && _); [|done]. injection E as <-. split; cbn.
  - done.
  - rewrite H2, (held_delete _ p l Hp). unfold descriptors. rewrite <- !app_assoc. done.
  - intros q l' [_ Hq]%lookup_delete_Some. by apply (H3 q).
  - intros Herr. specialize (H4 Herr). destruct (t_loopInThisThread th) as [q|] eqn:Hq.
    + destruct H4 as [l' Hm]. rewrite Hm in Hp |- *. apply lookup_singleton_Some in Hp as [<- _].
      apply delete_singleton_eq.
    + by rewrite H4, lookup_empty in Hp.
Qed.

Lemma inv_happen th p h th' : Inv th -> step th (Happen p h) = Ok th' -> Inv th'.
Proof.
  intros [H1 H2 H3 H4] E. cbn [step] in E. destruct (loops th !! p) as [l|] eqn:Hp; [|done].
  apply bind_ok in E as ([] & _ & [= <-]). split; cbn.
  - intros q Hq. destruct (decide (p = q)) as [->|Hne]; [by rewrite lookup_insert_eq|].
    rewrite lookup_insert_ne by done. by apply H1.
  - by rewrite (held_same _ p l).
  - intros q l' Hq. apply lookup_insert_Some in Hq as [[<- <-]|[_ Hq]]; [apply (H3 p l Hp)|by apply (H3 q)].
  - intros Herr. specialize (H4 Herr). destruct (t_loopInThisThread th) as [q|].
    + destruct H4 as [l' Hm]. rewrite Hm in Hp |- *. apply lookup_singleton_Some in Hp as [<- _].
      eexists. apply insert_singleton_eq.
    + by rewrite H4, lookup_empty in Hp.
Qed.

Lemma life_inv th : reachable th -> Inv th.
Proof.
  induction 1 as [|th e th' _ HI Ha E]; [by split|].
  destruct e as [g|p|p h]; [by eapply inv_construct|by eapply inv_destroy|by eapply inv_happen].
Qed.

(** C33. In every history of the loops of a thread: every descriptor opened is, once
    each, closed or held by a loop that lives; the pointer of the thread never
    dangles, and while no error was logged it is the only loop there is; and every
    living loop's poller has its timer and wakeup channels registered for reading
    on the loop's descriptors. *)
Theorem thread_loops th :
  reachable th ->
  opened th ≡ₚ closed th ++ held (loops th) /\
  (forall p, t_loopInThisThread th = Some p -> is_Some (loops th !! p)) /\
  (errors th = 0%nat ->
    match t_loopInThisThread th with None => loops th = ∅ | Some p => exists l, loops th = {[p := l]} end) /\
  (forall p l, loops th !! p = Some l ->
    listens (poller_ l) (timerfdChannel_ l) (timerfd_ l) /\ listens (poller_ l) (wakeupChannel_ l) (wakeupFd_ l)).
Proof. intros [H1 H2 H3 H4]%life_inv. split_and!; [done..|]. intros p l Hp. by apply (H3 p). Qed.

(** No construction faults in such a history, nor does the start of a loop; a loop
    that is not running is destroyed, its three descriptors closed, when both its
    channels have handled an event, and otherwise the destructor of one of them
    reads a flag that was never written. *)
Theorem loop_lifetimes th e :
  reachable th -> allowed th e ->
  match e with
  | Destroy p => forall l, loops th !! p = Some l -> looping_ l = false ->
      if woken l && expired l then
        exists th', step th e = Ok th' /\ loops th' = delete p (loops th) /\
          closed th' = closed th ++ descriptors l
      else step th e = Err BadCast
  | _ => exists th', step th e = Ok th'
  end.
Proof.
  intros Hr Ha. destruct e as [g|p|p h]; cbn [step].
  - destruct (construct_ok th g Ha) as (l & _ & _ & _ & _ & _ & _ & _ & E). by eexists.
  - intros l Hp Hlo. rewrite (destroys_one th p l Hp) by (done || by apply (inv_loops _ (life_inv _ Hr) p)).
    destruct (_ && _); [|done]. eexists. split_and!; reflexivity.
  - destruct Ha as (l & -> & Hlo). destruct h; rewrite ?Hlo; cbn; by eexists.
Qed.

End life.
(** ** Two loops in one thread *)

#[local] Existing Instance EPoller.demo_kernel.
#[local] Existing Instance EPoller.epoller_owner.
#[local] Existing Instance EPoller.epoller_host.

Notation thread := (t (P := EPoller.t)).

Lemma demo_empty : consistent EPoller.demo0 /\ forall p, channelAt EPoller.demo0 p = None.
Proof. split; [by apply EPoller.epoller_init_inv|]. intros p. apply lookup_empty. Qed.

Definition demo_given (n : Z) : given := mk_given n (3 * n) (3 * n + 1) (3 * n + 2) 100 200.

Definition next (th : thread) (e : event) : thread :=
  match step EPoller.demo0 th e with Ok th' => th' | Err _ => th end.

Definition demo_two : thread := foldl next init [Construct (demo_given 1); Construct (demo_given 2)].
Definition demo_ran : thread :=
  foldl next demo_two [Happen 2 Enter; Happen 2 Wake; Happen 2 Expire; Happen 2 Leave].
Definition demo_gone : thread := next demo_ran (Destroy 2).

Notation demo_reach := (reachable EPoller.demo0).

Lemma next_reachable th e :
  demo_reach th -> allowed th e -> is_ok (step EPoller.demo0 th e) = true -> demo_reach (next th e).
Proof.
  intros Hr Ha E. apply (reach_step _ th e); [done|done|]. unfold next. by destruct (step EPoller.demo0 th e).
Qed.

Lemma demo_two_reachable : demo_reach demo_two.
Proof.
  unfold demo_two. cbn [foldl].
  repeat (apply next_reachable; [|split_and!; try (vm_compute; congruence)|vm_compute; reflexivity]).
  apply reach_init.
Qed.

Lemma demo_ran_reachable : demo_reach demo_ran.
Proof.
  unfold demo_ran. cbn [foldl].
  repeat (apply next_reachable;
    [|eexists; split; [vm_compute; reflexivity|reflexivity]|vm_compute; reflexivity]).
  apply demo_two_reachable.
Qed.

Lemma thread_loops_witness : opened demo_two ≡ₚ held (loops demo_two).
Proof.
  destruct demo_empty as [H1 H2]. exact (proj1 (thread_loops EPoller.demo0 H1 H2 demo_two demo_two_reachable)).
Defined.

Lemma loop_lifetimes_witness :
  exists th', step EPoller.demo0 demo_ran (Destroy 2) = Ok th' /\ closed th' = [8; 7; 6].
Proof.
  destruct demo_empty as [H1 H2].
  assert (Hl : exists l, loops demo_ran !! 2 = Some l) by (eexists; vm_compute; reflexivity).
  pose proof (loop_lifetimes EPoller.demo0 H1 H2 demo_ran (Destroy 2) demo_ran_reachable Hl) as H.
  destruct Hl as [l Hl]. specialize (H l Hl). vm_compute in Hl. injection Hl as <-.
  destruct (H eq_refl) as (th' & E & _ & Hc). exists th'. split; [exact E|exact Hc].
Defined.

(** The second loop of a thread, destroyed, takes the pointer of the first away. *)
Example overlapping_loops :
  t_loopInThisThread demo_ran = Some 1 /\ t_loopInThisThread demo_gone = None /\
  is_Some (loops demo_gone !! 1) /\ errors demo_gone = 1%nat.
Proof. split_and!; try reflexivity. by eexists; vm_compute. Qed.

(** A loop that never ran cannot be destroyed. *)
Example unused_loop : step EPoller.demo0 demo_two (Destroy 1) = Err BadCast.
Proof. vm_compute. reflexivity. Qed.

End LoopLife.
