(* ===== verification/TcpConnection.v ===== *)
(** * TcpConnection: one connection on its loop ([TcpConnection.h], [TcpConnection.cpp])

    The connection's channel is registered through the interface
    [ChannelOwner]; the answers of [::write] are the function of [Socket]; the
    user's callbacks are programs [prog] that call the connection's public
    operations one after the other, each chosen from the state the previous one
    left.  [log] records, in order, what is visible from outside: the messages
    handed to [sendInLoop], the bytes [::write] took, [shutdownWrite] and the
    callbacks.  [pending] is this connection's part of the loop's
    [pendingFunctors_].  The loop runs one step at a time; a call of another
    thread takes no lock, so its test of [state_], the write of [state_] in
    [shutdown] and the queueing are apart: [Foreign] is a call that nothing
    interrupts, and [Mark] and [Leave] are what is left of a call whose test found
    the connection up at some earlier time. *)

From S2P Require Import Prelude Buffer Channel ChannelOwner EPoller.

Module TcpConnection.

Inductive StateE := kConnecting | kConnected | kDisconnecting | kDisconnected.

#[export] Instance StateE_eq_dec : EqDecision StateE.
Proof. solve_decision. Defined.

(** [::write] on the socket: the [n]-th call, given [d], returns [write n d];
    negative on error, and never more than it was given. *)
Class Socket := {
  write : nat -> list byte -> Z;
  write_bound : forall n d, write n d <= zlen d
}.

(** The functors a connection leaves with [queueInLoop]. *)
Inductive functor :=
  | FSend (message : list byte)
  | FStartRead
  | FStopRead
  | FShutdown
  | FWriteComplete
  | FHighWaterMark (len : Z).

(** What is visible from outside. *)
Inductive obs :=
  | Accepted (message : list byte)
  | Wrote (d : list byte)
  | ShutdownWrite
  | Connection (s : StateE)
  | Message
  | WriteComplete
  | HighWaterMark (len : Z)
  | Closed
  | SocketError.

Section connection.
Context {P : Type} `{HP : ChannelOwner P} `{HS : Socket}.

Record t := mk {
  state_ : StateE;
  reading_ : bool;
  loop_ : P;
  channel_ : Z;
  inputBuffer_ : Buffer.t;
  outputBuffer_ : Buffer.t;
  pending : list functor;
  nwrites : nat;
  log : list obs
}.

Definition setState (w : t) (s : StateE) : t :=
  mk s (reading_ w) (loop_ w) (channel_ w) (inputBuffer_ w) (outputBuffer_ w)
    (pending w) (nwrites w) (log w).
Definition set_reading (w : t) (b : bool) : t :=
  mk (state_ w) b (loop_ w) (channel_ w) (inputBuffer_ w) (outputBuffer_ w)
    (pending w) (nwrites w) (log w).
Definition set_loop (w : t) (l : P) : t :=
  mk (state_ w) (reading_ w) l (channel_ w) (inputBuffer_ w) (outputBuffer_ w)
    (pending w) (nwrites w) (log w).
Definition set_input (w : t) (b : Buffer.t) : t :=
  mk (state_ w) (reading_ w) (loop_ w) (channel_ w) b (outputBuffer_ w)
    (pending w) (nwrites w) (log w).
Definition set_output (w : t) (b : Buffer.t) : t :=
  mk (state_ w) (reading_ w) (loop_ w) (channel_ w) (inputBuffer_ w) b
    (pending w) (nwrites w) (log w).
Definition set_pending (w : t) (l : list functor) : t :=
  mk (state_ w) (reading_ w) (loop_ w) (channel_ w) (inputBuffer_ w) (outputBuffer_ w)
    l (nwrites w) (log w).
Definition emit (w : t) (o : obs) : t :=
  mk (state_ w) (reading_ w) (loop_ w) (channel_ w) (inputBuffer_ w) (outputBuffer_ w)
    (pending w) (nwrites w) (log w ++ [o]).
(** [loop_->queueInLoop] of a functor of this connection. *)
Definition queueInLoop (w : t) (f : functor) : t := set_pending w (pending w ++ [f]).

(** The constructor, for a channel just created at [p]. *)
Definition init (l : P) (p : Z) : t :=
  mk kConnecting true l p Buffer.init Buffer.init [] 0 [].

Definition connected (w : t) : bool := bool_decide (state_ w = kConnected).

Definition chan (w : t) : res Channel.t :=
  match channelAt (loop_ w) (channel_ w) with Some c => Ok c | None => Err NullDeref end.
(** [channel_->enableReading()] and its kin. *)
Definition change (w : t) (i : Channel.interest) : res t :=
  l ← update (loop_ w) i (channel_ w) ;
  Ok (set_loop w l).

(** One call of [::write] on [channel_->fd()]: its result, the bytes it took
    recorded. *)
Definition sys_write (w : t) (d : list byte) : Z * t :=
  let n := write (nwrites w) d in
  let w := mk (state_ w) (reading_ w) (loop_ w) (channel_ w) (inputBuffer_ w)
             (outputBuffer_ w) (pending w) (S (nwrites w)) (log w) in
  (n, if 0 <? n then emit w (Wrote (ztake n d)) else w).

(** ** User code *)

(** The operations that any thread may call. *)
Inductive call :=
  | Send (message : list byte)
  | StartRead
  | StopRead
  | Shutdown.

(** What a callback on the loop thread may do besides: use [inputBuffer()]. *)
Inductive action :=
  | Public (c : call)
  | SendInput
  | Retrieve (len : Z)
  | RetrieveAll.

Inductive prog :=
  | Return
  | Do (a : action) (k : t -> prog).

(** The callbacks set on the connection; [None] is an empty [std::function]. *)
Record callbacks := {
  connectionCallback_ : t -> prog;
  messageCallback_ : t -> prog;
  writeCompleteCallback_ : option (t -> prog);
  highWaterMarkCallback_ : option (Z -> t -> prog);
  highWaterMark_ : Z
}.

Definition defaultConnectionCallback (w : t) : prog := Return.
Definition defaultMessageCallback (w : t) : prog := Do RetrieveAll (fun _ => Return).

(** The callbacks the constructor sets. *)
Definition default_callbacks : callbacks :=
  {| connectionCallback_ := defaultConnectionCallback;
     messageCallback_ := defaultMessageCallback;
     writeCompleteCallback_ := None;
     highWaterMarkCallback_ := None;
     highWaterMark_ := 64 * 1024 * 1024 |}.

Context (cb : callbacks).

Definition has_writeComplete : bool :=
  match writeCompleteCallback_ cb with Some _ => true | None => false end.
Definition has_highWaterMark : bool :=
  match highWaterMarkCallback_ cb with Some _ => true | None => false end.

(** ** The operations in the loop *)

(** The first part of [sendInLoop]: write directly when nothing is waiting. *)
Definition write_direct (w : t) (c : Channel.t) (message : list byte) : Z * t :=
  if negb (Channel.isWriting c) && (Buffer.readableBytes (outputBuffer_ w) =? 0) then
    let r := sys_write w message in
    let nwrote := fst r in
    if 0 <=? nwrote then
      if nwrote <? zlen message then r
      else (nwrote, if has_writeComplete then queueInLoop (snd r) FWriteComplete else snd r)
    else (0, snd r)
  else (0, w).

Definition sendInLoop (w : t) (message : list byte) : res t :=
  let w := emit w (Accepted message) in
  c ← chan w ;
  let r := write_direct w c message in
  let nwrote := fst r in
  let w := snd r in
  assert_ (0 <=? nwrote) ;;
  if nwrote <? zlen message then
    let oldLen := Buffer.readableBytes (outputBuffer_ w) in
    let len := u64 (oldLen + u64 (zlen message - nwrote)) in
    let w := if (highWaterMark_ cb <=? len) && (oldLen <? highWaterMark_ cb) && has_highWaterMark
             then queueInLoop w (FHighWaterMark len) else w in
    b ← Buffer.append (outputBuffer_ w) (zdrop nwrote message) ;
    let w := set_output w b in
    c ← chan w ;
    if negb (Channel.isWriting c) then change w Channel.EnableWriting else Ok w
  else Ok w.

Definition startReadInLoop (w : t) : res t :=
  c ← chan w ;
  if negb (reading_ w) || negb (Channel.isReading c) then
    w ← change w Channel.EnableReading ;
    Ok (set_reading w true)
  else Ok w.

Definition stopReadInLoop (w : t) : res t :=
  c ← chan w ;
  if reading_ w || Channel.isReading c then
    w ← change w Channel.DisableReading ;
    Ok (set_reading w false)
  else Ok w.

Definition shutdownInLoop (w : t) : res t :=
  c ← chan w ;
  Ok (if negb (Channel.isWriting c) then emit w ShutdownWrite else w).

(** ** The public operations, called on the loop thread or on another *)

(** [send(const std::string&)]; making the string throws when it is too long. *)
Definition send (w : t) (isInLoopThread : bool) (message : list byte) : res t :=
  check (zlen message <=? max_size) LengthError ;;
  if connected w then
    if isInLoopThread then sendInLoop w message
    else Ok (queueInLoop w (FSend message))
  else Ok w.

(** [send] of a [Buffer], the connection's own input buffer, on the loop thread. *)
Definition send_input (w : t) : res t :=
  if connected w then
    r ← Buffer.retrieveAsString (inputBuffer_ w) ;
    sendInLoop (set_input w (snd r)) (fst r)
  else Ok w.

Definition startRead (w : t) (isInLoopThread : bool) : res t :=
  if isInLoopThread then startReadInLoop w else Ok (queueInLoop w FStartRead).
Definition stopRead (w : t) (isInLoopThread : bool) : res t :=
  if isInLoopThread then stopReadInLoop w else Ok (queueInLoop w FStopRead).

Definition shutdown (w : t) (isInLoopThread : bool) : res t :=
  if connected w then
    let w := setState w kDisconnecting in
    if isInLoopThread then shutdownInLoop w else Ok (queueInLoop w FShutdown)
  else Ok w.

Definition exec_call (w : t) (isInLoopThread : bool) (c : call) : res t :=
  match c with
  | Send message => send w isInLoopThread message
  | StartRead => startRead w isInLoopThread
  | StopRead => stopRead w isInLoopThread
  | Shutdown => shutdown w isInLoopThread
  end.

(** What a call of another thread leaves in the loop, once it has tested [state_]. *)
Definition leave (w : t) (c : call) : res t :=
  match c with
  | Send message =>
      check (zlen message <=? max_size) LengthError ;;
      Ok (queueInLoop w (FSend message))
  | StartRead => Ok (queueInLoop w FStartRead)
  | StopRead => Ok (queueInLoop w FStopRead)
  | Shutdown => Ok (queueInLoop w FShutdown)
  end.

Definition exec_action (w : t) (a : action) : res t :=
  match a with
  | Public c => exec_call w true c
  | SendInput => send_input w
  | Retrieve len =>
      b ← Buffer.retrieve (inputBuffer_ w) (u64 len) ;
      Ok (set_input w b)
  | RetrieveAll => Ok (set_input w (Buffer.retrieveAll (inputBuffer_ w)))
  end.

Fixpoint run (p : prog) (w : t) : res t :=
  match p with
  | Return => Ok w
  | Do a k => w' ← exec_action w a ; run (k w') w'
  end.

Definition call_back (w : t) (o : obs) (f : t -> prog) : res t :=
  let w := emit w o in run (f w) w.

(** ** The handlers *)

Definition connectionEstablished (w : t) : res t :=
  assert_ (bool_decide (state_ w = kConnecting)) ;;
  let w := setState w kConnected in
  w ← change w Channel.EnableReading ;
  call_back w (Connection (state_ w)) (connectionCallback_ cb).

Definition connectionDestroyed (w : t) : res t :=
  w ← (if connected w then
         let w := setState w kDisconnected in
         w ← change w Channel.DisableAll ;
         call_back w (Connection (state_ w)) (connectionCallback_ cb)
       else Ok w) ;
  l ← remove (loop_ w) (channel_ w) ;
  Ok (set_loop w l).

(** [handleClose]; [closeCallback_] is the owner's [removeConnection]. *)
Definition handleClose (w : t) : res t :=
  assert_ (bool_decide (state_ w = kConnected) || bool_decide (state_ w = kDisconnecting)) ;;
  let w := setState w kDisconnected in
  w ← change w Channel.DisableAll ;
  w ← call_back w (Connection (state_ w)) (connectionCallback_ cb) ;
  Ok (emit w Closed).

(** [handleError]: the error is logged. *)
Definition handleError (w : t) : t := emit w SocketError.

(** What [readv] takes of the bytes that have arrived: at most the two buffers. *)
Definition received (b : Buffer.t) (rv : Buffer.readv_result) : Buffer.readv_result :=
  match rv with
  | Buffer.RvData d =>
      Buffer.RvData (ztake (Buffer.size b - Buffer.writerIndex_ b + Buffer.kExtraBuf) d)
  | Buffer.RvError e => Buffer.RvError e
  end.

Definition handleRead (w : t) (rv : Buffer.readv_result) : res t :=
  r ← Buffer.readFd (inputBuffer_ w) (received (inputBuffer_ w) rv) ;
  let n := fst (fst r) in
  let w := set_input w (snd r) in
  if 0 <? n then call_back w Message (messageCallback_ cb)
  else if n =? 0 then handleClose w
  else Ok (handleError w).

Definition handleWrite (w : t) : res t :=
  c ← chan w ;
  if Channel.isWriting c then
    d ← Buffer.load (outputBuffer_ w) (Buffer.peek (outputBuffer_ w))
          (Buffer.readableBytes (outputBuffer_ w)) ;
    let r := sys_write w d in
    let n := fst r in
    let w := snd r in
    if 0 <? n then
      b ← Buffer.retrieve (outputBuffer_ w) n ;
      let w := set_output w b in
      if Buffer.readableBytes (outputBuffer_ w) =? 0 then
        w ← change w Channel.DisableWriting ;
        let w := if has_writeComplete then queueInLoop w FWriteComplete else w in
        if bool_decide (state_ w = kDisconnecting) then shutdownInLoop w else Ok w
      else Ok w
    else Ok w
  else Ok w.

(** One callback of the channel. *)
Definition handle (w : t) (rv : Buffer.readv_result) (c : Channel.callback) : res t :=
  match c with
  | Channel.CbClose => handleClose w
  | Channel.CbError => Ok (handleError w)
  | Channel.CbRead => handleRead w rv
  | Channel.CbWrite => handleWrite w
  end.

Fixpoint handle_all (w : t) (rv : Buffer.readv_result) (cs : list Channel.callback) : res t :=
  match cs with
  | [] => Ok w
  | c :: cs => w ← handle w rv c ; handle_all w rv cs
  end.

(** [handleEvent] of the connection's channel, whose four callbacks the
    constructor set, with ready set [revents]. *)
Definition handleEvent (w : t) (revents : Z) (rv : Buffer.readv_result) : res t :=
  c ← chan w ;
  let c := Channel.set_callbacks (Channel.set_revents c revents) true true true true in
  handle_all w rv (fst (Channel.handleEvent c)).

Definition run_functor (w : t) (f : functor) : res t :=
  match f with
  | FSend message => sendInLoop w message
  | FStartRead => startReadInLoop w
  | FStopRead => stopReadInLoop w
  | FShutdown => shutdownInLoop w
  | FWriteComplete =>
      match writeCompleteCallback_ cb with
      | Some f => call_back w WriteComplete f
      | None => Ok w
      end
  | FHighWaterMark len =>
      match highWaterMarkCallback_ cb with
      | Some f => call_back w (HighWaterMark len) (f len)
      | None => Ok w
      end
  end.

(** ** The events of a connection's life *)

Inductive event :=
  | Established
  | Ready (revents : Z) (rv : Buffer.readv_result)
  | Functor
  | Destroyed
  | Foreign (c : call)
  | Mark
  | Leave (c : call).

Definition step (w : t) (e : event) : res t :=
  match e with
  | Established => connectionEstablished w
  | Ready revents rv => handleEvent w revents rv
  | Functor =>
      match pending w with
      | [] => Ok w
      | f :: fs => run_functor (set_pending w fs) f
      end
  | Destroyed => connectionDestroyed w
  | Foreign c => exec_call w false c
  | Mark => Ok (setState w kDisconnecting)
  | Leave c => leave w c
  end.

(** The steps of other threads. *)
Definition foreign (e : event) : bool :=
  match e with Foreign _ | Mark | Leave _ => true | _ => false end.

(** ** Reading the log *)

Definition written (l : list obs) : list byte :=
  l ≫= fun o => match o with Wrote d => d | _ => [] end.
Definition accepted (l : list obs) : list byte :=
  l ≫= fun o => match o with Accepted m => m | _ => [] end.
Definition connections (l : list obs) : list StateE :=
  omap (fun o => match o with Connection s => Some s | _ => None end) l.

(** Until the connection is down, the write side is shut down only when every
    byte handed over before has been written. *)
Definition graceful (l : list obs) : Prop :=
  forall l1 l2, l = l1 ++ ShutdownWrite :: l2 -> Connection kDisconnected ∉ l1 ->
    written l1 = accepted l1.

(** The connection has not been reported down. *)
Definition up (l : list obs) : Prop := Connection kDisconnected ∉ l.

Definition connections_of (s : StateE) : list StateE :=
  match s with
  | kConnecting => []
  | kConnected | kDisconnecting => [kConnected]
  | kDisconnected => [kConnected; kDisconnected]
  end.

Lemma written_app l1 l2 : written (l1 ++ l2) = written l1 ++ written l2.
Proof. apply bind_app. Qed.
Lemma accepted_app l1 l2 : accepted (l1 ++ l2) = accepted l1 ++ accepted l2.
Proof. apply bind_app. Qed.
Lemma connections_app l1 l2 : connections (l1 ++ l2) = connections l1 ++ connections l2.
Proof. apply omap_app. Qed.

Lemma elem_of_connections s l : Connection s ∈ l <-> s ∈ connections l.
Proof.
  unfold connections. rewrite list_elem_of_omap. split.
  - intros H. by exists (Connection s).
  - intros (o & H & E). destruct o; by simplify_eq.
Qed.

Lemma graceful_snoc l o :
  graceful l ->
  (o = ShutdownWrite -> Connection kDisconnected ∉ l -> written l = accepted l) ->
  graceful (l ++ [o]).
Proof.
  intros Hg Ho l1 l2 E Hin. destruct l2 as [|x l2 _] using rev_ind.
  - apply app_inj_tail in E as [<- ->]. auto.
  - rewrite app_comm_cons, app_assoc in E. apply app_inj_tail in E as [-> <-].
    by apply (Hg l1 l2).
Qed.

Lemma graceful_app l l' :
  graceful l -> ShutdownWrite ∉ l' -> graceful (l ++ l').
Proof.
  induction l' as [|o l' IH] using rev_ind; intros Hg Hn; [by rewrite app_nil_r|].
  rewrite app_assoc. apply graceful_snoc.
  - apply IH; set_solver.
  - intros ->. set_solver.
Qed.

(** ** What [sendInLoop] and [handleWrite] do *)

Notation out w := (Buffer.readable (outputBuffer_ w)) (only parsing).
Notation channel w := (channelAt (loop_ w) (channel_ w)) (only parsing).

Lemma change_ok w i c :
  good (loop_ w) (channel_ w) -> channel w = Some c ->
  exists l idx, change w i = Ok (set_loop w l) /\ good l (channel_ w) /\ 0 <= idx /\
    channelAt l (channel_ w) = Some (Channel.set_index (Channel.change i c) idx).
Proof.
  intros Hg Hc. destruct (update_law _ _ c i Hg Hc) as (l & idx & E & ?).
  exists l, idx. unfold change. rewrite E. tauto.
Qed.

(** Nothing waits to be written. *)
Definition idle (w : t) (c : Channel.t) : bool :=
  negb (Channel.isWriting c) && bool_decide (out w = []).

(** How many bytes the direct [::write] of [sendInLoop] takes. *)
Definition direct (w : t) (c : Channel.t) (message : list byte) : Z :=
  if idle w c then Z.max 0 (write (nwrites w) message) else 0.

Definition took (n : Z) (d : list byte) : list obs := if 0 <? n then [Wrote (ztake n d)] else [].

Lemma written_took n d : written (took n d) = ztake n d.
Proof.
  unfold took. destruct (Z.ltb_spec 0 n); simpl; [by rewrite app_nil_r|].
  unfold ztake. by replace (Z.to_nat n) with 0%nat by lia.
Qed.

Lemma readableBytes_zero b :
  Buffer.Inv b -> (Buffer.readableBytes b =? 0) = bool_decide (Buffer.readable b = []).
Proof.
  intros HI. rewrite Buffer.readableBytes_len by done. case_bool_decide as H.
  - by rewrite H.
  - apply Z.eqb_neq. by intros ?%zlen_zero_nil.
Qed.

Lemma write_direct_ok w c m :
  Buffer.Inv (outputBuffer_ w) ->
  write_direct w c m =
    (direct w c m,
     mk (state_ w) (reading_ w) (loop_ w) (channel_ w) (inputBuffer_ w) (outputBuffer_ w)
       (pending w ++ if idle w c && (write (nwrites w) m =? zlen m) && has_writeComplete
                     then [FWriteComplete] else [])
       (if idle w c then S (nwrites w) else nwrites w)
       (log w ++ took (direct w c m) m)).
Proof.
  intros HI. unfold write_direct, direct, idle. rewrite readableBytes_zero by done.
  destruct (negb _ && _); simpl; [|unfold took; simpl; destruct w; by rewrite !app_nil_r].
  pose proof (write_bound (nwrites w) m). pose proof (zlen_nonneg m).
  unfold sys_write, took, queueInLoop, set_pending, emit. cbn [fst snd].
  destruct (Z.leb_spec 0 (write (nwrites w) m)).
  - rewrite Z.max_r by lia.
    destruct (Z.ltb_spec (write (nwrites w) m) (zlen m)).
    + replace (write (nwrites w) m =? zlen m) with false by lia. simpl.
      rewrite app_nil_r. case_match; [done|]. simpl. by rewrite app_nil_r.
    + replace (write (nwrites w) m =? zlen m) with true by lia. simpl.
      destruct has_writeComplete, (0 <? write (nwrites w) m); simpl; by rewrite ?app_nil_r.
  - rewrite Z.max_l by lia. replace (0 <? write _ _) with false by lia.
    replace (write (nwrites w) m =? zlen m) with false by lia. simpl. by rewrite !app_nil_r.
Qed.

(** Only the container may fail, when a message is beyond all memory. *)
Definition only_length (f : fault) : Prop := f = LengthError.

(** The functors [sendInLoop] queues: the message was written whole, or the
    waiting bytes reach the high-water mark. *)
Definition send_functors (w : t) (c : Channel.t) (m : list byte) : list functor :=
  let rest := zlen m - direct w c m in
  let oldLen := zlen (out w) in
  (if idle w c && (write (nwrites w) m =? zlen m) && has_writeComplete
   then [FWriteComplete] else []) ++
  (if (0 <? rest) && (highWaterMark_ cb <=? oldLen + rest) && (oldLen <? highWaterMark_ cb)
      && has_highWaterMark
   then [FHighWaterMark (oldLen + rest)] else []).

(** [w'] is [w] after [sendInLoop m] with the channel [c]. *)
Definition sent (w : t) (c : Channel.t) (m : list byte) (w' : t) : Prop :=
  exists l b c',
    w' = mk (state_ w) (reading_ w) l (channel_ w) (inputBuffer_ w) b
           (pending w ++ send_functors w c m)
           (if idle w c then S (nwrites w) else nwrites w)
           (log w ++ Accepted m :: took (direct w c m) m) /\
    Buffer.Inv b /\ Buffer.readable b = out w ++ zdrop (direct w c m) m /\
    good l (channel_ w) /\ channelAt l (channel_ w) = Some c' /\
    if (direct w c m <? zlen m) && negb (Channel.isWriting c)
    then exists idx, 0 <= idx /\
      c' = Channel.set_index (Channel.change Channel.EnableWriting c) idx
    else c' = c.

Lemma direct_range w c m : 0 <= direct w c m <= zlen m.
Proof.
  unfold direct. pose proof (write_bound (nwrites w) m). pose proof (zlen_nonneg m).
  case_match; lia.
Qed.

Lemma inv_small b : Buffer.Inv b -> 0 <= zlen (Buffer.readable b) <= max_size.
Proof. intros HI. rewrite Buffer.zlen_readable by done. destruct HI. unfold Buffer.size in *. lia. Qed.

Lemma sendInLoop_spec w c m :
  good (loop_ w) (channel_ w) -> channel w = Some c -> Buffer.Inv (outputBuffer_ w) ->
  zlen m <= max_size ->
  wp only_length (sendInLoop w m) (sent w c m).
Proof.
  intros Hg Hc HI Hm. unfold sendInLoop, chan. cbn [loop_ channel_ emit]. rewrite Hc.
  rewrite bind_ret_l, write_direct_ok by done. cbn [fst snd].
  change (direct (emit w (Accepted m)) c m) with (direct w c m).
  change (idle (emit w (Accepted m)) c) with (idle w c).
  pose proof (direct_range w c m) as Hd. pose proof (inv_small _ HI) as Hs.
  rewrite assert_true by lia. rewrite bind_ret_l. unfold sent, send_functors.
  cbn [emit state_ reading_ loop_ channel_ inputBuffer_ outputBuffer_ pending nwrites log].
  destruct (Z.ltb_spec (direct w c m) (zlen m)) as [Hlt|Hge].
  - rewrite Buffer.readableBytes_len by done.
    assert (Hz : zlen (zdrop (direct w c m) m) = zlen m - direct w c m) by zl.
    unfold max_size in *. rewrite (u64_small (zlen m - _)) by lia. rewrite u64_small by lia.
    replace (0 <? zlen m - direct w c m) with true by lia. cbn [andb].
    set (hw := (highWaterMark_ cb <=? _) && _ && _).
    set (pre := mk _ _ _ _ _ _ _ _ _).
    assert (Hpre : forall x, (if hw then queueInLoop pre x else pre) =
      set_pending pre (pending pre ++ if hw then [x] else [])).
    { intros x. destruct hw; [done|]. unfold pre, set_pending. simpl. by rewrite app_nil_r. }
    rewrite Hpre. apply wp_bind. cbn [outputBuffer_ set_pending pre].
    pose proof (Buffer.append_ok (outputBuffer_ w) (zdrop (direct w c m) m) HI
      ltac:(unfold max_size; lia)) as Ha.
    destruct (_ || _); [|by rewrite Ha]. destruct Ha as (b & -> & HIb & Hb & _). simpl.
    rewrite Hc. simpl. rewrite <- !app_assoc. cbn [app].
    destruct (negb (Channel.isWriting c)).
    + match goal with |- wp _ (change ?x _) _ => set (w2 := x) end.
      destruct (change_ok w2 Channel.EnableWriting c) as (l & idx & -> & Hgl & Hi & Hl); try done.
      simpl. exists l, b. eexists. split_and!; try done; [|by exists idx].
      unfold w2, pre, set_loop, set_output, set_pending. simpl. by rewrite <- !app_assoc.
    + simpl. exists (loop_ w), b, c. split_and!; try done.
      unfold pre, set_output, set_pending. simpl. by rewrite <- !app_assoc.
  - assert (direct w c m = zlen m) as Heq by lia. simpl.
    exists (loop_ w), (outputBuffer_ w), c. rewrite Heq.
    rewrite zdrop_all by lia. replace (0 <? zlen m - zlen m) with false by lia. simpl.
    rewrite !app_nil_r, <- app_assoc. by split_and!.
Qed.

(** [w'] is [w] after [handleWrite] with the channel [c]. *)
Definition flushed (w : t) (c : Channel.t) (w' : t) : Prop :=
  let n := write (nwrites w) (out w) in
  if Channel.isWriting c then
    exists l b c',
      w' = mk (state_ w) (reading_ w) l (channel_ w) (inputBuffer_ w) b
             (pending w ++ if (n =? zlen (out w)) && (0 <? n) && has_writeComplete
                           then [FWriteComplete] else [])
             (S (nwrites w))
             (log w ++ took n (out w) ++
              if (n =? zlen (out w)) && (0 <? n) && bool_decide (state_ w = kDisconnecting)
              then [ShutdownWrite] else []) /\
      Buffer.Inv b /\ Buffer.readable b = zdrop n (out w) /\
      good l (channel_ w) /\ channelAt l (channel_ w) = Some c' /\
      if (n =? zlen (out w)) && (0 <? n)
      then exists idx, 0 <= idx /\
        c' = Channel.set_index (Channel.change Channel.DisableWriting c) idx
      else c' = c
  else w' = w.

Lemma handleWrite_spec w c :
  good (loop_ w) (channel_ w) -> channel w = Some c -> Channel.wf c ->
  Buffer.Inv (outputBuffer_ w) ->
  exists w', handleWrite w = Ok w' /\ flushed w c w'.
Proof.
  intros Hg Hc Hwf HI. unfold handleWrite, flushed, chan. rewrite Hc. simpl.
  destruct (Channel.isWriting c) eqn:Hw; [|eauto].
  rewrite Buffer.load_readable by done. simpl.
  pose proof (write_bound (nwrites w) (out w)) as Hn. set (n := write _ _) in *.
  unfold took. destruct (Z.ltb_spec 0 n) as [Hpos|Hneg]; simpl.
  - pose proof (Buffer.retrieve_ok (outputBuffer_ w) n HI ltac:(lia)) as Hr.
    replace (n <=? zlen _) with true in Hr by lia.
    destruct Hr as (b & -> & HIb & Hb & _). simpl.
    rewrite readableBytes_zero by done. rewrite Hb.
    destruct (Z.eqb_spec n (zlen (out w))) as [He|He].
    + rewrite zdrop_all by lia. rewrite bool_decide_true by done. simpl.
      match goal with |- context [change ?x _] => set (w2 := x) end.
      destruct (change_ok w2 Channel.DisableWriting c) as (l & idx & -> & Hgl & Hi & Hl); try done.
      simpl. rewrite zdrop_all in Hb by lia.
      set (w3 := if has_writeComplete then _ else _).
      assert (Hw3 : w3 = mk (state_ w) (reading_ w) l (channel_ w) (inputBuffer_ w) b
        (pending w ++ if has_writeComplete then [FWriteComplete] else []) (S (nwrites w))
        (log w ++ [Wrote (ztake n (out w))])).
      { unfold w3. destruct has_writeComplete; [done|]. unfold w2, set_loop. simpl.
        by rewrite app_nil_r. }
      rewrite Hw3. cbn [state_]. destruct (bool_decide _).
      * unfold shutdownInLoop, chan. cbn [loop_ channel_]. simpl in Hl. rewrite Hl, bind_ret_l.
        assert (Channel.isWriting (Channel.set_index (Channel.change Channel.DisableWriting c) idx)
          = false) as -> by apply (Channel.change_writing Channel.DisableWriting c Hwf).
        eexists; split; [reflexivity|]. exists l, b. eexists. unfold emit. simpl.
        rewrite <- app_assoc. split_and!; try done. by exists idx.
      * eexists; split; [reflexivity|]. exists l, b. eexists. simpl.
        split_and!; try done. by exists idx.
    + rewrite bool_decide_false.
      2:{ intros Hnil. apply (f_equal zlen) in Hnil. autorewrite with zlen in Hnil. lia. }
      simpl. eexists; split; [reflexivity|]. exists (loop_ w), b, c.
      rewrite app_nil_r. by split_and!.
  - rewrite andb_false_r. simpl. eexists; split; [reflexivity|].
    exists (loop_ w), (outputBuffer_ w), c. rewrite !app_nil_r.
    split_and!; try done. unfold zdrop. by replace (Z.to_nat n) with 0%nat by lia.
Qed.

(** ** The invariant

    How much the schedule respects.  [Wild]: nothing.  [Timely]: no [shutdown] of
    another thread is overtaken by the close between its test and its write of
    [state_].  [Strict]: moreover queued calls run before the connection goes down,
    and no callback starts or stops reading on a connection that is down; then the
    channel of a closed connection has no interest. *)

Inductive mode := Wild | Timely | Strict.

#[export] Instance mode_eq_dec : EqDecision mode.
Proof. solve_decision. Defined.

Definition live (s : StateE) : bool :=
  match s with kConnected | kDisconnecting => true | _ => false end.
Definition rank (s : StateE) : Z :=
  match s with kConnecting => 0 | kConnected => 1 | kDisconnecting => 2 | kDisconnected => 3 end.

Definition channel_inv (strict : mode) (w : t) (c : Channel.t) : Prop :=
  Channel.wf c /\
  (Channel.isWriting c = true -> out w <> []) /\
  (up (log w) -> live (state_ w) = true -> registered c = true /\ Channel.isReading c = reading_ w /\
     (out w <> [] -> Channel.isWriting c = true)) /\
  (state_ w = kConnecting -> registered c = false /\ reading_ w = true /\
     Channel.events_ c = 0 /\ out w = [] /\ pending w = []) /\
  (strict = Strict -> state_ w = kDisconnected -> Channel.events_ c = 0).

(** The connection was reported down and then marked once more: each close that
    follows reports it down again. *)
Definition marked (l : list StateE) (s : StateE) : Prop :=
  (s = kDisconnecting \/ s = kDisconnected) /\
  exists n, l = kConnected :: replicate (S n) kDisconnected.

Definition reported (strict : mode) (l : list StateE) (s : StateE) : Prop :=
  l = connections_of s \/ (strict = Wild /\ marked l s).

Record Inv (strict : mode) (w : t) : Prop := {
  inv_good : good (loop_ w) (channel_ w);
  inv_channel : exists c, channel w = Some c /\ channel_inv strict w c;
  inv_input : Buffer.Inv (inputBuffer_ w);
  inv_output : Buffer.Inv (outputBuffer_ w);
  inv_stream : written (log w) ++ out w = accepted (log w);
  inv_graceful : graceful (log w);
  inv_connections : reported strict (connections (log w)) (state_ w);
  inv_pending : forall m, FSend m ∈ pending w -> zlen m <= max_size
}.

(** The faults that are left: with [Strict], only a container's. *)
Definition faults (strict : mode) (f : fault) : Prop := strict = Strict -> only_length f.

(** What every operation guarantees. *)
Definition post (strict : mode) (w w' : t) : Prop :=
  Inv strict w' /\ rank (state_ w) <= rank (state_ w').

Lemma up_connections l : up l <-> kDisconnected ∉ connections l.
Proof. unfold up. by rewrite elem_of_connections. Qed.

Lemma up_app l1 l2 : up (l1 ++ l2) -> up l1.
Proof. unfold up. rewrite elem_of_app. tauto. Qed.

Lemma timely_reported strict l s : strict <> Wild -> reported strict l s -> l = connections_of s.
Proof. by intros Hm [?|[? _]]. Qed.

Lemma live_up w strict : strict <> Wild -> Inv strict w -> live (state_ w) = true -> up (log w).
Proof.
  intros Hm HI Hl. rewrite up_connections, (timely_reported _ _ _ Hm (inv_connections _ _ HI)).
  destruct (state_ w); simpl; set_solver.
Qed.

Lemma down_logged w strict : Inv strict w -> state_ w = kDisconnected -> ~ up (log w).
Proof.
  intros HI Hs. rewrite up_connections. intros Hn. apply Hn.
  destruct (inv_connections _ _ HI) as [->|(_ & _ & n & ->)]; [rewrite Hs|]; set_solver.
Qed.

(** The callback that reports the connection down, from a state that is live. *)
Lemma reported_down strict l s :
  live s = true -> reported strict l s -> reported strict (l ++ [kDisconnected]) kDisconnected.
Proof.
  intros Hs [->|(Hm & _ & n & ->)]; [left; by destruct s|]. right. split; [done|]. split; [by right|].
  exists (S n). by rewrite (replicate_S_end (S n)).
Qed.

(** Observations that the invariant does not speak of. *)
Definition silent (o : obs) : bool :=
  match o with Accepted _ | Wrote _ | ShutdownWrite | Connection _ => false | _ => true end.

(** A longer log asks less of the channel. *)
Lemma channel_inv_emit strict w o c : channel_inv strict w c -> channel_inv strict (emit w o) c.
Proof.
  intros (Hw & Ho & Hl & Hk & Hd). split_and!; try done. simpl. intros Hu%up_app. by apply Hl.
Qed.

Lemma inv_emit strict w o : silent o = true -> Inv strict w -> Inv strict (emit w o).
Proof.
  intros Ho HI. pose proof HI as [H1 (c & Hc & Hci) H3 H4 H5 H6 H7 H8]. split; try done; simpl.
  - exists c. split; [done|]. by apply channel_inv_emit.
  - rewrite written_app, accepted_app, <- H5. destruct o; try done; simpl; by rewrite !app_nil_r.
  - apply graceful_snoc; [done|]. by intros ->.
  - rewrite connections_app. destruct o; try done; simpl; by rewrite app_nil_r.
Qed.

Lemma inv_set_input strict w b : Buffer.Inv b -> Inv strict w -> Inv strict (set_input w b).
Proof. intros Hb [H1 H2 H3 H4 H5 H6 H7 H8]. by split. Qed.

Lemma inv_queue strict w f :
  state_ w <> kConnecting -> (forall m, f = FSend m -> zlen m <= max_size) ->
  Inv strict w -> Inv strict (queueInLoop w f).
Proof.
  intros Hs Hf [H1 (c & Hc & Hw & Ho & Hl & Hk & Hd) H3 H4 H5 H6 H7 H8]. split; try done.
  - exists c. split; [done|]. by split_and!.
  - intros m [Hm|Hm%list_elem_of_singleton]%elem_of_app; auto.
Qed.

Lemma inv_dequeue strict w f fs :
  pending w = f :: fs -> Inv strict w -> Inv strict (set_pending w fs).
Proof.
  intros Hp [H1 (c & Hc & Hw & Ho & Hl & Hk & Hd) H3 H4 H5 H6 H7 H8]. split; try done.
  - exists c. split; [done|]. split_and!; try done.
    intros Hs. destruct (Hk Hs) as (_ & _ & _ & _ & Hn). congruence.
  - intros m Hm. apply H8. rewrite Hp. by right.
Qed.

(** [ShutdownWrite] with nothing waiting, or when the connection is down. *)
Lemma inv_shutdown strict w :
  (up (log w) -> live (state_ w) = true -> out w = []) -> state_ w <> kConnecting ->
  Inv strict w -> Inv strict (emit w ShutdownWrite).
Proof.
  intros Ho Hs HI. pose proof HI as [H1 (c & Hc & Hci) H3 H4 H5 H6 H7 H8]. split; try done; simpl.
  - exists c. split; [done|]. by apply channel_inv_emit.
  - by rewrite written_app, accepted_app, <- H5, !app_nil_r.
  - apply graceful_snoc; [done|]. intros _ Hup. rewrite <- H5.
    rewrite Ho, app_nil_r; [done|done|]. destruct (state_ w) eqn:E; try done.
    by destruct (down_logged w strict HI E).
  - by rewrite connections_app, app_nil_r.
Qed.

(** A change of the interest set that keeps the invariant. *)
Lemma inv_change strict w i c :
  Inv strict w -> channel w = Some c ->
  exists l idx, change w i = Ok (set_loop w l) /\ good l (channel_ w) /\ 0 <= idx /\
    channelAt l (channel_ w) = Some (Channel.set_index (Channel.change i c) idx).
Proof. intros HI Hc. apply change_ok; [apply HI|done]. Qed.

Lemma took_silent o n d : o ∈ took n d -> exists x, o = Wrote x.
Proof. unfold took. case_match; [|set_solver]. intros ->%list_elem_of_singleton. eauto. Qed.

Lemma took_accepted n d : accepted (took n d) = [].
Proof. unfold took. by case_match. Qed.
Lemma took_connections n d : connections (took n d) = [].
Proof. unfold took. by case_match. Qed.

(** The waiting bytes after the direct write, and what was written. *)
Lemma direct_stream w c m :
  ztake (direct w c m) m ++ out w ++ zdrop (direct w c m) m = out w ++ m.
Proof.
  unfold direct. destruct (idle w c) eqn:Hi; [|done].
  apply andb_true_iff in Hi as [_ Ho]. apply bool_decide_eq_true in Ho.
  rewrite Ho. simpl. apply ztake_drop.
Qed.

Lemma sent_channel strict w c m w' :
  channel_inv strict w c -> state_ w <> kConnecting ->
  (strict = Strict -> live (state_ w) = true) -> sent w c m w' ->
  exists c', channel w' = Some c' /\ channel_inv strict w' c'.
Proof.
  intros (Hw & Ho & Hl & Hk & Hd) Hs Hst (l & b & c' & -> & HIb & Hb & Hg & Hc & Hif).
  exists c'. split; [done|]. pose proof (direct_range w c m) as Hr. unfold channel_inv. simpl.
  rewrite Hb. set (rest := zdrop (direct w c m) m) in *.
  assert (Hrest : direct w c m < zlen m -> rest <> []).
  { intros Hlt Hn. apply (f_equal zlen) in Hn. unfold rest in Hn.
    autorewrite with zlen in Hn. lia. }
  assert (Hnot : strict = Strict -> state_ w = kDisconnected -> False).
  { intros E ES. specialize (Hst E). by rewrite ES in Hst. }
  destruct (Z.ltb_spec (direct w c m) (zlen m)) as [Hlt|Hge]; simpl in Hif;
    [destruct (negb (Channel.isWriting c)) eqn:Hn|].
  - destruct Hif as (idx & Hi & ->).
    assert (Hwr := Channel.change_writing Channel.EnableWriting c Hw).
    assert (Hrd := Channel.change_reading Channel.EnableWriting c Hw). simpl in Hwr, Hrd.
    split_and!; try done.
    + by apply Channel.change_wf.
    + intros _ [_ ?]%app_nil. by apply Hrest.
    + intros Hu%up_app (_ & Hre & _)%Hl; [|done]. split_and!; [by apply Z.leb_le| |done]. by rewrite <- Hre.
    + intros. exfalso. auto.
  - subst c'. apply negb_false_iff in Hn. split_and!; try done.
    + by intros _ [? ?]%app_nil; apply Ho.
    + intros Hu%up_app (? & ? & _)%Hl; [|done]. by split_and!.
  - subst c'. assert (rest = []) as -> by (apply zdrop_all; lia). rewrite app_nil_r.
    split_and!; try done. intros Hu%up_app. by apply Hl.
Qed.

Lemma sent_inv strict w c m w' :
  Inv strict w -> channel w = Some c -> channel_inv strict w c -> state_ w <> kConnecting ->
  (strict = Strict -> live (state_ w) = true) -> sent w c m w' -> Inv strict w' /\ state_ w' = state_ w.
Proof.
  intros HI Hc Hci Hs Hst Hsent. pose proof (sent_channel strict w c m w' Hci Hs Hst Hsent) as Hch.
  destruct Hsent as (l & b & c' & -> & HIb & Hb & Hg & Hc' & _).
  pose proof HI as [H1 H2 H3 H4 H5 H6 H7 H8]. split; [|done]. split; try done; simpl.
  - rewrite (cons_middle (Accepted m)), !written_app, !accepted_app, written_took, took_accepted, Hb.
    simpl. rewrite <- !app_assoc. simpl. rewrite direct_stream, <- H5.
    by rewrite app_nil_r, app_assoc.
  - apply graceful_app; [done|]. intros [Hx|(? & Hx)%took_silent]%elem_of_cons; congruence.
  - rewrite (cons_middle (Accepted m)), !connections_app, took_connections. simpl.
    by rewrite app_nil_r.
  - intros x [Hx|Hx]%elem_of_app; [auto|]. exfalso. revert Hx. unfold send_functors.
    repeat case_match; set_solver.
Qed.

Lemma sendInLoop_wp strict w m :
  Inv strict w -> state_ w <> kConnecting -> (strict = Strict -> live (state_ w) = true) ->
  zlen m <= max_size -> wp (faults strict) (sendInLoop w m) (post strict w).
Proof.
  intros HI Hs Hst Hm. destruct (inv_channel _ _ HI) as (c & Hc & Hci).
  pose proof (sendInLoop_spec w c m (inv_good _ _ HI) Hc (inv_output _ _ HI) Hm) as H.
  destruct (sendInLoop w m) as [w'|f]; simpl in *; [|by intros ?].
  destruct (sent_inv strict w c m w' HI Hc Hci Hs Hst H) as [HI' HS']. split; [done|]. rewrite HS'. lia.
Qed.

(** ** Every operation keeps the invariant *)

Lemma change_wp strict w i :
  Inv strict w -> state_ w <> kConnecting -> (strict = Strict -> live (state_ w) = true) ->
  i = Channel.EnableReading \/ i = Channel.DisableReading ->
  exists l, change w i = Ok (set_loop w l) /\
    Inv strict (set_reading (set_loop w l) (bool_decide (i = Channel.EnableReading))).
Proof.
  intros HI Hs Hst Hi. destruct (inv_channel _ _ HI) as (c & Hc & Hw & Ho & Hl & Hk & Hd).
  destruct (inv_change strict w i c HI Hc) as (l & idx & E & Hg & Hx & Hl').
  exists l. split; [done|]. destruct HI as [H1 _ H3 H4 H5 H6 H7 H8]. split; try done.
  eexists. split; [exact Hl'|].
  assert (Hwr := Channel.change_writing i c Hw). assert (Hrd := Channel.change_reading i c Hw).
  unfold channel_inv. cbn [state_ set_reading set_loop outputBuffer_ reading_ pending].
  rewrite Channel.index_writing, Channel.index_reading, Hwr, Hrd. split_and!.
  - by apply Channel.change_wf.
  - destruct Hi as [->| ->]; done.
  - intros Hu (_ & _ & Hlw)%Hl; [|done]. split_and!; [by apply Z.leb_le|by destruct Hi as [->| ->]|].
    by destruct Hi as [->| ->].
  - done.
  - intros E1 E2. specialize (Hst E1). by rewrite E2 in Hst.
Qed.

Lemma post_refl strict w : Inv strict w -> post strict w w.
Proof. by split. Qed.

Lemma post_trans strict w1 w2 w3 : post strict w1 w2 -> post strict w2 w3 -> post strict w1 w3.
Proof. unfold post. intros [] []. split; [done|lia]. Qed.

Lemma post_connecting strict w w' :
  post strict w w' -> state_ w <> kConnecting -> state_ w' <> kConnecting.
Proof. intros [_ H] Hs E. rewrite E in H. destruct (state_ w); simpl in H; congruence || lia. Qed.

Lemma wp_bind_post strict w w1 (m : res t) (k : t -> res t) :
  post strict w w1 ->
  wp (faults strict) m (post strict w1) ->
  (forall w2, post strict w1 w2 -> wp (faults strict) (k w2) (post strict w2)) ->
  wp (faults strict) (m ≫= k) (post strict w).
Proof.
  intros H1 Hm Hk. apply wp_bind. eapply wp_mono; [exact Hm|]. intros w2 H2.
  eapply wp_mono; [by apply Hk|]. intros w3 H3. eauto using post_trans.
Qed.

Lemma wp_post_from strict w w1 (m : res t) :
  post strict w w1 -> wp (faults strict) m (post strict w1) -> wp (faults strict) m (post strict w).
Proof. intros H1 Hm. eapply wp_mono; [exact Hm|]. eauto using post_trans. Qed.

Lemma startReadInLoop_wp strict w :
  Inv strict w -> state_ w <> kConnecting -> (strict = Strict -> live (state_ w) = true) ->
  wp (faults strict) (startReadInLoop w) (post strict w).
Proof.
  intros HI Hs Hst. destruct (inv_channel _ _ HI) as (c & Hc & _).
  unfold startReadInLoop, chan. rewrite Hc. simpl. case_match; [|by apply post_refl].
  destruct (change_wp strict w Channel.EnableReading HI Hs Hst ltac:(auto)) as (l & -> & HI').
  by split.
Qed.

Lemma stopReadInLoop_wp strict w :
  Inv strict w -> state_ w <> kConnecting -> (strict = Strict -> live (state_ w) = true) ->
  wp (faults strict) (stopReadInLoop w) (post strict w).
Proof.
  intros HI Hs Hst. destruct (inv_channel _ _ HI) as (c & Hc & _).
  unfold stopReadInLoop, chan. rewrite Hc. simpl. case_match; [|by apply post_refl].
  destruct (change_wp strict w Channel.DisableReading HI Hs Hst ltac:(auto)) as (l & -> & HI').
  by split.
Qed.

Lemma shutdownInLoop_wp strict w :
  Inv strict w -> state_ w <> kConnecting ->
  wp (faults strict) (shutdownInLoop w) (post strict w).
Proof.
  intros HI Hs. destruct (inv_channel _ _ HI) as (c & Hc & _ & _ & Hl & _).
  unfold shutdownInLoop, chan. rewrite Hc. simpl.
  destruct (Channel.isWriting c) eqn:Hw; simpl; [by apply post_refl|].
  split; [|done]. apply inv_shutdown; [|done|done].
  intros Hu (_ & _ & Ho)%Hl; [|done]. destruct (decide (out w = [])) as [|Hne]; [done|].
  apply Ho in Hne. congruence.
Qed.

Lemma inv_disconnecting strict w :
  state_ w = kConnected -> Inv strict w -> Inv strict (setState w kDisconnecting).
Proof.
  intros Hs [H1 (c & Hc & Hw & Ho & Hl & Hk & Hd) H3 H4 H5 H6 H7 H8].
  rewrite Hs in Hl, H7. split; try done; [exists c; split; [done|by split_and!]|]. simpl.
  destruct H7 as [H7|(_ & [?|?] & _)]; [by left|done..].
Qed.

(** [shutdown] of another thread writes [state_] after the connection went down. *)
Lemma inv_marked w :
  state_ w = kDisconnected -> Inv Wild w -> Inv Wild (setState w kDisconnecting).
Proof.
  intros Hs HI. pose proof (down_logged w _ HI Hs) as Hu.
  destruct HI as [H1 (c & Hc & Hw & Ho & Hl & Hk & Hd) H3 H4 H5 H6 H7 H8].
  rewrite Hs in H7. split; try done; [exists c; split; [done|by split_and!]|]. simpl.
  right. split; [done|]. split; [by left|].
  destruct H7 as [->|(_ & _ & n & ->)]; [by exists 0%nat|by exists n].
Qed.

Lemma exec_call_wp strict w b c :
  Inv strict w -> state_ w <> kConnecting ->
  (strict = Strict -> b = true -> c = StartRead \/ c = StopRead -> live (state_ w) = true) ->
  wp (faults strict) (exec_call w b c) (post strict w).
Proof.
  intros HI Hs Hst.
  assert (Hq : forall f, (forall m, f = FSend m -> zlen m <= max_size) ->
    post strict w (queueInLoop w f)) by (intros f Hf; split; [by apply inv_queue|done]).
  destruct c as [m| | |]; simpl.
  - unfold send, check. destruct (Z.leb_spec (zlen m) max_size); [|by intros ?]. simpl.
    unfold connected. case_bool_decide as Hc; [|by apply post_refl].
    destruct b; [|apply Hq; by intros ? [= <-]]. apply sendInLoop_wp; try done. by rewrite Hc.
  - destruct b; [|by apply Hq]. apply startReadInLoop_wp; auto.
  - destruct b; [|by apply Hq]. apply stopReadInLoop_wp; auto.
  - unfold shutdown, connected. case_bool_decide as Hc; [|by apply post_refl].
    assert (Hp : post strict w (setState w kDisconnecting)).
    { split; [by apply inv_disconnecting|]. by rewrite Hc. }
    apply (wp_post_from _ _ _ _ Hp). destruct b.
    + apply shutdownInLoop_wp; [apply Hp|done].
    + split; [|done]. by apply inv_queue; [| |apply Hp].
Qed.

(** What a polite callback may do in the state it finds. *)
Definition allowed_action (w : t) (a : action) : Prop :=
  match a with
  | Public StartRead | Public StopRead => live (state_ w) = true
  | Retrieve len => u64 len <= zlen (Buffer.readable (inputBuffer_ w))
  | _ => True
  end.

Fixpoint polite (p : prog) (w : t) : Prop :=
  match p with
  | Return => True
  | Do a k => allowed_action w a /\
      forall w', exec_action w a = Ok w' -> polite (k w') w'
  end.

Lemma exec_action_wp strict w a :
  Inv strict w -> state_ w <> kConnecting -> (strict = Strict -> allowed_action w a) ->
  wp (faults strict) (exec_action w a) (post strict w).
Proof.
  intros HI Hs Hst. assert (Hb := inv_input _ _ HI).
  destruct a as [c| |len|]; simpl.
  - apply exec_call_wp; try done. intros E _ [->| ->]; by apply Hst.
  - unfold send_input, connected. case_bool_decide as Hc; [|by apply post_refl].
    rewrite Buffer.retrieveAsString_ok by done. simpl.
    apply (wp_post_from _ _ (set_input w (Buffer.retrieveAll (inputBuffer_ w)))).
    + split; [|done]. by apply inv_set_input; [apply Buffer.retrieveAll_inv|].
    + apply sendInLoop_wp; simpl; [|done|by rewrite Hc|].
      * by apply inv_set_input; [apply Buffer.retrieveAll_inv|].
      * apply inv_small, Hb.
  - pose proof (Buffer.retrieve_ok _ (u64 len) Hb (proj1 (u64_range len))) as Hr.
    destruct (Z.leb_spec (u64 len) (zlen (Buffer.readable (inputBuffer_ w)))) as [Hle|Hgt].
    + destruct Hr as (b & -> & Hb' & _). split; [|done]. by apply inv_set_input.
    + rewrite Hr. intros E. specialize (Hst E). simpl in Hst. lia.
  - split; [|done]. by apply inv_set_input; [apply Buffer.retrieveAll_inv|].
Qed.

Lemma run_wp strict p : forall w,
  Inv strict w -> state_ w <> kConnecting -> (strict = Strict -> polite p w) ->
  wp (faults strict) (run p w) (post strict w).
Proof.
  induction p as [|a k IH]; intros w HI Hs Hp; simpl; [by apply post_refl|].
  assert (Ha : wp (faults strict) (exec_action w a) (post strict w)).
  { apply exec_action_wp; try done. intros E. by apply Hp. }
  destruct (exec_action w a) as [w1|f] eqn:E; simpl in *; [|done].
  apply (wp_post_from _ _ _ _ Ha). apply IH.
  - apply Ha.
  - by apply (post_connecting strict w).
  - intros Es. by apply (Hp Es).
Qed.

(** ** The handlers *)

(** Every callback the user set is polite in every state. *)
Definition polite_callbacks : Prop :=
  (forall w, polite (connectionCallback_ cb w) w) /\
  (forall w, polite (messageCallback_ cb w) w) /\
  (forall f w, writeCompleteCallback_ cb = Some f -> polite (f w) w) /\
  (forall f len w, highWaterMarkCallback_ cb = Some f -> polite (f len w) w).

Section handlers.
Context (strict : mode) (Hcb : strict = Strict -> polite_callbacks).

Lemma call_back_wp w o f :
  silent o = true -> Inv strict w -> state_ w <> kConnecting ->
  (strict = Strict -> polite (f (emit w o)) (emit w o)) ->
  wp (faults strict) (call_back w o f) (post strict w).
Proof.
  intros Ho HI Hs Hp. unfold call_back. apply (wp_post_from _ _ (emit w o)).
  - split; [by apply inv_emit|done].
  - apply run_wp; [by apply inv_emit|done|done].
Qed.

(** Going down: [disableAll] and the callback, from a state that is up. *)
Lemma down_wp w :
  Inv strict w -> live (state_ w) = true ->
  exists l, change (setState w kDisconnected) Channel.DisableAll
      = Ok (set_loop (setState w kDisconnected) l) /\
    let w1 := emit (set_loop (setState w kDisconnected) l) (Connection kDisconnected) in
    Inv strict w1 /\ exists c idx, channel w = Some c /\ 0 <= idx /\
      channel w1 = Some (Channel.set_index (Channel.change Channel.DisableAll c) idx).
Proof.
  intros HI Hs. destruct (inv_channel _ _ HI) as (c & Hc & Hw & Ho & Hl & Hk & Hd).
  destruct (change_ok (setState w kDisconnected) Channel.DisableAll c)
    as (l & idx & E & Hg & Hx & Hl'); [apply HI|done|].
  exists l. split; [done|]. simpl in Hl'. split; [|by exists c, idx].
  pose proof HI as [H1 _ H3 H4 H5 H6 H7 H8]. split; try done.
  - eexists. split; [exact Hl'|]. split_and!; try done.
    by apply Channel.change_wf.
  - simpl. by rewrite written_app, accepted_app, <- H5, !app_nil_r.
  - by apply graceful_snoc.
  - simpl. rewrite connections_app. by apply (reported_down _ _ (state_ w)).
Qed.

Lemma handleClose_wp w :
  Inv strict w -> (strict = Strict -> live (state_ w) = true) ->
  wp (faults strict) (handleClose w) (post strict w).
Proof.
  intros HI Hst. unfold handleClose. apply wp_bind, wp_assert.
  - intros Hf E. specialize (Hst E). destruct (state_ w); done.
  - intros Ht. assert (Hl : live (state_ w) = true) by (by destruct (state_ w)).
    destruct (down_wp w HI Hl) as (l & -> & HI1 & _). rewrite bind_ret_l.
    unfold call_back. cbn [state_ set_loop setState]. cbv zeta in HI1. revert HI1.
    set (w1 := emit _ _). intros HI1.
    assert (Hp1 : post strict w w1) by (split; [done|by destruct (state_ w)]).
    apply (wp_bind_post _ w w1); [done| |].
    + apply run_wp; [done|done|]. intros E. apply (proj1 (Hcb E)).
    + intros w2 [H2 H3]. split; [by apply inv_emit|done].
Qed.

Lemma readFd_received b rv :
  Buffer.Inv b ->
  wp only_length (Buffer.readFd b (received b rv)) (fun r => Buffer.Inv (snd r)).
Proof.
  intros HI. destruct rv as [d|e]; [|done].
  assert (Hf : Buffer.rv_fits b (received b (Buffer.RvData d))).
  { simpl. destruct HI as (? & ? & ?). unfold Buffer.kExtraBuf. zl. }
  pose proof (Buffer.readFd_wp b _ HI Hf) as H. fold (received b (Buffer.RvData d)) in H.
  destruct (Buffer.readFd _ _) as [r|f]; simpl in *; [tauto|]. by destruct H.
Qed.

Lemma handleRead_wp w rv :
  Inv strict w -> state_ w <> kConnecting -> (strict = Strict -> live (state_ w) = true) ->
  wp (faults strict) (handleRead w rv) (post strict w).
Proof.
  intros HI Hs Hst. unfold handleRead.
  pose proof (readFd_received (inputBuffer_ w) rv (inv_input _ _ HI)) as Hr.
  destruct (Buffer.readFd _ _) as [r|f]; simpl in *; [|by intros ?].
  assert (HI1 : Inv strict (set_input w (snd r))) by (by apply inv_set_input).
  apply (wp_post_from _ _ (set_input w (snd r))); [by split|].
  destruct (0 <? fst (fst r)).
  - apply call_back_wp; try done. intros E. apply (proj1 (proj2 (Hcb E))).
  - case_match; [by apply handleClose_wp|]. split; [by apply inv_emit|done].
Qed.

Lemma flushed_channel w c w' :
  channel w = Some c -> channel_inv strict w c -> state_ w <> kConnecting -> flushed w c w' ->
  exists c', channel w' = Some c' /\ channel_inv strict w' c'.
Proof.
  intros Hc Hci Hs Hf. unfold flushed in Hf.
  destruct (Channel.isWriting c) eqn:Hwr; [|subst w'; eauto].
  destruct Hci as (Hw & Ho & Hl & Hk & Hd). pose proof (write_bound (nwrites w) (out w)) as Hn.
  set (n := write _ _) in *. destruct Hf as (l & b & c' & -> & HIb & Hb & Hg & Hc' & Hif).
  exists c'. split; [done|]. unfold channel_inv. simpl.
  destruct ((n =? zlen (out w)) && (0 <? n)) eqn:Hall.
  - destruct Hif as (idx & Hi & ->). assert (Hnil : Buffer.readable b = []).
    { rewrite Hb. apply zdrop_all. lia. }
    rewrite Channel.index_writing, Channel.index_reading.
    rewrite (Channel.change_writing Channel.DisableWriting c Hw).
    rewrite (Channel.change_reading Channel.DisableWriting c Hw), Hnil.
    split_and!; try done.
    + by apply Channel.change_wf.
    + intros Hu%up_app (_ & Hrd & _)%Hl; [|done]. by split_and!; [apply Z.leb_le| |].
    + intros E1 E2. specialize (Hd E1 E2). unfold Channel.isWriting in Hwr. by rewrite Hd in Hwr.
  - subst c'. rewrite Hwr. split_and!; try done.
    + intros _ Hz. rewrite Hb in Hz. apply (f_equal zlen) in Hz. autorewrite with zlen in Hz.
      specialize (Ho Hwr). pose proof (zlen_nonneg (out w)).
      assert (zlen (out w) <> 0) by (intros ?%zlen_zero_nil; done). lia.
    + intros Hu%up_app (? & ? & _)%Hl; [|done]. by split_and!.
Qed.

Lemma flushed_inv w c w' :
  Inv strict w -> channel w = Some c -> channel_inv strict w c -> state_ w <> kConnecting ->
  flushed w c w' -> Inv strict w' /\ state_ w' = state_ w.
Proof.
  intros HI Hc Hci Hs Hf. pose proof (flushed_channel w c w' Hc Hci Hs Hf) as Hch.
  unfold flushed in Hf. destruct (Channel.isWriting c); [|by subst w'].
  set (n := write _ _) in *. destruct Hf as (l & b & c' & -> & HIb & Hb & Hg & Hc' & _).
  split; [|done]. pose proof HI as [H1 _ H3 H4 H5 H6 H7 H8].
  set (all := (n =? zlen (out w)) && (0 <? n) && bool_decide (state_ w = kDisconnecting)) in *.
  set (tail := if all then [ShutdownWrite] else []).
  assert (Ht : tail = [] \/ tail = [ShutdownWrite] /\ n = zlen (out w)).
  { unfold tail. destruct all eqn:Hall; [|by left]. right. split; [done|]. unfold all in Hall. apply andb_true_iff in Hall as [[?%Z.eqb_eq _]%andb_true_iff _]. done. }
  assert (Hstream : written (log w ++ took n (out w)) ++ Buffer.readable b =
    accepted (log w ++ took n (out w))).
  { rewrite written_app, accepted_app, written_took, took_accepted, Hb, <- H5.
    rewrite app_nil_r, <- app_assoc. f_equal. apply ztake_drop. }
  assert (Hgr : graceful (log w ++ took n (out w))).
  { apply graceful_app; [done|]. by intros (? & ?)%took_silent. }
  assert (Hcn : reported strict (connections (log w ++ took n (out w))) (state_ w)).
  { by rewrite connections_app, took_connections, app_nil_r. }
  split; try done; cbn [log state_ outputBuffer_]; rewrite app_assoc;
    destruct Ht as [-> | [-> Hall]]; rewrite ?app_nil_r; try done.
  - by rewrite written_app, accepted_app, !app_nil_r.
  - apply graceful_snoc; [done|]. intros _ _. rewrite <- Hstream, Hb, zdrop_all by lia.
    by rewrite app_nil_r.
  - by rewrite connections_app, app_nil_r.
  - intros x [Hx|Hx]%elem_of_app; [auto|]. exfalso. revert Hx. case_match; set_solver.
  - intros x [Hx|Hx]%elem_of_app; [auto|]. exfalso. revert Hx. case_match; set_solver.
Qed.

Lemma handleWrite_wp w :
  Inv strict w -> state_ w <> kConnecting ->
  wp (faults strict) (handleWrite w) (post strict w).
Proof.
  intros HI Hs. destruct (inv_channel _ _ HI) as (c & Hc & Hci).
  destruct (handleWrite_spec w c) as (w' & -> & Hf); try done; try apply HI; [apply Hci|].
  destruct (flushed_inv w c w' HI Hc Hci Hs Hf) as [HI' Hs']. split; [done|]. rewrite Hs'. lia.
Qed.

Lemma handle_wp w rv c :
  Inv strict w -> state_ w <> kConnecting ->
  (c = Channel.CbClose \/ c = Channel.CbRead -> strict = Strict -> live (state_ w) = true) ->
  wp (faults strict) (handle w rv c) (post strict w).
Proof.
  intros HI Hs Hst. destruct c; simpl.
  - apply handleClose_wp; auto.
  - split; [by apply inv_emit|done].
  - apply handleRead_wp; auto.
  - by apply handleWrite_wp.
Qed.

(** Once closing and reading are done with, or without [strict]. *)
Lemma handle_all_wp rv cs : forall w,
  Inv strict w -> state_ w <> kConnecting ->
  (strict = Strict -> Channel.CbClose ∉ cs /\ Channel.CbRead ∉ cs) ->
  wp (faults strict) (handle_all w rv cs) (post strict w).
Proof.
  induction cs as [|c cs IH]; intros w HI Hs Hst; simpl; [by apply post_refl|].
  apply (wp_bind_post _ w w); [by apply post_refl| |].
  - apply handle_wp; try done. intros Hc E. destruct (Hst E). destruct Hc as [-> | ->]; set_solver.
  - intros w2 H2. apply IH; [apply H2|by apply (post_connecting strict w)|].
    intros E. destruct (Hst E). set_solver.
Qed.

Lemma handle_all_app rv l1 l2 : forall w,
  handle_all w rv (l1 ++ l2) = (w' ← handle_all w rv l1 ; handle_all w' rv l2).
Proof.
  induction l1 as [|c l1 IH]; intros w; simpl; [done|].
  destruct (handle w rv c); simpl; [apply IH|done].
Qed.

(** What the kernel may report: a watched descriptor, its interests only, and
    [POLLIN] with [POLLHUP] when reading is asked for. *)
Definition ready_ok (c : Channel.t) (revents : Z) : Prop :=
  Channel.isNoneEvent c = false /\
  (Channel.has revents (Z.lor (Z.lor Channel.POLLIN Channel.POLLPRI) Channel.POLLRDHUP) = true ->
     Channel.isReading c = true) /\
  (Channel.has revents Channel.POLLHUP = true -> Channel.isReading c = true ->
     Channel.has revents Channel.POLLIN = true).

Lemma handleEvent_wp w c revents rv :
  Inv strict w -> channel w = Some c -> registered c = true ->
  (strict = Strict -> ready_ok c revents) ->
  wp (faults strict) (handleEvent w revents rv) (post strict w).
Proof.
  intros HI Hc Hreg Hst. unfold handleEvent, chan. rewrite Hc. cbn [mbind res_bind].
  destruct (inv_channel _ _ HI) as (c' & Hc' & Hw & Ho & Hl & Hk & Hd).
  assert (c' = c) as -> by congruence. clear Hc'.
  assert (Hs : state_ w <> kConnecting) by (intros E; destruct (Hk E); congruence).
  assert (Hlive : strict = Strict -> live (state_ w) = true).
  { intros E. destruct (Hst E) as [Hn _]. unfold Channel.isNoneEvent in Hn.
    destruct (state_ w) eqn:Es; try done. by rewrite (Hd E eq_refl) in Hn. }
  unfold Channel.handleEvent, Channel.set_callbacks, Channel.set_revents.
  cbn [fst Channel.revents_ Channel.closeCallback_ Channel.errorCallback_
       Channel.readCallback_ Channel.writeCallback_].
  rewrite !andb_true_r.
  set (hup := Channel.has revents Channel.POLLHUP && negb (Channel.has revents Channel.POLLIN)).
  set (rd := Channel.has revents (Z.lor (Z.lor _ _) _)).
  assert (Hexcl : strict = Strict -> hup = true -> rd = false).
  { intros E Hh. destruct (Hst E) as (_ & H1 & H2). destruct rd eqn:Hrd; [|done].
    apply andb_true_iff in Hh as [Hh Hin]. rewrite H2 in Hin; auto. }
  destruct hup eqn:Hhup; cbn [app handle_all handle].
  - apply (wp_bind_post _ w w); [by apply post_refl|by apply handleClose_wp|].
    intros w2 H2. apply handle_all_wp; [apply H2|by apply (post_connecting strict w)|].
    intros E. rewrite Hexcl by done. repeat case_match; set_solver.
  - rewrite handle_all_app. set (err := if Channel.has revents (Z.lor Channel.POLLERR _) then [Channel.CbError] else []).
    assert (Herr : forall x, x ∈ err -> x = Channel.CbError)
      by (unfold err; case_match; set_solver).
    assert (He : wp (faults strict) (handle_all w rv err) (fun w2 => post strict w w2 /\
      (strict = Strict -> live (state_ w2) = true))).
    { unfold err. case_match; simpl; (split; [split|]); try done. by apply inv_emit. }
    apply wp_bind. eapply wp_mono; [exact He|]. intros w2 [H2 Hlive2].
    apply (wp_post_from _ _ _ _ H2). assert (Hs2 := post_connecting _ _ _ H2 Hs).
    destruct H2 as [HI2 _]. destruct rd; cbn [app handle_all].
    + apply (wp_bind_post _ w2 w2); [by apply post_refl|by apply handle_wp; auto|].
      intros w3 H3. apply handle_all_wp; [apply H3|by apply (post_connecting strict w2)|].
      intros E. case_match; set_solver.
    + apply handle_all_wp; try done. intros E. case_match; set_solver.
Qed.

Lemma connectionEstablished_wp w :
  Inv strict w -> state_ w = kConnecting ->
  wp (faults strict) (connectionEstablished w) (post strict w).
Proof.
  intros HI Hs. unfold connectionEstablished. rewrite Hs, bool_decide_true by done. simpl.
  destruct (inv_channel _ _ HI) as (c & Hc & Hw & Ho & Hl & Hk & Hd).
  destruct (Hk Hs) as (Hreg & Hr & He & Hout & Hp).
  destruct (change_ok (setState w kConnected) Channel.EnableReading c)
    as (l & idx & -> & Hg & Hx & Hl'); [apply HI|done|]. simpl.
  unfold call_back. simpl. set (w1 := emit _ _).
  assert (Hp1 : post strict w w1).
  { split; [|by rewrite Hs]. pose proof HI as [H1 _ H3 H4 H5 H6 H7 H8]. split; try done; simpl.
    - eexists. split; [exact Hl'|].
      unfold channel_inv. rewrite Channel.index_writing, Channel.index_reading.
      rewrite (Channel.change_writing Channel.EnableReading c Hw).
      rewrite (Channel.change_reading Channel.EnableReading c Hw).
      split_and!; try done.
      + by apply Channel.change_wf.
      + intros _ _. split_and!; [by apply Z.leb_le|done|done].
    - by rewrite written_app, accepted_app, <- H5, !app_nil_r.
    - by apply graceful_snoc.
    - rewrite connections_app. left. rewrite Hs in H7. by destruct H7 as [->|(_ & [?|?] & _)]. }
  apply (wp_post_from _ _ _ _ Hp1). apply run_wp; [apply Hp1|done|].
  intros E. apply (proj1 (Hcb E)).
Qed.

(** [removeChannel] touches the registration only. *)
Lemma inv_removed w l c :
  Inv strict w -> (up (log w) -> live (state_ w) = false) -> state_ w <> kConnecting -> channel w = Some c ->
  good l (channel_ w) -> channelAt l (channel_ w) = Some (Channel.set_index c (-1)) ->
  Inv strict (set_loop w l).
Proof.
  intros HI Hl Hs Hc Hg Hc'. pose proof HI as [H1 H2 H3 H4 H5 H6 H7 H8]. split; try done.
  destruct H2 as (c2 & Hc2 & Hw & Ho & Hlv & Hk & Hd). assert (c2 = c) as -> by congruence.
  eexists. split; [exact Hc'|]. split_and!; try done. simpl. intros Hu. by rewrite (Hl Hu).
Qed.

Lemma remove_wp w :
  Inv strict w -> (up (log w) -> live (state_ w) = false) -> state_ w <> kConnecting ->
  (strict = Strict -> exists c, channel w = Some c /\ registered c = true) ->
  wp (faults strict) (l ← remove (loop_ w) (channel_ w) ; Ok (set_loop w l)) (post strict w).
Proof.
  intros HI Hl Hs Hst. destruct (inv_channel _ _ HI) as (c & Hc & Hw & Ho & Hlv & Hk & Hd).
  pose proof (remove_law _ _ c (inv_good _ _ HI) Hc) as Hr.
  destruct (registered c && Channel.isNoneEvent c) eqn:Hb.
  - destruct Hr as (l & -> & Hg & Hc'). simpl. split; [|done]. by apply (inv_removed w l c).
  - rewrite Hr. simpl. intros E. exfalso. destruct (Hst E) as (c2 & Hc2 & Hreg).
    assert (c2 = c) as -> by congruence. rewrite Hreg in Hb. unfold Channel.isNoneEvent in Hb.
    assert (Hlv' : live (state_ w) = false).
    { destruct (live (state_ w)) eqn:El; [|done].
      rewrite <- Hl; [done|]. apply (live_up w strict); [by rewrite E|done|done]. }
    rewrite Hd in Hb; try done. by destruct (state_ w).
Qed.

(** On a connection that is down a polite callback changes only the input. *)
Lemma run_down p : forall w w',
  state_ w = kDisconnected -> polite p w -> run p w = Ok w' ->
  exists b, w' = set_input w b.
Proof.
  induction p as [|a k IH]; intros w w' Hs Hp E; simpl in *.
  - injection E as <-. exists (inputBuffer_ w). by destruct w.
  - apply bind_ok in E as (w1 & E1 & E2). destruct Hp as [Ha Hk].
    assert (H1 : exists b, w1 = set_input w b).
    { assert (Hself : w = set_input w (inputBuffer_ w)) by (by destruct w).
      destruct a as [[m| | |]| |len|]; simpl in Ha; try (rewrite Hs in Ha; done); revert E1;
        unfold exec_action, exec_call, send, shutdown, send_input, connected; rewrite ?Hs; simpl;
        intros E1; inv_ok; eauto. }
    destruct H1 as (b1 & ->). destruct (IH _ (set_input w b1) w' Hs (Hk _ E1) E2) as (b & ->).
    by exists b.
Qed.

Lemma connectionDestroyed_wp w :
  Inv strict w -> state_ w = kConnected \/ state_ w = kDisconnected \/ ~ up (log w) ->
  (strict = Strict -> exists c, channel w = Some c /\ registered c = true) ->
  wp (faults strict) (connectionDestroyed w) (post strict w).
Proof.
  intros HI Hs Hst. unfold connectionDestroyed, connected. case_bool_decide as Hc.
  - assert (Hl : live (state_ w) = true) by (by rewrite Hc).
    destruct (down_wp w HI Hl) as (l & -> & HI1 & c & idx & Hch & Hi & Hc1).
    rewrite bind_ret_l. unfold call_back. cbn [state_ set_loop setState].
    cbv zeta in HI1, Hc1. revert HI1 Hc1. set (w1 := emit _ _). intros HI1 Hc1.
    assert (Hp1 : post strict w w1) by (split; [done|by rewrite Hc]).
    set (p := connectionCallback_ cb w1).
    assert (Hrun : wp (faults strict) (run p w1) (post strict w1)).
    { apply run_wp; [done|done|]. intros E. apply (proj1 (Hcb E)). }
    destruct (run p w1) as [w2|f] eqn:Er; [|exact Hrun].
    assert (Hs2 : state_ w2 = kDisconnected)
      by (destruct Hrun as [_ Hr]; simpl in Hr; by destruct (state_ w2)).
    apply (wp_post_from _ _ _ _ Hp1), (wp_post_from _ _ _ _ Hrun). rewrite bind_ret_l.
    apply remove_wp; [apply Hrun|by rewrite Hs2|by rewrite Hs2|].
    intros E. destruct (run_down p w1 w2) as (b & ->); [done|apply (proj1 (Hcb E))|done|].
    eexists. split; [exact Hc1|]. by apply Z.leb_le.
  - rewrite bind_ret_l. destruct Hs as [|Hs]; [done|].
    apply remove_wp; try done; [intros Hu; destruct Hs as [->|]; done|].
    destruct Hs as [->|Hs]; [done|]. intros E. apply Hs. rewrite up_connections.
    destruct (inv_connections _ _ HI) as [->|(_ & [?|?] & _)]; [|congruence..]. rewrite E. set_solver.
Qed.

(** The operations the loop runs for this connection, and their conditions. *)
Definition allowed (w : t) (e : event) : Prop :=
  match e with
  | Established => state_ w = kConnecting
  | Ready revents _ => exists c, channel w = Some c /\ registered c = true /\
      (strict = Strict -> ready_ok c revents)
  | Functor => strict = Strict ->
      match pending w with
      | (FSend _ | FStartRead | FStopRead) :: _ => live (state_ w) = true
      | _ => True
      end
  | Destroyed => (state_ w = kConnected \/ state_ w = kDisconnected \/ ~ up (log w)) /\
      (strict = Strict -> exists c, channel w = Some c /\ registered c = true)
  | Foreign _ | Leave _ => state_ w <> kConnecting
  | Mark => state_ w <> kConnecting /\ (strict <> Wild -> live (state_ w) = true)
  end.

(** A step never goes back, but for a mark that comes late. *)
Definition onward (w : t) (e : event) (w' : t) : Prop :=
  rank (state_ w) <= rank (state_ w') \/
  (strict = Wild /\ e = Mark /\ state_ w = kDisconnected /\ state_ w' = kDisconnecting).

Lemma leave_wp w c :
  Inv strict w -> state_ w <> kConnecting -> wp (faults strict) (leave w c) (post strict w).
Proof.
  intros HI Hs.
  assert (Hq : forall f, (forall m, f = FSend m -> zlen m <= max_size) ->
    post strict w (queueInLoop w f)) by (intros f Hf; split; [by apply inv_queue|done]).
  destruct c as [m| | |]; simpl; try by apply Hq.
  unfold check. destruct (Z.leb_spec (zlen m) max_size); [|by intros ?]. apply Hq. by intros ? [= <-].
Qed.

Lemma mark_wp w :
  Inv strict w -> allowed w Mark -> Inv strict (setState w kDisconnecting) /\
    onward w Mark (setState w kDisconnecting).
Proof.
  intros HI [Hs Hm]. destruct (state_ w) eqn:E; [done| | |].
  - split; [by apply inv_disconnecting|]. left. by rewrite E.
  - split; [by destruct w; simpl in *; subst|]. left. by rewrite E.
  - destruct (decide (strict = Wild)) as [->|Hw]; [|by specialize (Hm Hw)].
    split; [by apply inv_marked|]. by right.
Qed.

Lemma functor_wp w f fs :
  Inv strict w -> pending w = f :: fs -> allowed w Functor ->
  wp (faults strict) (run_functor (set_pending w fs) f) (post strict w).
Proof.
  intros HI Hp Ha. simpl in Ha. rewrite Hp in Ha.
  assert (Hs : state_ w <> kConnecting).
  { intros E. destruct (inv_channel _ _ HI) as (c & _ & _ & _ & _ & Hk & _).
    destruct (Hk E) as (_ & _ & _ & _ & ?). congruence. }
  assert (HI1 := inv_dequeue strict w f fs Hp HI).
  apply (wp_post_from _ _ (set_pending w fs)); [by split|].
  destruct f as [m| | | | |len]; simpl.
  - apply sendInLoop_wp; try done. apply (inv_pending _ _ HI). rewrite Hp. by left.
  - by apply startReadInLoop_wp.
  - by apply stopReadInLoop_wp.
  - by apply shutdownInLoop_wp.
  - case_match eqn:E; [|by apply post_refl]. apply call_back_wp; try done.
    intros Es. destruct (Hcb Es) as (_ & _ & H & _). by apply H.
  - case_match eqn:E; [|by apply post_refl]. apply call_back_wp; try done.
    intros Es. destruct (Hcb Es) as (_ & _ & _ & H). by apply H.
Qed.

Lemma step_wp w e :
  Inv strict w -> allowed w e ->
  wp (faults strict) (step w e) (fun w' => Inv strict w' /\ onward w e w').
Proof.
  intros HI Ha. destruct e as [|revents rv| | |c| |c]; [| | | | |by apply mark_wp|];
    (apply (wp_mono _ _ (post strict w)); [simpl|intros w' [H1 H2]; split; [done|by left]]).
  - by apply connectionEstablished_wp.
  - destruct Ha as (c & Hc & Hreg & Hr). by apply (handleEvent_wp w c).
  - destruct (pending w) as [|f fs] eqn:Hp; [by apply post_refl|].
    by apply functor_wp; rewrite ?Hp.
  - destruct Ha. by apply connectionDestroyed_wp.
  - by apply exec_call_wp.
  - by apply leave_wp.
Qed.

(** ** Reachable states *)

Inductive reachable : t -> Prop :=
  | reach_init l p c : good l p -> channelAt l p = Some c -> registered c = false ->
      Channel.events_ c = 0 -> reachable (init l p)
  | reach_step w e w' : reachable w -> allowed w e -> step w e = Ok w' -> reachable w'.

Lemma conn_init_inv l p c :
  good l p -> channelAt l p = Some c -> registered c = false -> Channel.events_ c = 0 ->
  Inv strict (init l p).
Proof.
  intros Hg Hc Hr He. split; try done; try apply Buffer.buffer_init_inv.
  - exists c. split; [done|]. unfold channel_inv, Channel.isWriting. rewrite He. simpl.
    split_and!; try done. by left.
  - intros l1 l2 E. simpl in E. by destruct l1.
  - by left.
  - simpl. set_solver.
Qed.

Lemma conn_step_inv w e w' : Inv strict w -> allowed w e -> step w e = Ok w' -> Inv strict w'.
Proof. intros HI Ha E. apply (wp_ok _ _ _ w' (step_wp w e HI Ha) E). Qed.

Lemma conn_reachable_inv w : reachable w -> Inv strict w.
Proof.
  induction 1 as [l p c Hg Hc Hr He|w e w' _ HI Ha E]; [by apply (conn_init_inv l p c)|].
  by apply (conn_step_inv w e).
Qed.

End handlers.

Lemma anyhow m : m <> Strict -> m = Strict -> polite_callbacks.
Proof. done. Qed.

Lemma wild_inv w : reachable Wild w -> Inv Wild w.
Proof. by apply conn_reachable_inv, anyhow. Qed.

Lemma timely_inv w : reachable Timely w -> Inv Timely w.
Proof. by apply conn_reachable_inv, anyhow. Qed.

(** C2. Whatever the schedule, the calls of other threads and the user's
    callbacks do, no byte is lost, duplicated or reordered: what [::write] took,
    followed by what waits in [outputBuffer_], is the concatenation of the
    messages handed to [sendInLoop], in order. *)
Theorem stream_integrity w :
  reachable Wild w ->
  Buffer.Inv (outputBuffer_ w) /\ written (log w) ++ out w = accepted (log w).
Proof. intros HI%wild_inv. split; apply HI. Qed.

(** C17. As long as the connection is not down, [shutdownWrite] is called only
    when every byte handed over before has been written: a graceful close never
    cuts the stream. *)
Theorem graceful_shutdown w l1 l2 :
  reachable Wild w -> log w = l1 ++ ShutdownWrite :: l2 ->
  Connection kDisconnected ∉ l1 -> written l1 = accepted l1.
Proof. intros HI%wild_inv. apply (inv_graceful _ _ HI). Qed.

(** C4. The life cycle.  A step never goes back in kConnecting, kConnected,
    kDisconnecting, kDisconnected, with one exception: [shutdown] of another
    thread tests and writes [state_] without a lock, so that its write may come
    after the close and turn kDisconnected into kDisconnecting.  When no such
    write is overtaken by the close, the connection callback is called once when
    the connection is up and once when it is down, and never otherwise; when one
    is, every close that follows calls it again.  Until the connection is reported
    down its channel is registered, reads as [reading_] says, and asks to write
    exactly when bytes wait. *)
Theorem lifecycle m w :
  m <> Strict -> reachable m w ->
  (forall e w', allowed m w e -> step w e = Ok w' ->
     rank (state_ w) <= rank (state_ w') \/
     (m = Wild /\ e = Mark /\ state_ w = kDisconnected /\ state_ w' = kDisconnecting)) /\
  (connections (log w) = connections_of (state_ w) \/
     m = Wild /\ exists n, connections (log w) = kConnected :: replicate (S n) kDisconnected) /\
  exists c, channel w = Some c /\
    (up (log w) -> live (state_ w) = true -> registered c = true /\ Channel.isReading c = reading_ w /\
       (Channel.isWriting c = true <-> out w <> [])).
Proof.
  intros Hm HI%(conn_reachable_inv m (anyhow m Hm)). split; [|split].
  - intros e w' Ha E. apply (wp_ok _ _ _ w' (step_wp m (anyhow m Hm) w e HI Ha) E).
  - destruct (inv_connections _ _ HI) as [?|(? & _ & ?)]; [by left|by right].
  - destruct (inv_channel _ _ HI) as (c & Hc & Hw & Ho & Hl & _). exists c. split; [done|].
    intros Hu Hlv. destruct (Hl Hu Hlv) as (H1 & H2 & H3). by split_and!.
Qed.

(** With polite callbacks and queued calls that run before the connection
    goes down, no assert fails and every step returns, unless a container is
    asked for more than memory can hold. *)
Theorem connection_progress w e :
  polite_callbacks -> reachable Strict w -> allowed Strict w e ->
  match step w e with
  | Ok w' => reachable Strict w'
  | Err f => f = LengthError
  end.
Proof.
  intros Hcb Hr Ha. assert (HI := conn_reachable_inv Strict (fun _ => Hcb) w Hr).
  pose proof (step_wp Strict (fun _ => Hcb) w e HI Ha) as H.
  destruct (step w e) as [w'|f] eqn:E; [by eapply reach_step|]. by apply H.
Qed.

(** [sendInLoop]: what is written at once, what is appended to the output
    buffer, which functors are queued (write complete, or the high-water mark
    reached by this call), and when the channel is asked to write. *)
Theorem sendInLoop_correct strict w c m :
  Inv strict w -> channel w = Some c -> zlen m <= max_size ->
  match sendInLoop w m with
  | Ok w' => sent w c m w'
  | Err f => f = LengthError
  end.
Proof. intros HI Hc Hm. apply sendInLoop_spec; try done; apply HI. Qed.

(** [k] times the channel is ready to write. *)
Fixpoint drain (k : nat) (w : t) : res t :=
  match k with
  | O => Ok w
  | S k => w' ← step w (Ready Channel.POLLOUT (Buffer.RvData [])) ; drain k w'
  end.

Lemma step_pollout w c :
  channel w = Some c -> step w (Ready Channel.POLLOUT (Buffer.RvData [])) = handleWrite w.
Proof.
  intros Hc. unfold step, handleEvent, chan. rewrite Hc. simpl. by destruct (handleWrite w).
Qed.

Lemma drain_idle k : forall w c, channel w = Some c -> Channel.isWriting c = false ->
  drain k w = Ok w.
Proof.
  induction k as [|k IH]; intros w c Hc Hw; [done|]. cbn [drain].
  rewrite (step_pollout w c Hc). unfold handleWrite, chan. rewrite Hc, bind_ret_l, Hw.
  rewrite bind_ret_l. by apply (IH w c).
Qed.

Lemma drain_ok k : (forall n d, d <> [] -> 0 < write n d) -> forall w,
  Inv Timely w -> state_ w = kDisconnecting -> (length (out w) <= k)%nat -> out w <> [] ->
  exists w', drain k w = Ok w' /\ Inv Timely w' /\ out w' = [] /\
    accepted (log w') = accepted (log w) /\ exists l, log w' = l ++ [ShutdownWrite].
Proof.
  intros Hwr. induction k as [|k IH]; intros w HI Hs Hk Hne.
  { destruct (out w); simpl in Hk; [done|lia]. }
  destruct (inv_channel _ _ HI) as (c & Hc & Hci).
  cbn [drain]. rewrite (step_pollout w c Hc).
  destruct (handleWrite_spec w c) as (w1 & -> & Hf); try done; try apply HI; [apply Hci|].
  destruct (flushed_inv Timely (anyhow Timely ltac:(done)) w c w1 HI Hc Hci ltac:(by rewrite Hs) Hf) as [HI1 Hs1].
  rewrite bind_ret_l. unfold flushed in Hf.
  destruct Hci as (Hw & _ & Hl & _).
  destruct Hl as (_ & _ & Hwriting); [by apply (live_up w Timely); rewrite ?Hs|by rewrite Hs|]. rewrite (Hwriting Hne) in Hf.
  specialize (Hwr (nwrites w) (out w) Hne). pose proof (write_bound (nwrites w) (out w)) as Hb.
  set (n := write _ _) in *. replace (0 <? n) with true in Hf by lia.
  destruct Hf as (l & b & c' & -> & HIb & Hrb & Hg & Hc' & Hif).
  destruct (Z.eqb_spec n (zlen (out w))) as [He|He]; cbn [andb] in Hif, HI1.
  - destruct Hif as (idx & _ & ->). erewrite (drain_idle k); [|exact Hc'|].
    2:{ rewrite Channel.index_writing. apply (Channel.change_writing Channel.DisableWriting c Hw). }
    eexists. split; [reflexivity|]. split; [exact HI1|].
    rewrite Hs, bool_decide_true by done. cbn [outputBuffer_ log andb]. split_and!.
    + rewrite Hrb. apply zdrop_all. lia.
    + by rewrite !accepted_app, took_accepted, !app_nil_r.
    + eexists. by rewrite app_assoc.
  - replace (n =? zlen (out w)) with false in * by lia. cbn [andb] in *.
    match goal with |- context [drain k ?x] => set (w1 := x) in * end.
    destruct (IH w1 HI1 Hs) as (w' & E & HI' & Ho & Ha & Hlog).
    + simpl. rewrite Hrb. unfold zdrop. rewrite length_drop. lia.
    + simpl. rewrite Hrb. intros Hz. apply (f_equal zlen) in Hz. autorewrite with zlen in Hz. lia.
    + exists w'. split_and!; try done. rewrite Ha. simpl.
      by rewrite app_nil_r, accepted_app, took_accepted, app_nil_r.
Qed.

(** C20. A graceful close completes: when the socket keeps accepting bytes, at
    most as many write events as bytes wait empty the output buffer; everything
    accepted has then been written and the write side is shut down last. *)
Theorem shutdown_drains w :
  reachable Timely w -> state_ w = kDisconnecting -> out w <> [] ->
  (forall n d, d <> [] -> 0 < write n d) ->
  exists w', drain (length (out w)) w = Ok w' /\ out w' = [] /\
    written (log w') = accepted (log w') /\ accepted (log w') = accepted (log w) /\
    exists l, log w' = l ++ [ShutdownWrite].
Proof.
  intros HI%timely_inv Hs Hne Hwr.
  destruct (drain_ok (length (out w)) Hwr w HI Hs ltac:(done) Hne) as (w' & E & HI' & Ho & Ha & Hl).
  exists w'. split_and!; try done. by rewrite <- (inv_stream _ _ HI'), Ho, app_nil_r.
Qed.

(** A [send] of another thread that is still queued when the connection
    goes down is run all the same: if the socket does not take the whole message,
    the channel of the closed connection is enabled again, and the destruction
    that follows aborts in the poller. *)
Theorem late_send_aborts w c m fs w' :
  reachable Timely w -> state_ w = kDisconnected -> channel w = Some c ->
  pending w = FSend m :: fs -> direct w c m < zlen m -> step w Functor = Ok w' ->
  step w' Destroyed = Err AssertFailed.
Proof.
  intros HI%timely_inv Hs Hc Hp Hd E. simpl in E. rewrite Hp in E.
  pose proof (sendInLoop_spec (set_pending w fs) c m (inv_good _ _ HI) Hc (inv_output _ _ HI)
    ltac:(apply (inv_pending _ _ HI); rewrite Hp; by left)) as H.
  simpl in E. rewrite E in H. destruct H as (l & b & c' & -> & _ & _ & Hg & Hc' & Hif).
  change (direct (set_pending w fs) c m) with (direct w c m) in Hif.
  destruct (inv_channel _ _ HI) as (c0 & Hc0 & Hw & _). assert (c0 = c) as -> by congruence.
  assert (Hn : Channel.isNoneEvent c' = false).
  { assert (Hw' : Channel.wf c' /\ Channel.isWriting c' = true).
    { replace (direct w c m <? zlen m) with true in Hif by lia. simpl in Hif.
      destruct (Channel.isWriting c) eqn:Hwr; simpl in Hif; [by subst c'|].
      destruct Hif as (idx & _ & ->). split; [by apply Channel.change_wf|].
      rewrite Channel.index_writing. apply (Channel.change_writing Channel.EnableWriting c Hw). }
    destruct Hw' as [Hw1 Hw2]. rewrite Channel.none_event_iff, Hw2 by done. by rewrite orb_true_r. }
  unfold step, connectionDestroyed, connected. cbn [state_ set_pending].
  rewrite Hs, bool_decide_false by done. rewrite bind_ret_l. cbn [loop_ channel_].
  pose proof (remove_law l (channel_ w) c' Hg Hc') as Hr. rewrite Hn, andb_false_r in Hr.
  simpl. by rewrite Hr.
Qed.

End connection.
(** ** A run on the epoll poller

    A socket that takes three bytes at a time, and a server that echoes the
    first message and closes. *)

#[local] Existing Instance EPoller.demo_kernel.
#[local] Existing Instance EPoller.epoller_owner.

#[local] Program Instance demo_socket : Socket := {| write n d := Z.min 3 (zlen d) |}.
Next Obligation. intros. simpl. lia. Qed.

Notation conn := (t (P := EPoller.t)).

Definition echo : callbacks (P := EPoller.t) :=
  {| connectionCallback_ := defaultConnectionCallback;
     messageCallback_ w := Do SendInput (fun _ => Do (Public Shutdown) (fun _ => Return));
     writeCompleteCallback_ := Some (fun _ => Return);
     highWaterMarkCallback_ := Some (fun _ _ => Return);
     highWaterMark_ := 8 |}.

Definition next (w : conn) (e : event) : conn :=
  match step echo w e with Ok w' => w' | Err _ => w end.

Lemma reach_next strict w e :
  reachable echo strict w -> allowed strict w e -> is_ok (step echo w e) = true ->
  reachable echo strict (next w e).
Proof.
  intros Hr Ha E. apply (reach_step echo strict w e); [done|done|].
  unfold next. by destruct (step echo w e).
Qed.

Definition demo_init : conn := init EPoller.demo1 100.
Definition demo_up : conn := next demo_init Established.
Definition demo_closing : conn :=
  next demo_up (Ready Channel.POLLIN (Buffer.RvData (bytes "hello world"))).

Lemma demo_up_reachable strict : reachable echo strict demo_up.
Proof.
  apply reach_next; [|done|by vm_compute]. apply (reach_init echo strict _ _ (Channel.new 5)).
  - split; [apply EPoller.epoller_reachable_inv, EPoller.demo1_reachable|].
    exists (Channel.new 5). by vm_compute.
  - by vm_compute.
  - by vm_compute.
  - by vm_compute.
Qed.

Lemma demo_closing_reachable strict : reachable echo strict demo_closing.
Proof.
  apply reach_next; [apply demo_up_reachable| |by vm_compute].
  eexists. split; [by vm_compute|]. split; [by vm_compute|]. intros _. by vm_compute.
Qed.

Lemma stream_integrity_witness :
  Buffer.readable (outputBuffer_ demo_closing) = bytes "lo world" /\
  written (log demo_closing) ++ bytes "lo world" = accepted (log demo_closing).
Proof.
  split; [by vm_compute|].
  exact (proj2 (stream_integrity echo demo_closing (demo_closing_reachable Wild))).
Defined.

(** [shutdown] of another thread finds the connection up; the peer closes; reading
    is started again, by a call queued before; then the late write of [state_] lets
    the next end of file close the connection a second time. *)
Definition eof : event := Ready Channel.POLLIN (Buffer.RvData []).
Definition demo_reading : conn := next (next (next demo_up (Foreign StartRead)) eof) Functor.
Definition demo_marked : conn := next demo_reading Mark.
Definition demo_twice : conn := next demo_marked eof.

Lemma demo_reading_reachable m : m <> Strict -> reachable echo m demo_reading.
Proof.
  intros Hm. apply reach_next; [apply reach_next; [apply reach_next; [apply demo_up_reachable|done|]|..]|..];
    try by vm_compute.
  eexists. by split; [vm_compute|split; [vm_compute|]].
Qed.

Lemma demo_twice_reachable : reachable echo Wild demo_twice.
Proof.
  apply reach_next; [apply reach_next; [by apply demo_reading_reachable| |]|..]; try by vm_compute.
  eexists. by split; [vm_compute|split; [vm_compute|]].
Qed.

Lemma lifecycle_witness :
  connections (log demo_reading) = [kConnected; kDisconnected] /\
  (state_ demo_reading, state_ demo_marked) = (kDisconnected, kDisconnecting) /\
  connections (log demo_twice) = [kConnected; kDisconnected; kDisconnected] /\
  exists n, connections (log demo_twice) = kConnected :: replicate (S n) kDisconnected.
Proof.
  split; [|split_and!; [vm_compute; reflexivity..|]].
  - destruct (lifecycle echo Timely demo_reading ltac:(done) (demo_reading_reachable Timely ltac:(done)))
      as (_ & [->|[? _]] & _); [vm_compute; reflexivity|done].
  - destruct (lifecycle echo Wild demo_twice ltac:(done) demo_twice_reachable) as (_ & [H|[_ H]] & _);
      [|exact H]. vm_compute in H. discriminate H.
Defined.

Lemma echo_polite : polite_callbacks echo.
Proof. split_and!; try done. intros f w [= <-]. done. intros f len w [= <-]. done. Qed.

Lemma connection_progress_witness :
  match step echo demo_closing Functor with
  | Ok w' => reachable echo Strict w'
  | Err f => f = LengthError
  end.
Proof.
  apply (connection_progress echo demo_closing Functor);
    [apply echo_polite|apply demo_closing_reachable|by vm_compute].
Defined.

Lemma sendInLoop_correct_witness :
  match sendInLoop echo demo_up (bytes "hello world") with
  | Ok w' => pending w' = [FHighWaterMark 8]
  | Err f => f = LengthError
  end.
Proof.
  destruct (channelAt (loop_ demo_up) (channel_ demo_up)) as [c|] eqn:Hc; [|by vm_compute in Hc].
  pose proof (sendInLoop_correct echo Strict demo_up c (bytes "hello world")
    (conn_reachable_inv echo Strict (fun _ => echo_polite) demo_up (demo_up_reachable Strict)) Hc
    ltac:(by vm_compute)) as H.
  vm_compute in Hc. injection Hc as <-.
  destruct (sendInLoop echo demo_up (bytes "hello world")) as [w'|f]; [|exact H].
  destruct H as (l & b & c' & -> & _). by vm_compute.
Defined.

Lemma shutdown_drains_witness :
  exists w', drain echo 8 demo_closing = Ok w' /\ written (log w') = bytes "hello world".
Proof.
  destruct (shutdown_drains echo demo_closing) as (w' & E & _ & Hw & Ha & _).
  - apply demo_closing_reachable.
  - by vm_compute.
  - by vm_compute.
  - intros n d Hd. simpl. assert (zlen d <> 0) by (intros ?%zlen_zero_nil; done).
    pose proof (zlen_nonneg d). lia.
  - exists w'. split; [exact E|]. rewrite Hw, Ha. by vm_compute.
Defined.

Definition demo_flush (w : conn) : conn := next w (Ready Channel.POLLOUT (Buffer.RvData [])).
Definition demo_shut : conn := demo_flush (demo_flush (demo_flush demo_closing)).

Lemma demo_flush_reachable w c strict :
  reachable echo strict w -> channelAt (loop_ w) (channel_ w) = Some c ->
  registered c = true -> Channel.isNoneEvent c = false ->
  is_ok (step echo w (Ready Channel.POLLOUT (Buffer.RvData []))) = true ->
  reachable echo strict (demo_flush w).
Proof.
  intros Hr Hc Hreg Hn Hok. apply reach_next; [done| |done].
  exists c. split; [done|]. by split.
Qed.

Lemma demo_shut_reachable strict : reachable echo strict demo_shut.
Proof.
  eapply demo_flush_reachable; [|by vm_compute..].
  eapply demo_flush_reachable; [|by vm_compute..].
  eapply demo_flush_reachable; [apply demo_closing_reachable|by vm_compute..].
Qed.

Lemma graceful_shutdown_witness :
  exists l1 l2, log demo_shut = l1 ++ ShutdownWrite :: l2 /\ written l1 = accepted l1.
Proof.
  exists (take 7 (log demo_shut)), []. split; [by vm_compute|].
  apply (graceful_shutdown echo demo_shut _ []); [apply demo_shut_reachable|by vm_compute|].
  vm_compute. set_solver.
Defined.

(** The peer closes while a message of another thread is queued. *)
Definition demo_queued : conn := next demo_up (Foreign (Send (bytes "hello"))).
Definition demo_down : conn := next demo_queued (Ready Channel.POLLIN (Buffer.RvData [])).

Lemma demo_down_reachable : reachable echo Timely demo_down.
Proof.
  apply reach_next; [apply reach_next; [apply demo_up_reachable|done|by vm_compute]| |by vm_compute].
  eexists. split; [by vm_compute|]. by split; [vm_compute|].
Qed.

Definition demo_channel (w : conn) : Channel.t :=
  default (Channel.new 0) (channelAt (loop_ w) (channel_ w)).

Lemma late_send_aborts_witness :
  exists w', step echo demo_down Functor = Ok w' /\
    step echo w' Destroyed = Err AssertFailed.
Proof.
  assert (E : step echo demo_down Functor = Ok (next demo_down Functor)) by (vm_compute; reflexivity).
  eexists. split; [exact E|].
  assert (Hc : channelAt (loop_ demo_down) (channel_ demo_down) = Some (demo_channel demo_down))
    by (vm_compute; reflexivity).
  apply (late_send_aborts echo demo_down (demo_channel demo_down) (bytes "hello") []).
  - exact demo_down_reachable.
  - vm_compute. reflexivity.
  - exact Hc.
  - vm_compute. reflexivity.
  - vm_compute. reflexivity.
  - exact E.
Defined.

End TcpConnection.
