(* ===== verification/ConnectionFrame.v ===== *)
(** * ConnectionFrame: what a step of a connection leaves alone

    Every operation of [TcpConnection] reaches the poller of its loop only
    through its own channel, and calls the close callback exactly when it takes
    the connection down by [handleClose].  These facts hold for any callbacks
    and need no invariant; the composition of a server with its connections
    rests on them. *)

From S2P Require Import Prelude Buffer Channel ChannelOwner TcpConnection.

Module ConnectionFrame.
Import TcpConnection.

Section frame.
Context {P : Type} `{HP : ChannelOwner P} `{HS : Socket} (cb : callbacks (P := P)).

Implicit Types w : TcpConnection.t (P := P).

(** How often the close callback was called. *)
Definition closes (l : list obs) : nat :=
  length (omap (fun o => match o with Closed => Some () | _ => None end) l).

Definition phase (s : StateE) : nat :=
  match s with kConnecting => 0 | kConnected | kDisconnecting => 1 | kDisconnected => 2 end.
Definition down (w : TcpConnection.t (P := P)) : nat :=
  if bool_decide (state_ w = kDisconnected) then 1 else 0.

Lemma closes_app l1 l2 : closes (l1 ++ l2) = (closes l1 + closes l2)%nat.
Proof. unfold closes. by rewrite omap_app, length_app. Qed.

(** What the user's calls and the senders do. *)
Record acts w w' : Prop := {
  acts_channel : channel_ w' = channel_ w;
  acts_touches : touches (channel_ w) (loop_ w) (loop_ w');
  acts_closes : closes (log w') = closes (log w);
  acts_phase : phase (state_ w') = phase (state_ w)
}.

(** What the handlers do: a close for each time the connection goes down. *)
Record kept w w' : Prop := {
  kept_channel : channel_ w' = channel_ w;
  kept_touches : touches (channel_ w) (loop_ w) (loop_ w');
  kept_closes : (closes (log w') + down w = closes (log w) + down w')%nat;
  kept_phase : (phase (state_ w) <= phase (state_ w'))%nat
}.

Lemma acts_refl w : acts w w.
Proof. split; try done. constructor. Qed.

Lemma acts_trans w1 w2 w3 : acts w1 w2 -> acts w2 w3 -> acts w1 w3.
Proof.
  intros [H1 H2 H3 H4] [G1 G2 G3 G4]. split; try congruence.
  rewrite H1 in G2. by eapply touches_trans.
Qed.

Lemma down_phase w : down w = if bool_decide (phase (state_ w) = 2%nat) then 1%nat else 0%nat.
Proof. unfold down. by destruct (state_ w). Qed.

Lemma down_iff w : down w = 1%nat <-> state_ w = kDisconnected.
Proof. unfold down. case_bool_decide; naive_solver. Qed.

Lemma acts_down w w' : acts w w' -> down w' = down w.
Proof. intros [_ _ _ H]. by rewrite !down_phase, H. Qed.

Lemma acts_kept w w' : acts w w' -> kept w w'.
Proof. intros [H1 H2 H3 H4]. split; try done; [|lia]. rewrite !down_phase, H4, H3. done. Qed.

Lemma kept_trans w1 w2 w3 : kept w1 w2 -> kept w2 w3 -> kept w1 w3.
Proof.
  intros [H1 H2 H3 H4] [G1 G2 G3 G4]. split; try congruence; try lia.
  rewrite H1 in G2. by eapply touches_trans.
Qed.

(** A change of the other fields, and of the log. *)
Lemma acts_same w w' l :
  channel_ w' = channel_ w -> loop_ w' = loop_ w -> state_ w' = state_ w ->
  log w' = log w ++ l -> closes l = 0%nat -> acts w w'.
Proof.
  intros H1 H2 H3 H4 H5. split; try congruence.
  - rewrite H2. constructor.
  - rewrite H4, closes_app. lia.
Qed.

Lemma acts_emit w o : closes [o] = 0%nat -> acts w (emit w o).
Proof. intros Ho. by apply (acts_same _ _ [o]). Qed.

Lemma acts_plain w w' :
  channel_ w' = channel_ w -> loop_ w' = loop_ w -> state_ w' = state_ w ->
  log w' = log w -> acts w w'.
Proof. intros. apply (acts_same _ _ []); try done. by rewrite app_nil_r. Qed.

Lemma acts_change w i w' : change w i = Ok w' -> acts w w'.
Proof.
  unfold change. intros E. inv_ok. split; try done. by eapply touches_one.
Qed.

Lemma sys_write_acts w d : acts w (snd (sys_write w d)).
Proof.
  unfold sys_write. simpl. case_match; [|by apply acts_plain].
  by apply (acts_same _ _ [Wrote (ztake (write (nwrites w) d) d)]).
Qed.

Lemma write_direct_acts w c m : acts w (snd (write_direct cb w c m)).
Proof.
  unfold write_direct. pose proof (sys_write_acts w m) as H.
  repeat case_match; simpl in *; try done; try by apply acts_refl.
  eapply acts_trans; [exact H|]. by apply acts_plain.
Qed.

Lemma sendInLoop_acts w m w' : sendInLoop cb w m = Ok w' -> acts w w'.
Proof.
  unfold sendInLoop. intros (c & _ & E)%bind_ok.
  pose proof (write_direct_acts (emit w (Accepted m)) c m) as Hr.
  set (r := write_direct cb _ c m) in *. clearbody r.
  apply (acts_trans w _ (snd r)) in Hr; [|by apply acts_emit].
  apply (acts_trans _ _ _ Hr). apply bind_ok in E as (_ & _ & E).
  case_match; [|inv_ok; by apply acts_refl].
  apply bind_ok in E as (b & _ & E). match type of E with context [set_output ?x b] => set (q := x) in E end.
  assert (Hq : acts (snd r) (set_output q b)) by (unfold q; case_match; by apply acts_plain).
  apply (acts_trans _ _ _ Hq). apply bind_ok in E as (c2 & _ & E).
  case_match; [by eapply acts_change|]. inv_ok. apply acts_refl.
Qed.

Lemma read_acts w w1 i b :
  change w i = Ok w1 -> acts w (set_reading w1 b).
Proof. intros E. eapply acts_trans; [by eapply acts_change|]. by apply acts_plain. Qed.

Lemma startReadInLoop_acts w w' : startReadInLoop w = Ok w' -> acts w w'.
Proof.
  unfold startReadInLoop. intros E. inv_ok. case_match; inv_ok; [by eapply read_acts|apply acts_refl].
Qed.

Lemma stopReadInLoop_acts w w' : stopReadInLoop w = Ok w' -> acts w w'.
Proof.
  unfold stopReadInLoop. intros E. inv_ok. case_match; inv_ok; [by eapply read_acts|apply acts_refl].
Qed.

Lemma shutdownInLoop_acts w w' : shutdownInLoop w = Ok w' -> acts w w'.
Proof.
  unfold shutdownInLoop. intros E. inv_ok. case_match; [by apply acts_emit|apply acts_refl].
Qed.

Lemma disconnecting_acts w : live (state_ w) = true -> acts w (setState w kDisconnecting).
Proof. intros Hs. split; try done; simpl; [constructor|by destruct (state_ w)]. Qed.

Lemma leave_acts w c w' : leave w c = Ok w' -> acts w w'.
Proof. destruct c; simpl; intros E; inv_ok; by apply acts_plain. Qed.

Lemma exec_call_acts w b c w' : exec_call cb w b c = Ok w' -> acts w w'.
Proof.
  destruct c as [m| | |]; simpl; unfold send, startRead, stopRead, shutdown, connected; intros E.
  - inv_ok. case_bool_decide; [|inv_ok; apply acts_refl].
    destruct b; [by eapply sendInLoop_acts|]. inv_ok. by apply acts_plain.
  - destruct b; [by apply startReadInLoop_acts|]. inv_ok. by apply acts_plain.
  - destruct b; [by apply stopReadInLoop_acts|]. inv_ok. by apply acts_plain.
  - case_bool_decide; [|inv_ok; apply acts_refl].
    eapply acts_trans; [apply disconnecting_acts; by match goal with H : state_ w = _ |- _ => rewrite H end|].
    destruct b; [by apply shutdownInLoop_acts|]. inv_ok. by apply acts_plain.
Qed.

Lemma exec_action_acts w a w' : exec_action cb w a = Ok w' -> acts w w'.
Proof.
  destruct a as [c| |len|]; simpl; intros E.
  - by eapply exec_call_acts.
  - unfold send_input in E. case_match; inv_ok; [|apply acts_refl].
    eapply acts_trans; [|by eapply sendInLoop_acts]. by apply acts_plain.
  - inv_ok. by apply acts_plain.
  - inv_ok. by apply acts_plain.
Qed.

Lemma run_acts p : forall w w', run cb p w = Ok w' -> acts w w'.
Proof.
  induction p as [|a k IH]; intros w w' E; simpl in E; inv_ok; [apply acts_refl|].
  eapply acts_trans; [by eapply exec_action_acts|]. by eapply IH.
Qed.

Lemma call_back_acts w o f w' :
  closes [o] = 0%nat -> call_back cb w o f = Ok w' -> acts w w'.
Proof.
  intros Ho E. eapply acts_trans; [by apply (acts_emit w o)|]. by eapply run_acts.
Qed.

(** ** The handlers *)

Lemma kept_acts w1 w2 w3 : kept w1 w2 -> acts w2 w3 -> kept w1 w3.
Proof. intros H ?%acts_kept. by eapply kept_trans. Qed.

Lemma handleClose_kept w w' : handleClose cb w = Ok w' -> kept w w'.
Proof.
  unfold handleClose. intros E. inv_ok.
  match goal with H : change _ _ = Ok ?x |- _ => rename x into w1; rename H into Hc end.
  match goal with H : call_back _ _ _ _ = Ok ?x |- _ => rename x into w2; rename H into Hb end.
  apply acts_change in Hc as [H1 H2 H3 H4]. apply call_back_acts in Hb as [G1 G2 G3 G4]; [|done].
  simpl in *. rewrite H1 in G2.
  assert (Hs : state_ w2 = kDisconnected).
  { rewrite H4 in G4. by destruct (state_ w2). }
  split; simpl; [congruence|eapply touches_trans; eassumption| |].
  - rewrite closes_app, G3, H3. unfold down. simpl. rewrite Hs.
    rewrite (bool_decide_false (state_ w = kDisconnected)); [done|]. intros Hd. by rewrite Hd in H.
  - rewrite Hs. simpl. destruct (state_ w); simpl; lia.
Qed.

Lemma handleRead_kept w rv w' : handleRead cb w rv = Ok w' -> kept w w'.
Proof.
  unfold handleRead. intros E. apply bind_ok in E as (r & _ & E).
  assert (Ha : acts w (set_input w (snd r))) by (by apply acts_plain).
  apply acts_kept in Ha. destruct (0 <? _); [|destruct (_ =? 0)].
  - eapply kept_acts; [exact Ha|]. by eapply call_back_acts; [|exact E].
  - eapply kept_trans; [exact Ha|]. by apply handleClose_kept.
  - inv_ok. eapply kept_acts; [exact Ha|]. by apply acts_emit.
Qed.

Lemma handleWrite_acts w w' : handleWrite cb w = Ok w' -> acts w w'.
Proof.
  unfold handleWrite. intros (c & _ & E)%bind_ok. case_match; [|inv_ok; apply acts_refl].
  apply bind_ok in E as (d & _ & E). pose proof (sys_write_acts w d) as Hr.
  set (r := sys_write w d) in *. clearbody r. apply (acts_trans _ _ _ Hr).
  case_match; [|inv_ok; apply acts_refl]. apply bind_ok in E as (b & _ & E).
  assert (Hb : acts (snd r) (set_output (snd r) b)) by (by apply acts_plain).
  apply (acts_trans _ _ _ Hb). case_match; [|inv_ok; apply acts_refl].
  apply bind_ok in E as (w1 & E1 & E). apply (acts_trans _ w1); [by eapply acts_change|].
  match type of E with context [shutdownInLoop ?x] =>
    set (w2 := x) in *; assert (Hq : acts w1 w2) by (unfold w2; destruct (has_writeComplete cb); [by apply acts_plain|apply acts_refl]) end.
  clearbody w2. apply (acts_trans _ _ _ Hq). case_match; [by apply shutdownInLoop_acts|]. inv_ok. apply acts_refl.
Qed.

Lemma handle_kept w rv c w' : handle cb w rv c = Ok w' -> kept w w'.
Proof.
  destruct c; simpl; intros E.
  - by apply handleClose_kept.
  - inv_ok. by apply acts_kept, acts_emit.
  - by eapply handleRead_kept.
  - by apply acts_kept, handleWrite_acts.
Qed.

Lemma handle_all_kept rv cs : forall w w', handle_all cb w rv cs = Ok w' -> kept w w'.
Proof.
  induction cs as [|c cs IH]; intros w w' E; simpl in E; inv_ok; [apply acts_kept, acts_refl|].
  eapply kept_trans; [by eapply handle_kept|]. by apply IH.
Qed.

Lemma run_functor_acts w f w' : run_functor cb w f = Ok w' -> acts w w'.
Proof.
  destruct f; simpl.
  - apply sendInLoop_acts.
  - apply startReadInLoop_acts.
  - apply stopReadInLoop_acts.
  - apply shutdownInLoop_acts.
  - case_match; [by apply call_back_acts|]. intros E. inv_ok. apply acts_refl.
  - case_match; [by apply call_back_acts|]. intros E. inv_ok. apply acts_refl.
Qed.

(** Once established the connection is up and its channel registered. *)
Lemma connectionEstablished_kept w w' c :
  connectionEstablished cb w = Ok w' -> good (loop_ w) (channel_ w) ->
  channelAt (loop_ w) (channel_ w) = Some c ->
  kept w w' /\ phase (state_ w') = 1%nat /\
  exists c', channelAt (loop_ w') (channel_ w) = Some c' /\ registered c' = true.
Proof.
  unfold connectionEstablished. intros E Hg Hc.
  apply bind_ok in E as ([] & Hs%assert_ok%bool_decide_eq_true & E).
  apply bind_ok in E as (w1 & E1 & E2). unfold change in E1. simpl in E1.
  destruct (update_law _ _ c Channel.EnableReading Hg Hc) as (l & idx & El & Hgl & Hi & Hl).
  rewrite El in E1. simpl in E1. injection E1 as <-. apply call_back_acts in E2 as [G1 G2 G3 G4]; [|done]. simpl in *.
  split; [split; simpl|].
  - done.
  - eapply touches_trans; [|exact G2]. by eapply touches_one.
  - rewrite G3, !down_phase, G4, Hs. done.
  - rewrite Hs. simpl. lia.
  - split; [done|].
    destruct (touches_self (channel_ w) l (loop_ w') _ G2 Hgl Hl) as (_ & c' & Hc' & _ & Hr).
    exists c'. split; [done|]. apply Hr. by apply Z.leb_le.
Qed.

(** A connection that is down is destroyed by unregistering its channel. *)
Lemma connectionDestroyed_down w :
  state_ w = kDisconnected ->
  connectionDestroyed cb w = (l ← remove (loop_ w) (channel_ w) ; Ok (set_loop w l)).
Proof. intros Hs. unfold connectionDestroyed, connected. by rewrite Hs. Qed.

(** The steps of other threads, unless the state is written after the close. *)
Lemma foreign_acts w e w' :
  foreign e = true -> (e = Mark -> live (state_ w) = true) -> step cb w e = Ok w' -> acts w w'.
Proof.
  intros Hf Hm E. destruct e as [|revents rv| | |c| |c]; simpl in E; try done.
  - by eapply exec_call_acts.
  - injection E as <-. by apply disconnecting_acts, Hm.
  - by eapply leave_acts.
Qed.

(** Every step but the first and the last. *)
Lemma step_kept w e w' :
  e <> Established -> e <> Destroyed -> (e = Mark -> live (state_ w) = true) ->
  step cb w e = Ok w' -> kept w w'.
Proof.
  intros H1 H2 Hm E. destruct (foreign e) eqn:Hf.
  { by apply acts_kept, (foreign_acts w e). }
  destruct e as [|revents rv| | |c| |c]; simpl in E; try done.
  - unfold handleEvent in E. inv_ok. by eapply handle_all_kept.
  - case_match; inv_ok; [apply acts_kept, acts_refl|].
    eapply kept_acts; [|by eapply run_functor_acts]. by apply acts_kept, acts_plain.
Qed.

End frame.
End ConnectionFrame.
