(* ===== verification/EventLoop.v ===== *)
(** * EventLoop: one loop thread and its callers ([EventLoop.h], [EventLoop.cpp])

    The loop runs in its thread; other threads queue functors and call [quit].
    A functor is a value of [F]; running it performs the calls [acts f] on the
    loop.  The pieces that the source runs without interruption by what the
    others can see are functions; [step] interleaves them: a call of another
    thread is two steps, the change under the lock (or the write of [quit_]) and
    the write to the event descriptor.  [inflight] counts the threads between the
    two; [executed] and [submitted] record which functors were run and queued, and
    [early] counts the pending ones that the owner queued before [loop()]. *)

From S2P Require Import Prelude.

Module EventLoop.

(** The calls a functor or a handler makes on its own loop. *)
Inductive act (F : Type) :=
  | Queue (f : F)
  | Quit.
Arguments Queue {F} f.
Arguments Quit {F}.

(** The active channels' handlers: the event descriptor's, or any other. *)
Inductive handler (F : Type) :=
  | HWakeup
  | HAct (a : act F).
Arguments HWakeup {F}.
Arguments HAct {F} a.

(** Where the loop thread is: outside [loop()], at the test of the [while], in
    [poll], in the handlers, at the start of [doPendingFunctors], or in its
    [for] with the rest of one functor's calls and the functors after it. *)
Inductive pc (F : Type) :=
  | Outside
  | Top
  | Poll
  | Handle (hs : list (handler F))
  | Calling
  | Run (calls : list (act F)) (functors : list F).
Arguments Outside {F}.
Arguments Top {F}.
Arguments Poll {F}.
Arguments Handle {F} hs.
Arguments Calling {F}.
Arguments Run {F} calls functors.

Section loop.
Context {F : Type} (acts : F -> list (act F)).

Record t := mk {
  looping_ : bool;
  quit_ : bool;
  callingPendingFunctors_ : bool;
  pendingFunctors_ : list F;
  (* the counter of [wakeupFd_] *)
  counter : Z;
  at_ : pc F;
  inflight : nat;
  executed : list F;
  submitted : list F;
  (* how many of the pending functors the owner queued outside [loop()] *)
  early : nat
}.

(** The constructor. *)
Definition init : t := mk false false false [] 0 Outside 0 [] [] 0.

Definition set_at (w : t) (p : pc F) : t :=
  mk (looping_ w) (quit_ w) (callingPendingFunctors_ w) (pendingFunctors_ w) (counter w) p
    (inflight w) (executed w) (submitted w) (early w).
Definition set_quit (w : t) (b : bool) : t :=
  mk (looping_ w) b (callingPendingFunctors_ w) (pendingFunctors_ w) (counter w) (at_ w)
    (inflight w) (executed w) (submitted w) (early w).
Definition set_looping (w : t) (b : bool) : t :=
  mk b (quit_ w) (callingPendingFunctors_ w) (pendingFunctors_ w) (counter w) (at_ w)
    (inflight w) (executed w) (submitted w) (early w).
Definition set_calling (w : t) (b : bool) : t :=
  mk (looping_ w) (quit_ w) b (pendingFunctors_ w) (counter w) (at_ w)
    (inflight w) (executed w) (submitted w) (early w).
Definition set_counter (w : t) (n : Z) : t :=
  mk (looping_ w) (quit_ w) (callingPendingFunctors_ w) (pendingFunctors_ w) n (at_ w)
    (inflight w) (executed w) (submitted w) (early w).
Definition set_inflight (w : t) (n : nat) : t :=
  mk (looping_ w) (quit_ w) (callingPendingFunctors_ w) (pendingFunctors_ w) (counter w) (at_ w)
    n (executed w) (submitted w) (early w).
Definition set_early (w : t) (n : nat) : t :=
  mk (looping_ w) (quit_ w) (callingPendingFunctors_ w) (pendingFunctors_ w) (counter w) (at_ w)
    (inflight w) (executed w) (submitted w) n.

(** [wakeup]: the counter grows by one; at its greatest value the write fails
    and is only logged. *)
Definition max_counter : Z := 2 ^ 64 - 2.
Definition wakeup (w : t) : t :=
  if counter w <? max_counter then set_counter w (counter w + 1) else w.

(** [handleRead] of the event descriptor: reading resets the counter. *)
Definition handleRead (w : t) : t := set_counter w 0.

(** The locked part of [queueInLoop]. *)
Definition push (w : t) (cb : F) : t :=
  mk (looping_ w) (quit_ w) (callingPendingFunctors_ w) (pendingFunctors_ w ++ [cb])
    (counter w) (at_ w) (inflight w) (executed w) (submitted w ++ [cb]) (early w).

Definition queueInLoop (w : t) (isInLoopThread : bool) (cb : F) : t :=
  let w := push w cb in
  if negb isInLoopThread || callingPendingFunctors_ w then wakeup w else w.

Definition quit (w : t) (isInLoopThread : bool) : t :=
  let w := set_quit w true in
  if negb isInLoopThread then wakeup w else w.

Definition exec (w : t) (a : act F) : t :=
  match a with
  | Queue f => queueInLoop w true f
  | Quit => quit w true
  end.

(** [functors.swap(pendingFunctors_)] under the lock. *)
Definition swap (w : t) : t :=
  mk (looping_ w) (quit_ w) (callingPendingFunctors_ w) [] (counter w)
    (Run [] (pendingFunctors_ w)) (inflight w) (executed w) (submitted w) 0.

(** [functor()]: its calls follow. *)
Definition start_functor (w : t) (f : F) (fs : list F) : t :=
  mk (looping_ w) (quit_ w) (callingPendingFunctors_ w) (pendingFunctors_ w) (counter w)
    (Run (acts f) fs) (inflight w) (executed w ++ [f]) (submitted w) (early w).

(** The next step of the loop thread inside [loop()], except in [poll]. *)
Definition advance (w : t) : option t :=
  match at_ w with
  | Outside | Poll => None
  | Top =>
      if quit_ w then Some (set_at (set_looping w false) Outside) else Some (set_at w Poll)
  | Handle [] => Some (set_at (set_calling w true) Calling)
  | Handle (HWakeup :: hs) => Some (set_at (handleRead w) (Handle hs))
  | Handle (HAct a :: hs) => Some (set_at (exec w a) (Handle hs))
  | Calling => Some (swap w)
  | Run [] [] => Some (set_at (set_calling w false) Top)
  | Run [] (f :: fs) => Some (start_functor w f fs)
  | Run (a :: calls) fs => Some (set_at (exec w a) (Run calls fs))
  end.

(** The start of [loop()]. *)
Definition enter (w : t) : option t :=
  match at_ w with
  | Outside => if looping_ w then None else Some (set_at (set_quit (set_looping w true) false) Top)
  | _ => None
  end.

(** [poll] returns with the channels that are ready: the event descriptor's
    exactly when its counter is not zero, others with the calls their handlers
    make; or after [kPollTimeMs] with none. *)
Definition kPollTimeMs : Z := 10000.
Definition poll (w : t) (timeout : bool) (before after : list (act F)) : option t :=
  match at_ w with
  | Poll =>
      if timeout || (0 <? counter w) || negb (bool_decide (length (before ++ after) = 0%nat)) then
        Some (set_at w (Handle (map HAct before ++ (if 0 <? counter w then [HWakeup] else []) ++
                                map HAct after)))
      else None
  | _ => None
  end.

Inductive event :=
  | Enter
  | PollReturn (timeout : bool) (before after : list (act F))
  | Advance
  (* the owner thread, outside loop() *)
  | Owner (a : act F)
  (* other threads *)
  | ForeignQueue (f : F)
  | ForeignQuit
  | ForeignWakeup.

Definition step (w : t) (e : event) : option t :=
  match e with
  | Enter => enter w
  | PollReturn timeout before after => poll w timeout before after
  | Advance => advance w
  | Owner a =>
      match at_ w with
      | Outside => Some (set_early (exec w a) (early w + match a with Queue _ => 1 | Quit => 0 end))
      | _ => None
      end
  | ForeignQueue f => Some (set_inflight (push w f) (S (inflight w)))
  | ForeignQuit => Some (set_inflight (set_quit w true) (S (inflight w)))
  | ForeignWakeup =>
      match inflight w with
      | O => None
      | S n => Some (set_inflight (wakeup w) n)
      end
  end.

Fixpoint steps (w : t) (es : list event) : option t :=
  match es with
  | [] => Some w
  | e :: es => match step w e with Some w' => steps w' es | None => None end
  end.

Definition reachable (w : t) : Prop := exists es, steps init es = Some w.

(** A call of another thread, uninterrupted, is its two steps. *)
Lemma foreign_queue_is_two_steps w f :
  steps w [ForeignQueue f; ForeignWakeup] = Some (queueInLoop w false f).
Proof. destruct w. simpl. unfold queueInLoop, wakeup. simpl. by case_match. Qed.

Lemma foreign_quit_is_two_steps w :
  steps w [ForeignQuit; ForeignWakeup] = Some (quit w false).
Proof. destruct w. simpl. unfold quit, wakeup. simpl. by case_match. Qed.

(** ** The invariant *)

(** The functors of the batch that runs. *)
Definition batch (p : pc F) : list F := match p with Run _ fs => fs | _ => [] end.
Definition calling (p : pc F) : bool := match p with Calling | Run _ _ => true | _ => false end.
(** After the swap and until the next handlers, a new functor must be signalled. *)
Definition signals (p : pc F) : bool := match p with Handle _ | Calling => false | _ => true end.
Definition signalled (w : t) : Prop := 0 < counter w \/ (0 < inflight w)%nat.

Record Inv (w : t) : Prop := {
  inv_fifo : submitted w = executed w ++ batch (at_ w) ++ pendingFunctors_ w;
  inv_calling : callingPendingFunctors_ w = calling (at_ w);
  inv_looping : looping_ w = match at_ w with Outside => false | _ => true end;
  inv_counter : 0 <= counter w <= max_counter;
  inv_pending : signals (at_ w) = true -> (early w < length (pendingFunctors_ w))%nat -> signalled w;
  inv_early : (early w <= length (pendingFunctors_ w))%nat;
  inv_quit : at_ w = Poll -> quit_ w = true -> signalled w
}.

Lemma wakeup_counter w :
  0 <= counter w <= max_counter -> 0 < counter (wakeup w) <= max_counter.
Proof. unfold wakeup, max_counter. intros. case_match; simpl; lia. Qed.

Lemma wakeup_rest w : exists n, wakeup w = set_counter w n.
Proof. unfold wakeup. case_match; [eauto|]. exists (counter w). by destruct w. Qed.

Lemma inv_push w f :
  Inv w -> (signals (at_ w) = true -> signalled w) -> Inv (push w f).
Proof.
  intros [H1 H2 H3 H4 H5 H5' H6] Hs. split; simpl; try done.
  - by rewrite H1, !app_assoc.
  - intros. by apply Hs.
  - rewrite length_app. simpl. lia.
Qed.

Lemma inv_wakeup w : Inv w -> Inv (wakeup w) /\ 0 < counter (wakeup w).
Proof.
  intros [H1 H2 H3 H4 H5 H5' H6]. pose proof (wakeup_counter w H4) as Hc.
  destruct (wakeup_rest w) as [n Hn]. rewrite Hn in *. simpl in Hc.
  split; [|simpl; lia]. split; simpl; try done; [lia|..]; intros; left; simpl; lia.
Qed.

(** A call on the loop thread, whatever comes next. *)
Lemma inv_exec w a :
  Inv w -> (signals (at_ w) = true -> callingPendingFunctors_ w = true) -> at_ w <> Poll ->
  Inv (exec w a).
Proof.
  intros HI Hc Hp. destruct a as [f|]; simpl.
  - unfold queueInLoop. simpl. destruct (callingPendingFunctors_ w) eqn:Hcall.
    + pose proof HI as [H1 H2 H3 H4 H5 H5' H6].
      assert (H4' := wakeup_counter w H4).
      assert (Hw : wakeup (push w f) = push (wakeup w) f) 
        by (unfold wakeup; change (counter (push w f)) with (counter w);
            by destruct (counter w <? max_counter)).
      rewrite Hw. apply inv_push; [by apply inv_wakeup|]. intros _. left. lia.
    + apply inv_push; [done|]. intros Hs. specialize (Hc Hs). congruence.
  - unfold quit. simpl. destruct HI as [H1 H2 H3 H4 H5 H5' H6]. by split.
Qed.

Lemma at_exec w a : at_ (exec w a) = at_ w /\ callingPendingFunctors_ (exec w a) = callingPendingFunctors_ w.
Proof.
  destruct a; simpl; [|done]. unfold queueInLoop. case_match; [|done].
  by destruct (wakeup_rest (push w f)) as [n ->].
Qed.

(** Moving on without a change of the batch. *)
Lemma inv_move w p :
  Inv w -> batch p = batch (at_ w) -> calling p = calling (at_ w) ->
  (match p with Outside => False | _ => True end) -> at_ w <> Outside -> p <> Poll ->
  (signals p = true -> signals (at_ w) = true) -> Inv (set_at w p).
Proof.
  intros [H1 H2 H3 H4 H5 H5' H6] Hb Hc Hp Ho Hn Hs. split; simpl; try done.
  - by rewrite Hb.
  - by rewrite Hc.
  - rewrite H3. destruct p, (at_ w); done.
  - auto.
Qed.

Lemma advance_inv w w' : Inv w -> advance w = Some w' -> Inv w'.
Proof.
  intros HI E. pose proof HI as [H1 H2 H3 H4 H5 H5' H6]. unfold advance in E.
  destruct (at_ w) as [| | |hs| |calls fs] eqn:Hat; try done.
  - destruct (quit_ w) eqn:Hq; injection E as <-; split; simpl; try done; try congruence.
  - destruct hs as [|[|a] hs]; injection E as <-.
    + split; simpl; try done; by rewrite H3.
    + split; simpl; unfold max_counter; try done; try lia; by rewrite H3.
    + destruct (at_exec w a) as [Ha Hc]. apply inv_move; rewrite ?Ha, ?Hat; try done.
      apply inv_exec; [done|by rewrite Hat|by rewrite Hat].
  - injection E as <-. split; simpl; try done; [by rewrite app_nil_r|lia].
  - destruct calls as [|a calls]; [destruct fs as [|f fs]|]; injection E as <-.
    + split; simpl; try done; auto.
    + split; simpl; try done; auto. by rewrite H1, <- !app_assoc.
    + destruct (at_exec w a) as [Ha Hc]. apply inv_move; rewrite ?Ha, ?Hat; try done.
      apply inv_exec; [done| |by rewrite Hat]. by rewrite H2, Hat.
Qed.

Lemma loop_step_inv w e w' : Inv w -> step w e = Some w' -> Inv w'.
Proof.
  intros HI E. destruct e as [|tm b a| |a|f| |]; simpl in E.
  - unfold enter in E. destruct (at_ w) eqn:Hat; try done. destruct (looping_ w); [done|].
    injection E as <-. destruct HI as [H1 H2 H3 H4 H5 H5' H6]. rewrite Hat in *. by split.
  - unfold poll in E. destruct (at_ w) eqn:Hat; try done. case_match; [|done].
    injection E as <-. apply inv_move; rewrite ?Hat; done.
  - by apply (advance_inv w).
  - destruct (at_ w) eqn:Hat; try done. injection E as <-.
    pose proof HI as [H1 H2 H3 H4 H5 H5' H6]. rewrite Hat in *. simpl in H2.
    destruct a as [f|]; simpl.
    + unfold queueInLoop. simpl. rewrite H2. simpl.
      split; simpl; rewrite ?Hat, ?length_app; simpl; try done; [by rewrite H1, <- app_assoc| |lia].
      intros _ Hlt. apply H5; [done|lia].
    + unfold quit; simpl. rewrite Nat.add_0_r. split; simpl; rewrite ?Hat; done.
  - injection E as <-. destruct HI as [H1 H2 H3 H4 H5 H5' H6]. split; simpl; try done.
    + by rewrite H1, !app_assoc.
    + intros. right. simpl. lia.
    + rewrite length_app. simpl. lia.
    + intros. right. simpl. lia.
  - injection E as <-. destruct HI as [H1 H2 H3 H4 H5 H5' H6].
    split; simpl; try done; intros; right; simpl; lia.
  - destruct (inflight w) as [|n]; [done|]. injection E as <-.
    destruct (inv_wakeup w HI) as [[H1 H2 H3 H4 H5 H5' H6] Hc].
    split; simpl; try done; intros; by left.
Qed.

Lemma steps_inv es : forall w w', Inv w -> steps w es = Some w' -> Inv w'.
Proof.
  induction es as [|e es IH]; intros w w' HI E; simpl in E; [by injection E as <-|].
  destruct (step w e) as [w1|] eqn:E1; [|done]. eapply IH; [|done]. by eapply loop_step_inv.
Qed.

Lemma loop_init_inv : Inv init.
Proof. split; simpl; try done; unfold max_counter; lia. Qed.

Lemma loop_reachable_inv w : reachable w -> Inv w.
Proof. intros [es E]. by eapply steps_inv; [apply loop_init_inv|]. Qed.

(** ** What the loop guarantees *)

(** C12. Functors are run in the order they were queued, by whatever threads,
    each once: those run so far, then the rest of the batch being run, then
    [pendingFunctors_] are the queued ones. *)
Theorem functors_fifo w :
  reachable w -> submitted w = executed w ++ batch (at_ w) ++ pendingFunctors_ w.
Proof. intros HI%loop_reachable_inv. apply HI. Qed.

(** C14. No wakeup is lost: when the loop is in [poll] and [quit_] is set, or a
    functor is pending that was queued by another thread or from inside the loop, the
    event descriptor is readable, or the thread that did it has still to write to
    it.  The functors excepted are those that the owner queued before it called
    [loop()]: nothing signals them, and they wait until [poll] returns for another
    reason or after [kPollTimeMs]; but its return always lets them run, as the batch
    that follows takes everything that is pending. *)
Theorem no_lost_wakeup w :
  reachable w -> at_ w = Poll ->
  ((early w < length (pendingFunctors_ w))%nat \/ quit_ w = true ->
     0 < counter w \/ (0 < inflight w)%nat) /\
  (early w <= length (pendingFunctors_ w))%nat /\
  forall w', poll w true [] [] = Some w' -> exists n w2,
    steps w' (repeat Advance n) = Some w2 /\ at_ w2 = Run [] (pendingFunctors_ w).
Proof.
  intros HI%loop_reachable_inv Hat. split; [|split].
  - intros [Hp|Hq]; [apply (inv_pending w HI); [by rewrite Hat|done]|by apply (inv_quit w HI)].
  - apply HI.
  - intros w' E. unfold poll in E. rewrite Hat in E. simpl in E. injection E as <-.
    destruct (0 <? counter w); simpl; [exists 3%nat|exists 2%nat]; by eexists.
Qed.

(** A functor the owner has queued before [loop()] is not signalled. *)
Lemma early_functor_waits f :
  exists w, steps init [Owner (Queue f); Enter; Advance] = Some w /\ at_ w = Poll /\
    pendingFunctors_ w = [f] /\ counter w = 0 /\ inflight w = 0%nat.
Proof. by eexists. Qed.

Fixpoint advances (n : nat) (w : t) : option t :=
  match n with
  | O => Some w
  | S n => match advance w with Some w' => advances n w' | None => None end
  end.

Lemma advances_trans n1 n2 w w1 w2 :
  advances n1 w = Some w1 -> advances n2 w1 = Some w2 -> advances (n1 + n2) w = Some w2.
Proof.
  revert w. induction n1 as [|n1 IH]; intros w E1 E2; simpl in *; [by injection E1 as ->|].
  destruct (advance w); [|done]. by apply IH.
Qed.

Lemma quit_exec w a : quit_ w = true -> quit_ (exec w a) = true.
Proof.
  intros Hq. destruct a; simpl; [|done]. unfold queueInLoop. case_match; [|done].
  by destruct (wakeup_rest (push w f)) as [n ->].
Qed.

Lemma executed_exec w a : executed (exec w a) = executed w.
Proof.
  destruct a; simpl; [|done]. unfold queueInLoop. case_match; [|done].
  by destruct (wakeup_rest (push w f)) as [n ->].
Qed.

(** The [for] of [doPendingFunctors] ends, whatever the functors call. *)
Lemma run_batch fs : forall calls w, at_ w = Run calls fs ->
  exists n w', advances n w = Some w' /\ at_ w' = Top /\ executed w' = executed w ++ fs /\
    (quit_ w = true -> quit_ w' = true).
Proof.
  induction fs as [|f fs IHf]; intros calls; induction calls as [|a calls IHc]; intros w Hat.
  1: exists 1%nat; eexists; simpl; unfold advance; rewrite Hat; split; [reflexivity|];
     by rewrite app_nil_r.
  2: destruct (IHf (acts f) (start_functor w f fs) eq_refl) as (n & w' & E & Ht & He & Hq);
     exists (S n), w'; simpl; unfold advance; rewrite Hat; split; [exact E|];
     rewrite He; simpl; by rewrite <- app_assoc.
  all: destruct (IHc (set_at (exec w a) (Run calls _)) eq_refl) as (n & w' & E & Ht & He & Hq);
    exists (S n), w'; simpl; unfold advance; rewrite Hat; split; [exact E|]; split; [done|];
    rewrite He; cbn [executed set_at]; rewrite executed_exec; split; [done|];
    intros H; by apply Hq, quit_exec.
Qed.

(** C28. When the event descriptor is readable, [poll] returns and the loop
    thread alone, in finitely many steps, runs every functor that was pending and
    comes back to the test of its [while]; functors queued meanwhile are left to
    the next iteration, and a [quit] set meanwhile is seen. *)
Theorem iteration_runs_pending w :
  reachable w -> at_ w = Poll -> 0 < counter w ->
  exists w1 n w', poll w false [] [] = Some w1 /\ advances n w1 = Some w' /\ at_ w' = Top /\
    executed w' = executed w ++ pendingFunctors_ w /\ callingPendingFunctors_ w' = false /\
    (quit_ w = true -> exists w2, advance w' = Some w2 /\ at_ w2 = Outside).
Proof.
  intros HI%loop_reachable_inv Hat Hc. unfold poll. rewrite Hat.
  replace (0 <? counter w) with true by lia. simpl.
  set (w1 := set_at w (Handle [HWakeup])).
  set (w4 := swap (set_at (set_calling (set_at (handleRead w1) (Handle [])) true) Calling)).
  assert (E3 : advances 3 w1 = Some w4) by done.
  destruct (run_batch (pendingFunctors_ w) [] w4 eq_refl) as (n & w' & E & Ht & He & Hq).
  assert (HI' : Inv w').
  { assert (HI1 : Inv w1) by (apply inv_move; rewrite ?Hat; done).
    assert (Hall : forall k v v', Inv v -> advances k v = Some v' -> Inv v').
    { induction k as [|k IH]; intros v v' Hv Ev; simpl in Ev; [by injection Ev as <-|].
      destruct (advance v) eqn:E1; [|done]. eapply IH; [|exact Ev]. by eapply advance_inv. }
    apply (Hall _ w1 w' HI1 (advances_trans 3 n _ _ _ E3 E)). }
  exists w1, (3 + n)%nat, w'. split; [done|]. split; [by eapply advances_trans|].
  split_and!; try done.
  - by rewrite (inv_calling w' HI'), Ht.
  - intros Hw. specialize (Hq Hw). unfold advance. rewrite Ht, Hq. by eexists.
Qed.

(** ** A quit before the loop *)

Definition quits (a : act F) : bool := match a with Quit => true | Queue _ => false end.
Definition quiet (e : event) : bool :=
  match e with
  | ForeignQuit | Owner _ | Enter => false
  | PollReturn _ before after => negb (existsb quits (before ++ after))
  | _ => true
  end.

(** The loop runs, and nothing it has to do quits it. *)
Definition endless (w : t) : Prop :=
  quit_ w = false /\
  match at_ w with
  | Outside => False
  | Handle hs => forall a, HAct a ∈ hs -> quits a = false
  | Run calls _ => forall a, a ∈ calls -> quits a = false
  | _ => True
  end.

Lemma endless_step w e w' :
  (forall f a, a ∈ acts f -> quits a = false) ->
  endless w -> quiet e = true -> step w e = Some w' -> endless w'.
Proof.
  intros Hf [Hq Hat] He E. destruct e as [|tm b a| |a|f| |]; try done; simpl in E.
  - unfold poll in E. destruct (at_ w); try done. case_match; [|done]. injection E as <-.
    split; [done|]. simpl. intros x Hx. simpl in He. apply negb_true_iff in He.
    destruct (quits x) eqn:Hx'; [|done]. exfalso.
    assert (Hin : x ∈ b ++ a).
    { rewrite !elem_of_app, !list_elem_of_fmap in Hx.
      destruct Hx as [(y & [= <-] & ?)|[Hm|(y & [= <-] & ?)]]; [set_solver| |set_solver].
      case_match; set_solver. }
    assert (existsb quits (b ++ a) = true); [|congruence].
    apply existsb_exists. exists x. split; [by apply list_elem_of_In|done].
  - assert (Hexec : forall a, quits a = false -> quit_ (exec w a) = false).
    { intros [g|] Hx; [|done]. simpl. unfold queueInLoop.
      destruct (negb true || callingPendingFunctors_ (push w g)); [|exact Hq].
      destruct (wakeup_rest (push w g)) as [n ->]. exact Hq. }
    unfold advance in E. destruct (at_ w) as [| | |[|[|a] hs]| |[|a calls] [|f fs]] eqn:Hw;
      rewrite ?Hq in E; try done; injection E as <-; split; simpl; try done; try set_solver;
      try (apply Hexec, Hat; set_solver).
    all: eauto.
  - by injection E as <-.
  - destruct (inflight w); [done|]. injection E as <-.
    unfold endless. destruct (wakeup_rest w) as [m ->]. by split.
Qed.

(** [quit()] called before [loop()] has started is lost: [loop()] resets
    [quit_], and the loop then never returns, whatever is queued, unless it is
    told to quit again.  [~EventLoopThread], which calls [quit()] once and joins
    the thread, can so wait for ever. *)
Theorem early_quit_lost w w1 es w' :
  (forall f a, a ∈ acts f -> quits a = false) ->
  at_ w = Outside -> step (quit w false) Enter = Some w1 -> forallb quiet es = true ->
  steps w1 es = Some w' -> at_ w' <> Outside.
Proof.
  intros Hf Hat E He Es.
  assert (H1 : endless w1).
  { simpl in E. unfold enter in E. destruct (at_ (quit w false)); try done.
    case_match; [done|]. injection E as <-. by split. }
  assert (H2 : endless w').
  { clear E. revert w1 H1 Es He. induction es as [|e es IH]; intros w1 H1 Es He; simpl in *.
    - by injection Es as <-.
    - destruct (step w1 e) as [w2|] eqn:E2; [|done]. apply andb_true_iff in He as [He1 He2].
      apply (IH w2); try done. by apply (endless_step w1 e). }
  destruct H2 as [_ H2]. by destruct (at_ w').
Qed.

End loop.
(** ** A run: functor 1 queues functor 2, another thread queues both and quits *)

Definition demo_acts (f : nat) : list (act nat) := if bool_decide (f = 1%nat) then [Queue 2%nat] else [].

Definition demo_events : list (event (F := nat)) :=
  [Enter; Advance; ForeignQueue 1%nat; ForeignWakeup; ForeignQueue 3%nat; ForeignQuit].

Definition demo_poll : t (F := nat) := default init (steps demo_acts init demo_events).

Lemma demo_poll_reachable : reachable demo_acts demo_poll.
Proof. exists demo_events. by vm_compute. Qed.

Lemma functors_fifo_witness :
  submitted demo_poll = executed demo_poll ++ batch (at_ demo_poll) ++ [1%nat; 3%nat].
Proof. exact (functors_fifo demo_acts demo_poll demo_poll_reachable). Defined.

Lemma no_lost_wakeup_witness : 0 < counter demo_poll \/ (0 < inflight demo_poll)%nat.
Proof.
  apply (no_lost_wakeup demo_acts demo_poll demo_poll_reachable); [by vm_compute|].
  left. vm_compute. lia.
Defined.

Lemma iteration_runs_pending_witness :
  exists n w', advances demo_acts n (set_at demo_poll (Handle [HWakeup])) = Some w' /\
    executed w' = [1%nat; 3%nat] /\ pendingFunctors_ demo_poll = [1%nat; 3%nat].
Proof.
  destruct (iteration_runs_pending demo_acts demo_poll demo_poll_reachable) as
    (w1 & n & w' & E1 & E & _ & He & _); [by vm_compute|by vm_compute|].
  exists n, w'. vm_compute in E1. injection E1 as <-. split; [exact E|].
  split; [rewrite He|]; by vm_compute.
Defined.

Lemma early_quit_lost_witness :
  exists w1 w', step demo_acts (quit init false) Enter = Some w1 /\
    steps demo_acts w1 [Advance; PollReturn false [] []; Advance; Advance; Advance; Advance] = Some w' /\
    at_ w' <> Outside.
Proof.
  destruct (step demo_acts (quit init false) Enter) as [w1|] eqn:E1; [|by vm_compute in E1].
  destruct (steps demo_acts w1 [Advance; PollReturn false [] []; Advance; Advance; Advance; Advance])
    as [w'|] eqn:E2; [|vm_compute in E1; injection E1 as <-; by vm_compute in E2].
  exists w1, w'. split; [reflexivity|]. split; [exact E2|].
  eapply (early_quit_lost demo_acts init w1 _ w'); [|reflexivity|exact E1| |exact E2].
  - intros f a. unfold demo_acts. case_bool_decide; set_solver.
  - reflexivity.
Defined.

End EventLoop.
