(* ===== verification/Reactor.v ===== *)
(** * Reactor: one iteration of the loop over its channels
      ([EventLoop.cpp], [Channel.cpp], [EPoller.cpp], together)

    [EventLoop::loop] holds raw pointers to the active channels while callbacks run
    that may change, unregister and create channels and queue functors.  This file
    puts the poller, the channels and the queue together, with [handleEvent] test
    by test: each test reads the channel's object again, so an object that is gone
    is the fault [UseAfterFree].  What a callback or a functor does is any sequence
    of [User] actions, chosen step by step. *)

From S2P Require Import Prelude Channel EPoller.

Module Reactor.

Section reactor.
Context `{Kern : EPoller.Kernel} {F : Type}.

(** What the owners of channels do on the loop thread. *)
Inductive action :=
  (* a new channel with its callbacks set *)
  | New (p fd : Z) (read write error close : bool)
  (* [enableReading] and its kin, through [EventLoop::updateChannel] *)
  | Update (i : Channel.interest) (p : Z)
  | Remove (p : Z)
  | Destroy (p : Z)
  | Queue (f : F).

(** Where the loop thread is: before [loop()]; in [poll]; before the next active channel; in [handleEvent]
    of [p], before one of its tests or in a callback; before the next functor or in
    one. *)
Inductive pc :=
  | Outside
  | Polling
  | Dispatch (rest : list Z)
  | Stage (p : Z) (tests : list Channel.callback) (rest : list Z)
  | Callback (p : Z) (cb : Channel.callback) (tests : list Channel.callback) (rest : list Z)
  | Functors (fs : list F)
  | Functor (f : F) (fs : list F).

Record t := mk {
  poller_ : EPoller.t;
  pendingFunctors_ : list F;
  at_ : pc;
  (* the callbacks called so far *)
  log : list (Z * Channel.callback)
}.

Definition init (k : EPoller.K) : t := mk (EPoller.init k) [] Outside [].

Definition set_poller (w : t) (e : EPoller.t) : t := mk e (pendingFunctors_ w) (at_ w) (log w).
Definition set_at (w : t) (c : pc) : t := mk (poller_ w) (pendingFunctors_ w) c (log w).

(** The object behind a pointer the loop holds. *)
Definition access (w : t) (p : Z) : res Channel.t :=
  match EPoller.store (poller_ w) !! p with Some c => Ok c | None => Err UseAfterFree end.

(** The tests of [handleEvent], in order. *)
Definition tests_ : list Channel.callback :=
  [Channel.CbClose; Channel.CbError; Channel.CbRead; Channel.CbWrite].
Definition calls (c : Channel.t) (cb : Channel.callback) : bool :=
  let r := Channel.revents_ c in
  match cb with
  | Channel.CbClose => Channel.has r Channel.POLLHUP && negb (Channel.has r Channel.POLLIN) && Channel.closeCallback_ c
  | Channel.CbError => Channel.has r (Z.lor Channel.POLLERR Channel.POLLNVAL) && Channel.errorCallback_ c
  | Channel.CbRead =>
      Channel.has r (Z.lor (Z.lor Channel.POLLIN Channel.POLLPRI) Channel.POLLRDHUP) && Channel.readCallback_ c
  | Channel.CbWrite => Channel.has r Channel.POLLOUT && Channel.writeCallback_ c
  end.

Definition set_handling (w : t) (p : Z) (c : Channel.t) (b : bool) : t :=
  set_poller w (EPoller.set_channel (poller_ w) p (Channel.set_handling c (Some b))).

(** The next step of the loop itself: [loop], [handleEvent], [doPendingFunctors]. *)
Definition advance (w : t) : option (res t) :=
  match at_ w with
  | Outside => Some (Ok (set_at w Polling))
  | Dispatch [] => Some (Ok (mk (poller_ w) [] (Functors (pendingFunctors_ w)) (log w)))
  | Dispatch (p :: rest) => Some (
      c ← access w p ;
      Ok (set_at (set_handling w p c true) (Stage p tests_ rest)))
  | Stage p [] rest => Some (
      c ← access w p ;
      Ok (set_at (set_handling w p c false) (Dispatch rest)))
  | Stage p (cb :: tests) rest => Some (
      c ← access w p ;
      Ok (if calls c cb
          then mk (poller_ w) (pendingFunctors_ w) (Callback p cb tests rest) (log w ++ [(p, cb)])
          else set_at w (Stage p tests rest)))
  | Functors [] => Some (Ok (set_at w Polling))
  | Functors (f :: fs) => Some (Ok (set_at w (Functor f fs)))
  | _ => None
  end.

(** An action; the fault of a pointer its owner does not have is [NullDeref]. *)
Definition exec (w : t) (a : action) : res t :=
  match a with
  | New p fd read write error close =>
      Ok (set_poller w (EPoller.set_channel (poller_ w) p
            (Channel.set_callbacks (Channel.new fd) read write error close)))
  | Update i p => e ← EPoller.change (poller_ w) i p ; Ok (set_poller w e)
  | Remove p => e ← EPoller.removeChannel (poller_ w) p ; Ok (set_poller w e)
  | Destroy p =>
      c ← EPoller.channel (poller_ w) p ;
      Channel.destroy c ;;
      let e := poller_ w in
      Ok (set_poller w (EPoller.mk (delete p (EPoller.store e)) (EPoller.kernel e)
            (EPoller.eventsSize e) (EPoller.channels_ e) (EPoller.ctlErrors e)))
  | Queue f => Ok (mk (poller_ w) (pendingFunctors_ w ++ [f]) (at_ w) (log w))
  end.

Inductive event :=
  | Poll (answer : option (list (Z * Z)))
  | Advance
  | User (a : action)
  (* the callback or the functor returns *)
  | Return.

Definition user_code (c : pc) : bool :=
  match c with Outside | Callback _ _ _ _ | Functor _ _ => true | _ => false end.

Definition step (w : t) (e : event) : option (res t) :=
  match e, at_ w with
  | Poll answer, Polling => Some (
      r ← EPoller.poll (poller_ w) answer ;
      Ok (set_at (set_poller w (snd r)) (Dispatch (fst r))))
  | Advance, _ => advance w
  | User a, c => if user_code c then Some (exec w a) else None
  | Return, Callback p cb tests rest => Some (Ok (set_at w (Stage p tests rest)))
  | Return, Functor f fs => Some (Ok (set_at w (Functors fs)))
  | _, _ => None
  end.

(** The calls the owners make: those the poller allows; and a channel is destroyed
    in a functor or outside the loop, once it is unregistered and after it handled an
    event, as the connector and the connections do. *)
Definition allowed (w : t) (e : event) : Prop :=
  match e with
  | Poll answer => EPoller.allowed (poller_ w) (EPoller.OPoll answer)
  | User (New p fd _ _ _ _) => EPoller.store (poller_ w) !! p = None
  | User (Update i p) => EPoller.allowed (poller_ w) (EPoller.OChange i p)
  | User (Remove p) => EPoller.allowed (poller_ w) (EPoller.ORemove p)
  | User (Destroy p) =>
      match at_ w with Outside | Functor _ _ => True | _ => False end /\
      exists c, EPoller.store (poller_ w) !! p = Some c /\ Channel.index_ c = EPoller.kNew /\
        Channel.eventHandling c = Some false
  | _ => True
  end.

Inductive reachable : t -> Prop :=
  | reach_init k : EPoller.watched k = ∅ -> reachable (init k)
  | reach_step w e w' : reachable w -> allowed w e -> step w e = Some (Ok w') -> reachable w'.

(** ** What the loop holds, and what it will still call *)

Definition channel_at (w : t) (p : Z) : option Channel.t := EPoller.store (poller_ w) !! p.

Definition held (w : t) : list Z :=
  match at_ w with
  | Dispatch rest => rest
  | Stage p _ rest | Callback p _ _ rest => p :: rest
  | _ => []
  end.

Definition calls_of (w : t) (tests : list Channel.callback) (p : Z) : list (Z * Channel.callback) :=
  match channel_at w p with
  | Some c => pair p <$> filter (fun cb => calls c cb = true) tests
  | None => []
  end.

Definition planned (w : t) : list (Z * Channel.callback) :=
  match at_ w with
  | Dispatch rest => rest ≫= calls_of w tests_
  | Stage p tests rest | Callback p _ tests rest => calls_of w tests p ++ (rest ≫= calls_of w tests_)
  | _ => []
  end.

Record Inv (w : t) : Prop := {
  inv_poller : EPoller.Inv (poller_ w);
  inv_held : Forall (fun p => is_Some (channel_at w p)) (held w)
}.

(** Two states of a channel that answer to events alike. *)
Definition alike (c c' : Channel.t) : Prop := forall cb, calls c' cb = calls c cb.
Definition keeps (w w' : t) : Prop :=
  forall p c, channel_at w p = Some c -> exists c', channel_at w' p = Some c' /\ alike c c'.

Lemma keeps_refl w w' : poller_ w' = poller_ w -> keeps w w'.
Proof. intros E p c H. exists c. unfold channel_at. by rewrite E. Qed.

Lemma keeps_insert w w' p cn :
  EPoller.store (poller_ w') = <[p := cn]> (EPoller.store (poller_ w)) ->
  (forall c, channel_at w p = Some c -> alike c cn) -> keeps w w'.
Proof.
  intros E H q d Hd. unfold channel_at. rewrite E. destruct (decide (p = q)) as [->|Hne].
  - exists cn. rewrite lookup_insert_eq. auto.
  - exists d. rewrite lookup_insert_ne by done. by split.
Qed.

Lemma alike_filter c c' (tests : list Channel.callback) :
  alike c c' -> filter (fun cb => calls c' cb = true) tests = filter (fun cb => calls c cb = true) tests.
Proof. intros H. apply list_filter_iff. intros cb. by rewrite H. Qed.

Lemma keeps_calls_of w w' tests p :
  keeps w w' -> is_Some (channel_at w p) -> calls_of w' tests p = calls_of w tests p.
Proof.
  intros Hk [c Hc]. destruct (Hk p c Hc) as (c' & Hc' & Ha). unfold calls_of. rewrite Hc, Hc'.
  by rewrite (alike_filter c c').
Qed.

Lemma keeps_rest w w' rest :
  keeps w w' -> Forall (fun p => is_Some (channel_at w p)) rest ->
  (rest ≫= calls_of w' tests_) = (rest ≫= calls_of w tests_).
Proof.
  intros Hk. induction 1 as [|p rest Hp _ IH]; [done|]. cbn. by rewrite IH, (keeps_calls_of w w').
Qed.

Lemma keeps_held w w' l :
  keeps w w' -> Forall (fun p => is_Some (channel_at w p)) l -> Forall (fun p => is_Some (channel_at w' p)) l.
Proof.
  intros Hk H. eapply Forall_impl; [exact H|]. intros p [c Hc]. destruct (Hk p c Hc) as (c' & -> & _). by eexists.
Qed.

Lemma access_held w p rest : Forall (fun p => is_Some (channel_at w p)) (p :: rest) ->
  exists c, access w p = Ok c /\ channel_at w p = Some c.
Proof. intros [[c Hc] _]%Forall_cons. exists c. unfold access, channel_at in *. by rewrite Hc. Qed.

(** The channel at [p] replaced by one that is registered alike and answers alike. *)
Lemma inv_replace_channel w p c cn pc' :
  Inv w -> channel_at w p = Some c -> alike c cn ->
  Channel.fd_ cn = Channel.fd_ c -> Channel.index_ cn = Channel.index_ c ->
  Channel.events_ cn = Channel.events_ c ->
  Forall (fun p => is_Some (channel_at w p)) (held (set_at w pc')) ->
  let w' := set_at (set_poller w (EPoller.set_channel (poller_ w) p cn)) pc' in
  Inv w' /\ keeps w w'.
Proof.
  intros HI Hc Ha Ef Ei Ee Hh w'.
  assert (Hk : keeps w w') by (apply (keeps_insert w w' p cn); [done|intros d Hd; congruence]).
  split; [|exact Hk]. split; [by apply (EPoller.inv_same _ p c); [apply HI|..]|].
  by apply (keeps_held w w').
Qed.

(** ** Actions *)

Definition destroys (a : action) : bool := match a with Destroy _ => true | _ => false end.

Lemma exec_ok w a :
  Inv w -> allowed w (User a) ->
  exists w', exec w a = Ok w' /\ EPoller.Inv (poller_ w') /\ at_ w' = at_ w /\ log w' = log w /\
    (destroys a = false -> keeps w w').
Proof.
  intros [HP HH] Ha. destruct a as [p fd rd wr er cl|i p|p|p|f]; cbn [exec allowed destroys] in *.
  - eexists. split; [reflexivity|]. split_and!; try done.
    + set (cn := Channel.set_callbacks _ _ _ _ _). cbn [poller_ set_poller].
      pose proof (EPoller.create_inv _ p fd HP Ha) as HC.
      replace (EPoller.set_channel (poller_ w) p cn) with (EPoller.set_channel (EPoller.create (poller_ w) p fd) p cn)
        by (unfold EPoller.create, EPoller.set_channel; cbn; by rewrite insert_insert_eq).
      apply (EPoller.inv_same _ p (Channel.new fd)); [exact HC|cbn; apply lookup_insert_eq|done..].
    + intros _. eapply (keeps_insert w _ p _); [done|]. unfold channel_at. congruence.
  - destruct Ha as (c & Hc & Hn). unfold EPoller.change, EPoller.channel. rewrite Hc, bind_ret_l.
    destruct (EPoller.update_ok _ p c (Channel.change i c) HP Hc) as (e & -> & HE & Hs); try done.
    { apply Channel.change_wf, (EPoller.inv_events _ HP p c Hc). }
    eexists. split; [reflexivity|]. split_and!; try done. intros _.
    eapply (keeps_insert w _ p _); [exact Hs|]. intros d Hd. unfold channel_at in Hd.
    assert (d = c) as -> by congruence. by destruct i.
  - destruct Ha as (c & Hc & Hi & Hn).
    destruct (EPoller.remove_ok _ p c HP Hc) as (e & -> & HE & Hs & _); [by apply (EPoller.inv_mapped _ HP p c Hc)|done|].
    eexists. split; [reflexivity|]. split_and!; try done. intros _.
    eapply (keeps_insert w _ p _); [exact Hs|]. intros d Hd. unfold channel_at in Hd.
    by assert (d = c) as -> by congruence.
  - destruct Ha as (_ & c & Hc & Hi & Hh). unfold EPoller.channel, Channel.destroy.
    rewrite Hc, bind_ret_l, Hh. eexists. split; [reflexivity|]. split_and!; try done.
    by apply (EPoller.inv_delete _ p c).
  - eexists. split; [reflexivity|]. split_and!; try done. intros _. by apply keeps_refl.
Qed.

(** ** Steps *)

Lemma calls_of_cons w p c cb tests :
  channel_at w p = Some c ->
  calls_of w (cb :: tests) p = (if calls c cb then [(p, cb)] else []) ++ calls_of w tests p.
Proof.
  intros Hc. unfold calls_of. rewrite Hc, filter_cons.
  destruct (calls c cb) eqn:E; [by rewrite decide_True|by rewrite decide_False by congruence].
Qed.

Lemma calls_of_same w w' tests p : poller_ w' = poller_ w -> calls_of w' tests p = calls_of w tests p.
Proof. intros E. unfold calls_of, channel_at. by rewrite E. Qed.

Lemma rest_same w w' (rest : list Z) :
  poller_ w' = poller_ w -> (rest ≫= calls_of w' tests_) = (rest ≫= calls_of w tests_).
Proof. intros E. apply list_bind_ext; [|done]. intros p. by apply calls_of_same. Qed.

Lemma inv_same_poller w w' :
  Inv w -> poller_ w' = poller_ w -> Forall (fun p => is_Some (channel_at w p)) (held w') -> Inv w'.
Proof.
  intros HI E Hh. split; [rewrite E; apply HI|].
  eapply Forall_impl; [exact Hh|]. intros p. unfold channel_at. by rewrite E.
Qed.

(** A step of [handleEvent] that only writes [eventHandling]. *)
Lemma handling_ok w p rest b pc' :
  Inv w -> held w = p :: rest -> held (set_at w pc') = p :: rest \/ held (set_at w pc') = rest ->
  exists c, access w p = Ok c /\
    let w' := set_at (set_handling w p c b) pc' in Inv w' /\ keeps w w'.
Proof.
  intros HI Hh Hh'. assert (HF := inv_held w HI). rewrite Hh in HF.
  destruct (access_held w p rest HF) as (c & E & Hc). exists c. split; [exact E|].
  apply (inv_replace_channel w p c (Channel.set_handling c (Some b)) pc'); try done.
  destruct Hh' as [->| ->]; [exact HF|by apply Forall_cons in HF as [_ ?]].
Qed.

Lemma advance_ok w r :
  Inv w -> advance w = Some r ->
  exists w', r = Ok w' /\ Inv w' /\ log w' ++ planned w' = log w ++ planned w.
Proof.
  intros HI E. unfold advance in E.
  destruct (at_ w) as [| |[|p rest]|p [|cb tests] rest|p cb tests rest|[|f fs]|f fs] eqn:Hat; simplify_eq;
    assert (HF := inv_held w HI); unfold held in HF; rewrite Hat in HF.
  - eexists. split; [reflexivity|]. split; [by apply (inv_same_poller w)|]. unfold planned. by rewrite Hat.
  - eexists. split; [reflexivity|]. split; [by apply (inv_same_poller w)|].
    unfold planned. by rewrite Hat.
  - destruct (handling_ok w p rest true (Stage p tests_ rest) HI) as (c & -> & HI' & Hk);
      [by unfold held; rewrite Hat|by left|].
    eexists. split; [reflexivity|]. split; [exact HI'|]. unfold planned. rewrite Hat. cbn [at_ set_at].
    apply Forall_cons in HF as [Hp HF]. f_equal. cbn [mbind list_bind].
    by rewrite (keeps_calls_of w), (keeps_rest w).
  - destruct (handling_ok w p rest false (Dispatch rest) HI) as (c & -> & HI' & Hk);
      [by unfold held; rewrite Hat|by right|].
    eexists. split; [reflexivity|]. split; [exact HI'|]. unfold planned. rewrite Hat. cbn [at_ set_at].
    apply Forall_cons in HF as [[d Hd] HF]. f_equal. rewrite (keeps_rest w) by done.
    unfold calls_of at 2. by rewrite Hd.
  - destruct (access_held w p rest HF) as (c & -> & Hc). rewrite bind_ret_l. eexists. split; [reflexivity|].
    unfold planned at 2. rewrite Hat, (calls_of_cons w p c cb) by done.
    destruct (calls c cb); (split; [by apply (inv_same_poller w)|]); unfold planned; cbn [at_ set_at log].
    + rewrite (calls_of_same w), (rest_same w) by done. by rewrite <- !app_assoc.
    + by rewrite (calls_of_same w), (rest_same w) by done.
  - eexists. split; [reflexivity|]. split; [by apply (inv_same_poller w)|]. unfold planned. by rewrite Hat.
  - eexists. split; [reflexivity|]. split; [by apply (inv_same_poller w)|]. unfold planned. by rewrite Hat.
Qed.

Lemma user_ok w a r :
  Inv w -> allowed w (User a) -> step w (User a) = Some r ->
  exists w', r = Ok w' /\ Inv w' /\ log w' ++ planned w' = log w ++ planned w.
Proof.
  intros HI Ha E. cbn [step] in E. destruct (user_code (at_ w)) eqn:Hu; [|done]. injection E as <-.
  destruct (exec_ok w a HI Ha) as (w' & -> & HP & Hat & Hlog & Hk). exists w'. split; [done|].
  assert (HF := inv_held w HI). unfold held in HF. unfold planned. rewrite Hat, Hlog.
  destruct (at_ w) as [| | | |p cb tests rest| |f fs] eqn:Ea; try done.
  - split; [|done]. split; [done|]. unfold held. by rewrite Hat.
  - assert (Hd : destroys a = false).
    { destruct a; try done. destruct Ha as [Hno _]. by rewrite Ea in Hno. }
    specialize (Hk Hd). split.
    + split; [done|]. unfold held. rewrite Hat. by apply (keeps_held w w').
    + apply Forall_cons in HF as [Hp HF]. by rewrite (keeps_calls_of w), (keeps_rest w).
  - split; [|done]. split; [done|]. unfold held. by rewrite Hat.
Qed.

Lemma reported_channel e events p :
  EPoller.Inv e -> EPoller.reported e events -> p ∈ snd <$> events -> is_Some (EPoller.store e !! p).
Proof.
  intros HI Hr ([r q] & -> & Hin)%list_elem_of_fmap. destruct (Hr r q Hin) as (fd & ev & Hw).
  apply (EPoller.inv_watched e HI) in Hw as (c & Hc & _). by exists c.
Qed.

Lemma poll_step_ok w answer r :
  Inv w -> allowed w (Poll answer) -> step w (Poll answer) = Some r ->
  exists w', r = Ok w' /\ Inv w' /\ log w' = log w /\
    match answer with
    | Some events => at_ w' = Dispatch (snd <$> events) /\
        (NoDup (snd <$> events) -> forall r p, (r, p) ∈ events ->
          exists c, channel_at w p = Some c /\ channel_at w' p = Some (Channel.set_revents c r))
    | None => at_ w' = Dispatch []
    end.
Proof.
  intros [HP _] Ha E. cbn [step] in E. destruct (at_ w); try done. injection E as <-.
  destruct answer as [[|e l]|]; cbn [EPoller.poll].
  - eexists. split; [reflexivity|]. split; [by split|]. split_and!; try done.
    by intros _ ? ? ?%not_elem_of_nil.
  - destruct Ha as [Hl Hrep]. set (events := e :: l) in *.
    rewrite assert_true by lia. rewrite bind_ret_l.
    destruct (EPoller.fill_ok events (poller_ w) HP Hrep) as (e' & -> & HE & Hk & Hc & Hs & Hst & Hrev).
    rewrite !bind_ret_l. cbn [fst snd]. eexists. split; [reflexivity|].
    assert (Hstore : forall b : bool, EPoller.store (if b then EPoller.mk (EPoller.store e') (EPoller.kernel e')
      (EPoller.eventsSize e' * 2) (EPoller.channels_ e') (EPoller.ctlErrors e') else e') = EPoller.store e')
      by (intros []; done).
    split_and!; try done.
    + split; [cbn; case_match; [by destruct HE; split|done]|]. cbn [held at_ set_at].
      apply Forall_forall. intros p Hp. unfold channel_at. cbn [poller_ set_at set_poller]. rewrite Hstore.
      apply (reported_channel e' events); [done| |done].
      intros r p' Hin. rewrite Hk. by apply (Hrep r p').
    + intros Hnd r p Hin. destruct (Hrev Hnd r p Hin) as (c & H1 & H2). exists c.
      unfold channel_at. cbn [poller_ set_at set_poller]. by rewrite Hstore.
  - eexists. split; [reflexivity|]. by split; [split|].
Qed.

Definition polls (e : event) : bool := match e with Poll _ => true | _ => false end.

Lemma reactor_step_ok w e r :
  Inv w -> allowed w e -> step w e = Some r ->
  exists w', r = Ok w' /\ Inv w' /\ (polls e = false -> log w' ++ planned w' = log w ++ planned w).
Proof.
  intros HI Ha E. destruct e as [answer| |a|].
  - destruct (poll_step_ok w answer r HI Ha E) as (w' & -> & HI' & _). by exists w'.
  - destruct (advance_ok w r HI E) as (w' & -> & HI' & Hp). by exists w'.
  - destruct (user_ok w a r HI Ha E) as (w' & -> & HI' & Hp). by exists w'.
  - assert (HF := inv_held w HI). unfold held in HF. cbn [step] in E.
    destruct (at_ w) eqn:Hat; simplify_eq; eexists; (split; [reflexivity|]);
      (split; [by apply (inv_same_poller w)|]); intros _; unfold planned; rewrite Hat; cbn [at_ set_at log].
    + by rewrite (calls_of_same w), (rest_same w).
    + done.
Qed.

Lemma reactor_reachable_inv w : reachable w -> Inv w.
Proof.
  induction 1 as [k Hk|w e w' _ HI Ha E]; [split; [by apply EPoller.epoller_init_inv|constructor]|].
  destruct (reactor_step_ok w e _ HI Ha E) as (w2 & E2 & HI2 & _). by simplify_eq.
Qed.

(** The steps of callbacks, functors and the loop that follow each other. *)
Inductive run : t -> list event -> t -> Prop :=
  | run_nil w : run w [] w
  | run_cons w e w1 es w2 :
      allowed w e -> step w e = Some (Ok w1) -> run w1 es w2 -> run w (e :: es) w2.

Lemma run_planned w es w' :
  run w es w' -> Inv w -> Forall (fun e => polls e = false) es ->
  log w' ++ planned w' = log w ++ planned w.
Proof.
  induction 1 as [|w e w1 es w2 Ha E _ IH]; intros HI Hes; [done|]. apply Forall_cons in Hes as [He Hes].
  destruct (reactor_step_ok w e _ HI Ha E) as (w1' & E1 & HI1 & Hp). simplify_eq.
  by rewrite IH, Hp.
Qed.

(** C8. The loop over raw channel pointers is safe: in every reachable state, and
    whatever the callbacks and functors change, register, unregister and create,
    each step of the loop and each of their calls returns.  No destroyed channel is
    used, none is destroyed while its [eventHandling] is true, and no assert of the
    poller fails; and the loop is never stuck. *)
Theorem loop_never_dangles w :
  reachable w ->
  (forall e r, allowed w e -> step w e = Some r -> exists w', r = Ok w' /\ reachable w') /\
  exists e w', allowed w e /\ step w e = Some (Ok w').
Proof.
  intros HR. pose proof (reactor_reachable_inv w HR) as HI.
  assert (Hall : forall e r, allowed w e -> step w e = Some r -> exists w', r = Ok w' /\ reachable w').
  { intros e r Ha E. destruct (reactor_step_ok w e r HI Ha E) as (w' & -> & _).
    exists w'. split; [done|]. by eapply reach_step. }
  split; [exact Hall|].
  assert (He : exists e r, allowed w e /\ step w e = Some r).
  { destruct (at_ w) as [| |[|p rest]|p [|cb tests] rest|p cb tests rest|[|f fs]|f fs] eqn:Hat;
      [exists Advance|exists (Poll None)|exists Advance|exists Advance|exists Advance|exists Advance|exists Return|
       exists Advance|exists Advance|exists Return]; cbn [step allowed EPoller.allowed]; unfold advance;
      rewrite Hat; eexists; by split. }
  destruct He as (e & r & Ha & E). destruct (Hall e r Ha E) as (w' & -> & _). by exists e, w'.
Qed.

(** The tests of [handleEvent], with nothing in between, are [Channel.handleEvent]. *)
Lemma handle_tests c : filter (fun cb => calls c cb = true) tests_ = fst (Channel.handleEvent c).
Proof.
  unfold Channel.handleEvent, tests_. cbn [fst].
  assert (H : forall cb tests, filter (fun cb => calls c cb = true) (cb :: tests) =
    (if calls c cb then [cb] else []) ++ filter (fun cb => calls c cb = true) tests).
  { intros cb tests. rewrite filter_cons. case_decide as Hc; [by rewrite Hc|].
    by destruct (calls c cb). }
  by rewrite !H, filter_nil, app_nil_r.
Qed.

Definition handled (w : t) (x : Z * Z) : list (Z * Channel.callback) :=
  match channel_at w (snd x) with
  | Some c => pair (snd x) <$> fst (Channel.handleEvent (Channel.set_revents c (fst x)))
  | None => []
  end.

Lemma planned_handled w w1 events :
  (forall r p, (r, p) ∈ events ->
    exists c, channel_at w p = Some c /\ channel_at w1 p = Some (Channel.set_revents c r)) ->
  ((snd <$> events) ≫= calls_of w1 tests_) = (events ≫= handled w).
Proof.
  induction events as [|[r p] events IH]; intros H; [done|]. cbn [fmap list_fmap mbind list_bind snd].
  rewrite IH by (intros; apply H; by apply elem_of_cons; right). f_equal.
  destruct (H r p) as (c & H1 & H2); [by apply elem_of_cons; left|].
  unfold calls_of, handled. cbn [fst snd]. rewrite H1, H2. by rewrite handle_tests.
Qed.

(** C9. Each channel that [poll] reported is handled exactly once, in the order of the
    report, and the callbacks called are exactly those that [Channel::handleEvent]
    calls for the reported events, in its order: none is dropped, repeated or
    disturbed by what the callbacks in between do to this channel or to others. *)
Theorem dispatch_exact w events w1 es w2 :
  reachable w -> allowed w (Poll (Some events)) -> NoDup (snd <$> events) ->
  step w (Poll (Some events)) = Some (Ok w1) -> run w1 es w2 ->
  Forall (fun e => polls e = false) es -> held w2 = [] ->
  log w2 = log w ++ (events ≫= handled w).
Proof.
  intros HR Ha Hnd E Hrun Hes Hh. pose proof (reactor_reachable_inv w HR) as HI.
  destruct (poll_step_ok w (Some events) _ HI Ha E) as (w1' & E1 & HI1 & Hlog & Hat & Hrev). simplify_eq.
  assert (Hpl : planned w2 = []).
  { unfold planned. unfold held in Hh. by destruct (at_ w2) as [| |[]| | | |]. }
  pose proof (run_planned _ _ _ Hrun HI1 Hes) as Hp. rewrite Hpl, app_nil_r in Hp. rewrite Hp, Hlog.
  f_equal. unfold planned. rewrite Hat. apply planned_handled. by apply Hrev.
Qed.
(** ** The typestate of a channel *)

(** [events_] is one of the four interest sets and [index_] one of the three
    marks of the poller. *)
Definition typed (c : Channel.t) : bool :=
  bool_decide (Channel.events_ c ∈ [0; 3; 4; 7]) &&
  bool_decide (Channel.index_ c ∈ [EPoller.kNew; EPoller.kAdded; EPoller.kDeleted]).

(** The moves between the marks: a channel is added, disabled, enabled again and
    removed; it is never marked disabled before it has been added. *)
Definition move (i j : Z) : bool :=
  (i =? j) || (j =? EPoller.kNew) ||
  ((j =? EPoller.kAdded) && ((i =? EPoller.kNew) || (i =? EPoller.kDeleted))) ||
  ((i =? EPoller.kAdded) && (j =? EPoller.kDeleted)).

(** One object before and after a step. *)
Definition becomes (c c' : Channel.t) : Prop :=
  Channel.fd_ c' = Channel.fd_ c /\ move (Channel.index_ c) (Channel.index_ c') = true.

Lemma becomes_refl c c' :
  Channel.fd_ c' = Channel.fd_ c -> Channel.index_ c' = Channel.index_ c -> becomes c c'.
Proof. intros H E. split; [done|]. rewrite E. unfold move. by rewrite Z.eqb_refl. Qed.

Lemma typed_iff c : typed c = true <->
  Channel.wf c /\
  (Channel.index_ c = EPoller.kNew \/ Channel.index_ c = EPoller.kAdded \/ Channel.index_ c = EPoller.kDeleted).
Proof.
  unfold typed, Channel.wf. rewrite andb_true_iff, !bool_decide_eq_true.
  by rewrite !elem_of_cons, !elem_of_nil, !(right_id False or).
Qed.

Lemma becomes_insert w w' p c cn :
  channel_at w p = Some c -> EPoller.store (poller_ w') = <[p := cn]> (EPoller.store (poller_ w)) ->
  becomes c cn ->
  forall q d d', channel_at w q = Some d -> channel_at w' q = Some d' -> becomes d d'.
Proof.
  intros Hc Hs Hb q d d'. unfold channel_at in *. rewrite Hs.
  destruct (decide (p = q)) as [<-|Hne].
  - rewrite lookup_insert_eq. intros Hd [= <-]. congruence.
  - rewrite lookup_insert_ne by done. intros Hd Hd'. assert (d' = d) as -> by congruence. by apply becomes_refl.
Qed.

(** The report of [poll] only writes [revents_]. *)
Lemma fill_becomes events : forall e r, EPoller.fillActiveChannels e events = Ok r ->
  forall p d d', EPoller.store e !! p = Some d -> EPoller.store (snd r) !! p = Some d' ->
  Channel.fd_ d' = Channel.fd_ d /\ Channel.index_ d' = Channel.index_ d.
Proof.
  induction events as [|[rv q] events IH]; intros e r E p d d' Hd Hd'; cbn [EPoller.fillActiveChannels] in E.
  { simplify_eq. cbn in Hd'. by simplify_eq. }
  unfold EPoller.channel in E. destruct (EPoller.store e !! q) as [c|] eqn:Hc; [|done]. cbn [mbind res_bind] in E.
  do 2 (apply bind_ok in E as (? & _ & E)). apply bind_ok in E as ([ps e'] & E' & E). simplify_eq.
  specialize (IH _ _ E' p). cbn [fst snd EPoller.store EPoller.set_channel] in *.
  destruct (decide (q = p)) as [->|Hne].
  - rewrite lookup_insert_eq in IH. destruct (IH _ d' eq_refl Hd') as [-> ->]. by simplify_eq.
  - rewrite lookup_insert_ne in IH by done. by apply IH.
Qed.

Lemma poll_becomes e answer r : EPoller.poll e answer = Ok r ->
  forall p d d', EPoller.store e !! p = Some d -> EPoller.store (snd r) !! p = Some d' -> becomes d d'.
Proof.
  destruct answer as [[|x l]|]; cbn [EPoller.poll]; intros E p d d' Hd Hd';
    [simplify_eq; cbn in Hd'; simplify_eq; by apply becomes_refl| |simplify_eq; cbn in Hd'; simplify_eq; by apply becomes_refl].
  apply bind_ok in E as (? & _ & E). apply bind_ok in E as ([ps e'] & E' & E). simplify_eq. cbn [fst snd] in Hd'.
  destruct (fill_becomes _ _ _ E' p d d' Hd) as [H1 H2]; [|by apply becomes_refl]. cbn [snd]. by case_match.
Qed.

Lemma exec_becomes w a w' : Inv w -> allowed w (User a) -> exec w a = Ok w' ->
  forall p d d', channel_at w p = Some d -> channel_at w' p = Some d' -> becomes d d'.
Proof.
  intros [HP _] Ha E. destruct a as [p fd rd wr er cl|i p|p|p|f]; cbn [exec allowed] in *.
  - simplify_eq. intros q d d'. unfold channel_at. cbn. destruct (decide (p = q)) as [<-|Hne].
    + cbn [EPoller.allowed] in Ha. congruence.
    + rewrite lookup_insert_ne by done. intros Hd Hd'. simplify_eq. by apply becomes_refl.
  - destruct Ha as (c & Hc & Hn). unfold EPoller.change, EPoller.channel in E. rewrite Hc, bind_ret_l in E.
    destruct (EPoller.update_ok _ p c (Channel.change i c) HP Hc) as (e & E2 & _ & Hs); try done.
    { apply Channel.change_wf, (EPoller.inv_events _ HP p c Hc). }
    rewrite E2, bind_ret_l in E. simplify_eq. apply (becomes_insert w (set_poller w e) p c _ Hc Hs).
    split; [done|]. cbn. unfold EPoller.next_index. cbn.
    destruct (EPoller.inv_index _ HP p c Hc) as [Hx|[Hx|Hx]]; rewrite Hx; [done|by destruct (Channel.isNoneEvent _)|done].
  - destruct Ha as (c & Hc & Hi & Hn).
    destruct (EPoller.remove_ok _ p c HP Hc) as (e & E2 & _ & Hs & _);
      [by apply (EPoller.inv_mapped _ HP p c Hc)|done|].
    rewrite E2, bind_ret_l in E. simplify_eq. apply (becomes_insert w (set_poller w e) p c _ Hc Hs).
    split; [done|]. unfold move. cbn. by rewrite orb_true_r.
  - apply bind_ok in E as (c & _ & E). apply bind_ok in E as (? & _ & E). simplify_eq.
    intros q d d' Hd Hd'. unfold channel_at in *. cbn in Hd'. apply lookup_delete_Some in Hd' as [_ Hd'].
    simplify_eq. by apply becomes_refl.
  - simplify_eq. intros q d d' Hd Hd'. unfold channel_at in *. cbn in Hd'. simplify_eq. by apply becomes_refl.
Qed.

Lemma step_becomes w e w' : Inv w -> allowed w e -> step w e = Some (Ok w') ->
  forall p d d', channel_at w p = Some d -> channel_at w' p = Some d' -> becomes d d'.
Proof.
  intros HI Ha E. destruct e as [answer| |a|]; cbn [step] in E.
  - destruct (at_ w); try done. injection E as E. apply bind_ok in E as (r & E' & E). simplify_eq.
    intros p d d'. apply (poll_becomes _ _ _ E').
  - assert (Hsame : poller_ w' = poller_ w \/ exists p c b, access w p = Ok c /\
      poller_ w' = poller_ (set_handling w p c b)).
    { unfold advance in E.
      destruct (at_ w) as [| |[|p rest]|p [|cb tests] rest|p cb tests rest|[|f fs]|f fs]; try discriminate;
        injection E as E; try (apply bind_ok in E as (c & Hc & E)); simplify_eq;
        try (by left); [right; by exists p, c, true|right; by exists p, c, false|left; by case_match]. }
    intros p d d' Hd Hd'. destruct Hsame as [H|(q & c & b & Hc & H)].
    + apply becomes_refl; unfold channel_at in *; rewrite H in Hd'; by simplify_eq.
    + unfold access in Hc. destruct (EPoller.store (poller_ w) !! q) as [c'|] eqn:Eq; [|done]. simplify_eq.
      apply (becomes_insert w w' q c (Channel.set_handling c (Some b)) Eq) with p; try done;
        [by rewrite H|by apply becomes_refl].
  - destruct (user_code (at_ w)); [|done]. injection E as E. by apply (exec_becomes w a).
  - intros p d d' Hd Hd'. apply becomes_refl; unfold channel_at in *;
      destruct (at_ w); try done; injection E as E; simplify_eq; cbn in Hd'; by simplify_eq.
Qed.

(** C15. Every channel is well typed and keeps to its typestate: in every reachable
    state its interest set is one of the four that enabling and disabling make and
    its mark is [kNew], [kAdded] or [kDeleted]; every pointer the loop holds is that
    of a living channel; and over one step of the loop, the poller or the user's
    code an object keeps its descriptor and its mark changes only along
    added, disabled, added again, removed. *)
Theorem channels_typed w e w' :
  reachable w -> allowed w e -> step w e = Some (Ok w') ->
  map_Forall (fun _ c => typed c = true) (EPoller.store (poller_ w')) /\
  Forall (fun p => is_Some (channel_at w' p)) (held w') /\
  forall p c c', channel_at w p = Some c -> channel_at w' p = Some c' ->
    Channel.fd_ c' = Channel.fd_ c /\ move (Channel.index_ c) (Channel.index_ c') = true.
Proof.
  intros HR Ha E. pose proof (reactor_reachable_inv w HR) as HI.
  pose proof (reactor_reachable_inv w' (reach_step w e w' HR Ha E)) as [HP HH]. split_and!.
  - intros p c Hc. apply typed_iff. split; [by apply (EPoller.inv_events _ HP p)|by apply (EPoller.inv_index _ HP p)].
  - done.
  - by apply (step_becomes w e).
Qed.

(** ** Runs that can be computed *)

Definition allowedb (w : t) (e : event) : bool :=
  let ep := poller_ w in
  match e with
  | Poll None => true
  | Poll (Some events) =>
      (zlen events <=? EPoller.eventsSize ep) &&
      forallb (fun x => existsb (fun y => snd (snd y) =? snd x) (map_to_list (EPoller.watched (EPoller.kernel ep)))) events
  | User (New p _ _ _ _ _) => bool_decide (EPoller.store ep !! p = None)
  | User (Update i p) =>
      match EPoller.store ep !! p with
      | Some c => negb (Channel.index_ c =? EPoller.kNew) ||
          bool_decide (EPoller.channels_ ep !! Channel.fd_ c = None)
      | None => false
      end
  | User (Remove p) =>
      match EPoller.store ep !! p with
      | Some c => negb (Channel.index_ c =? EPoller.kNew) && Channel.isNoneEvent c
      | None => false
      end
  | User (Destroy p) =>
      match at_ w with Outside | Functor _ _ => true | _ => false end &&
      match EPoller.store ep !! p with
      | Some c => (Channel.index_ c =? EPoller.kNew) && bool_decide (Channel.eventHandling c = Some false)
      | None => false
      end
  | _ => true
  end.

Lemma reactor_allowedb_ok w e : allowedb w e = true -> allowed w e.
Proof.
  destruct e as [[events|]| |[p fd rd wr er cl|i p|p|p|f]|]; cbn [allowedb allowed EPoller.allowed]; try done.
  - intros [Hl Hf]%andb_true_iff. split; [lia|]. intros r p Hin.
    rewrite forallb_forall in Hf. apply list_elem_of_In in Hin. specialize (Hf _ Hin).
    apply existsb_exists in Hf as ([fd [ev q]] & Hy%list_elem_of_In%elem_of_map_to_list & Hq).
    cbn [snd] in Hq. exists fd, ev. rewrite Hy. by assert (q = p) as -> by lia.
  - apply bool_decide_eq_true.
  - destruct (EPoller.store (poller_ w) !! p) as [c|]; [|done]. intros H. exists c. split; [done|].
    intros Hi. rewrite Hi in H. cbn in H. by apply bool_decide_eq_true in H.
  - destruct (EPoller.store (poller_ w) !! p) as [c|]; [|done]. intros [H1 H2]%andb_true_iff.
    exists c. split_and!; [done|by intros Hi; rewrite Hi in H1|done].
  - intros [H1 H2]%andb_true_iff. split; [by destruct (at_ w)|].
    destruct (EPoller.store (poller_ w) !! p) as [c|]; [|done]. apply andb_true_iff in H2 as [H2 H3].
    exists c. split_and!; [done|lia|by apply bool_decide_eq_true in H3].
Qed.

Fixpoint perform (w : t) (es : list event) : option t :=
  match es with
  | [] => Some w
  | e :: es =>
      if allowedb w e then
        match step w e with Some (Ok w1) => perform w1 es | _ => None end
      else None
  end.

Lemma perform_run es : forall w w', perform w es = Some w' -> run w es w'.
Proof.
  induction es as [|e es IH]; intros w w' E; cbn [perform] in E; [simplify_eq; constructor|].
  destruct (allowedb w e) eqn:Ha; [|done]. destruct (step w e) as [[w1|]|] eqn:Es; try done.
  eapply run_cons; [by apply reactor_allowedb_ok|exact Es|by apply IH].
Qed.

Lemma reactor_run_reachable w es w' : run w es w' -> reachable w -> reachable w'.
Proof. induction 1 as [|w e w1 es w2 Ha E _ IH]; intros HR; [done|]. apply IH. by eapply reach_step. Qed.
End reactor.

(** ** A concrete iteration *)

#[local] Existing Instance EPoller.demo_kernel.

(** Two channels are ready; the read callback of the first unregisters the second,
    creates a third and queues a functor that destroys the second. *)
Definition demo_setup : list (event (F := nat)) :=
  [User (New 100 5 true true true true); User (Update Channel.EnableReading 100);
   User (New 200 6 true true true true); User (Update Channel.EnableReading 200); Advance].
Definition demo_reports : list (Z * Z) := [(1, 100); (17, 200)].
Definition demo_iteration : list (event (F := nat)) :=
  [Advance; Advance; Advance; Advance;
   User (Update Channel.DisableAll 200); User (Remove 200);
   User (New 300 7 true true true true); User (Update Channel.EnableWriting 300); User (Queue 1%nat);
   Return; Advance; Advance;
   Advance; Advance; Advance; Advance; Return; Advance; Advance;
   Advance].
Definition demo_functor : list (event (F := nat)) := [Advance; User (Destroy 200); Return; Advance].

Definition demo_init : t (F := nat) := init (∅ : gmap Z (Z * Z)).
Definition after (w : t (F := nat)) (es : list (event (F := nat))) : t := default w (perform w es).
Definition demo_ready : t := after demo_init demo_setup.
Definition demo_polled : t := after demo_ready [Poll (Some demo_reports)].
Definition demo_done : t := after demo_polled demo_iteration.

Lemma demo_ready_reachable : reachable demo_ready.
Proof.
  apply (reactor_run_reachable demo_init demo_setup); [|by apply reach_init].
  apply perform_run. vm_compute. reflexivity.
Qed.

Lemma demo_done_run : run demo_polled demo_iteration demo_done.
Proof. apply perform_run. vm_compute. reflexivity. Qed.

Lemma loop_never_dangles_witness :
  exists w', step demo_done Advance = Some (Ok w') /\ reachable w'.
Proof.
  assert (HR : reachable demo_done).
  { apply (reactor_run_reachable demo_polled demo_iteration); [exact demo_done_run|].
    apply (reach_step demo_ready (Poll (Some demo_reports))); [exact demo_ready_reachable| |].
    - apply reactor_allowedb_ok. vm_compute. reflexivity.
    - vm_compute. reflexivity. }
  assert (E : step demo_done Advance = Some (Ok (after demo_done [Advance]))) by (vm_compute; reflexivity).
  destruct (proj1 (loop_never_dangles demo_done HR) Advance _ I E) as (w' & E' & HR').
  exists w'. rewrite <- E'. split; [exact E|exact HR'].
Defined.

Lemma dispatch_exact_witness :
  log demo_done = [(100, Channel.CbRead); (200, Channel.CbRead)] /\ held demo_done = [] /\
  is_Some (perform demo_done demo_functor).
Proof.
  assert (Hh : held demo_done = []) by (vm_compute; reflexivity).
  split; [|split; [exact Hh|eexists; vm_compute; reflexivity]].
  rewrite (dispatch_exact demo_ready demo_reports demo_polled demo_iteration demo_done demo_ready_reachable).
  - vm_compute. reflexivity.
  - apply reactor_allowedb_ok. vm_compute. reflexivity.
  - apply (bool_decide_unpack _). vm_compute. reflexivity.
  - vm_compute. reflexivity.
  - exact demo_done_run.
  - repeat constructor.
  - exact Hh.
Defined.

Lemma channels_typed_witness :
  map_Forall (fun _ c => typed c = true) (EPoller.store (poller_ (after demo_done [Advance]))) /\
  move EPoller.kNew EPoller.kDeleted = false.
Proof.
  split; [|reflexivity].
  apply (channels_typed demo_done Advance (after demo_done [Advance])).
  - apply (reactor_run_reachable demo_polled demo_iteration); [exact demo_done_run|].
    apply (reach_step demo_ready (Poll (Some demo_reports))); [exact demo_ready_reachable| |].
    + apply reactor_allowedb_ok. vm_compute. reflexivity.
    + vm_compute. reflexivity.
  - exact I.
  - vm_compute. reflexivity.
Defined.

End Reactor.
