(* ===== verification/EventLoopThreadPool.v ===== *)
(** * EventLoopThreadPool: the loops of a server ([EventLoopThreadPool.h], [EventLoopThreadPool.cpp])

    A loop is its identity; [startLoop i] is the loop that the [i]-th
    [EventLoopThread::startLoop] hands over. *)

From S2P Require Import Prelude.

Module EventLoopThreadPool.

Section pool.
Context (startLoop : Z -> Z).

Record t := mk {
  baseLoop_ : Z;
  started_ : bool;
  numThreads_ : Z;
  next_ : Z;
  loops_ : list Z
}.

Definition init (baseLoop : Z) : t := mk baseLoop false 0 0 [].

Definition setThreadNum (p : t) (n : Z) : t :=
  mk (baseLoop_ p) (started_ p) n (next_ p) (loops_ p).

(** [for (int i = 0; i < numThreads_; ++i)]: the loops started. *)
Definition start_loops (n : Z) : list Z :=
  (fun i => startLoop (Z.of_nat i)) <$> seq 0 (Z.to_nat n).

Definition start (p : t) : res t :=
  assert_ (negb (started_ p)) ;;
  Ok (mk (baseLoop_ p) true (numThreads_ p) (next_ p) (loops_ p ++ start_loops (numThreads_ p))).

Definition getNextLoop (p : t) : res (Z * t) :=
  match loops_ p with
  | [] => Ok (baseLoop_ p, p)
  | l =>
      check ((0 <=? next_ p) && (next_ p <? zlen l)) OutOfBounds ;;
      let loop := nth (Z.to_nat (next_ p)) l 0 in
      let next := next_ p + 1 in
      let next := if zlen l <=? next then 0 else next in
      Ok (loop, mk (baseLoop_ p) (started_ p) (numThreads_ p) next l)
  end.

(** The loops that [k] calls hand out. *)
Fixpoint getLoops (k : nat) (p : t) : res (list Z) :=
  match k with
  | O => Ok []
  | S k => r ← getNextLoop p ; l ← getLoops k (snd r) ; Ok (fst r :: l)
  end.

Lemma getLoops_from k : forall base st n next l,
  0 < zlen l -> 0 <= next < zlen l ->
  getLoops k (mk base st n next l) =
    Ok ((fun i => nth (Z.to_nat ((next + Z.of_nat i) mod zlen l)) l 0) <$> seq 0 k).
Proof.
  induction k as [|k IH]; intros base st n next l Hl Hn; [done|].
  assert (Hnext : getNextLoop (mk base st n next l) =
    Ok (nth (Z.to_nat next) l 0, mk base st n ((next + 1) mod zlen l) l)).
  { unfold getNextLoop. cbn [loops_ next_]. destruct l as [|x l']; [done|].
    replace ((0 <=? next) && (next <? zlen (x :: l'))) with true by lia. simpl check.
    rewrite bind_ret_l. do 3 f_equal. destruct (Z.leb_spec (zlen (x :: l')) (next + 1)).
    - replace (next + 1) with (zlen (x :: l')) by lia. by rewrite Z_mod_same_full.
    - by rewrite Z.mod_small by lia. }
  cbn [getLoops]. rewrite Hnext, bind_ret_l. cbn [fst snd].
  rewrite IH by (try done; apply Z.mod_pos_bound; lia). rewrite bind_ret_l. simpl.
  f_equal. f_equal.
  - rewrite Z.add_0_r, Z.mod_small by lia. done.
  - rewrite <- fmap_S_seq, <- list_fmap_compose. apply list_fmap_ext. intros _ i _. simpl.
    rewrite Zplus_mod_idemp_l. do 3 f_equal. lia.
Qed.

(** Connections are spread over the threads in turn: after [start] with [n]
    threads the [k]-th call of [getNextLoop] gives the loop of thread [k mod n],
    and the base loop when there is no thread. *)
Theorem round_robin base n k p :
  start (setThreadNum (init base) n) = Ok p ->
  getLoops k p =
    Ok ((fun i => if 0 <? n then startLoop (Z.of_nat i mod n) else base) <$> seq 0 k).
Proof.
  unfold start. simpl. intros [= <-]. destruct (Z.ltb_spec 0 n) as [Hn|Hn].
  - assert (Hl : zlen (start_loops n) = n).
    { unfold start_loops, zlen. rewrite length_fmap, length_seq. lia. }
    rewrite getLoops_from by lia. rewrite Hl. f_equal. apply list_fmap_ext. intros _ i _.
    rewrite Z.add_0_l. pose proof (Z.mod_pos_bound (Z.of_nat i) n Hn).
    unfold start_loops. rewrite <- (Z2Nat.id (Z.of_nat i mod n)) at 2 by lia.
    set (j := Z.to_nat (Z.of_nat i mod n)). assert (j < Z.to_nat n)%nat by lia.
    apply nth_lookup_Some. rewrite list_lookup_fmap, lookup_seq_lt by lia. done.
  - unfold start_loops. replace (Z.to_nat n) with 0%nat by lia. simpl.
    generalize 0%nat. induction k as [|k IH]; intros s; [done|]. cbn [getLoops]. simpl.
    by rewrite (IH (S s)).
Qed.

End pool.

Lemma round_robin_witness :
  exists p, start (fun i => 100 + i) (setThreadNum (init 7) 3) = Ok p /\
    getLoops 5 p = Ok [100; 101; 102; 100; 101].
Proof.
  eexists. split; [reflexivity|].
  rewrite (round_robin (fun i => 100 + i) 7 3 5 _ eq_refl). reflexivity.
Defined.

End EventLoopThreadPool.
