(* ===== verification/Connector.v ===== *)
(** * Connector: connecting with retries ([Connector.h], [Connector.cpp])

    One connector on its loop.  A socket is named by its number in the order the
    connector creates them; [connect] on it gives the error number [Net] says.
    Whether the retry timer is the last of [activeTimers_], as [cancel] finds it,
    depends on the other timers of the loop and is given with each cancellation.
    [channel_] holds the socket being connected and whether the poller watches
    it; [resets] counts the queued [resetChannel] functors; [timers] are the
    pending retry timers, newest last, and [timerId_] is the last one started.
    [log] records what happens to the sockets and the delays of the retries. *)

From S2P Require Import Prelude Channel.

Module Connector.

Inductive States := kDisconnected | kConnecting | kConnected.

#[global] Instance States_eq_dec : EqDecision States.
Proof. solve_decision. Defined.

Definition kMaxRetryDelayMs : Z := 30 * 1000.
Definition kInitRetryDelayMs : Z := 500.

(** The error numbers that [connect] distinguishes, as on Linux. *)
Definition EINTR : Z := 4.
Definition EAGAIN : Z := 11.
Definition EADDRINUSE : Z := 98.
Definition EADDRNOTAVAIL : Z := 99.
Definition ENETUNREACH : Z := 101.
Definition ECONNABORTED : Z := 103.
Definition EISCONN : Z := 106.
Definition ECONNREFUSED : Z := 111.
Definition EINPROGRESS : Z := 115.

(** Whether each call of [::socket] fails, and the answer of [connect] for each
    socket: 0 or the error number. *)
Class Net := { socket_fails : nat -> bool; connect_errno : nat -> Z }.

Inductive obs :=
  | Opened (sockfd : nat)
  | ClosedFd (sockfd : nat)
  | NewConnection (sockfd : nat)
  | RetryAfter (ms : Z).

Record t := mk {
  connect_ : bool;
  state_ : States;
  channel_ : option (nat * bool);
  retryDelayMs_ : Z;
  timers : list nat;
  timerId_ : option nat;
  ntimers : nat;
  nsockets : nat;
  (* calls of [::socket] *)
  ncalls : nat;
  resets : nat;
  log : list obs
}.

Definition init : t := mk false kDisconnected None kInitRetryDelayMs [] None 0 0 0 0 [].

Definition set_connect (c : t) (b : bool) : t :=
  mk b (state_ c) (channel_ c) (retryDelayMs_ c) (timers c) (timerId_ c) (ntimers c)
    (nsockets c) (ncalls c) (resets c) (log c).
Definition setStates (c : t) (s : States) : t :=
  mk (connect_ c) s (channel_ c) (retryDelayMs_ c) (timers c) (timerId_ c) (ntimers c)
    (nsockets c) (ncalls c) (resets c) (log c).
Definition set_channel (c : t) (ch : option (nat * bool)) : t :=
  mk (connect_ c) (state_ c) ch (retryDelayMs_ c) (timers c) (timerId_ c) (ntimers c)
    (nsockets c) (ncalls c) (resets c) (log c).
Definition set_delay (c : t) (ms : Z) : t :=
  mk (connect_ c) (state_ c) (channel_ c) ms (timers c) (timerId_ c) (ntimers c)
    (nsockets c) (ncalls c) (resets c) (log c).
Definition set_timers (c : t) (l : list nat) : t :=
  mk (connect_ c) (state_ c) (channel_ c) (retryDelayMs_ c) l (timerId_ c) (ntimers c)
    (nsockets c) (ncalls c) (resets c) (log c).
Definition set_resets (c : t) (n : nat) : t :=
  mk (connect_ c) (state_ c) (channel_ c) (retryDelayMs_ c) (timers c) (timerId_ c) (ntimers c)
    (nsockets c) (ncalls c) n (log c).
Definition emit (c : t) (o : obs) : t :=
  mk (connect_ c) (state_ c) (channel_ c) (retryDelayMs_ c) (timers c) (timerId_ c) (ntimers c)
    (nsockets c) (ncalls c) (resets c) (log c ++ [o]).

Definition set_ncalls (c : t) (n : nat) : t :=
  mk (connect_ c) (state_ c) (channel_ c) (retryDelayMs_ c) (timers c) (timerId_ c) (ntimers c)
    (nsockets c) n (resets c) (log c).

(** [sockets::createNonblockingOrDie()]: it does not die, but returns -1. *)
Definition create_socket `{Net} (c : t) : option nat * t :=
  let c' := set_ncalls c (S (ncalls c)) in
  if socket_fails (ncalls c) then (None, c')
  else
    (Some (nsockets c),
     emit (mk (connect_ c') (state_ c') (channel_ c') (retryDelayMs_ c') (timers c') (timerId_ c')
             (ntimers c') (S (nsockets c')) (ncalls c') (resets c') (log c')) (Opened (nsockets c))).
(** [timerId_ = loop_->runAfter(ms / 1000.0, startInLoop)]. *)
Definition runAfter (c : t) (ms : Z) : t :=
  emit (mk (connect_ c) (state_ c) (channel_ c) (retryDelayMs_ c) (timers c ++ [ntimers c])
          (Some (ntimers c)) (S (ntimers c)) (nsockets c) (ncalls c) (resets c) (log c)) (RetryAfter ms).
(** [loop_->cancel(timerId_)] on the loop's thread: when the timer is pending and
    the last of [activeTimers_], [cancelInLoop] fails its assert. *)
Definition cancel (c : t) (last : bool) : res t :=
  match timerId_ c with
  | Some i =>
      if bool_decide (i ∈ timers c) then
        assert_ (negb last) ;;
        Ok (set_timers c (filter (fun j => j <> i) (timers c)))
      else Ok c
  | None => Ok c
  end.

Section connector.
Context `{N : Net}.

Definition connecting (c : t) (sockfd : nat) : res t :=
  let c := setStates c kConnecting in
  assert_ (bool_decide (channel_ c = None)) ;;
  Ok (set_channel c (Some (sockfd, true))).

Definition retry (c : t) (sockfd : nat) : t :=
  let c := emit c (ClosedFd sockfd) in
  let c := setStates c kDisconnected in
  if connect_ c then
    let c := runAfter c (retryDelayMs_ c) in
    set_delay c (Z.min (retryDelayMs_ c * 2) kMaxRetryDelayMs)
  else c.

(** What [connect] does with an error number. *)
Inductive verdict := Wait | Retry | GiveUp.
Definition classify (savedErrno : Z) : verdict :=
  if existsb (Z.eqb savedErrno) [0; EINPROGRESS; EINTR; EISCONN] then Wait
  else if existsb (Z.eqb savedErrno) [EAGAIN; EADDRINUSE; EADDRNOTAVAIL; ECONNABORTED; ENETUNREACH]
  then Retry
  else GiveUp.

Definition connect (c : t) : res t :=
  let r := create_socket c in
  let c := snd r in
  match fst r with
  (* [connect] of -1 fails with [EBADF], and so does the [close] that follows *)
  | None => Ok c
  | Some sockfd =>
      match classify (connect_errno sockfd) with
      | Wait => connecting c sockfd
      | Retry => Ok (retry c sockfd)
      | GiveUp => Ok (emit c (ClosedFd sockfd))
      end
  end.

Definition startInLoop (c : t) : res t :=
  assert_ (bool_decide (state_ c = kDisconnected)) ;;
  if connect_ c then connect c else Ok c.

(** [start], called on the loop thread. *)
Definition start (c : t) : res t := startInLoop (set_connect c true).

Definition restart (c : t) : res t :=
  let c := setStates c kDisconnected in
  let c := set_delay c kInitRetryDelayMs in
  let c := set_connect c true in
  startInLoop c.

Definition stop (c : t) (last : bool) : res t := cancel (set_connect c false) last.

Definition removeAndResetChannel (c : t) : res (nat * t) :=
  match channel_ c with
  | None => Err NullDeref
  | Some (sockfd, _) =>
      let c := set_channel c (Some (sockfd, false)) in
      Ok (sockfd, set_resets c (S (resets c)))
  end.

Definition resetChannel (c : t) : t := set_channel c None.

(** The socket when it is ready: [SO_ERROR] and whether it is connected to
    itself. *)
Definition handleWrite (c : t) (so_error : Z) (self : bool) : res t :=
  if bool_decide (state_ c = kConnecting) then
    r ← removeAndResetChannel c ;
    let sockfd := fst r in
    let c := snd r in
    if negb (so_error =? 0) then Ok (retry c sockfd)
    else if self then Ok (retry c sockfd)
    else
      let c := setStates c kConnected in
      Ok (emit c (if connect_ c then NewConnection sockfd else ClosedFd sockfd))
  else
    assert_ (bool_decide (state_ c = kDisconnected)) ;;
    Ok c.

Definition handleError (c : t) : res t :=
  assert_ (bool_decide (state_ c = kConnecting)) ;;
  r ← removeAndResetChannel c ;
  Ok (retry (snd r) (fst r)).

Definition handle (c : t) (so_error : Z) (self : bool) (cb : Channel.callback) : res t :=
  match cb with
  | Channel.CbError => handleError c
  | Channel.CbWrite => handleWrite c so_error self
  | _ => Ok c
  end.

Fixpoint handle_all (c : t) (so_error : Z) (self : bool) (cbs : list Channel.callback) : res t :=
  match cbs with
  | [] => Ok c
  | cb :: cbs => c ← handle c so_error self cb ; handle_all c so_error self cbs
  end.

(** [handleEvent] of the channel, with the two callbacks that [connecting] set. *)
Definition handleEvent (c : t) (revents so_error : Z) (self : bool) : res t :=
  let ch := Channel.set_callbacks (Channel.set_revents (Channel.new 0) revents) false true true false in
  handle_all c so_error self (fst (Channel.handleEvent ch)).

Inductive event :=
  | Start
  | Restart
  | Stop (last : bool)
  | Timer
  | Ready (revents so_error : Z) (self : bool)
  | Functor.

Definition step (c : t) (e : event) : res t :=
  match e with
  | Start => start c
  | Restart => restart c
  | Stop last => stop c last
  | Timer =>
      match timers c with
      | [] => Ok c
      | _ :: l => startInLoop (set_timers c l)
      end
  | Ready revents so_error self => handleEvent c revents so_error self
  | Functor =>
      match resets c with
      | O => Ok c
      | S n => Ok (resetChannel (set_resets c n))
      end
  end.

(** ** The sockets *)

Definition opened (l : list obs) : list nat :=
  omap (fun o => match o with Opened s => Some s | _ => None end) l.
(** Closed, or handed to the new-connection callback. *)
Definition disposed (l : list obs) : list nat :=
  omap (fun o => match o with ClosedFd s | NewConnection s => Some s | _ => None end) l.
Definition retries (l : list obs) : list Z :=
  omap (fun o => match o with RetryAfter ms => Some ms | _ => None end) l.

(** The socket that is being connected. *)
Definition in_progress (c : t) : list nat :=
  match state_ c, channel_ c with kConnecting, Some (s, _) => [s] | _, _ => [] end.

Record Inv (c : t) : Prop := {
  inv_opened : opened (log c) = seq 0 (nsockets c);
  inv_sockets : disposed (log c) ++ in_progress c ≡ₚ opened (log c);
  inv_channel : match channel_ c with
    | None => state_ c <> kConnecting /\ resets c = 0%nat
    | Some (_, true) => state_ c = kConnecting /\ resets c = 0%nat
    | Some (_, false) => state_ c <> kConnecting /\ resets c = 1%nat
    end;
  inv_timers : timers c <> [] -> state_ c = kDisconnected /\ connect_ c = true /\ length (timers c) = 1%nat;
  inv_timerId : forall i, i ∈ timers c -> timerId_ c = Some i;
  inv_delay : kInitRetryDelayMs <= retryDelayMs_ c <= kMaxRetryDelayMs
}.

(** How the connector is used: started when it is idle, restarted when its
    connection is gone, stopped when no retry is planned or another timer follows
    the retry's in the queue, and its timers and functors run by the loop, the
    queued functor before the timer. *)
Definition allowed (c : t) (e : event) : Prop :=
  match e with
  | Start => state_ c = kDisconnected /\ channel_ c = None /\ timers c = []
  | Restart => state_ c = kConnected /\ channel_ c = None
  | Stop last => timers c = [] \/ last = false
  | Timer => channel_ c = None
  | Ready _ _ _ => exists s, channel_ c = Some (s, true)
  | Functor => True
  end.

(** ** Every allowed event returns and keeps the invariant *)

Ltac logs := unfold opened, disposed, in_progress in *; rewrite ?omap_app; simpl; rewrite ?app_nil_r.

(** From a watched channel: it is removed and its socket disposed of. *)
Lemma retry_inv c s :
  Inv c -> channel_ c = Some (s, true) ->
  Inv (retry (set_resets (set_channel c (Some (s, false))) (S (resets c))) s).
Proof.
  intros [H1 H2 H3 H4 H5 H6] Hc. rewrite Hc in H3. destruct H3 as [Hs Hr].
  unfold in_progress in H2. rewrite Hs, Hc in H2.
  assert (Ht : timers c = []).
  { destruct (timers c) eqn:E; [done|]. destruct H4 as [Hd _]; [done|congruence]. }
  assert (Hp : disposed (log c ++ [ClosedFd s]) ≡ₚ opened (log c ++ [ClosedFd s])) by (logs; done).
  unfold retry. simpl. rewrite Hr. destruct (connect_ c) eqn:Hcn; split; simpl; try done.
  - by logs.
  - by logs.
  - by rewrite Ht.
  - rewrite Ht. intros i Hi%list_elem_of_singleton. by subst i.
  - unfold kInitRetryDelayMs, kMaxRetryDelayMs in *. lia.
  - by logs.
  - by logs.
Qed.

Lemma connected_inv c s o :
  Inv c -> channel_ c = Some (s, true) -> o = NewConnection s \/ o = ClosedFd s ->
  Inv (emit (setStates (set_resets (set_channel c (Some (s, false))) (S (resets c))) kConnected) o).
Proof.
  intros [H1 H2 H3 H4 H5 H6] Hc Ho. rewrite Hc in H3. destruct H3 as [Hs Hr].
  unfold in_progress in H2. rewrite Hs, Hc in H2.
  assert (Ht : timers c = []).
  { destruct (timers c) eqn:E; [done|]. destruct H4 as [Hd _]; [done|congruence]. }
  rewrite Hr. split; simpl; try done; try by rewrite Ht.
  - logs. by destruct Ho as [-> | ->]; simpl; rewrite app_nil_r.
  - logs. by destruct Ho as [-> | ->]; simpl; rewrite !app_nil_r.
Qed.

Lemma inv_ncalls c n : Inv c -> Inv (set_ncalls c n).
Proof. intros [H1 H2 H3 H4 H5 H6]. by split. Qed.

(** A new attempt from an idle connector. *)
Lemma connect_ok c :
  Inv c -> state_ c = kDisconnected -> channel_ c = None -> timers c = [] ->
  exists c', connect c = Ok c' /\ Inv c'.
Proof.
  intros HI Hs Hc Ht. unfold connect, create_socket. destruct (socket_fails (ncalls c)); cbn [fst snd].
  { eexists. split; [reflexivity|]. by apply inv_ncalls. }
  destruct HI as [H1 H2 H3 H4 H5 H6]. rewrite Hc in H3. destruct H3 as [_ Hr].
  unfold in_progress in H2. rewrite Hs, app_nil_r in H2.
  assert (Hseq : opened (log c) ++ [nsockets c] = seq 0 (S (nsockets c))).
  { by rewrite H1, seq_S. }
  assert (Hperm : disposed (log c) ++ [nsockets c] ≡ₚ opened (log c) ++ [nsockets c])
    by (by rewrite H2).
  destruct (classify _);
    [unfold connecting; simpl; rewrite Hc, bool_decide_true by done; simpl|unfold retry; simpl|];
    eexists; (split; [reflexivity|]); [|destruct (connect_ c) eqn:Hcn|]; split; simpl; try done;
    try (logs; rewrite ?Hs, ?Hc, ?app_nil_r; simpl; first [exact Hseq|exact Hperm]).
  all: rewrite ?Hc, ?Hs, ?Ht; try done.
  - intros i Hi%list_elem_of_singleton. by subst i.
  - unfold kInitRetryDelayMs, kMaxRetryDelayMs in *. lia.
Qed.

Lemma startInLoop_ok c :
  Inv c -> state_ c = kDisconnected -> channel_ c = None -> timers c = [] ->
  exists c', startInLoop c = Ok c' /\ Inv c'.
Proof.
  intros HI Hs Hc Ht. unfold startInLoop. rewrite bool_decide_true by done. simpl.
  case_match; [by apply connect_ok|by exists c].
Qed.

Lemma inv_idle c b s d :
  Inv c -> timers c = [] -> channel_ c = None -> s <> kConnecting ->
  kInitRetryDelayMs <= d <= kMaxRetryDelayMs ->
  Inv (set_connect (set_delay (setStates c s) d) b).
Proof.
  intros [H1 H2 H3 H4 H5 H6] Ht Hc Hs Hd. rewrite Hc in H3.
  unfold in_progress in H2. rewrite Hc in H2.
  split; simpl; try done.
  - unfold in_progress. simpl. rewrite Hc. by destruct s, (state_ c).
  - rewrite Hc. tauto.
Qed.

(** [stop] forgets the retry timer, or aborts on it. *)
Lemma stop_spec c last :
  Inv c -> stop c last =
    if bool_decide (timers c <> []) && last then Err AssertFailed
    else Ok (set_timers (set_connect c false) []).
Proof.
  intros HI. pose proof (inv_timers c HI) as H4. pose proof (inv_timerId c HI) as H5. clear HI.
  unfold stop, cancel. simpl. destruct c as [cn st ch dl tms tid nt ns nc rs lg]; simpl in *.
  destruct tms as [|i [|]]; [|clear H4|by destruct H4 as (_ & _ & ?)].
  - destruct tid; [rewrite bool_decide_false by apply not_elem_of_nil|]; done.
  - rewrite (H5 i ltac:(by left)), bool_decide_true by by left. destruct last; [done|].
    by rewrite filter_cons_False by auto.
Qed.

Lemma stop_same c last c' : stop c last = Ok c' -> exists l, c' = set_timers (set_connect c false) l.
Proof.
  unfold stop, cancel. simpl. destruct (timerId_ c); [case_bool_decide|]; intros E; inv_ok;
    first [by eexists|by exists (timers c)].
Qed.

Lemma stop_inv c : Inv c -> Inv (set_timers (set_connect c false) []).
Proof. intros [H1 H2 H3 H4 H5 H6]. split; simpl; try done. set_solver. Qed.

Lemma step_ok c e : Inv c -> allowed c e -> exists c', step c e = Ok c' /\ Inv c'.
Proof.
  intros HI Ha. destruct e as [| |last| |revents so_error self|]; simpl in *.
  - destruct Ha as (Hs & Hc & Ht). unfold start. apply startInLoop_ok; try done.
    pose proof (inv_idle c true kDisconnected (retryDelayMs_ c) HI Ht Hc ltac:(done) (inv_delay c HI)) as H.
    unfold set_connect, set_delay, setStates in *. simpl in H. by rewrite <- Hs in H.
  - destruct Ha as [Hs Hc].
    assert (Ht : timers c = []).
    { destruct (timers c) eqn:E; [done|].
      destruct (inv_timers c HI) as [Hd _]; [by rewrite E|congruence]. }
    unfold restart. apply startInLoop_ok; try done. apply inv_idle; try done. 
  - rewrite stop_spec by done. eexists. split; [|by apply stop_inv].
    destruct Ha as [->| ->]; [done|by rewrite andb_false_r].
  - destruct (timers c) as [|i l] eqn:Ht; [by exists c|].
    destruct (inv_timers c HI) as (Hd & Hcn & Hl); [by rewrite Ht|].
    rewrite Ht in Hl. destruct l; [|done].
    apply startInLoop_ok; try done. destruct HI as [H1 H2 H3 H4 H5 H6]. split; simpl; try done.
    set_solver.
  - destruct Ha as (s & Hc). pose proof (inv_channel c HI) as H3. rewrite Hc in H3.
    destruct H3 as [Hs Hr]. unfold handleEvent, Channel.handleEvent. simpl. rewrite !andb_true_r, !andb_false_r.
    assert (He : exists c', handleError c = Ok c' /\ Inv c' /\ state_ c' = kDisconnected).
    { unfold handleError, removeAndResetChannel. rewrite Hs, bool_decide_true, Hc by done. simpl.
      eexists. split; [reflexivity|]. split; [by apply retry_inv|]. unfold retry. by case_match. }
    assert (Hw : exists c', handleWrite c so_error self = Ok c' /\ Inv c').
    { unfold handleWrite, removeAndResetChannel. rewrite Hs, bool_decide_true, Hc by done. simpl.
      destruct (negb (so_error =? 0)); [eexists; split; [reflexivity|by apply retry_inv]|].
      destruct self; eexists; (split; [reflexivity|]); [by apply retry_inv|].
      apply connected_inv; try done. destruct (connect_ c); auto. }
    destruct (Channel.has revents (Z.lor Channel.POLLERR Channel.POLLNVAL)); simpl.
    + destruct He as (c1 & -> & HI1 & Hs1). simpl.
      destruct (Channel.has revents Channel.POLLOUT); simpl; [|by exists c1].
      unfold handleWrite. rewrite Hs1. simpl. by exists c1.
    + destruct (Channel.has revents Channel.POLLOUT); simpl; [|by exists c].
      destruct Hw as (c1 & -> & HI1). by exists c1.
  - destruct (resets c) as [|n] eqn:Hr; [by exists c|]. eexists. split; [reflexivity|].
    destruct HI as [H1 H2 H3 H4 H5 H6]. rewrite Hr in H3. destruct (channel_ c) as [[s []]|] eqn:Hc.
    + by destruct H3.
    + destruct H3 as [Hs [= ->]]. unfold resetChannel. split; simpl; try done.
      unfold in_progress in *. simpl. rewrite Hc in H2. by destruct (state_ c).
    + by destruct H3.
Qed.

Inductive reachable : t -> Prop :=
  | reach_init : reachable init
  | reach_step c e c' : reachable c -> allowed c e -> step c e = Ok c' -> reachable c'.

Lemma connector_init_inv : Inv init.
Proof. split; simpl; try done. set_solver. Qed.

Lemma connector_reachable_inv c : reachable c -> Inv c.
Proof.
  induction 1 as [|c e c' _ HI Ha E]; [apply connector_init_inv|].
  destruct (step_ok c e HI Ha) as (c2 & E2 & HI2). by assert (c' = c2) as -> by congruence.
Qed.

(** C29. No socket leaks and none is used twice: the sockets opened so far are,
    each exactly once, closed, handed to the new-connection callback, or the one
    being connected. *)
Theorem sockets_accounted c :
  reachable c ->
  opened (log c) = seq 0 (nsockets c) /\ NoDup (disposed (log c) ++ in_progress c) /\
  disposed (log c) ++ in_progress c ≡ₚ opened (log c).
Proof.
  intros HI%connector_reachable_inv. split_and!; try apply HI.
  rewrite (inv_sockets c HI), (inv_opened c HI). apply NoDup_seq.
Qed.

(** Started when idle, restarted when its connection is gone, stopped at any
    time: no assert of the connector fails, whatever [connect] and the socket
    answer, but one: [stop] aborts when the retry it cancels is the last timer of
    the queue, and only then. *)
Theorem connector_progress c e :
  reachable c ->
  (allowed c e -> exists c', step c e = Ok c' /\ reachable c') /\
  (timers c <> [] -> step c (Stop true) = Err AssertFailed).
Proof.
  intros Hr. pose proof (connector_reachable_inv c Hr) as HI. split.
  - intros Ha. destruct (step_ok c e HI Ha) as (c' & E & _). exists c'. split; [done|]. by eapply reach_step.
  - intros Ht. simpl. rewrite stop_spec by done. by rewrite bool_decide_true.
Qed.

(** ** The delays of the retries *)

(** The next delay. *)
Definition slower (ms : Z) : Z := Z.min (ms * 2) kMaxRetryDelayMs.
Fixpoint backoff (ms : Z) (k : nat) : list Z :=
  match k with O => [] | S k => ms :: backoff (slower ms) k end.

(** [k] retries from [c] to [c']. *)
Definition retried (c c' : t) : Prop :=
  exists k, retries (log c') = retries (log c) ++ backoff (retryDelayMs_ c) k /\
    retryDelayMs_ c' = Nat.iter k slower (retryDelayMs_ c).

Lemma backoff_app ms k1 k2 :
  backoff ms k1 ++ backoff (Nat.iter k1 slower ms) k2 = backoff ms (k1 + k2).
Proof.
  revert ms. induction k1 as [|k1 IH]; intros ms; [done|]. simpl. f_equal.
  by rewrite <- IH, <- Nat.iter_succ_r.
Qed.

Lemma retried_refl c c' :
  retries (log c') = retries (log c) -> retryDelayMs_ c' = retryDelayMs_ c -> retried c c'.
Proof. intros H1 H2. exists 0%nat. by rewrite H1, app_nil_r. Qed.

Lemma retried_trans c1 c2 c3 : retried c1 c2 -> retried c2 c3 -> retried c1 c3.
Proof.
  intros (k1 & H1 & D1) (k2 & H2 & D2). exists (k1 + k2)%nat.
  rewrite H2, H1, D2, D1, <- app_assoc, backoff_app. split; [done|].
  by rewrite Nat.add_comm, Nat.iter_add.
Qed.

Lemma retried_retry c s : retried c (retry c s).
Proof.
  unfold retry. simpl. destruct (connect_ c).
  - exists 1%nat. simpl. unfold retries. rewrite !omap_app. simpl. by rewrite app_nil_r.
  - apply retried_refl; [|done]. simpl. unfold retries. rewrite omap_app. by rewrite app_nil_r.
Qed.

Lemma retried_startInLoop c c' : startInLoop c = Ok c' -> retried c c'.
Proof.
  unfold startInLoop. intros E. inv_ok. destruct (connect_ c); [|inv_ok; by apply retried_refl].
  unfold connect in *.
  assert (H1 : retried c (snd (create_socket c))).
  { unfold create_socket. destruct (socket_fails _); (apply retried_refl; [|done]); [done|].
    simpl. unfold retries. rewrite omap_app. by rewrite app_nil_r. }
  destruct (fst (create_socket c)) as [sockfd|]; [|by inv_ok].
  destruct (classify _).
  - unfold connecting in *. inv_ok. apply (retried_trans _ _ _ H1). by apply retried_refl.
  - inv_ok. apply (retried_trans _ _ _ H1), retried_retry.
  - inv_ok. apply (retried_trans _ _ _ H1). apply retried_refl; [|done].
    simpl. unfold retries. rewrite !omap_app. by rewrite app_nil_r.
Qed.

Lemma retried_handle c so self cb c' : handle c so self cb = Ok c' -> retried c c'.
Proof.
  assert (Hr : forall v, removeAndResetChannel c = Ok v -> retried c (snd v)).
  { unfold removeAndResetChannel. intros v E. destruct (channel_ c) as [[s b]|]; [|done].
    inv_ok. by apply retried_refl. }
  destruct cb; simpl; intros E; try (inv_ok; by apply retried_refl).
  - unfold handleError in E. inv_ok. eapply retried_trans; [by apply Hr|]. apply retried_retry.
  - unfold handleWrite in E. destruct (bool_decide _); [|inv_ok; by apply retried_refl].
    inv_ok. eapply retried_trans; [by apply Hr|].
    destruct (negb (so =? 0)); [inv_ok; apply retried_retry|].
    destruct self; inv_ok; [apply retried_retry|]. apply retried_refl; [|done].
    simpl. unfold retries. rewrite omap_app. destruct (connect_ _); by rewrite app_nil_r.
Qed.

Lemma retried_step c e c' : e <> Restart -> step c e = Ok c' -> retried c c'.
Proof.
  intros He E. destruct e as [| |last| |revents so self|]; simpl in E; try done.
  - by apply retried_startInLoop in E.
  - apply stop_same in E as (l & ->). by apply retried_refl.
  - destruct (timers c); [inv_ok; by apply retried_refl|]. by apply retried_startInLoop in E.
  - unfold handleEvent in E. revert c E. generalize (fst (Channel.handleEvent
      (Channel.set_callbacks (Channel.set_revents (Channel.new 0) revents) false true true false))).
    intros cbs. induction cbs as [|cb cbs IH]; intros c E; simpl in E.
    + inv_ok. by apply retried_refl.
    + inv_ok. eapply retried_trans; [by eapply retried_handle|]. by apply IH.
  - destruct (resets c); inv_ok; by apply retried_refl.
Qed.

Fixpoint steps (c : t) (es : list event) : res t :=
  match es with
  | [] => Ok c
  | e :: es => c ← step c e ; steps c es
  end.

Lemma backoff_closed k : forall j,
  backoff (Z.min (kInitRetryDelayMs * 2 ^ Z.of_nat j) kMaxRetryDelayMs) k =
  (fun i => Z.min (kInitRetryDelayMs * 2 ^ Z.of_nat i) kMaxRetryDelayMs) <$> seq j k.
Proof.
  induction k as [|k IH]; intros j; [done|]. simpl. f_equal. rewrite <- IH. f_equal.
  unfold slower. rewrite Nat2Z.inj_succ, Z.pow_succ_r by lia.
  unfold kInitRetryDelayMs, kMaxRetryDelayMs. pose proof (Z.pow_pos_nonneg 2 (Z.of_nat j)). lia.
Qed.

Lemma retried_steps es : forall c c', Restart ∉ es -> steps c es = Ok c' -> retried c c'.
Proof.
  induction es as [|e es IH]; intros c c' Hn E; simpl in E; [inv_ok; by apply retried_refl|].
  apply not_elem_of_cons in Hn as [Hne Hn]. inv_ok.
  eapply retried_trans; [by eapply retried_step|]. by apply IH.
Qed.

(** The first [k] delays. *)
Definition delays (k : nat) : list Z :=
  (fun i => Z.min (500 * 2 ^ Z.of_nat i) 30000) <$> seq 0 k.

(** C30. From its construction, and again from each restart, whatever happened
    before, the [k]-th retry of a connector waits [500 * 2^k] milliseconds, and
    never more than 30 seconds; the attempt that the restart itself makes counts. *)
Theorem retry_backoff c es c' :
  Restart ∉ es ->
  (steps init es = Ok c' -> exists k, retries (log c') = delays k) /\
  (steps c (Restart :: es) = Ok c' -> exists k, retries (log c') = retries (log c) ++ delays k).
Proof.
  intros Hn. split; intros E.
  - destruct (retried_steps _ _ _ Hn E) as (k & H & _). exists k. rewrite H. apply (backoff_closed k 0).
  - simpl in E. apply bind_ok in E as (c1 & E1 & E). apply retried_startInLoop in E1.
    destruct (retried_trans _ _ _ E1 (retried_steps _ _ _ Hn E)) as (k & H & _).
    exists k. rewrite H. simpl. f_equal. apply (backoff_closed k 0).
Qed.

(** A connector stopped while it connects cannot be started again: when the
    connection succeeds its socket is closed but the state stays [kConnected], and
    the assert of [startInLoop] fails. *)
Theorem stopped_cannot_start c s last :
  reachable c -> channel_ c = Some (s, true) ->
  exists c1 c2, step c (Stop last) = Ok c1 /\ step c1 (Ready Channel.POLLOUT 0 false) = Ok c2 /\
    disposed (log c2) = disposed (log c) ++ [s] /\ state_ c2 = kConnected /\
    step c2 Start = Err AssertFailed.
Proof.
  intros HI%connector_reachable_inv Hc. pose proof (inv_channel c HI) as H3. rewrite Hc in H3.
  destruct H3 as [Hs Hr]. eexists _, _. split.
  { simpl. rewrite stop_spec by done. rewrite bool_decide_false; [reflexivity|].
    intros Hn. destruct (inv_timers c HI Hn) as [? _]. congruence. }
  split.
  - unfold step, handleEvent, Channel.handleEvent. simpl. unfold handleWrite, removeAndResetChannel.
    simpl. rewrite Hs, bool_decide_true, Hc by done. reflexivity.
  - simpl. split; [|done]. unfold disposed. by rewrite omap_app.
Qed.

End connector.
(** ** A run: the first attempt is refused, the second succeeds *)

#[local] Instance demo_net : Net := {| socket_fails _ := false; connect_errno _ := EINPROGRESS |}.

Definition default_ok (m : res t) : t := match m with Ok c => c | Err _ => init end.

Definition next (c : t) (e : event) : t := match step c e with Ok c' => c' | Err _ => c end.

Lemma connector_reach_next c e :
  reachable c -> allowed c e -> is_ok (step c e) = true -> reachable (next c e).
Proof.
  intros Hr Ha E. apply (reach_step c e); [done|done|]. unfold next. by destruct (step c e).
Qed.

Definition demo_started : t := next init Start.
Definition demo_refused : t := next demo_started (Ready (Channel.POLLERR + Channel.POLLOUT) 111 false).
Definition demo_reset : t := next demo_refused Functor.
Definition demo_retrying : t := next demo_reset Timer.
Definition demo_connected : t := next demo_retrying (Ready Channel.POLLOUT 0 false).

Lemma demo_started_reachable : reachable demo_started.
Proof. apply (connector_reach_next init Start reach_init); [by split_and!|by vm_compute]. Qed.

Lemma demo_reset_reachable : reachable demo_reset.
Proof.
  apply (connector_reach_next demo_refused Functor); [|exact I|by vm_compute].
  apply (connector_reach_next demo_started _ demo_started_reachable); [exists 0%nat|]; by vm_compute.
Qed.

Lemma demo_retrying_reachable : reachable demo_retrying.
Proof. apply (connector_reach_next demo_reset Timer demo_reset_reachable); by vm_compute. Qed.

Lemma demo_connected_reachable : reachable demo_connected.
Proof.
  apply (connector_reach_next demo_retrying _ demo_retrying_reachable); [exists 1%nat|]; by vm_compute.
Qed.

Lemma sockets_accounted_witness :
  disposed (log demo_connected) ++ in_progress demo_connected ≡ₚ [0%nat; 1%nat].
Proof.
  exact (proj2 (proj2 (sockets_accounted demo_connected demo_connected_reachable))).
Defined.

Lemma connector_progress_witness :
  (exists c', step demo_retrying (Ready Channel.POLLERR 104 false) = Ok c' /\ reachable c') /\
  step demo_reset (Stop true) = Err AssertFailed.
Proof.
  split.
  - apply (connector_progress demo_retrying); [apply demo_retrying_reachable|by exists 1%nat].
  - apply (connector_progress demo_reset Functor demo_reset_reachable). vm_compute. discriminate.
Defined.

(** Refused, retried, connected, and restarted when that connection is gone; the new
    attempts are refused, too. *)
Definition refused : event := Ready Channel.POLLERR 111 false.
Definition demo_events : list event := [refused; Functor; Timer; refused].
Definition demo_first : t :=
  default_ok (steps init [Start; refused; Functor; Timer; Ready Channel.POLLOUT 0 false; Functor]).
Definition demo_end : t := default_ok (steps demo_first (Restart :: demo_events)).

Lemma retry_backoff_witness :
  retries (log demo_first) = [500] /\ retries (log demo_end) = [500; 500; 1000] /\
  exists k, retries (log demo_end) = [500] ++ delays k.
Proof.
  assert (E : steps demo_first (Restart :: demo_events) = Ok demo_end) by (vm_compute; reflexivity).
  assert (H1 : retries (log demo_first) = [500]) by (vm_compute; reflexivity).
  assert (Hn : Restart ∉ demo_events) by
    (unfold demo_events; rewrite !not_elem_of_cons; split_and!; try discriminate; apply not_elem_of_nil).
  split; [exact H1|]. split; [vm_compute; reflexivity|].
  rewrite <- H1. exact (proj2 (retry_backoff demo_first demo_events demo_end Hn) E).
Defined.

Lemma stopped_cannot_start_witness :
  exists c1 c2, step demo_retrying (Stop true) = Ok c1 /\
    step c1 (Ready Channel.POLLOUT 0 false) = Ok c2 /\ step c2 Start = Err AssertFailed.
Proof.
  assert (Hc : channel_ demo_retrying = Some (1%nat, true)) by (vm_compute; reflexivity).
  destruct (stopped_cannot_start demo_retrying 1 true demo_retrying_reachable Hc)
    as (c1 & c2 & E1 & E2 & _ & _ & E3).
  exists c1, c2. split; [exact E1|]. split; [exact E2|exact E3].
Defined.

End Connector.
