(* ===== verification/TcpServer.v ===== *)
(** * Acceptor and TcpServer ([Acceptor.h], [Acceptor.cpp], [TcpServer.h], [TcpServer.cpp])

    A connection is named by its number [nextConnId_]; [connections_] maps the
    names to these numbers.  [tasks] are the functors other loops have left in
    the server's loop; [log] is what the server asks of the loops, in order: to
    establish a connection and to destroy it, each with the loop it is given
    to. *)

From S2P Require Import Prelude EventLoopThreadPool.
From stdpp Require Import pretty.

#[local] Open Scope Z_scope.

Module Acceptor.

Record t := mk {
  listening_ : bool;
  (* whether newConnectionCallback_ is set *)
  newConnectionCallback_ : bool
}.

Definition init : t := mk false false.
Definition setNewConnectionCallback (a : t) : t := mk (listening_ a) true.
Definition listen (a : t) : t := mk true (newConnectionCallback_ a).

Inductive accepted := Deliver (connfd : Z) | CloseFd (connfd : Z) | Nothing.

(** [handleRead], with the result of [accept]. *)
Definition handleRead (a : t) (connfd : Z) : accepted :=
  if 0 <=? connfd then
    if newConnectionCallback_ a then Deliver connfd else CloseFd connfd
  else Nothing.

End Acceptor.

Module TcpServer.

(** What the server asks of a loop. *)
Inductive request :=
  | Establish (loop conn : Z)
  | Destroy (loop conn : Z).

Section server.
Context (startLoop : Z -> Z).

Record t := mk {
  loop_ : Z;
  name_ : String.string;
  acceptor_ : Acceptor.t;
  threadPool_ : EventLoopThreadPool.t;
  started_ : bool;
  nextConnId_ : Z;
  connections_ : gmap String.string Z;
  (* the loop of each connection made, newest first *)
  loops : list (Z * Z);
  (* connections whose close callback was called *)
  closed : list Z;
  tasks : list Z;
  log : list request
}.

Definition init (loop : Z) (name : String.string) : t :=
  mk loop name (Acceptor.setNewConnectionCallback Acceptor.init) (EventLoopThreadPool.init loop)
    false 1 ∅ [] [] [] [].

Definition setThreadNum (s : t) (numThreads : Z) : res t :=
  assert_ (0 <=? numThreads) ;;
  Ok (mk (loop_ s) (name_ s) (acceptor_ s)
        (EventLoopThreadPool.setThreadNum (threadPool_ s) numThreads) (started_ s) (nextConnId_ s)
        (connections_ s) (loops s) (closed s) (tasks s) (log s)).

(** [start], called on the loop thread. *)
Definition start (s : t) : res t :=
  pool ← (if started_ s then Ok (threadPool_ s)
          else EventLoopThreadPool.start startLoop (threadPool_ s)) ;
  let acceptor := if Acceptor.listening_ (acceptor_ s) then acceptor_ s
                  else Acceptor.listen (acceptor_ s) in
  Ok (mk (loop_ s) (name_ s) acceptor pool true (nextConnId_ s) (connections_ s) (loops s)
        (closed s) (tasks s) (log s)).

(** [name_ + "#%d"]; 32 bytes hold every [int]. *)
Definition connName (name : String.string) (id : Z) : String.string :=
  String.append name (String.append "#" (pretty id)).

Definition newConnection (s : t) (sockfd : Z) : res t :=
  let id := nextConnId_ s in
  next ← chk32 (id + 1) ;
  r ← EventLoopThreadPool.getNextLoop (threadPool_ s) ;
  let ioLoop := fst r in
  Ok (mk (loop_ s) (name_ s) (acceptor_ s) (snd r) (started_ s) next
        (<[connName (name_ s) id := id]> (connections_ s)) ((id, ioLoop) :: loops s)
        (closed s) (tasks s) (log s ++ [Establish ioLoop id])).

(** [conn->getLoop()]. *)
Definition getLoop (s : t) (conn : Z) : Z :=
  match find (fun p => fst p =? conn) (loops s) with Some p => snd p | None => 0 end.

Definition removeConnectionInLoop (s : t) (conn : Z) : res t :=
  let name := connName (name_ s) conn in
  assert_ (negb (bool_decide (connections_ s !! name = None))) ;;
  Ok (mk (loop_ s) (name_ s) (acceptor_ s) (threadPool_ s) (started_ s) (nextConnId_ s)
        (delete name (connections_ s)) (loops s) (closed s) (tasks s)
        (log s ++ [Destroy (getLoop s conn) conn])).

(** [removeConnection], the close callback, called on the connection's loop. *)
Definition removeConnection (s : t) (conn : Z) : res t :=
  let s := mk (loop_ s) (name_ s) (acceptor_ s) (threadPool_ s) (started_ s) (nextConnId_ s)
             (connections_ s) (loops s) (conn :: closed s) (tasks s) (log s) in
  if getLoop s conn =? loop_ s then removeConnectionInLoop s conn
  else Ok (mk (loop_ s) (name_ s) (acceptor_ s) (threadPool_ s) (started_ s) (nextConnId_ s)
             (connections_ s) (loops s) (closed s) (tasks s ++ [conn]) (log s)).

(** The acceptor's channel is ready. *)
Definition handleRead (s : t) (connfd : Z) : res t :=
  match Acceptor.handleRead (acceptor_ s) connfd with
  | Acceptor.Deliver fd => newConnection s fd
  | _ => Ok s
  end.

Inductive event :=
  | Start
  | Accept (connfd : Z)
  | Close (conn : Z)
  | RunTask.

Definition step (s : t) (e : event) : res t :=
  match e with
  | Start => start s
  | Accept connfd => handleRead s connfd
  | Close conn => removeConnection s conn
  | RunTask =>
      match tasks s with
      | [] => Ok s
      | conn :: l =>
          removeConnectionInLoop
            (mk (loop_ s) (name_ s) (acceptor_ s) (threadPool_ s) (started_ s) (nextConnId_ s)
               (connections_ s) (loops s) (closed s) l (log s)) conn
      end
  end.

(** ** The invariant *)

Definition established (l : list request) : list Z :=
  omap (fun r => match r with Establish _ c => Some c | _ => None end) l.
Definition destroyed (l : list request) : list Z :=
  omap (fun r => match r with Destroy _ c => Some c | _ => None end) l.
(** Every connection is destroyed on the loop it was established on. *)
Definition same_loop (l : list request) : Prop :=
  forall lp1 lp2 c, Establish lp1 c ∈ l -> Destroy lp2 c ∈ l -> lp1 = lp2.

Definition made (s : t) (c : Z) : Prop := 1 <= c < nextConnId_ s.

Lemma connName_inj name c1 c2 : connName name c1 = connName name c2 -> c1 = c2.
Proof.
  unfold connName. intros H. apply (inj (String.append name)) in H.
  apply (inj (String.append "#")) in H. by apply (inj pretty) in H.
Qed.

Record Inv (s : t) : Prop := {
  inv_next : 1 <= nextConnId_ s;
  inv_established : established (log s) = (fun i => Z.of_nat i) <$> seq 1 (Z.to_nat (nextConnId_ s - 1));
  inv_map : forall n c, connections_ s !! n = Some c <->
    n = connName (name_ s) c /\ made s c /\ c ∉ destroyed (log s);
  inv_destroyed : NoDup (destroyed (log s) ++ tasks s);
  inv_closed : forall c, c ∈ closed s <-> c ∈ destroyed (log s) ++ tasks s;
  inv_made : forall c, c ∈ closed s -> made s c;
  inv_loops : forall lp c, Establish lp c ∈ log s <-> made s c /\ getLoop s c = lp;
  inv_same : forall lp c, Destroy lp c ∈ log s -> getLoop s c = lp;
  inv_pool : EventLoopThreadPool.loops_ (threadPool_ s) = [] \/
    0 <= EventLoopThreadPool.next_ (threadPool_ s) < zlen (EventLoopThreadPool.loops_ (threadPool_ s));
  inv_start : started_ s = EventLoopThreadPool.started_ (threadPool_ s) /\
    (started_ s = false -> EventLoopThreadPool.loops_ (threadPool_ s) = [] /\
       EventLoopThreadPool.next_ (threadPool_ s) = 0)
}.

(** Each connection calls its close callback at most once (its life cycle). *)
Definition allowed (s : t) (e : event) : Prop :=
  match e with
  | Close conn => made s conn /\ conn ∉ closed s
  | _ => True
  end.

(** ** Every allowed event returns and keeps the invariant *)

Lemma next_loop_ok p :
  EventLoopThreadPool.loops_ p = [] \/
    0 <= EventLoopThreadPool.next_ p < zlen (EventLoopThreadPool.loops_ p) ->
  exists lp p', EventLoopThreadPool.getNextLoop p = Ok (lp, p') /\
    EventLoopThreadPool.loops_ p' = EventLoopThreadPool.loops_ p /\
    EventLoopThreadPool.started_ p' = EventLoopThreadPool.started_ p /\
    (EventLoopThreadPool.loops_ p = [] -> p' = p) /\
    (EventLoopThreadPool.loops_ p' = [] \/
      0 <= EventLoopThreadPool.next_ p' < zlen (EventLoopThreadPool.loops_ p')).
Proof.
  intros H. unfold EventLoopThreadPool.getNextLoop.
  destruct (EventLoopThreadPool.loops_ p) as [|x l] eqn:Hl.
  - exists (EventLoopThreadPool.baseLoop_ p), p. rewrite Hl. by split_and!; auto.
  - destruct H as [|H]; [done|].
    replace ((0 <=? EventLoopThreadPool.next_ p) && (EventLoopThreadPool.next_ p <? zlen (x :: l)))
      with true by lia.
    change (check true OutOfBounds) with (Ok ()). rewrite bind_ret_l.
    eexists _, _. split; [reflexivity|]. cbn [EventLoopThreadPool.loops_ EventLoopThreadPool.started_ EventLoopThreadPool.next_].
    split_and!; try done. right. destruct (Z.leb_spec (zlen (x :: l)) (EventLoopThreadPool.next_ p + 1)); lia.
Qed.

Lemma seq_last n : 1 <= n ->
  ((fun i => Z.of_nat i) <$> seq 1 (Z.to_nat (n - 1))) ++ [n] =
  (fun i => Z.of_nat i) <$> seq 1 (Z.to_nat (n + 1 - 1)).
Proof.
  intros H. replace (Z.to_nat (n + 1 - 1)) with (S (Z.to_nat (n - 1))) by lia.
  rewrite seq_S, fmap_app. simpl. do 2 f_equal. lia.
Qed.

Lemma newConnection_ok s fd :
  Inv s -> nextConnId_ s < 2 ^ 31 - 1 -> exists s', newConnection s fd = Ok s' /\ Inv s'.
Proof.
  intros [H1 H2 H3 H4 H5 H6 H7 H8 H9 H10] Hlt. unfold newConnection.
  rewrite chk32_in by lia. rewrite bind_ret_l.
  destruct (next_loop_ok _ H9) as (lp & p' & -> & Hl & Hst & Hsame & Hp'). simpl.
  eexists. split; [reflexivity|].
  set (id := nextConnId_ s) in *. assert (Hid : id = nextConnId_ s) by done. clearbody id.
  assert (Hmade : forall c, made s c -> c <> id) by (unfold made; lia).
  assert (Hnew : ~ made s id) by (unfold made; lia).
  assert (Hd : forall c, c ∈ destroyed (log s) -> made s c).
  { intros c Hc. apply H6, H5, elem_of_app. by left. }
  assert (Hes : established (log s ++ [Establish lp id]) = established (log s) ++ [id])
    by (unfold established; by rewrite omap_app).
  assert (Hde : destroyed (log s ++ [Establish lp id]) = destroyed (log s))
    by (unfold destroyed; rewrite omap_app; apply app_nil_r).
  split; cbn [nextConnId_ log connections_ name_ tasks closed threadPool_ started_ loop_ loops];
    rewrite ?Hes, ?Hde; try done.
  - lia.
  - rewrite H2. by apply seq_last.
  - intros n c. rewrite lookup_insert_Some. unfold made. simpl. split.
    + intros [[<- <-]|[Hne (-> & Hm & Hnd)%H3]]; [|unfold made in Hm; split_and!; try done; lia].
      split_and!; try done; try lia. intros Hin. by apply Hnew, Hd.
    + intros (-> & Hr & Hnd). destruct (decide (c = id)) as [->|Hne]; [by left|]. right. split.
      * intros Heq. apply Hne. by apply connName_inj in Heq.
      * apply H3. unfold made. split_and!; try done; lia.
  - intros c Hc. specialize (H6 c Hc). unfold made in *. simpl. lia.
  - intros lp' c. rewrite elem_of_app, list_elem_of_singleton, H7. unfold made, getLoop. simpl.
    destruct (Z.eqb_spec id c) as [<-|Hne].
    + split; [|intros [_ <-]; by right]. intros [[Hm _]|[= ->]]; [lia|]. split; [lia|done].
    + split; [intros [[Hm <-]|[= _ Heq]]; [split; [lia|done]|congruence]|].
      intros [Hm <-]. left. split; [lia|done].
  - intros lp' c. rewrite elem_of_app, list_elem_of_singleton. intros [Hin|]; [|done].
    unfold getLoop. simpl. destruct (Z.eqb_spec id c) as [<-|Hne]; [|by apply H8].
    exfalso. apply Hnew, Hd, list_elem_of_omap. by exists (Destroy lp' id).
  - rewrite Hst. split; [apply H10|]. intros Hf. destruct (proj2 H10 Hf) as [Hnil Hz].
    by rewrite Hsame.
Qed.

Lemma server_remove_ok s l conn :
  Inv s -> tasks s ≡ₚ conn :: l ->
  exists s', removeConnectionInLoop
    (mk (loop_ s) (name_ s) (acceptor_ s) (threadPool_ s) (started_ s) (nextConnId_ s)
       (connections_ s) (loops s) (closed s) l (log s)) conn = Ok s' /\ Inv s'.
Proof.
  intros [H1 H2 H3 H4 H5 H6 H7 H8 H9 H10] Ht. unfold removeConnectionInLoop. simpl.
  assert (Hperm : (destroyed (log s) ++ [conn]) ++ l ≡ₚ destroyed (log s) ++ tasks s).
  { by rewrite Ht, <- app_assoc. }
  assert (Hnd : NoDup ((destroyed (log s) ++ [conn]) ++ l)) by (by rewrite Hperm).
  assert (Hc : conn ∈ closed s) by (apply H5; rewrite Ht; set_solver).
  assert (Hin : connections_ s !! connName (name_ s) conn = Some conn).
  { apply H3. split_and!; auto. rewrite <- app_assoc in Hnd. apply NoDup_app in Hnd. set_solver. }
  rewrite bool_decide_false by (by rewrite Hin). simpl.
  match goal with |- context [getLoop ?x conn] => change (getLoop x conn) with (getLoop s conn) end.
  eexists. split; [reflexivity|].
  assert (Hes : established (log s ++ [Destroy (getLoop s conn) conn]) = established (log s))
    by (unfold established; rewrite omap_app; apply app_nil_r).
  assert (Hdes : destroyed (log s ++ [Destroy (getLoop s conn) conn]) = destroyed (log s) ++ [conn])
    by (unfold destroyed; by rewrite omap_app).
  split; cbn [nextConnId_ log connections_ name_ tasks closed threadPool_ started_ loop_ loops]; rewrite ?Hes, ?Hdes; try done.
  - intros n c. rewrite lookup_delete_Some, H3, not_elem_of_app, list_elem_of_singleton. unfold made; simpl.
    split.
    + intros (Hne & -> & Hm & Hn). split_and!; try done; try lia. by intros ->.
    + intros (-> & Hm & Hn & Hne). split_and!; try done; try lia. intros Heq. by apply connName_inj in Heq.
  - intros c. by rewrite Hperm.
  - intros lp c. rewrite elem_of_app, list_elem_of_singleton.
    split; [intros [Hx|]; [by apply H7|done]|intros Hx; left; by apply H7].
  - intros lp c. rewrite elem_of_app, list_elem_of_singleton. intros [Hx|[= -> ->]]; [by apply H8|done].
Qed.

Lemma close_inv s conn :
  Inv s -> made s conn -> conn ∉ closed s ->
  Inv (mk (loop_ s) (name_ s) (acceptor_ s) (threadPool_ s) (started_ s) (nextConnId_ s)
         (connections_ s) (loops s) (conn :: closed s) (tasks s ++ [conn]) (log s)).
Proof.
  intros [H1 H2 H3 H4 H5 H6 H7 H8 H9 H10] Hm Hc. split; simpl; try done.
  - rewrite app_assoc. apply NoDup_app. split_and!; [done| |by apply NoDup_singleton].
    intros c Hin ->%list_elem_of_singleton. by apply Hc, H5.
  - intros c. rewrite app_assoc, elem_of_app, <- H5, elem_of_cons, list_elem_of_singleton. tauto.
  - intros c [->|Hin]%elem_of_cons; [done|]. by apply H6.
Qed.

Lemma server_start_ok s : Inv s -> exists s', start s = Ok s' /\ Inv s'.
Proof.
  intros [H1 H2 H3 H4 H5 H6 H7 H8 H9 H10].
  destruct H10 as [He Hp]. destruct (started_ s) eqn:Hst.
  { unfold start. rewrite Hst. simpl. eexists. by split. }
  destruct (Hp eq_refl) as [Hl Hn]. unfold start. rewrite Hst.
  unfold EventLoopThreadPool.start. rewrite <- He, Hl. simpl. eexists. split; [reflexivity|].
  split; simpl; try done. rewrite Hn. set (sl := EventLoopThreadPool.start_loops _ _).
  destruct sl as [|x l] eqn:Hsl; [by left|]. right. zl.
Qed.

Lemma server_step_ok s e :
  Inv s -> allowed s e -> nextConnId_ s < 2 ^ 31 - 1 ->
  exists s', step s e = Ok s' /\ Inv s'.
Proof.
  intros HI Ha Hid. destruct e as [|fd|conn|]; simpl.
  - by apply server_start_ok.
  - unfold handleRead. case_match; try by exists s. by apply newConnection_ok.
  - destruct Ha as [Hm Hc]. assert (HI2 := close_inv s conn HI Hm Hc). unfold removeConnection.
    cbn [loop_ name_ acceptor_ threadPool_ started_ nextConnId_ connections_ loops closed tasks log].
    destruct (_ =? _); [|by eexists].
    apply (server_remove_ok _ (tasks s) conn HI2). simpl. by rewrite Permutation_app_comm.
  - destruct (tasks s) as [|c l] eqn:Ht; [by exists s|]. apply (server_remove_ok s l c HI). by rewrite Ht.
Qed.

Inductive reachable (loop : Z) (name : String.string) : t -> Prop :=
  | reach_init n s : setThreadNum (init loop name) n = Ok s -> reachable loop name s
  | reach_step s e s' : reachable loop name s -> allowed s e ->
      nextConnId_ s < 2 ^ 31 - 1 -> step s e = Ok s' -> reachable loop name s'.

Lemma server_reachable_inv loop name s : reachable loop name s -> Inv s.
Proof.
  induction 1 as [n s E|s e s' _ HI Ha Hid E].
  - unfold setThreadNum in E. inv_ok. split; simpl; try done; try set_solver.
    + intros n' c. rewrite lookup_empty. unfold made. simpl. split; [done|]. lia.
    + apply NoDup_nil_2.
    + intros lp c. unfold made. simpl. split; [set_solver|]. lia.
  - destruct (server_step_ok s e HI Ha Hid) as (s2 & E2 & HI2). by assert (s' = s2) as -> by congruence.
Qed.

(** The map of the server holds exactly the connections made and not yet
    removed, each under its own name, whatever the order of accepts and closes on
    all the loops; every connection is asked to be established once, and to be
    destroyed at most once, after that, and on the same loop. *)
Theorem server_connections loop name s :
  reachable loop name s ->
  (forall n c, connections_ s !! n = Some c <->
     n = connName (name_ s) c /\ c ∈ established (log s) /\ c ∉ destroyed (log s)) /\
  NoDup (established (log s)) /\ NoDup (destroyed (log s)) /\
  destroyed (log s) ⊆ established (log s) /\
  same_loop (log s).
Proof.
  intros [H1 H2 H3 H4 H5 H6 H7 H8 H9 H10]%server_reachable_inv.
  assert (Hm : forall c, c ∈ established (log s) <-> made s c).
  { intros c. rewrite H2, list_elem_of_fmap. setoid_rewrite elem_of_seq. unfold made. split.
    - intros (i & -> & Hi). lia.
    - intros Hc. exists (Z.to_nat c). lia. }
  split_and!.
  - intros n c. by rewrite Hm.
  - rewrite H2. apply NoDup_fmap_2; [intros ???; lia|apply NoDup_seq].
  - by apply NoDup_app in H4 as [? _].
  - intros c Hc. apply Hm, H6, H5, elem_of_app. by left.
  - intros lp1 lp2 c [_ <-]%H7 <-%H8. done.
Qed.

(** The assert of [removeConnectionInLoop] never fails: as long as the
    connection numbers fit an [int], every accept, close and queued removal
    returns. *)
Theorem server_progress loop name s e :
  reachable loop name s -> allowed s e ->
  nextConnId_ s < 2 ^ 31 - 1 ->
  exists s', step s e = Ok s' /\ reachable loop name s'.
Proof.
  intros Hr Ha Hid.
  destruct (server_step_ok s e (server_reachable_inv loop name s Hr) Ha Hid) as (s' & E & _).
  exists s'. split; [done|]. by eapply reach_step.
Qed.

End server.
(** ** A run: two threads, two connections, one closed *)

Definition loops_of (i : Z) : Z := 10 + i.
Definition or_self (s : t) (m : res t) : t := match m with Ok s' => s' | Err _ => s end.
Definition demo_init : t := or_self (init 1 "s") (setThreadNum (init 1 "s") 2).
Definition next (s : t) (e : event) : t := or_self s (step loops_of s e).
Definition demo_two : t := next (next (next demo_init Start) (Accept 5)) (Accept 6).
Definition demo_closed : t := next demo_two (Close 1).

Lemma server_reach_next s e :
  reachable loops_of 1 "s" s -> allowed s e -> (nextConnId_ s <? 2 ^ 31 - 1) = true ->
  is_ok (step loops_of s e) = true -> reachable loops_of 1 "s" (next s e).
Proof.
  intros Hr Ha Hid E. apply (reach_step loops_of 1 "s" s e); [done|done|lia|].
  unfold next. by destruct (step loops_of s e).
Qed.

Lemma demo_closed_reachable : reachable loops_of 1 "s" demo_closed.
Proof.
  apply server_reach_next; [| |vm_compute; reflexivity..].
  2:{ split; [vm_compute; split; [discriminate|reflexivity]|apply not_elem_of_nil]. }
  apply server_reach_next; [|exact I|vm_compute; reflexivity..].
  apply server_reach_next; [|exact I|vm_compute; reflexivity..].
  apply server_reach_next; [|exact I|vm_compute; reflexivity..].
  apply (reach_init loops_of 1 "s" 2). vm_compute. reflexivity.
Qed.

Lemma server_connections_witness :
  log demo_closed = [Establish 10 1; Establish 11 2] /\ same_loop (log demo_closed).
Proof.
  split; [vm_compute; reflexivity|].
  pose proof (server_connections loops_of 1 "s" demo_closed demo_closed_reachable) as H.
  exact (proj2 (proj2 (proj2 (proj2 H)))).
Defined.

Lemma server_progress_witness :
  exists s', step loops_of demo_closed RunTask = Ok s' /\ reachable loops_of 1 "s" s'.
Proof.
  apply (server_progress loops_of 1 "s" demo_closed RunTask demo_closed_reachable I).
  vm_compute. reflexivity.
Defined.

End TcpServer.
