(* ===== verification/Service.v ===== *)
(** * Service: a server, its connections and the pollers of its loops

    [TcpServer] describes the server alone and [TcpConnection] one connection
    alone; here they run together.  [pollers] gives the poller of every loop,
    which all the channels of that loop share; [conns] holds the connection
    objects by their number; [queued] gives the functors the server has left in
    each loop, first to run first.  A connection reports that it closes to the
    server, the server unregisters it and has it destroyed on its own loop, and
    the object and its channel go away with the last reference. *)

From S2P Require Import Prelude Channel ChannelOwner EPoller TcpConnection ConnectionFrame.
From S2P Require Import EventLoopThreadPool TcpServer Buffer.
From stdpp Require Import functions pretty.

#[local] Open Scope Z_scope.

Module Service.
Import ConnectionFrame.
#[local] Existing Instance TcpConnection.StateE_eq_dec.

Section service.
Context {P : Type} `{HH : ChannelHost P} `{HS : TcpConnection.Socket}
  (cb : TcpConnection.callbacks (P := P)) (startLoop : Z -> Z).

Notation connection := (TcpConnection.t (P := P)).
Notation request := TcpServer.request.

Record t := mk {
  server : TcpServer.t;
  (* the address of the acceptor's channel *)
  acceptChannel_ : Z;
  pollers : Z -> P;
  conns : gmap Z connection;
  queued : Z -> list request
}.

(** [TcpServer(loop, ...)], whose [Acceptor] makes a channel for the listening
    descriptor. *)
Definition init (loop : Z) (name : String.string) (pl : Z -> P) (p listenfd : Z) : t :=
  mk (TcpServer.init loop name) p (<[loop := newChannel (pl loop) p listenfd]> pl) ∅ (fun _ => []).

Definition base (y : t) : Z := TcpServer.loop_ (server y).
Definition loopOf (y : t) (id : Z) : Z := TcpServer.getLoop (server y) id.

Definition request_loop (r : request) : Z :=
  match r with TcpServer.Establish lp _ | TcpServer.Destroy lp _ => lp end.
Definition enqueue (q : Z -> list request) (r : request) : Z -> list request :=
  <[request_loop r := q (request_loop r) ++ [r]]> q.

(** The server moves on, and what it newly asks for is queued in the loops. *)
Definition serve (y : t) (s : TcpServer.t) : t :=
  mk s (acceptChannel_ y) (pollers y) (conns y)
    (foldl enqueue (queued y) (drop (length (TcpServer.log (server y))) (TcpServer.log s))).

(** [Acceptor::listen] enables the acceptor's channel. *)
Definition start (y : t) : res t :=
  s ← TcpServer.start startLoop (server y) ;
  if Acceptor.listening_ (TcpServer.acceptor_ (server y)) then Ok (serve y s)
  else
    l ← update (pollers y (base y)) Channel.EnableReading (acceptChannel_ y) ;
    Ok (mk s (acceptChannel_ y) (<[base y := l]> (pollers y)) (conns y) (queued y)).

(** The connection [w] with the poller of its loop. *)
Definition conn_at (y : t) (id : Z) (w : connection) : connection :=
  TcpConnection.set_loop w (pollers y (loopOf y id)).

Definition put (y : t) (id : Z) (w : connection) : t :=
  mk (server y) (acceptChannel_ y) (<[loopOf y id := TcpConnection.loop_ w]> (pollers y))
    (<[id := w]> (conns y)) (queued y).

(** The close callback of connection [id], [n] times. *)
Fixpoint closing (n : nat) (y : t) (id : Z) : res t :=
  match n with
  | O => Ok y
  | S n => s ← TcpServer.removeConnection (server y) id ; closing n (serve y s) id
  end.

(** One step of connection [id]. *)
Definition drive (y : t) (id : Z) (e : TcpConnection.event) : res t :=
  match conns y !! id with
  | None => Err NullDeref
  | Some w =>
      w' ← TcpConnection.step cb (conn_at y id w) e ;
      closing (closes (TcpConnection.log w') - closes (TcpConnection.log w)) (put y id w') id
  end.

(** [handleRead] of the acceptor: the connection and its channel are made, and
    established at once when its loop is the server's. *)
Definition accept (y : t) (connfd p : Z) : res t :=
  match Acceptor.handleRead (TcpServer.acceptor_ (server y)) connfd with
  | Acceptor.Deliver fd =>
      let id := TcpServer.nextConnId_ (server y) in
      s ← TcpServer.newConnection (server y) fd ;
      let lp := TcpServer.getLoop s id in
      let l := newChannel (pollers y lp) p fd in
      let y := mk s (acceptChannel_ y) (<[lp := l]> (pollers y))
                 (<[id := TcpConnection.init l p]> (conns y)) (queued y) in
      if lp =? base y then drive y id TcpConnection.Established
      else Ok (mk (server y) (acceptChannel_ y) (pollers y) (conns y)
                 (enqueue (queued y) (TcpServer.Establish lp id)))
  | _ => Ok y
  end.

(** The last reference goes: [~TcpConnection] frees the channel. *)
Definition release (y : t) (id : Z) : t :=
  match conns y !! id with
  | None => y
  | Some w =>
      let lp := loopOf y id in
      mk (server y) (acceptChannel_ y)
        (<[lp := deleteChannel (pollers y lp) (TcpConnection.channel_ w)]> (pollers y))
        (delete id (conns y)) (queued y)
  end.

(** Loop [lp] runs the first functor the server left it. *)
Definition work (y : t) (lp : Z) : res t :=
  match queued y lp with
  | [] => Ok y
  | r :: rs =>
      let y := mk (server y) (acceptChannel_ y) (pollers y) (conns y) (<[lp := rs]> (queued y)) in
      match r with
      | TcpServer.Establish _ id => drive y id TcpConnection.Established
      | TcpServer.Destroy _ id =>
          y ← drive y id TcpConnection.Destroyed ;
          Ok (release y id)
      end
  end.

Inductive event :=
  | Start
  | Accept (connfd p : Z)
  | Ready (id revents : Z) (rv : Buffer.readv_result)
  | Functor (id : Z)
  (* a step of another thread *)
  | Foreign (id : Z) (e : TcpConnection.event)
  | RunTask
  | Work (lp : Z).

Definition step (y : t) (e : event) : res t :=
  match e with
  | Start => start y
  | Accept connfd p => accept y connfd p
  | Ready id revents rv => drive y id (TcpConnection.Ready revents rv)
  | Functor id => drive y id TcpConnection.Functor
  | Foreign id e => drive y id e
  | RunTask =>
      s ← TcpServer.step startLoop (server y) TcpServer.RunTask ;
      Ok (serve y s)
  | Work lp => work y lp
  end.

(** The kernel hands out a descriptor that no channel has, and a new channel is
    at an address that no channel has; the events of a connection are those its
    own file allows; a connection is destroyed when its queued calls have run. *)
Definition allowed (y : t) (e : event) : Prop :=
  match e with
  | Start | RunTask => True
  | Accept connfd p => forall lp, channelAt (pollers y lp) p = None /\
      forall q c, channelAt (pollers y lp) q = Some c -> Channel.fd_ c <> connfd
  | Ready id revents rv => exists w, conns y !! id = Some w /\
      TcpConnection.allowed TcpConnection.Strict (conn_at y id w) (TcpConnection.Ready revents rv)
  | Functor id => exists w, conns y !! id = Some w /\ TcpConnection.pending w <> [] /\
      TcpConnection.allowed TcpConnection.Strict (conn_at y id w) TcpConnection.Functor
  | Foreign id e => TcpConnection.foreign e = true /\ exists w, conns y !! id = Some w /\
      TcpConnection.allowed TcpConnection.Strict (conn_at y id w) e
  | Work lp =>
      match queued y lp with
      | TcpServer.Destroy _ id :: _ =>
          exists w, conns y !! id = Some w /\ TcpConnection.pending w = []
      | _ => True
      end
  end.

(** ** The invariant

    The owners of channels are the acceptor, [None], and the connections. *)

Definition place (y : t) (k : option Z) : option (Z * Z) :=
  match k with
  | None => Some (base y, acceptChannel_ y)
  | Some id => w ← conns y !! id ; Some (loopOf y id, TcpConnection.channel_ w)
  end.

Definition chan (y : t) (id : Z) (w : connection) : option Channel.t :=
  channelAt (pollers y (loopOf y id)) (TcpConnection.channel_ w).

Definition live_registered (y : t) (id : Z) (w : connection) : Prop :=
  TcpConnection.state_ w <> TcpConnection.kConnecting ->
  exists c, chan y id w = Some c /\ registered c = true.

Record conn_ok (y : t) (id : Z) (w : connection) : Prop := {
  ok_made : TcpServer.made (server y) id;
  ok_inv : TcpConnection.Inv TcpConnection.Strict (conn_at y id w);
  ok_closes : closes (TcpConnection.log w) = down w;
  ok_registered : live_registered y id w
}.

(** What the server and the loops know of a connection is what it is. *)
Record told (y : t) (id : Z) (w : connection) : Prop := {
  told_closed : id ∈ TcpServer.closed (server y) <->
    TcpConnection.state_ w = TcpConnection.kDisconnected;
  told_establish : TcpConnection.state_ w = TcpConnection.kConnecting ->
    TcpServer.Establish (loopOf y id) id ∈ queued y (loopOf y id);
  told_destroy : id ∈ TcpServer.destroyed (TcpServer.log (server y)) ->
    TcpServer.Destroy (loopOf y id) id ∈ queued y (loopOf y id)
}.

(** A functor waits in the loop of its connection, which is there for it. *)
Definition request_ok (y : t) (lp : Z) (r : request) : Prop :=
  match r with
  | TcpServer.Establish lp' id => lp' = lp /\ lp = loopOf y id /\
      exists w, conns y !! id = Some w /\ TcpConnection.state_ w = TcpConnection.kConnecting
  | TcpServer.Destroy lp' id => lp' = lp /\ lp = loopOf y id /\
      id ∈ TcpServer.destroyed (TcpServer.log (server y)) /\
      exists w, conns y !! id = Some w /\ TcpConnection.state_ w = TcpConnection.kDisconnected
  end.

(** [x] is the connection whose functor or close callback is running. *)
Record Inv (x : option Z) (y : t) : Prop := {
  inv_server : TcpServer.Inv (server y);
  inv_consistent : forall lp, consistent (pollers y lp);
  inv_separate : separate (pollers y) (place y);
  inv_accept : exists c, channelAt (pollers y (base y)) (acceptChannel_ y) = Some c /\
    Channel.isReading c = Acceptor.listening_ (TcpServer.acceptor_ (server y));
  inv_conns : forall id w, conns y !! id = Some w -> conn_ok y id w;
  inv_told : forall id w, conns y !! id = Some w -> Some id <> x -> told y id w;
  inv_queue : forall lp r, r ∈ queued y lp -> request_ok y lp r;
  inv_nodup : forall lp, NoDup (queued y lp);
  inv_gone : forall id, TcpServer.made (server y) id -> conns y !! id = None ->
    id ∈ TcpServer.destroyed (TcpServer.log (server y))
}.

Lemma conn_inv_frame (w : connection) l :
  TcpConnection.Inv TcpConnection.Strict w -> good l (TcpConnection.channel_ w) ->
  channelAt l (TcpConnection.channel_ w) =
    channelAt (TcpConnection.loop_ w) (TcpConnection.channel_ w) ->
  TcpConnection.Inv TcpConnection.Strict (TcpConnection.set_loop w l).
Proof. intros [H1 H2 H3 H4 H5 H6 H7 H8] Hg Hc. split; try done. simpl. by rewrite Hc. Qed.

(** A connection looks the same under a poller that agrees on its channel. *)
Lemma conn_ok_frame y y' id w :
  conn_ok y id w -> chan y' id w = chan y id w ->
  good (pollers y' (loopOf y' id)) (TcpConnection.channel_ w) ->
  TcpServer.made (server y') id -> conn_ok y' id w.
Proof.
  intros [H1 H2 H3 H4] Hc Hg Hm. split; [done| |done|].
  - by apply (conn_inv_frame (conn_at y id w)).
  - intros Hs. rewrite Hc. by apply H4.
Qed.

Lemma told_frame y y' id w :
  told y id w -> loopOf y' id = loopOf y id ->
  (id ∈ TcpServer.closed (server y') <-> id ∈ TcpServer.closed (server y)) ->
  (id ∈ TcpServer.destroyed (TcpServer.log (server y')) <->
    id ∈ TcpServer.destroyed (TcpServer.log (server y))) ->
  (forall r, r ∈ queued y (loopOf y id) -> r ∈ queued y' (loopOf y id)) -> told y' id w.
Proof.
  intros [H1 H2 H3] Hl Hc Hd Hq. split; rewrite ?Hl.
  - by rewrite Hc.
  - auto.
  - rewrite Hd. auto.
Qed.

(** The step of a connection, seen from the rest of the service: everything but
    what the server is told. *)
Lemma put_inv x x' y id w w' :
  Inv x y -> x = None \/ x = Some id -> conns y !! id = Some w ->
  TcpConnection.channel_ w' = TcpConnection.channel_ w ->
  leaves (TcpConnection.channel_ w) (pollers y (loopOf y id)) (TcpConnection.loop_ w') ->
  conn_ok (put y id w') id w' ->
  (Some id <> x' -> told y id w') -> x' = None \/ x' = Some id ->
  (forall r, r ∈ queued y (loopOf y id) -> match r with
     | TcpServer.Establish _ i => i = id -> TcpConnection.state_ w' = TcpConnection.kConnecting
     | TcpServer.Destroy _ i => i = id -> TcpConnection.state_ w' = TcpConnection.kDisconnected
     end) ->
  Inv x' (put y id w').
Proof.
  intros [H1 H2 H3 H4 H5 H6 H7 H8 H9] Hx Hw Hch Hl Hok Htold Hx' Hq.
  set (lp := loopOf y id) in *.
  assert (Hplace : forall k, place (put y id w') k = place y k).
  { intros [i|]; [|done]. simpl. destruct (decide (i = id)) as [->|Hne].
    - rewrite lookup_insert_eq, Hw. simpl. by rewrite Hch.
    - by rewrite lookup_insert_ne. }
  assert (Hp : place y (Some id) = Some (lp, TcpConnection.channel_ w)) by (simpl; by rewrite Hw).
  destruct (separate_leaves _ _ _ _ _ _ H3 Hp Hl) as [Hsep Hsame].
  assert (Hsep' : separate (pollers (put y id w')) (place (put y id w'))).
  { destruct Hsep as [G1 G2]. split.
    - intros k. rewrite Hplace. apply G1.
    - intros k1 k2. rewrite !Hplace. apply G2. }
  split; try done.
  - intros lp'. unfold put; simpl. fold lp. destruct (decide (lp' = lp)) as [->|].
    + rewrite fn_lookup_insert. exact (good_consistent _ _ (proj1 Hl)).
    + by rewrite fn_lookup_insert_ne.
  - destruct H4 as (c & Hc & Hr). exists c. split; [|done].
    rewrite <- Hc. by apply (Hsame None).
  - intros i wi. unfold put at 1; simpl. destruct (decide (i = id)) as [->|Hne].
    { rewrite lookup_insert_eq. by intros [= <-]. }
    rewrite lookup_insert_ne by done. intros Hi.
    assert (Hpi : place y (Some i) = Some (loopOf y i, TcpConnection.channel_ wi))
      by (simpl; by rewrite Hi).
    apply (conn_ok_frame y); [by apply H5| | |by apply H5 in Hi as []].
    + apply (Hsame (Some i)); [congruence|done].
    + apply (proj1 Hsep (Some i)). done.
  - intros i wi. unfold put at 1; simpl. destruct (decide (i = id)) as [->|Hne].
    { rewrite lookup_insert_eq. intros [= <-] Hn. by apply (told_frame y); [apply Htold|..]. }
    rewrite lookup_insert_ne by done. intros Hi Hn. apply (told_frame y); try done.
    apply H6; [done|]. destruct Hx as [->| ->]; congruence.
  - intros lp' r Hr. specialize (H7 lp' r Hr). destruct r as [lp2 i|lp2 i]; simpl in *.
    + destruct H7 as (-> & -> & wi & Hi & Hs). split_and!; [done..|].
      destruct (decide (i = id)) as [->|Hne]; [|exists wi; by rewrite lookup_insert_ne].
      exists w'. rewrite lookup_insert_eq. split; [done|]. by apply (Hq _ Hr).
    + destruct H7 as (-> & -> & Hd & wi & Hi & Hs). split_and!; [done..|].
      destruct (decide (i = id)) as [->|Hne]; [|exists wi; by rewrite lookup_insert_ne].
      exists w'. rewrite lookup_insert_eq. split; [done|]. by apply (Hq _ Hr).
  - intros i Hm. unfold put at 1; simpl. intros Hi. apply H9; [done|].
    by apply lookup_insert_None in Hi as [].
Qed.

(** ** The server is told of a close, and removes the connection *)

Lemma serve_same y s :
  TcpServer.log s = TcpServer.log (server y) ->
  serve y s = mk s (acceptChannel_ y) (pollers y) (conns y) (queued y).
Proof. intros E. unfold serve. by rewrite E, drop_all. Qed.

Lemma serve_one y s r :
  TcpServer.log s = TcpServer.log (server y) ++ [r] ->
  serve y s = mk s (acceptChannel_ y) (pollers y) (conns y) (enqueue (queued y) r).
Proof. intros E. unfold serve. by rewrite E, drop_app_length. Qed.

Lemma elem_of_enqueue q r lp r' :
  r' ∈ enqueue q r lp <-> r' ∈ q lp \/ (lp = request_loop r /\ r' = r).
Proof.
  unfold enqueue. destruct (decide (lp = request_loop r)) as [->|Hne].
  - rewrite fn_lookup_insert, elem_of_app, list_elem_of_singleton. tauto.
  - rewrite fn_lookup_insert_ne by done. tauto.
Qed.

Lemma enqueue_nodup q r lp :
  NoDup (q lp) -> r ∉ q (request_loop r) -> NoDup (enqueue q r lp).
Proof.
  intros Hq Hr. unfold enqueue. destruct (decide (lp = request_loop r)) as [->|Hne].
  - rewrite fn_lookup_insert. apply NoDup_app. split_and!; [done| |by apply NoDup_singleton].
    by intros r' Hin ->%list_elem_of_singleton.
  - by rewrite fn_lookup_insert_ne.
Qed.

(** The server's state with the tasks [l]. *)
Definition retask (s : TcpServer.t) (l : list Z) : TcpServer.t :=
  TcpServer.mk (TcpServer.loop_ s) (TcpServer.name_ s) (TcpServer.acceptor_ s)
    (TcpServer.threadPool_ s) (TcpServer.started_ s) (TcpServer.nextConnId_ s)
    (TcpServer.connections_ s) (TcpServer.loops s) (TcpServer.closed s) l (TcpServer.log s).

Lemma destroyed_snoc l lp id :
  TcpServer.destroyed (l ++ [TcpServer.Destroy lp id]) = TcpServer.destroyed l ++ [id].
Proof. unfold TcpServer.destroyed. by rewrite omap_app. Qed.

(** A closed connection whose removal is queued is there, down, and not yet
    asked to be destroyed. *)
Lemma task_facts y id l :
  Inv None y -> TcpServer.tasks (server y) ≡ₚ id :: l ->
  TcpServer.made (server y) id /\ id ∉ TcpServer.destroyed (TcpServer.log (server y)) /\
  exists w, conns y !! id = Some w /\ TcpConnection.state_ w = TcpConnection.kDisconnected.
Proof.
  intros HI Ht. pose proof (inv_server _ _ HI) as Hs.
  assert (Hc : id ∈ TcpServer.closed (server y)).
  { apply (TcpServer.inv_closed _ Hs). rewrite Ht. set_solver. }
  assert (Hm := TcpServer.inv_made _ Hs id Hc).
  assert (Hd : id ∉ TcpServer.destroyed (TcpServer.log (server y))).
  { pose proof (TcpServer.inv_destroyed _ Hs) as Hn. rewrite Ht in Hn.
    apply NoDup_app in Hn as (_ & Hn & _). intros Hin. apply (Hn id Hin). by left. }
  split_and!; [done..|]. destruct (conns y !! id) as [w|] eqn:Hw.
  - exists w. split; [done|]. by apply (told_closed _ _ _ (inv_told _ _ HI id w Hw ltac:(done))).
  - by destruct Hd; apply (inv_gone _ _ HI).
Qed.

Lemma remove_inv y id l :
  Inv None y -> TcpServer.tasks (server y) ≡ₚ id :: l ->
  exists s', TcpServer.removeConnectionInLoop (retask (server y) l) id = Ok s' /\
    Inv None (serve y s') /\ conns (serve y s') = conns y.
Proof.
  intros HI Ht. destruct (task_facts y id l HI Ht) as (Hm & Hd & w & Hw & Hst).
  destruct HI as [H1 H2 H3 H4 H5 H6 H7 H8 H9].
  destruct (TcpServer.server_remove_ok startLoop (server y) l id H1 Ht) as (s' & E & HIs).
  exists s'. split; [exact E|]. unfold TcpServer.removeConnectionInLoop in E. inv_ok.
  set (r := TcpServer.Destroy (loopOf y id) id).
  match goal with |- context [serve y ?x] => set (s' := x) end.
  assert (Hlog : TcpServer.log s' = TcpServer.log (server y) ++ [r]) by done.
  rewrite (serve_one y s' r Hlog). split; [|done].
  assert (Hdes : TcpServer.destroyed (TcpServer.log s') =
    TcpServer.destroyed (TcpServer.log (server y)) ++ [id]) by (rewrite Hlog; apply destroyed_snoc).
  assert (Hr : r ∉ queued y (loopOf y id)).
  { intros Hin. apply H7 in Hin as (_ & _ & Hin & _). done. }
  split; try done; cbn [server queued conns].
  - intros i wi Hi. by destruct (H5 i wi Hi); split.
  - intros i wi Hi Hn. specialize (H6 i wi Hi Hn). split; cbn [server queued].
    + apply (told_closed _ _ _ H6).
    + intros Hs. apply elem_of_enqueue. left. by apply (told_establish _ _ _ H6).
    + rewrite Hdes, elem_of_app, list_elem_of_singleton. intros [Hin| ->].
      * apply elem_of_enqueue. left. by apply (told_destroy _ _ _ H6).
      * apply elem_of_enqueue. by right.
  - intros lp r' [Hin|[-> ->]]%elem_of_enqueue.
    + specialize (H7 lp r' Hin). destruct r' as [lp' i|lp' i]; [done|].
      cbn [request_ok server conns] in *. rewrite Hdes, elem_of_app. tauto.
    + split_and!; [done..| |by exists w]. cbn [server]. rewrite Hdes, elem_of_app. right. by left.
  - intros lp. by apply enqueue_nodup.
  - intros i Hi Hn. rewrite Hdes, elem_of_app. left. by apply H9.
Qed.

(** The close callback of a connection that has just gone down. *)
Lemma closing_inv y id w :
  Inv (Some id) y -> conns y !! id = Some w ->
  TcpConnection.state_ w = TcpConnection.kDisconnected -> id ∉ TcpServer.closed (server y) ->
  exists y', closing 1 y id = Ok y' /\ Inv None y' /\ conns y' = conns y.
Proof.
  intros HI Hw Hs Hc. pose proof HI as [H1 H2 H3 H4 H5 H6 H7 H8 H9].
  assert (Hm := ok_made _ _ _ (H5 id w Hw)).
  set (mid := TcpServer.mk (TcpServer.loop_ (server y)) (TcpServer.name_ (server y))
    (TcpServer.acceptor_ (server y)) (TcpServer.threadPool_ (server y))
    (TcpServer.started_ (server y)) (TcpServer.nextConnId_ (server y))
    (TcpServer.connections_ (server y)) (TcpServer.loops (server y))
    (id :: TcpServer.closed (server y)) (TcpServer.tasks (server y) ++ [id])
    (TcpServer.log (server y))).
  assert (Hmid : TcpServer.Inv mid) by (by apply TcpServer.close_inv).
  assert (HImid : Inv None (serve y mid)).
  { rewrite serve_same by done. split; try done; cbn [server queued conns].
    { intros i wi Hi. by destruct (H5 i wi Hi); split. }
    intros i wi Hi _. destruct (decide (i = id)) as [->|Hne].
    - assert (wi = w) as -> by congruence. split; simpl.
      + split; [done|]. by left.
      + congruence.
      + intros Hd. destruct Hc. apply (TcpServer.inv_closed _ H1), elem_of_app. by left.
    - apply (told_frame y); try done; [apply H6; [done|congruence]|].
      simpl. rewrite elem_of_cons. naive_solver. }
  simpl. unfold TcpServer.removeConnection.
  match goal with |- context [if ?b then _ else _] => destruct b end.
  - destruct (remove_inv (serve y mid) id (TcpServer.tasks (server y)) HImid) as (s' & E & HI' & Hk).
    { simpl. by rewrite Permutation_app_comm. }
    unfold retask in E. simpl in E.
    match goal with |- context [TcpServer.removeConnectionInLoop ?a id] =>
      assert (Er : TcpServer.removeConnectionInLoop a id = Ok s') by exact E end.
    rewrite Er, bind_ret_l. eexists. split; [reflexivity|]. rewrite (serve_same y mid) in HI' by done.
    split; [exact HI'|done].
  - rewrite bind_ret_l. eexists. split; [reflexivity|]. split; [exact HImid|done].
Qed.

(** ** A step of one connection *)

Definition request_conn (r : request) : Z :=
  match r with TcpServer.Establish _ id | TcpServer.Destroy _ id => id end.

Lemma set_loop_self (w : connection) : TcpConnection.set_loop w (TcpConnection.loop_ w) = w.
Proof. by destruct w. Qed.

Lemma conn_at_put y id w : conn_at (put y id w) id w = w.
Proof. unfold conn_at, put. simpl. rewrite fn_lookup_insert. apply set_loop_self. Qed.

Lemma chan_put y id w :
  chan (put y id w) id w = channelAt (TcpConnection.loop_ w) (TcpConnection.channel_ w).
Proof. unfold chan, put. simpl. by rewrite fn_lookup_insert. Qed.

Lemma down_le (w : connection) : (down w <= 1)%nat.
Proof. unfold down. case_bool_decide; lia. Qed.

Lemma up_not_told y id w :
  Inv None y -> conns y !! id = Some w -> TcpConnection.state_ w <> TcpConnection.kDisconnected ->
  id ∉ TcpServer.closed (server y).
Proof. intros HI Hw Hs Hc. by apply Hs, (told_closed _ _ _ (inv_told _ _ HI id w Hw ltac:(done))). Qed.

Lemma not_closed_not_destroyed y x id :
  Inv x y -> id ∉ TcpServer.closed (server y) ->
  id ∉ TcpServer.destroyed (TcpServer.log (server y)).
Proof.
  intros HI Hc Hd. apply Hc. apply (TcpServer.inv_closed _ (inv_server _ _ HI)), elem_of_app. by left.
Qed.

(** Its requests say what state the connection is in. *)
Lemma request_state x y id w r :
  Inv x y -> conns y !! id = Some w -> r ∈ queued y (loopOf y id) -> request_conn r = id ->
  TcpConnection.state_ w = match r with
    | TcpServer.Establish _ _ => TcpConnection.kConnecting
    | TcpServer.Destroy _ _ => TcpConnection.kDisconnected
    end.
Proof.
  intros HI Hw Hr Hid. apply (inv_queue _ _ HI) in Hr.
  destruct r as [lp i|lp i]; simpl in *; subst i.
  - destruct Hr as (_ & _ & w2 & Hw2 & Hs). congruence.
  - destruct Hr as (_ & _ & _ & w2 & Hw2 & Hs). congruence.
Qed.

Section polite.
Context (Hcb : TcpConnection.polite_callbacks cb).

(** What a step of the connection gives, whatever the step. *)
Lemma stepped_ok x y id w w' :
  Inv x y -> conns y !! id = Some w -> kept (conn_at y id w) w' ->
  TcpConnection.Inv TcpConnection.Strict w' ->
  (exists c, channelAt (TcpConnection.loop_ w') (TcpConnection.channel_ w') = Some c /\
     registered c = true) ->
  leaves (TcpConnection.channel_ w) (pollers y (loopOf y id)) (TcpConnection.loop_ w') /\
  closes (TcpConnection.log w') = down w' /\ conn_ok (put y id w') id w'.
Proof.
  intros HI Hw [K1 K2 K3 K4] HI' Hreg. destruct (inv_conns _ _ HI id w Hw) as [O1 O2 O3 O4].
  assert (Hd : down (conn_at y id w) = down w) by done.
  change (TcpConnection.log (conn_at y id w)) with (TcpConnection.log w) in K3.
  assert (Hcl : closes (TcpConnection.log w') = down w') by lia.
  split_and!; [|done|].
  - by apply touches_leaves; [|apply O2].
  - split; [done| |done|].
    + by rewrite conn_at_put.
    + intros _. by rewrite chan_put.
Qed.

Lemma mark_live (w : connection) e :
  TcpConnection.allowed TcpConnection.Strict w e -> e = TcpConnection.Mark ->
  TcpConnection.live (TcpConnection.state_ w) = true.
Proof. intros Ha ->. by apply Ha. Qed.

Lemma drive_ok y id w e :
  Inv None y -> conns y !! id = Some w -> TcpConnection.state_ w <> TcpConnection.kConnecting ->
  e <> TcpConnection.Established -> e <> TcpConnection.Destroyed ->
  TcpConnection.allowed TcpConnection.Strict (conn_at y id w) e ->
  wp TcpConnection.only_length (drive y id e) (Inv None).
Proof.
  intros HI Hw Hs He1 He2 Ha. destruct (inv_conns _ _ HI id w Hw) as [O1 O2 O3 O4].
  unfold drive. rewrite Hw.
  pose proof (TcpConnection.step_wp cb TcpConnection.Strict (fun _ => Hcb) (conn_at y id w) e O2 Ha) as Hstep.
  destruct (TcpConnection.step cb (conn_at y id w) e) as [w'|f] eqn:E; [|by apply Hstep].
  rewrite bind_ret_l. destruct Hstep as [HI' _].
  assert (HK := step_kept cb _ _ _ He1 He2 (mark_live _ _ Ha) E). assert (HK' := HK). destruct HK' as [K1 K2 K3 K4].
  change (TcpConnection.state_ (conn_at y id w)) with (TcpConnection.state_ w) in K4.
  destruct (O4 Hs) as (c & Hc & Hr).
  destruct (touches_self _ _ _ c K2 (TcpConnection.inv_good _ _ O2) Hc) as (_ & c' & Hc' & _ & Hr').
  destruct (stepped_ok None y id w w' HI Hw HK HI') as (Hl & Hcl & Hok).
  { exists c'. rewrite K1. split; [exact Hc'|]. by apply Hr'. }
  assert (Hs' : TcpConnection.state_ w' <> TcpConnection.kConnecting).
  { intros E'. rewrite E' in K4. destruct (TcpConnection.state_ w); simpl in K4; done || lia. }
  assert (Hq : forall r, r ∈ queued y (loopOf y id) -> match r with
     | TcpServer.Establish _ i => i = id -> TcpConnection.state_ w' = TcpConnection.kConnecting
     | TcpServer.Destroy _ i => i = id -> TcpConnection.state_ w' = TcpConnection.kDisconnected
     end).
  { intros r Hin. pose proof (request_state None y id w r HI Hw Hin) as Hrs.
    destruct r as [lp i|lp i]; intros Hi; specialize (Hrs Hi); [done|].
    rewrite Hrs in K4. destruct (TcpConnection.state_ w'); simpl in K4; done || lia. }
  assert (Htold := inv_told _ _ HI id w Hw ltac:(done)).
  assert (Hphase : (down w <= down w')%nat).
  { rewrite (down_phase w), (down_phase w'). destruct (TcpConnection.state_ w), (TcpConnection.state_ w');
      simpl in K4 |- *; lia. }
  rewrite Hcl, O3. destruct (decide (down w = down w')) as [Heq|Hne].
  - replace (down w' - down w)%nat with 0%nat by lia. simpl.
    apply (put_inv None None y id w w'); try done; auto.
    intros _. destruct Htold as [T1 T2 T3]. split; [|done|done].
    rewrite T1, <- !down_iff. lia.
  - pose proof (down_le w'). replace (down w' - down w)%nat with 1%nat by lia.
    assert (Hd' : TcpConnection.state_ w' = TcpConnection.kDisconnected) by (apply down_iff; lia).
    assert (Hput : Inv (Some id) (put y id w')) by (apply (put_inv None (Some id) y id w w'); try done; auto).
    destruct (closing_inv (put y id w') id w' Hput) as (y' & -> & HIy & _); try done.
    + simpl. by rewrite lookup_insert_eq.
    + apply (up_not_told y id w HI Hw). rewrite <- down_iff. lia.
Qed.

Lemma drive_established y id w :
  Inv (Some id) y -> conns y !! id = Some w ->
  TcpConnection.state_ w = TcpConnection.kConnecting -> id ∉ TcpServer.closed (server y) ->
  (forall r, r ∈ queued y (loopOf y id) -> request_conn r <> id) ->
  wp TcpConnection.only_length (drive y id TcpConnection.Established) (Inv None).
Proof.
  intros HI Hw Hs Hc Hq. destruct (inv_conns _ _ HI id w Hw) as [O1 O2 O3 O4].
  unfold drive. rewrite Hw. simpl TcpConnection.step.
  pose proof (TcpConnection.connectionEstablished_wp cb TcpConnection.Strict (fun _ => Hcb) (conn_at y id w) O2 Hs) as Hstep.
  destruct (TcpConnection.connectionEstablished cb (conn_at y id w)) as [w'|f] eqn:E; [|by apply Hstep].
  rewrite bind_ret_l. destruct Hstep as [HI' _].
  destruct (TcpConnection.inv_channel _ _ O2) as (c & Hc0 & _).
  destruct (connectionEstablished_kept cb _ _ c E (TcpConnection.inv_good _ _ O2) Hc0)
    as (HK & Hph & Hreg).
  destruct (stepped_ok _ y id w w' HI Hw HK HI') as (Hl & Hcl & Hok).
  { rewrite (kept_channel _ _ HK). exact Hreg. }
  assert (Hd' : down w' = 0%nat) by (rewrite down_phase; by rewrite Hph).
  rewrite Hcl, Hd'. simpl. apply (put_inv (Some id) None y id w w'); auto.
  - apply (kept_channel _ _ HK).
  - intros _. split.
    + split; [done|]. rewrite <- down_iff. lia.
    + intros Hk. by rewrite Hk in Hph.
    + by intros ?%(not_closed_not_destroyed _ _ _ HI Hc).
  - intros r Hin. specialize (Hq r Hin). by destruct r.
Qed.

End polite.

(** ** A connection is destroyed and its channel freed *)

Lemma drive_destroyed x y id w :
  Inv x y -> conns y !! id = Some w ->
  TcpConnection.state_ w = TcpConnection.kDisconnected ->
  exists l c, drive y id TcpConnection.Destroyed = Ok (put y id (TcpConnection.set_loop w l)) /\
    leaves (TcpConnection.channel_ w) (pollers y (loopOf y id)) l /\
    channelAt l (TcpConnection.channel_ w) = Some c /\ registered c = false.
Proof.
  intros HI Hw Hs. destruct (inv_conns _ _ HI id w Hw) as [O1 O2 O3 O4].
  destruct (O4 ltac:(congruence)) as (c & Hc & Hr). unfold chan in Hc.
  assert (Hg := TcpConnection.inv_good _ _ O2). simpl in Hg.
  destruct (TcpConnection.inv_channel _ _ O2) as (c2 & Hc2 & _ & _ & _ & _ & He). simpl in Hc2, He.
  assert (c2 = c) as -> by congruence. specialize (He eq_refl Hs).
  pose proof (remove_law _ _ c Hg Hc) as Hrem. unfold Channel.isNoneEvent in Hrem.
  rewrite Hr, He in Hrem. destruct Hrem as (l & E & Hgl & Hcl).
  exists l. eexists. split_and!; [|by apply remove_leaves|exact Hcl|done].
  unfold drive. rewrite Hw. simpl TcpConnection.step.
  rewrite connectionDestroyed_down by done. simpl. rewrite E. simpl. by rewrite Nat.sub_diag.
Qed.

Lemma release_inv y id w l c :
  Inv (Some id) y -> conns y !! id = Some w ->
  id ∈ TcpServer.destroyed (TcpServer.log (server y)) ->
  (forall lp r, r ∈ queued y lp -> request_conn r <> id) ->
  leaves (TcpConnection.channel_ w) (pollers y (loopOf y id)) l ->
  channelAt l (TcpConnection.channel_ w) = Some c -> registered c = false ->
  Inv None (release (put y id (TcpConnection.set_loop w l)) id).
Proof.
  intros HI Hw Hd Hq Hl Hc Hr. pose proof HI as [H1 H2 H3 H4 H5 H6 H7 H8 H9].
  set (lp := loopOf y id) in *. set (q := TcpConnection.channel_ w) in *.
  assert (Hp : place y (Some id) = Some (lp, q)) by (simpl; by rewrite Hw).
  destruct (separate_leaves _ _ _ _ _ _ H3 Hp Hl) as [Hsep Hsame].
  destruct (delete_law l q c (good_consistent _ _ (proj1 Hl)) Hc Hr) as (Hcons & _ & Hrest).
  set (pl := <[lp := deleteChannel l q]> (<[lp := l]> (pollers y))).
  set (y' := mk (server y) (acceptChannel_ y) pl (delete id (conns y)) (queued y)).
  assert (Ey : release (put y id (TcpConnection.set_loop w l)) id = y').
  { unfold release. simpl. rewrite lookup_insert_eq. unfold y', pl.
    rewrite delete_insert_eq. unfold loopOf. simpl. fold (loopOf y id). fold lp.
    by rewrite fn_lookup_insert. }
  rewrite Ey.
  assert (Hsub : forall k p, place y' k = Some p -> k <> Some id /\ place y k = Some p).
  { intros [i|] p; [|done]. simpl. destruct (decide (i = id)) as [->|Hne].
    - by rewrite lookup_delete_eq.
    - rewrite lookup_delete_ne by done. intros E. split; [congruence|done]. }
  assert (Hagree : forall k lp' q', place y' k = Some (lp', q') ->
    channelAt (pl lp') q' = channelAt (pollers y lp') q' /\ good (pl lp') q').
  { intros k lp' q' Hk. destruct (Hsub _ _ Hk) as [Hne Hk']. unfold pl.
    rewrite <- (Hsame k lp' q' Hne Hk'). pose proof (proj1 Hsep k lp' q' Hk') as Hg.
    destruct (decide (lp' = lp)) as [->|]; [|by rewrite !fn_lookup_insert_ne in *].
    rewrite !fn_lookup_insert in *. destruct (Hrest q') as [E1 E2]; [|by split; [|apply E2]].
    intros ->. by destruct (proj2 H3 _ _ _ _ _ Hne Hk' Hp) as [? _]. }
  assert (Hloop : forall i, loopOf y' i = loopOf y i) by done.
  split; try done.
  - intros lp'. unfold y', pl. simpl. destruct (decide (lp' = lp)) as [->|].
    + by rewrite fn_lookup_insert.
    + by rewrite !fn_lookup_insert_ne.
  - split.
    + intros k lp' q' Hk. by apply (Hagree k).
    + intros k1 k2 lp' q1 q2 Hne Hk1 Hk2.
      destruct (Hagree _ _ _ Hk1) as [E1 _]. destruct (Hagree _ _ _ Hk2) as [E2 _].
      apply Hsub in Hk1 as [_ Hk1]. apply Hsub in Hk2 as [_ Hk2].
      destruct (proj2 H3 _ _ _ _ _ Hne Hk1 Hk2) as (Hnq & c1 & c2 & F1 & F2 & Hf).
      split; [done|]. exists c1, c2. unfold y'. cbn [pollers]. by rewrite E1, E2.
  - destruct H4 as (ca & Hca & Hra). exists ca. split; [|done].
    rewrite <- Hca. by apply (Hagree None).
  - intros i wi. unfold y' at 1. simpl. intros [Hne Hi]%lookup_delete_Some.
    assert (Hki : place y' (Some i) = Some (loopOf y i, TcpConnection.channel_ wi)).
    { simpl. by rewrite lookup_delete_ne, Hi. }
    destruct (Hagree _ _ _ Hki) as [E1 E2]. apply (conn_ok_frame y); auto.
    by apply (H5 i wi).
  - intros i wi. unfold y' at 1. simpl. intros [Hne Hi]%lookup_delete_Some _.
    apply (told_frame y); try done. apply H6; [done|congruence].
  - intros lp' r Hin. specialize (H7 lp' r Hin). specialize (Hq lp' r Hin).
    destruct r as [lp2 i|lp2 i]; simpl in *.
    + destruct H7 as (-> & -> & wi & Hi & Hs). split_and!; try done.
      exists wi. by rewrite lookup_delete_ne.
    + destruct H7 as (-> & -> & Hdi & wi & Hi & Hs). split_and!; try done.
      exists wi. by rewrite lookup_delete_ne.
  - intros i Hm. unfold y' at 1. simpl. intros Hi. destruct (decide (i = id)) as [->|Hne]; [done|].
    rewrite lookup_delete_ne in Hi by done. by apply H9.
Qed.

(** The functor a loop takes from its queue is the only one of its connection. *)
Lemma pop_inv y lp r rs :
  Inv None y -> queued y lp = r :: rs ->
  let y1 := mk (server y) (acceptChannel_ y) (pollers y) (conns y) (<[lp := rs]> (queued y)) in
  request_loop r = lp /\ request_ok y lp r /\ Inv (Some (request_conn r)) y1 /\
  forall lp' r', r' ∈ queued y1 lp' -> request_conn r' <> request_conn r.
Proof.
  intros HI Hq y1. pose proof HI as [H1 H2 H3 H4 H5 H6 H7 H8 H9].
  assert (Hr : request_ok y lp r) by (apply H7; rewrite Hq; by left).
  assert (Hsub : forall lp' r', r' ∈ queued y1 lp' -> r' ∈ queued y lp').
  { intros lp' r'. unfold y1. simpl. destruct (decide (lp' = lp)) as [->|].
    - rewrite fn_lookup_insert, Hq. by right.
    - by rewrite fn_lookup_insert_ne. }
  assert (Hnd : NoDup (r :: rs)) by (rewrite <- Hq; apply H8).
  assert (Huniq : forall lp' r', r' ∈ queued y1 lp' -> request_conn r' <> request_conn r).
  { intros lp' r' Hin Heq. assert (Hin2 := Hin). apply Hsub, H7 in Hin2.
    assert (lp' = lp /\ r' = r) as [-> ->].
    { destruct r as [a i|a i], r' as [b j|b j]; simpl in *; subst j;
        destruct Hr as (-> & -> & Hr), Hin2 as (-> & -> & Hin2); try done; exfalso.
      - destruct Hr as (w1 & Hw1 & Hs1), Hin2 as (_ & w2 & Hw2 & Hs2). congruence.
      - destruct Hr as (_ & w1 & Hw1 & Hs1), Hin2 as (w2 & Hw2 & Hs2). congruence. }
    unfold y1 in Hin. simpl in Hin. rewrite fn_lookup_insert in Hin.
    by apply NoDup_cons in Hnd as [? _]. }
  split_and!; [by destruct r; apply Hr|done| |done]. split; try done.
  - intros i wi Hi. by destruct (H5 i wi Hi); split.
  - intros i wi Hi Hne. specialize (H6 i wi Hi ltac:(done)).
    assert (Hkeep : forall r', request_conn r' = i -> r' ∈ queued y (loopOf y i) ->
      r' ∈ queued y1 (loopOf y1 i)).
    { intros r' Hi' Hin. unfold y1, loopOf. simpl. fold (loopOf y i).
      destruct (decide (loopOf y i = lp)) as [El|]; [|by rewrite fn_lookup_insert_ne].
      rewrite El in *. rewrite fn_lookup_insert. rewrite Hq in Hin.
      apply elem_of_cons in Hin as [->|]; [|done]. congruence. }
    destruct H6 as [T1 T2 T3]. split; [done| |].
    + intros Hs. apply Hkeep; [done|]. auto.
    + intros Hs. apply Hkeep; [done|]. auto.
  - intros lp' r' Hin. by apply (H7 lp' r'), Hsub.
  - intros lp'. unfold y1. simpl. destruct (decide (lp' = lp)) as [->|].
    + rewrite fn_lookup_insert. by apply NoDup_cons in Hnd as [_ ?].
    + by rewrite fn_lookup_insert_ne.
Qed.

(** ** The server starts, and accepts *)

Lemma service_start_ok y : Inv None y -> exists y', start y = Ok y' /\ Inv None y'.
Proof.
  intros HI. pose proof HI as [H1 H2 H3 H4 H5 H6 H7 H8 H9].
  assert (Hs : exists s, TcpServer.start startLoop (server y) = Ok s /\ TcpServer.Inv s /\
    TcpServer.log s = TcpServer.log (server y) /\ TcpServer.loops s = TcpServer.loops (server y) /\
    TcpServer.closed s = TcpServer.closed (server y) /\
    TcpServer.nextConnId_ s = TcpServer.nextConnId_ (server y) /\
    TcpServer.loop_ s = TcpServer.loop_ (server y) /\
    Acceptor.listening_ (TcpServer.acceptor_ s) = true).
  { destruct (TcpServer.server_start_ok startLoop (server y) H1) as (s & E & HIs).
    exists s. split; [done|]. split; [done|]. unfold TcpServer.start in E. inv_ok.
    split_and!; try done. simpl. by destruct (Acceptor.listening_ _) eqn:?. }
  destruct Hs as (s & E & HIs & E1 & E2 & E3 & E4 & E5 & E6). unfold start. rewrite E, bind_ret_l.
  assert (Hloop : forall i, TcpServer.getLoop s i = TcpServer.getLoop (server y) i)
    by (intros; unfold TcpServer.getLoop; by rewrite E2).
  assert (Hgen : forall pl, (forall lp, consistent (pl lp)) -> separate pl (place y) ->
    (exists c, channelAt (pl (base y)) (acceptChannel_ y) = Some c /\ Channel.isReading c = true) ->
    (forall i lp q, place y (Some i) = Some (lp, q) -> channelAt (pl lp) q = channelAt (pollers y lp) q) ->
    Inv None (mk s (acceptChannel_ y) pl (conns y) (queued y))).
  { intros pl Hc Hsep Ha Hsame. split; try done; unfold base; cbn [server pollers conns queued acceptChannel_].
    - destruct Hsep as [G1 G2]. 
      assert (Hp : forall k, place (mk s (acceptChannel_ y) pl (conns y) (queued y)) k = place y k).
      { intros [i|]; simpl; unfold base, loopOf; simpl; [by rewrite Hloop|by rewrite E5]. }
      split; [intros k|intros k1 k2]; rewrite ?Hp; [apply G1|apply G2].
    - rewrite E5, E6. exact Ha.
    - intros i w Hi. assert (Hp : place y (Some i) = Some (loopOf y i, TcpConnection.channel_ w))
        by (simpl; by rewrite Hi).
      apply (conn_ok_frame y); [by apply H5|..]; unfold chan, loopOf; simpl; rewrite ?Hloop.
      + by apply (Hsame i).
      + by apply (proj1 Hsep (Some i)).
      + unfold TcpServer.made. rewrite E4. by apply (H5 i w).
    - intros i w Hi Hn. apply (told_frame y); [by apply H6|..]; unfold loopOf; simpl; rewrite ?Hloop, ?E3, ?E1; done.
    - intros lp r Hin. specialize (H7 lp r Hin). unfold request_ok, loopOf in *. simpl.
      destruct r; rewrite Hloop, ?E1; exact H7.
    - intros i Hm. rewrite E1. apply H9. unfold TcpServer.made in *. by rewrite E4 in Hm. }
  destruct H4 as (c & Hc & Hrd). destruct (Acceptor.listening_ (TcpServer.acceptor_ (server y))) eqn:Hlis.
  { eexists. split; [reflexivity|]. rewrite serve_same by done. apply Hgen; [done|done|by exists c|done]. }
  assert (Hg : good (pollers y (base y)) (acceptChannel_ y)) by (by apply (proj1 H3 None)).
  destruct (update_law _ _ c Channel.EnableReading Hg Hc) as (l & idx & El & Hgl & _ & Hl).
  rewrite El, bind_ret_l. eexists. split; [reflexivity|].
  assert (Hlv : leaves (acceptChannel_ y) (pollers y (base y)) l)
    by (apply touches_leaves; [by eapply touches_one|done]).
  destruct (separate_leaves _ _ None _ _ _ H3 eq_refl Hlv) as [Hsep Hsame].
  apply Hgen; [|done| |].
  - intros lp. destruct (decide (lp = base y)) as [->|].
    + rewrite fn_lookup_insert. by eapply good_consistent.
    + by rewrite fn_lookup_insert_ne.
  - rewrite fn_lookup_insert. eexists. split; [exact Hl|]. rewrite Channel.index_reading.
    destruct (good_channel _ _ Hg) as (c2 & Hc2 & Hwf). assert (c2 = c) as -> by congruence.
    by apply (Channel.change_reading Channel.EnableReading c).
  - intros i lp q Hp. by apply (Hsame (Some i)).
Qed.

(** The connection is made: its object, its channel, its entry in the server. *)
Lemma made_inv y fd p s :
  TcpConnection.polite_callbacks cb -> Inv None y -> TcpServer.newConnection (server y) fd = Ok s -> TcpServer.Inv s ->
  (forall lp, channelAt (pollers y lp) p = None /\
     forall q c, channelAt (pollers y lp) q = Some c -> Channel.fd_ c <> fd) ->
  let id := TcpServer.nextConnId_ (server y) in
  let lp := TcpServer.getLoop s id in
  let l := newChannel (pollers y lp) p fd in
  let y1 := mk s (acceptChannel_ y) (<[lp := l]> (pollers y))
              (<[id := TcpConnection.init l p]> (conns y)) (queued y) in
  Inv (Some id) y1 /\ conns y1 !! id = Some (TcpConnection.init l p) /\
  id ∉ TcpServer.closed s /\ (forall lp' r, r ∈ queued y1 lp' -> request_conn r <> id) /\
  base y1 = base y.
Proof.
  intros Hcb HI E HIs Hfree id lp l y1. pose proof HI as [H1 H2 H3 H4 H5 H6 H7 H8 H9].
  destruct (Hfree lp) as [Hp Hfd].
  destruct (new_law (pollers y lp) p fd (H2 lp) Hp (fun q c Hc _ => Hfd q c Hc)) as (Hgood & Hnew & Hrest). fold l in Hgood, Hnew, Hrest.
  unfold TcpServer.newConnection in E. apply bind_ok in E as (next & Hnext & E).
  apply chk32_ok in Hnext as [Hnext Hrange]. apply bind_ok in E as ([lp0 pool] & _ & E). injection E as E. simpl in E.
  assert (Es : TcpServer.loops s = (id, lp0) :: TcpServer.loops (server y) /\
    TcpServer.loop_ s = TcpServer.loop_ (server y) /\ TcpServer.closed s = TcpServer.closed (server y) /\
    TcpServer.log s = TcpServer.log (server y) ++ [TcpServer.Establish lp0 id] /\
    TcpServer.nextConnId_ s = id + 1 /\ TcpServer.acceptor_ s = TcpServer.acceptor_ (server y))
    by (subst s; split_and!; auto).
  clear E. destruct Es as (E1 & E2 & E3 & E4 & E5 & E6).
  assert (Hnone : ~ TcpServer.made (server y) id) by (unfold TcpServer.made; lia).
  assert (Hloop : forall i, i <> id -> TcpServer.getLoop s i = TcpServer.getLoop (server y) i).
  { intros i Hne. unfold TcpServer.getLoop. rewrite E1. simpl. by destruct (Z.eqb_spec id i). }
  assert (Hmade : forall i w, conns y !! i = Some w -> i <> id).
  { intros i w Hi ->. by apply Hnone, (H5 id w). }
  assert (Hd : TcpServer.destroyed (TcpServer.log s) = TcpServer.destroyed (TcpServer.log (server y))).
  { rewrite E4. unfold TcpServer.destroyed. rewrite omap_app. apply app_nil_r. }
  assert (Hk : conns y1 !! id = Some (TcpConnection.init l p)) by (unfold y1; simpl; by rewrite lookup_insert_eq).
  assert (Hko : forall i, i <> id -> conns y1 !! i = conns y !! i)
    by (intros; unfold y1; simpl; by rewrite lookup_insert_ne).
  assert (Hplace : forall k, k <> Some id -> place y1 k = place y k).
  { intros [i|] Hne; simpl; [|unfold base; simpl; by rewrite E2].
    rewrite lookup_insert_ne by congruence. destruct (conns y !! i) as [w|] eqn:Hi; [|done]. simpl.
    unfold loopOf. simpl. by rewrite Hloop by congruence. }
  assert (Hpid : place y1 (Some id) = Some (lp, p)) by (simpl; by rewrite lookup_insert_eq).
  assert (Hagree : forall k lp' q, k <> Some id -> place y1 k = Some (lp', q) ->
    channelAt (pollers y1 lp') q = channelAt (pollers y lp') q /\ good (pollers y1 lp') q /\
    place y k = Some (lp', q) /\ (lp' = lp -> q <> p)).
  { intros k lp' q Hne Hk'. rewrite Hplace in Hk' by done. pose proof (proj1 H3 _ _ _ Hk') as Hg.
    destruct (good_channel _ _ Hg) as (c & Hc & _). unfold y1. cbn [pollers].
    destruct (decide (lp' = lp)) as [->|]; [|by rewrite fn_lookup_insert_ne].
    assert (q <> p) by congruence. rewrite fn_lookup_insert.
    destruct (Hrest q) as [? ?]; [done|]. by split_and!; auto. }
  assert (Hapart : forall k lp' q, k <> Some id -> place y1 k = Some (lp', q) -> lp' = lp ->
    apart (pollers y1 lp) q p).
  { intros k lp' q Hne Hk' ->. destruct (Hagree k lp q Hne Hk') as (Ea & Hg & Hy & Hnq).
    split; [by apply Hnq|]. destruct (good_channel _ _ (proj1 H3 _ _ _ Hy)) as (c & Hc & _).
    exists c, (Channel.new fd). rewrite Ea. unfold y1. cbn [pollers]. rewrite fn_lookup_insert.
    split_and!; [done..|]. simpl. by apply (Hfd q). }
  assert (Hq : forall lp' r, r ∈ queued y1 lp' -> request_conn r <> id).
  { intros lp' r Hin Hr. apply H7 in Hin. destruct r as [a i|a i]; simpl in *; subst i.
    - destruct Hin as (_ & _ & w & Hw & _). by apply (Hmade id w).
    - destruct Hin as (_ & _ & _ & w & Hw & _). by apply (Hmade id w). }
  assert (Hcl : id ∉ TcpServer.closed s).
  { rewrite E3. intros Hin. by apply Hnone, (TcpServer.inv_made _ H1). }
  split_and!; [|done..|unfold base, y1; simpl; exact E2]. split; try done.
  - intros lp'. unfold y1. cbn [pollers]. destruct (decide (lp' = lp)) as [->|].
    + rewrite fn_lookup_insert. by eapply good_consistent.
    + by rewrite fn_lookup_insert_ne.
  - split.
    + intros k lp' q Hk'. destruct (decide (k = Some id)) as [->|Hne].
      * rewrite Hpid in Hk'. injection Hk' as <- <-. unfold y1. cbn [pollers]. by rewrite fn_lookup_insert.
      * by apply (Hagree k).
    + intros k1 k2 lp' q1 q2 Hne Hk1 Hk2. destruct (decide (k1 = Some id)) as [->|Hn1].
      { rewrite Hpid in Hk1. injection Hk1 as <- <-. by apply apart_sym, (Hapart k2 lp). }
      destruct (decide (k2 = Some id)) as [->|Hn2].
      { rewrite Hpid in Hk2. injection Hk2 as <- <-. by apply (Hapart k1 lp). }
      destruct (Hagree _ _ _ Hn1 Hk1) as (Ea & _ & Hy1 & _).
      destruct (Hagree _ _ _ Hn2 Hk2) as (Eb & _ & Hy2 & _).
      destruct (proj2 H3 _ _ _ _ _ Hne Hy1 Hy2) as (? & c1 & c2 & ? & ? & ?).
      split; [done|]. exists c1, c2. by rewrite Ea, Eb.
  - destruct H4 as (c & Hc & Hr). exists c. cbn [server y1]. rewrite E6. split; [|done].
    rewrite <- Hc. destruct (Hagree None (base y1) (acceptChannel_ y)) as [Ea _]; [done|done|].
    unfold base in *. cbn [server y1] in *. rewrite E2 in *. exact Ea.
  - intros i w. destruct (decide (i = id)) as [->|Hne].
    + rewrite Hk. intros [= <-]. split; [unfold TcpServer.made; simpl; rewrite E5; split; [apply H1|lia]| |by vm_compute|by intros []].
      unfold conn_at, TcpConnection.set_loop, loopOf. cbn [server y1]. fold lp. unfold y1. cbn [pollers].
      rewrite fn_lookup_insert. by apply (TcpConnection.conn_init_inv cb TcpConnection.Strict (fun _ => Hcb) l p (Channel.new fd)).
    + rewrite Hko by done. intros Hi.
      assert (Hki : place y1 (Some i) = Some (loopOf y1 i, TcpConnection.channel_ w))
        by (unfold place; by rewrite Hko, Hi).
      destruct (Hagree (Some i) _ _ ltac:(congruence) Hki) as (Ea & Hg & Hy & _).
      apply (conn_ok_frame y); [by apply H5| |done|].
      * unfold chan. rewrite Ea. simpl in Hy. rewrite Hi in Hy. simpl in Hy. by injection Hy as ->.
      * unfold TcpServer.made. cbn [server y1]. rewrite E5. destruct (ok_made _ _ _ (H5 i w Hi)). lia.
  - intros i w. destruct (decide (i = id)) as [->|Hne]; [by intros _ ?|].
    rewrite Hko by done. intros Hi _. apply (told_frame y); [by apply H6| | | |].
    + unfold loopOf. simpl. by apply Hloop.
    + simpl. by rewrite E3.
    + simpl. by rewrite Hd.
    + done.
  - intros lp' r Hin. specialize (Hq lp' r Hin). specialize (H7 lp' r Hin).
    destruct r as [a i|a i]; simpl in *; unfold loopOf in *; simpl; rewrite Hloop, lookup_insert_ne by done;
      [exact H7|]. by rewrite Hd.
  - intros i Hm Hi. cbn [server y1] in *. rewrite Hd. destruct (decide (i = id)) as [->|Hne]; [congruence|].
    rewrite Hko in Hi by done. apply H9; [|done]. unfold TcpServer.made in *. rewrite E5 in Hm. lia.
Qed.

(** ** Every allowed event returns and keeps the invariant *)

Section steps.
Context (Hcb : TcpConnection.polite_callbacks cb).

Lemma accept_ok y fd p :
  Inv None y -> allowed y (Accept fd p) -> TcpServer.nextConnId_ (server y) < 2 ^ 31 - 1 ->
  wp TcpConnection.only_length (accept y fd p) (Inv None).
Proof.
  intros HI Ha Hid. unfold accept. case_match; [|done..].
  rename connfd into fd'. assert (fd' = fd) as ->.
  { revert H. unfold Acceptor.handleRead. repeat case_match; congruence. }
  destruct (TcpServer.newConnection_ok (server y) fd (inv_server _ _ HI) Hid) as (s & E & HIs).
  rewrite E, bind_ret_l. cbv zeta.
  destruct (made_inv y fd p s Hcb HI E HIs Ha) as (HI1 & Hk & Hc & Hq & Hb).
  set (id := TcpServer.nextConnId_ (server y)) in *. set (y1 := mk s _ _ _ _) in *.
  rewrite Hb. destruct (Z.eqb_spec (TcpServer.getLoop s id) (base y)) as [Hl|Hl].
  - eapply (drive_established Hcb y1 id); [exact HI1|exact Hk|done|exact Hc|]. intros r. apply Hq.
  - simpl. pose proof HI1 as [H1 H2 H3 H4 H5 H6 H7 H8 H9]. split; try done.
    + intros i w Hi. by destruct (H5 i w Hi); split.
    + intros i w Hi _. destruct (decide (i = id)) as [->|Hne].
      * simpl in Hi. rewrite lookup_insert_eq in Hi. injection Hi as <-. split; simpl.
        -- split; [done|]. by intros ?.
        -- intros _. apply elem_of_enqueue. by right.
        -- by intros ?%(not_closed_not_destroyed _ _ _ HI1 Hc).
      * apply (told_frame y1); try done; [apply H6; [done|congruence]|].
        intros r Hr. apply elem_of_enqueue. by left.
    + intros lp r [Hr|[-> ->]]%elem_of_enqueue; [by apply (H7 lp r)|]. simpl.
      split_and!; [done..|]. eexists. by rewrite lookup_insert_eq.
    + intros lp. apply enqueue_nodup; [apply H8|]. intros Hr. by apply (Hq _ _ Hr).
Qed.

Lemma work_ok y lp :
  Inv None y -> allowed y (Work lp) -> wp TcpConnection.only_length (work y lp) (Inv None).
Proof.
  intros HI _. unfold work. destruct (queued y lp) as [|r rs] eqn:Hq; [done|].
  destruct (pop_inv y lp r rs HI Hq) as (Hl & Hr & HI1 & Hu). cbv zeta in HI1, Hu.
  set (y1 := mk _ _ _ _ _) in *. destruct r as [lp' id|lp' id]; simpl in Hl, Hr, Hu, HI1; subst lp'.
  - destruct Hr as (_ & -> & w & Hw & Hs). eapply drive_established; try done.
    + apply (up_not_told y id w HI Hw). congruence.
    + intros r. apply Hu.
  - destruct Hr as (_ & -> & Hd & w & Hw & Hs).
    destruct (drive_destroyed _ y1 id w HI1 Hw Hs) as (l & c & E & Hlv & Hc & Hr).
    rewrite E, bind_ret_l. by eapply release_inv.
Qed.

Lemma task_ok y :
  Inv None y ->
  exists s, TcpServer.step startLoop (server y) TcpServer.RunTask = Ok s /\ Inv None (serve y s).
Proof.
  intros HI. simpl. destruct (TcpServer.tasks (server y)) as [|id l] eqn:Ht.
  - eexists. split; [done|]. rewrite serve_same by done. by destruct y.
  - destruct (remove_inv y id l HI) as (s & E & HI' & _); [by rewrite Ht|]. by exists s.
Qed.

Lemma service_step_wp y e :
  Inv None y -> allowed y e -> TcpServer.nextConnId_ (server y) < 2 ^ 31 - 1 ->
  wp TcpConnection.only_length (step y e) (Inv None).
Proof.
  intros HI Ha Hid. destruct e as [|fd p|id rev rv|id|id c| |lp]; simpl.
  - by destruct (service_start_ok y HI) as (y' & -> & HI').
  - by apply accept_ok.
  - destruct Ha as (w & Hw & Ha). apply (drive_ok Hcb y id w); try done.
    intros Hs. destruct Ha as (c & Hc & Hr & _).
    destruct (TcpConnection.inv_channel _ _ (ok_inv _ _ _ (inv_conns _ _ HI id w Hw)))
      as (c2 & Hc2 & _ & _ & _ & Hk & _).
    destruct (Hk Hs) as (Hr2 & _). congruence.
  - destruct Ha as (w & Hw & Hp & Ha). apply (drive_ok Hcb y id w); try done.
    intros Hs. destruct (TcpConnection.inv_channel _ _ (ok_inv _ _ _ (inv_conns _ _ HI id w Hw)))
      as (c2 & Hc2 & _ & _ & _ & Hk & _).
    by destruct (Hk Hs) as (_ & _ & _ & _ & ?).
  - destruct Ha as (Hf & w & Hw & Ha). apply (drive_ok Hcb y id w); try done; by destruct c; try done; try apply Ha.
  - destruct (task_ok y HI) as (s & E & HI'). simpl in E. by rewrite E.
  - by apply work_ok.
Qed.

End steps.

Inductive reachable (loop : Z) (name : String.string) : t -> Prop :=
  | reach_init pl p fd n s :
      (forall lp, consistent (pl lp)) ->
      (forall lp, channelAt (pl lp) p = None /\
         forall q c, channelAt (pl lp) q = Some c -> Channel.fd_ c <> fd) ->
      TcpServer.setThreadNum (TcpServer.init loop name) n = Ok s ->
      reachable loop name (serve (init loop name pl p fd) s)
  | reach_step y e y' :
      reachable loop name y -> allowed y e -> TcpServer.nextConnId_ (server y) < 2 ^ 31 - 1 ->
      step y e = Ok y' -> reachable loop name y'.

Lemma service_reachable_inv loop name y :
  TcpConnection.polite_callbacks cb -> reachable loop name y -> Inv None y.
Proof.
  intros Hcb. induction 1 as [pl p fd n s Hc Hfree E|y e y' _ HI Ha Hid E].
  - assert (HIs : TcpServer.Inv s).
    { apply (TcpServer.server_reachable_inv startLoop loop name). by eapply TcpServer.reach_init. }
    destruct (Hfree loop) as [Hp Hfd].
    destruct (new_law (pl loop) p fd (Hc loop) Hp (fun q c Hc _ => Hfd q c Hc)) as (Hg & Hn & _).
    unfold TcpServer.setThreadNum in E. inv_ok. rewrite serve_same by done.
    split; try done; cbn [server pollers conns queued place].
    + intros lp. simpl. destruct (decide (lp = loop)) as [->|]; [|by rewrite fn_lookup_insert_ne].
      rewrite fn_lookup_insert. by eapply good_consistent.
    + split.
      * intros [i|] lp q; simpl; [by rewrite lookup_empty|]. intros [= <- <-]. unfold base. simpl.
        by rewrite fn_lookup_insert.
      * intros [i|] [j|] lp q1 q2; simpl; rewrite ?lookup_empty; done.
    + unfold base. simpl. rewrite fn_lookup_insert. by eexists.
    + intros lp r. simpl. by intros ?%not_elem_of_nil.
    + intros lp. constructor.
    + intros i Hm. unfold TcpServer.made in Hm. simpl in Hm. lia.
  - apply (wp_ok _ _ _ y' (service_step_wp Hcb y e HI Ha Hid) E).
Qed.

(** C3. With polite callbacks, no assert of the server, of a connection or of a
    poller fails, in whatever order clients connect, sockets become ready, other
    threads call and the loops run their functors: a step returns, unless a
    container is asked for more than memory can hold. *)
Theorem service_progress loop name y e :
  TcpConnection.polite_callbacks cb -> reachable loop name y -> allowed y e ->
  TcpServer.nextConnId_ (server y) < 2 ^ 31 - 1 ->
  match step y e with
  | Ok y' => reachable loop name y'
  | Err f => f = LengthError
  end.
Proof.
  intros Hcb Hr Ha Hid. assert (HI := service_reachable_inv _ _ _ Hcb Hr).
  pose proof (service_step_wp Hcb y e HI Ha Hid) as H.
  destruct (step y e) eqn:E; [by eapply reach_step|exact H].
Qed.

(** C5. The server and the connection objects agree, over all the loops: the
    map of the server holds exactly the connections that are not down or whose
    removal is still queued; the close callback of each was called once if it is
    down and never otherwise; the stream of each is intact; none that is down is
    forgotten, its removal or its destruction being queued; and when no functor
    is queued, the objects left are the live connections, all in the map. *)
Theorem service_connections loop name y :
  TcpConnection.polite_callbacks cb -> reachable loop name y ->
  let s := server y in
  (forall n c, TcpServer.connections_ s !! n = Some c <->
     n = TcpServer.connName (TcpServer.name_ s) c /\
     exists w, conns y !! c = Some w /\
       (TcpConnection.state_ w <> TcpConnection.kDisconnected \/ c ∈ TcpServer.tasks s)) /\
  (forall id w, conns y !! id = Some w ->
     closes (TcpConnection.log w) = down w /\
     TcpConnection.written (TcpConnection.log w) ++ Buffer.readable (TcpConnection.outputBuffer_ w) =
       TcpConnection.accepted (TcpConnection.log w) /\
     (TcpConnection.state_ w = TcpConnection.kDisconnected ->
        id ∈ TcpServer.tasks s \/ TcpServer.Destroy (loopOf y id) id ∈ queued y (loopOf y id))) /\
  (TcpServer.tasks s = [] -> (forall lp, queued y lp = []) ->
     forall id w, conns y !! id = Some w ->
       TcpConnection.live (TcpConnection.state_ w) = true /\
       TcpServer.connections_ s !! TcpServer.connName (TcpServer.name_ s) id = Some id).
Proof.
  intros Hcb Hr s. assert (HI := service_reachable_inv _ _ _ Hcb Hr).
  assert (HS2 := inv_server _ _ HI). fold s in HS2.
  assert (Hmap : forall n c, TcpServer.connections_ s !! n = Some c <->
     n = TcpServer.connName (TcpServer.name_ s) c /\
     exists w, conns y !! c = Some w /\
       (TcpConnection.state_ w <> TcpConnection.kDisconnected \/ c ∈ TcpServer.tasks s)).
  { intros n c. rewrite (TcpServer.inv_map _ HS2). split.
    - intros (-> & Hm & Hd). split; [done|]. destruct (conns y !! c) as [w|] eqn:Hw.
      2:{ destruct Hd. by apply (inv_gone _ _ HI). }
      exists w. split; [done|].
      destruct (decide (TcpConnection.state_ w = TcpConnection.kDisconnected)) as [E|]; [right|by left].
      apply (told_closed _ _ _ (inv_told _ _ HI c w Hw ltac:(done))) in E.
      apply (TcpServer.inv_closed _ HS2), elem_of_app in E as [E|]; done.
    - intros (-> & w & Hw & Hor). split_and!; [done|by apply (inv_conns _ _ HI c w)|].
      destruct Hor as [Hs|Ht]; [by apply (not_closed_not_destroyed y None), (up_not_told y c w)|].
      intros Hd. pose proof (TcpServer.inv_destroyed _ HS2) as Hn.
      apply NoDup_app in Hn as (_ & Hn & _). by apply (Hn c). }
  assert (Hgone : forall id w, conns y !! id = Some w ->
    TcpConnection.state_ w = TcpConnection.kDisconnected ->
    id ∈ TcpServer.tasks s \/ TcpServer.Destroy (loopOf y id) id ∈ queued y (loopOf y id)).
  { intros id w Hw E. assert (Ht := inv_told _ _ HI id w Hw ltac:(done)).
    apply (told_closed _ _ _ Ht), (TcpServer.inv_closed _ HS2), elem_of_app in E as [E|]; [right|by left].
    by apply (told_destroy _ _ _ Ht). }
  split; [exact Hmap|]. split.
  - intros id w Hw. destruct (inv_conns _ _ HI id w Hw) as [O1 O2 O3 O4].
    split_and!; [done|apply (TcpConnection.inv_stream _ _ O2)|by apply Hgone].
  - intros Ht Hq id w Hw.
    assert (Hs1 : TcpConnection.state_ w <> TcpConnection.kDisconnected).
    { intros E. apply (Hgone id w Hw) in E as [E|E]; [rewrite Ht in E|rewrite Hq in E];
        by apply not_elem_of_nil in E. }
    assert (Hs2 : TcpConnection.state_ w <> TcpConnection.kConnecting).
    { intros E. apply (told_establish _ _ _ (inv_told _ _ HI id w Hw ltac:(done))) in E.
      rewrite Hq in E. by apply not_elem_of_nil in E. }
    split; [by destruct (TcpConnection.state_ w)|]. apply Hmap. split; [done|]. eauto.
Qed.

End service.

(** ** A run: one client on a second loop, who sends and closes *)

#[local] Existing Instance EPoller.demo_kernel.
#[local] Existing Instance EPoller.epoller_owner.
#[local] Existing Instance EPoller.epoller_host.
#[local] Existing Instance TcpConnection.demo_socket.

Notation service := (t (P := EPoller.t)).

Definition loops_of (i : Z) : Z := 10 + i.
Definition step1 (y : service) (e : event) : res service := step TcpConnection.echo loops_of y e.
Definition next (y : service) (e : event) : service := match step1 y e with Ok y' => y' | Err _ => y end.

Definition demo_server : TcpServer.t := TcpServer.or_self (TcpServer.init 1 "s")
  (TcpServer.setThreadNum (TcpServer.init 1 "s") 1).
Definition demo_init : service :=
  serve (init 1 "s" (fun _ => EPoller.demo0) 50 3) demo_server.
Definition demo_started : service := next demo_init Start.
Definition demo_accepted : service := next demo_started (Accept 5 100).
Definition demo_up : service := next demo_accepted (Work 10).
Definition demo_sent : service :=
  next demo_up (Ready 1 Channel.POLLIN (Buffer.RvData (bytes "hi"))).
Definition demo_closed : service := next demo_sent (Ready 1 Channel.POLLIN (Buffer.RvData [])).
Definition demo_removed : service := next (next demo_closed (Functor 1)) RunTask.

Lemma next_ok y e : is_ok (step1 y e) = true -> step1 y e = Ok (next y e).
Proof. unfold next. by destruct (step1 y e). Qed.

Notation reached := (reachable TcpConnection.echo loops_of 1 "s").

Lemma service_next y e :
  reached y -> allowed y e -> (TcpServer.nextConnId_ (server y) <? 2 ^ 31 - 1) = true ->
  is_ok (step1 y e) = true -> reached (next y e).
Proof.
  intros Hr Ha Hid E. apply (reach_step _ _ _ _ y e); [done|done|lia|].
  unfold next, step1 in *. by destruct (step TcpConnection.echo loops_of y e).
Qed.

(** No channel of the poller [w] is at [p] or on [fd]. *)
Definition demo_free (w : EPoller.t (Kern := EPoller.demo_kernel)) (p fd : Z) : bool :=
  bool_decide (EPoller.store w !! p = None) &&
  bool_decide (map_Forall (fun _ c => Channel.fd_ c <> fd) (EPoller.store w)).

Lemma demo_free_ok w p fd :
  demo_free w p fd = true -> channelAt w p = None /\
    forall q c, channelAt w q = Some c -> Channel.fd_ c <> fd.
Proof.
  unfold demo_free. intros [H1 H2]%andb_true_iff. apply bool_decide_eq_true in H1.
  apply (proj1 (bool_decide_eq_true _)) in H2. split; [done|]. intros q c. apply H2.
Qed.

Lemma demo_started_pollers :
  pollers demo_started = <[1 := pollers demo_started 1]>
    (<[1 := EPoller.create EPoller.demo0 50 3]> (fun _ => EPoller.demo0)).
Proof. vm_compute. reflexivity. Qed.

Lemma demo_accept_allowed : allowed demo_started (Accept 5 100).
Proof.
  intros lp. apply demo_free_ok. rewrite demo_started_pollers.
  destruct (decide (lp = 1)) as [->|H1]; [by vm_compute|]. by rewrite !fn_lookup_insert_ne by done.
Qed.

Lemma demo_init_reachable : reached demo_init.
Proof.
  apply (reach_init _ _ 1 "s" (fun _ => EPoller.demo0) 50 3 1).
  - intros lp. by apply EPoller.epoller_init_inv.
  - intros lp. split; [by vm_compute|]. intros q c. simpl. by rewrite lookup_empty.
  - by vm_compute.
Qed.

Lemma service_up_reachable : reached demo_up.
Proof.
  apply service_next; [|by vm_compute..].
  apply service_next; [|apply demo_accept_allowed|by vm_compute..].
  apply service_next; [apply demo_init_reachable|exact I|by vm_compute..].
Qed.

Definition demo_conn (y : service) : TcpConnection.t (P := EPoller.t) :=
  default (TcpConnection.init EPoller.demo0 0) (conns y !! 1).

Definition demo_there (y : service) : bool := bool_decide (is_Some (conns y !! 1)).

Lemma demo_conn_there y : demo_there y = true -> conns y !! 1 = Some (demo_conn y).
Proof. unfold demo_there, demo_conn. intros [w ->]%bool_decide_eq_true. done. Qed.

(** What the channel of connection 1 must be for the kernel to report it. *)
Definition demo_polled (y : service) : bool :=
  match chan y 1 (demo_conn y) with
  | Some c => registered c && negb (Channel.isNoneEvent c) && Channel.isReading c
  | None => false
  end.

(** Bytes, or the end of the stream, arrive on connection 1. *)
Lemma demo_ready y d :
  demo_there y = true -> demo_polled y = true ->
  allowed y (Ready 1 Channel.POLLIN (Buffer.RvData d)).
Proof.
  intros Hw Hb. unfold demo_polled in Hb. destruct (chan y 1 (demo_conn y)) as [c|] eqn:Hc; [|done].
  apply andb_true_iff in Hb as [[Hb1 Hb2%negb_true_iff]%andb_true_iff Hb3].
  exists (demo_conn y). split; [by apply demo_conn_there|]. exists c. split; [exact Hc|]. split; [done|].
  intros _. by split.
Qed.

Lemma demo_readable y d :
  reached y -> demo_there y = true -> demo_polled y = true ->
  (TcpServer.nextConnId_ (server y) <? 2 ^ 31 - 1) = true ->
  is_ok (step1 y (Ready 1 Channel.POLLIN (Buffer.RvData d))) = true ->
  reached (next y (Ready 1 Channel.POLLIN (Buffer.RvData d))).
Proof.
  intros Hr Hw Hb Hid E. apply service_next; [done|by apply demo_ready|done|done].
Qed.

Lemma service_closed_reachable : reached demo_closed.
Proof.
  apply demo_readable; [|vm_compute; reflexivity..].
  apply demo_readable; [apply service_up_reachable|vm_compute; reflexivity..].
Qed.

Lemma demo_functor y f :
  demo_there y = true -> TcpConnection.pending (demo_conn y) = [f] ->
  f = TcpConnection.FWriteComplete -> allowed y (Functor 1).
Proof.
  intros Hw E ->. exists (demo_conn y). split; [by apply demo_conn_there|]. split; [by rewrite E|].
  intros _. unfold conn_at, TcpConnection.set_loop. cbn [TcpConnection.pending]. by rewrite E.
Qed.

Lemma demo_removed_reachable : reached demo_removed.
Proof.
  apply service_next; [|exact I|vm_compute; reflexivity..].
  apply service_next; [apply service_closed_reachable| |vm_compute; reflexivity..].
  eapply demo_functor; vm_compute; reflexivity.
Qed.

Lemma demo_destroy y lp id :
  queued y lp = [TcpServer.Destroy lp id] -> id = 1 -> demo_there y = true ->
  TcpConnection.pending (demo_conn y) = [] -> allowed y (Work lp).
Proof.
  intros E -> Hw Hp. unfold allowed. rewrite E. exists (demo_conn y).
  split; [by apply demo_conn_there|done].
Qed.

Lemma service_progress_witness :
  match step1 demo_removed (Work 10) with
  | Ok y' => reached y'
  | Err f => f = LengthError
  end.
Proof.
  apply (service_progress TcpConnection.echo loops_of 1 "s" demo_removed (Work 10)).
  - apply TcpConnection.echo_polite.
  - apply demo_removed_reachable.
  - eapply demo_destroy; vm_compute; reflexivity.
  - vm_compute. reflexivity.
Defined.

Lemma service_connections_witness :
  TcpServer.connections_ (server demo_closed) !! TcpServer.connName "s" 1 = Some 1 /\
  exists w, conns demo_closed !! 1 = Some w /\
    (TcpConnection.state_ w <> TcpConnection.kDisconnected \/ 1 ∈ TcpServer.tasks (server demo_closed)).
Proof.
  pose proof (service_connections TcpConnection.echo loops_of 1 "s" demo_closed
    TcpConnection.echo_polite service_closed_reachable) as [H _].
  assert (E : TcpServer.connections_ (server demo_closed) !! TcpServer.connName "s" 1 = Some 1)
    by (vm_compute; reflexivity).
  split; [exact E|]. exact (proj2 (proj1 (H _ _) E)).
Defined.

End Service.
