(* ===== verification/TcpClient.v ===== *)
(** * TcpClient: one connection through a connector ([TcpClient.h], [TcpClient.cpp])

    The client holds its connector's state; a connection is named by the socket
    it was made on.  The connector's new-connection callback is its last action,
    so the client's [newConnection] is run after the connector's step. *)

From S2P Require Import Prelude Channel Connector.

Module TcpClient.

Section client.
Context `{N : Connector.Net}.

Record t := mk {
  connector_ : Connector.t;
  retry_ : bool;
  connect_ : bool;
  nextConnId_ : Z;
  connection_ : option nat;
  (* the numbers in the names of the connections made, in order *)
  made : list (nat * Z);
  (* connectionDestroyed queued, in order *)
  destroyed : list nat;
  (* shutdown() called *)
  shutdowns : list nat
}.

Definition init : t := mk Connector.init false true 1 None [] [] [].

Definition set_connector (c : t) (k : Connector.t) : t :=
  mk k (retry_ c) (connect_ c) (nextConnId_ c) (connection_ c) (made c) (destroyed c) (shutdowns c).
Definition set_connect (c : t) (b : bool) : t :=
  mk (connector_ c) (retry_ c) b (nextConnId_ c) (connection_ c) (made c) (destroyed c) (shutdowns c).

Definition enableRetry (c : t) : t :=
  mk (connector_ c) true (connect_ c) (nextConnId_ c) (connection_ c) (made c) (destroyed c) (shutdowns c).

(** [newConnection]: the name ends in [nextConnId_], which is not changed. *)
Definition newConnection (c : t) (sockfd : nat) : t :=
  mk (connector_ c) (retry_ c) (connect_ c) (nextConnId_ c) (Some sockfd)
    (made c ++ [(sockfd, nextConnId_ c)]) (destroyed c) (shutdowns c).

(** The sockets the connector has handed over. *)
Definition delivered (k : Connector.t) : list nat :=
  omap (fun o => match o with Connector.NewConnection s => Some s | _ => None end) (Connector.log k).

(** A step of the connector, with its new-connection callback. *)
Definition run_connector (c : t) (e : Connector.event) : res t :=
  k ← Connector.step (connector_ c) e ;
  let fresh := drop (length (delivered (connector_ c))) (delivered k) in
  Ok (foldl newConnection (set_connector c k) fresh).

Definition connect (c : t) : res t := run_connector (set_connect c true) Connector.Start.

Definition disconnect (c : t) : t :=
  let c := set_connect c false in
  match connection_ c with
  | Some s => mk (connector_ c) (retry_ c) (connect_ c) (nextConnId_ c) (connection_ c) (made c)
                (destroyed c) (shutdowns c ++ [s])
  | None => c
  end.

Definition stop (c : t) (last : bool) : res t :=
  run_connector (set_connect c false) (Connector.Stop last).

(** [removeConnection], the close callback of the connection on [s]. *)
Definition removeConnection (c : t) (s : nat) : res t :=
  assert_ (bool_decide (connection_ c = Some s)) ;;
  let c := mk (connector_ c) (retry_ c) (connect_ c) (nextConnId_ c) None (made c)
             (destroyed c ++ [s]) (shutdowns c) in
  if retry_ c && connect_ c then run_connector c Connector.Restart else Ok c.

Inductive event :=
  | Connect
  | Disconnect
  | Stop (last : bool)
  | EnableRetry
  | Network (e : Connector.event)
  | Closed (s : nat).

Definition step (c : t) (e : event) : res t :=
  match e with
  | Connect => connect c
  | Disconnect => Ok (disconnect c)
  | Stop last => stop c last
  | EnableRetry => Ok (enableRetry c)
  | Network e => run_connector c e
  | Closed s => removeConnection c s
  end.

(** The loop runs the connector's timers, events and functors; the user connects
    an idle client; a connection's close callback is called once, when it is up,
    in an iteration after the one that made it. *)
Definition allowed (c : t) (e : event) : Prop :=
  match e with
  | Connect => Connector.allowed (connector_ c) Connector.Start
  | Stop last => Connector.allowed (connector_ c) (Connector.Stop last)
  | Network (Connector.Start | Connector.Restart | Connector.Stop _) => False
  | Network e => Connector.allowed (connector_ c) e
  | Closed s => connection_ c = Some s /\ Connector.channel_ (connector_ c) = None
  | _ => True
  end.

(** ** The invariant *)

Record Inv (c : t) : Prop := {
  inv_connector : Connector.reachable (connector_ c);
  inv_delivered : delivered (connector_ c) = destroyed c ++ option_list (connection_ c);
  inv_made : made c = (fun s => (s, 1)) <$> delivered (connector_ c);
  inv_up : connection_ c <> None -> Connector.state_ (connector_ c) = Connector.kConnected;
  inv_next : nextConnId_ c = 1
}.

(** ** What a step of the connector hands over *)

Ltac handed := unfold delivered; simpl; rewrite ?omap_app; simpl; by rewrite ?app_nil_r.

Lemma delivered_retry k s : delivered (Connector.retry k s) = delivered k.
Proof. unfold Connector.retry. simpl. destruct (Connector.connect_ k); handed. Qed.

Lemma delivered_startInLoop k k' :
  Connector.startInLoop k = Ok k' -> delivered k' = delivered k.
Proof.
  unfold Connector.startInLoop, Connector.connect. intros E. inv_ok.
  destruct (Connector.connect_ k); [|by inv_ok]. unfold Connector.create_socket in *.
  destruct (Connector.socket_fails _); [simpl in *; by inv_ok|]. simpl in *. destruct (Connector.classify _).
  - unfold Connector.connecting in *. inv_ok. handed.
  - inv_ok. rewrite delivered_retry. handed.
  - inv_ok. handed.
Qed.

Lemma delivered_ready k k' revents so self s0 :
  Connector.state_ k = Connector.kConnecting -> Connector.channel_ k = Some (s0, true) ->
  Connector.handleEvent k revents so self = Ok k' ->
  delivered k' = delivered k \/
  exists s, delivered k' = delivered k ++ [s] /\ Connector.state_ k' = Connector.kConnected.
Proof.
  intros Hs Hc E. unfold Connector.handleEvent, Channel.handleEvent in E. simpl in E.
  rewrite !andb_true_r, !andb_false_r in E.
  assert (Hrm : forall k1 r, Connector.removeAndResetChannel k1 = Ok r -> delivered (snd r) = delivered k1).
  { unfold Connector.removeAndResetChannel. intros k1 r H. by destruct (Connector.channel_ k1) as [[]|]; inv_ok. }
  assert (Hw : forall k1 k2, Connector.handleWrite k1 so self = Ok k2 ->
    delivered k2 = delivered k1 \/
    exists s, delivered k2 = delivered k1 ++ [s] /\ Connector.state_ k2 = Connector.kConnected).
  { intros k1 k2 H. unfold Connector.handleWrite in H. destruct (bool_decide _); [|inv_ok; by left].
    apply bind_ok in H as (r & Hr & H). specialize (Hrm _ _ Hr).
    destruct (negb (so =? 0)); [inv_ok; left; by rewrite delivered_retry|].
    destruct self; [inv_ok; left; by rewrite delivered_retry|].
    inv_ok. simpl. destruct (Connector.connect_ (snd r)).
    - right. exists (fst r). split; [|done]. rewrite <- Hrm. handed.
    - left. rewrite <- Hrm. handed. }
  destruct (Channel.has revents (Z.lor Channel.POLLERR Channel.POLLNVAL)); simpl in E.
  - apply bind_ok in E as (k1 & E1 & E2). unfold Connector.handleError in E1. inv_ok.
    match type of E2 with Connector.handle_all ?k1 _ _ _ = _ =>
      assert (H1 : delivered k1 = delivered k) by (rewrite delivered_retry; by apply Hrm);
      revert E2 H1; generalize k1 end.
    intros k1 E2 H1. destruct (Channel.has revents Channel.POLLOUT); simpl in E2; inv_ok; [|by left].
    rewrite <- H1. by apply Hw.
  - destruct (Channel.has revents Channel.POLLOUT); simpl in E; inv_ok; [|by left]. by apply Hw.
Qed.

Lemma connector_delivers k e k' :
  Connector.Inv k -> Connector.allowed k e -> Connector.step k e = Ok k' ->
  (delivered k' = delivered k /\
     (Connector.state_ k = Connector.kConnected -> e <> Connector.Restart ->
      Connector.state_ k' = Connector.kConnected)) \/
  (exists s, delivered k' = delivered k ++ [s] /\ Connector.state_ k' = Connector.kConnected /\
     Connector.state_ k = Connector.kConnecting).
Proof.
  intros HI Ha E. destruct e as [| | | |revents so self|]; simpl in *.
  - left. apply delivered_startInLoop in E. split; [done|]. destruct Ha as [Hs _]. congruence.
  - left. apply delivered_startInLoop in E. by split.
  - left. by apply Connector.stop_same in E as (l & ->).
  - left. destruct (Connector.timers k) as [|i l] eqn:Ht; [by inv_ok|].
    destruct (Connector.inv_timers k HI) as (Hd & _); [by rewrite Ht|].
    apply delivered_startInLoop in E. split; [done|]. congruence.
  - destruct Ha as (s0 & Hc). pose proof (Connector.inv_channel k HI) as Hch.
    rewrite Hc in Hch. destruct Hch as [Hs _].
    destruct (delivered_ready k k' revents so self s0 Hs Hc E) as [H|(s & H1 & H2)].
    + left. split; [done|]. congruence.
    + right. by exists s.
  - left. destruct (Connector.resets k); by inv_ok.
Qed.

Lemma run_connector_ok c e :
  Connector.reachable (connector_ c) -> Connector.allowed (connector_ c) e ->
  delivered (connector_ c) = destroyed c ++ option_list (connection_ c) ->
  made c = (fun s => (s, 1)) <$> delivered (connector_ c) -> nextConnId_ c = 1 ->
  (connection_ c <> None -> Connector.state_ (connector_ c) = Connector.kConnected /\ e <> Connector.Restart) ->
  exists c', run_connector c e = Ok c' /\ Inv c'.
Proof.
  intros Hr Ha Hd Hm Hn Hup. assert (HI := Connector.connector_reachable_inv _ Hr).
  destruct (Connector.step_ok _ e HI Ha) as (k & E & HIk). unfold run_connector. rewrite E.
  rewrite bind_ret_l. assert (Hk : Connector.reachable k) by (by eapply Connector.reach_step).
  destruct (connector_delivers _ e k HI Ha E) as [[H1 H2]|(s & H1 & H2 & H3)]; rewrite H1.
  - rewrite drop_all. simpl. eexists. split; [reflexivity|]. split; simpl; try done.
    + by rewrite H1.
    + by rewrite H1.
    + intros H. destruct (Hup H). auto.
  - rewrite drop_app_length. simpl. eexists. split; [reflexivity|].
    assert (Hnone : connection_ c = None).
    { destruct (connection_ c) eqn:Ec; [|done]. destruct Hup; [done|congruence]. }
    rewrite Hnone in Hd. simpl in Hd. rewrite app_nil_r in Hd.
    split; simpl; try done.
    + by rewrite H1, Hd.
    + by rewrite H1, fmap_app, Hm, Hn.
Qed.

Lemma client_step_ok c e : Inv c -> allowed c e -> exists c', step c e = Ok c' /\ Inv c'.
Proof.
  intros HI Ha. destruct HI as [H1 H2 H3 H4 H5]. destruct e as [| | | |e|s]; simpl in *.
  - apply run_connector_ok; try done. simpl. intros H. specialize (H4 H). destruct Ha as [Hs _]. congruence.
  - eexists. split; [reflexivity|]. unfold disconnect. simpl.
    destruct (connection_ c) eqn:E; split; simpl; rewrite ?E; try done; by intros; apply H4.
  - apply run_connector_ok; try done. simpl. intros H. split; [by apply H4|done].
  - eexists. split; [reflexivity|]. by split.
  - apply run_connector_ok; try done.
    + by destruct e.
    + intros H. split; [by apply H4|]. by intros ->.
  - destruct Ha as [Hs Hc]. unfold removeConnection. rewrite Hs, bool_decide_true by done. simpl.
    rewrite Hs in H2. simpl in H2.
    assert (Hst : Connector.state_ (connector_ c) = Connector.kConnected) by (apply H4; by rewrite Hs).
    case_match.
    + apply run_connector_ok; simpl; try done. by rewrite app_nil_r.
    + eexists. split; [reflexivity|]. split; simpl; try done. by rewrite app_nil_r.
Qed.

Inductive reachable : t -> Prop :=
  | reach_init : reachable init
  | reach_step c e c' : reachable c -> allowed c e -> step c e = Ok c' -> reachable c'.

Lemma client_reachable_inv c : reachable c -> Inv c.
Proof.
  induction 1 as [|c e c' _ HI Ha E].
  - split; simpl; try done. apply Connector.reach_init.
  - destruct (client_step_ok c e HI Ha) as (c2 & E2 & HI2). by assert (c' = c2) as -> by congruence.
Qed.

(** No socket is handed over twice. *)
Lemma delivered_nodup k : Connector.reachable k -> NoDup (delivered k).
Proof.
  intros HI%Connector.connector_reachable_inv.
  assert (Hnd : NoDup (Connector.disposed (Connector.log k))).
  { assert (HN : NoDup (Connector.disposed (Connector.log k) ++ Connector.in_progress k));
      [|by apply NoDup_app in HN as [? _]].
    rewrite (Connector.inv_sockets _ HI), (Connector.inv_opened _ HI). apply NoDup_seq. }
  refine (sublist_NoDup _ _ Hnd _).
  unfold delivered, Connector.disposed. clear. induction (Connector.log _) as [|o l IH]; simpl; [done|].
  destruct o; simpl; try done; by constructor.
Qed.

(** Every socket the connector hands over becomes one connection, which is
    the current one or has been destroyed, once, in the order they were made; so
    a client has at most one connection, and it is up only when the connector is
    connected.  All of them get the same number in their names: [nextConnId_] is
    never incremented. *)
Theorem client_connections c :
  reachable c ->
  delivered (connector_ c) = destroyed c ++ option_list (connection_ c) /\
  fst <$> made c = delivered (connector_ c) /\ (forall s n, (s, n) ∈ made c -> n = 1) /\
  (connection_ c <> None -> Connector.state_ (connector_ c) = Connector.kConnected) /\
  NoDup (delivered (connector_ c)).
Proof.
  intros [H1 H2 H3 H4 H5]%client_reachable_inv. split_and!; try done.
  - rewrite H3, <- list_fmap_compose. apply list_fmap_id.
  - intros s n. rewrite H3. intros (s' & [= -> ->] & _)%list_elem_of_fmap. done.
  - by apply delivered_nodup.
Qed.

(** The asserts of the client and of its connector hold: [connect] on an idle
    client, [disconnect] at any time, [stop] when no retry timer is the last of the
    queue, and the close of its connection all return, with and without retry. *)
Theorem client_progress c e :
  reachable c -> allowed c e -> exists c', step c e = Ok c' /\ reachable c'.
Proof.
  intros Hr Ha. destruct (client_step_ok c e (client_reachable_inv c Hr) Ha) as (c' & E & _).
  exists c'. split; [done|]. by eapply reach_step.
Qed.

(** A client whose connection was closed, without retry, cannot connect
    again: the connector is left in [kConnected], and [connect()] fails its
    assert. *)
Theorem client_cannot_reconnect c s c' :
  reachable c -> allowed c (Closed s) -> retry_ c && connect_ c = false ->
  step c (Closed s) = Ok c' -> step c' Connect = Err AssertFailed.
Proof.
  intros HI%client_reachable_inv [Hs _] Hr E. simpl in E. unfold removeConnection in E.
  rewrite Hs, bool_decide_true in E by done. simpl in E. rewrite Hr in E. injection E as <-.
  assert (Hst : Connector.state_ (connector_ c) = Connector.kConnected)
    by (apply (inv_up c HI); by rewrite Hs).
  simpl. unfold connect, run_connector. simpl. unfold Connector.start, Connector.startInLoop. simpl.
  by rewrite Hst.
Qed.

End client.
(** ** A run: connected, closed by the peer, connected again with retry *)

#[local] Existing Instance Connector.demo_net.

Definition or_self (c : t) (m : res t) : t := match m with Ok c' => c' | Err _ => c end.
Definition next (c : t) (e : event) : t := or_self c (step c e).

Lemma client_reach_next c e :
  reachable c -> allowed c e -> is_ok (step c e) = true -> reachable (next c e).
Proof.
  intros Hr Ha E. apply (reach_step c e); [done|done|]. unfold next. by destruct (step c e).
Qed.

Definition demo_connecting : t := next init Connect.
Definition demo_made : t := next demo_connecting (Network (Connector.Ready Channel.POLLOUT 0 false)).
Definition demo_up : t := next demo_made (Network Connector.Functor).

Lemma client_demo_up_reachable : reachable demo_up.
Proof.
  apply (client_reach_next demo_made (Network Connector.Functor)); [|exact I|vm_compute; reflexivity].
  apply (client_reach_next demo_connecting (Network (Connector.Ready Channel.POLLOUT 0 false)));
    [|exists 0%nat; vm_compute; reflexivity|vm_compute; reflexivity].
  apply (client_reach_next init Connect reach_init); [|vm_compute; reflexivity].
  vm_compute. auto.
Qed.

Lemma client_connections_witness :
  connection_ demo_up = Some 0%nat /\ forall s n, (s, n) ∈ made demo_up -> n = 1.
Proof.
  split; [vm_compute; reflexivity|].
  exact (proj1 (proj2 (proj2 (client_connections demo_up client_demo_up_reachable)))).
Defined.

Lemma client_progress_witness :
  exists c', step demo_up (Closed 0) = Ok c' /\ reachable c'.
Proof.
  apply (client_progress demo_up (Closed 0) client_demo_up_reachable).
  split; vm_compute; reflexivity.
Defined.

Lemma client_cannot_reconnect_witness :
  exists c', step demo_up (Closed 0) = Ok c' /\ step c' Connect = Err AssertFailed.
Proof.
  assert (E : step demo_up (Closed 0) = Ok (next demo_up (Closed 0))) by (vm_compute; reflexivity).
  eexists. split; [exact E|].
  apply (client_cannot_reconnect demo_up 0 (next demo_up (Closed 0)) client_demo_up_reachable);
    [split; vm_compute; reflexivity|vm_compute; reflexivity|exact E].
Defined.

End TcpClient.
