(* ===== verification/ClientEnd.v ===== *)
(** * ClientEnd: the destructors of a client
      ([TcpClient::~TcpClient], [Connector::~Connector])

    A client without a connection stops its connector and leaves it to a timer
    of one second, [removeConnector], which holds the last reference.  A client
    with a connection gives it a new close callback, which is
    [detail::removeConnection], and drops its references at once.  Each
    cancellation of the retry timer is told whether that is the last of the loop's
    queue, as in [Connector]. *)

From S2P Require Import Prelude Channel ChannelOwner EPoller TcpConnection Connector TcpClient.

Module ClientEnd.

Section ending.
Context `{N : Connector.Net}.

(** What is left when the client is gone. *)
Record t := mk {
  connector_ : Connector.t;
  (* the connector exists: [removeConnector] has not run *)
  alive : bool;
  (* the connection with its new close callback *)
  conn : option nat;
  (* [connectionDestroyed] queued since *)
  destroyed : list nat
}.

(** [~Connector]; [last] says whether its retry timer, if it is pending, is the last
    of the queue. *)
Definition destroy_connector (k : Connector.t) (last : bool) : res Connector.t :=
  k ← Connector.cancel k last ;
  assert_ (bool_decide (Connector.channel_ k = None)) ;;
  Ok k.

(** [~TcpClient], and the destructors of its members. *)
Definition destroy (c : TcpClient.t) (last : bool) : res t :=
  match TcpClient.connection_ c with
  | Some s =>
      k ← destroy_connector (TcpClient.connector_ c) last ;
      Ok (mk k false (Some s) [])
  | None =>
      k ← Connector.stop (TcpClient.connector_ c) last ;
      Ok (mk k true None [])
  end.

(** [detail::removeConnection] *)
Definition removeConnection (a : t) (s : nat) : t :=
  mk (connector_ a) (alive a) None (destroyed a ++ [s]).

Inductive event :=
  | Network (e : Connector.event)
  (* the timer of one second *)
  | Expire (last : bool)
  | Closed (s : nat).

(** The functors, the timer and the channel of a connector hold a raw pointer
    to it. *)
Definition step (a : t) (e : event) : res t :=
  match e with
  | Network e =>
      if alive a then
        k ← Connector.step (connector_ a) e ;
        Ok (mk k (alive a) (conn a) (destroyed a))
      else Err UseAfterFree
  | Expire last =>
      k ← destroy_connector (connector_ a) last ;
      Ok (mk k false (conn a) (destroyed a))
  | Closed s => Ok (removeConnection a s)
  end.

(** What the loop can still run: nobody starts or stops the connector. *)
Definition pending (k : Connector.t) (e : Connector.event) : Prop :=
  match e with
  | Connector.Timer => Connector.timers k <> [] /\ Connector.channel_ k = None
  | Connector.Ready _ _ _ => exists s, Connector.channel_ k = Some (s, true)
  | Connector.Functor => Connector.resets k <> 0%nat
  | _ => False
  end.

Definition allowed (a : t) (e : event) : Prop :=
  match e with
  | Network e => pending (connector_ a) e
  | Expire _ => alive a = true
  | Closed s => conn a = Some s
  end.

Inductive runs : t -> t -> Prop :=
  | runs_nil a : runs a a
  | runs_step a a1 e a2 : runs a a1 -> allowed a1 e -> step a1 e = Ok a2 -> runs a a2.

(** ** A stopped connector only closes *)

(** Nothing was handed over and no retry was planned between the two. *)
Record same (k k' : Connector.t) : Prop := {
  same_connect : Connector.connect_ k' = Connector.connect_ k;
  same_timers : Connector.timers k' = Connector.timers k;
  same_delivered : TcpClient.delivered k' = TcpClient.delivered k;
  same_retries : Connector.retries (Connector.log k') = Connector.retries (Connector.log k)
}.

Lemma stopped_refl k : same k k.
Proof. by split. Qed.

Lemma stopped_trans k1 k2 k3 : same k1 k2 -> same k2 k3 -> same k1 k3.
Proof. intros [] []. split; congruence. Qed.

Ltac logged := unfold TcpClient.delivered, Connector.retries; simpl; rewrite ?omap_app; simpl; by rewrite ?app_nil_r.

Lemma retry_same k s : Connector.connect_ k = false -> same k (Connector.retry k s).
Proof. intros E. unfold Connector.retry. simpl. rewrite E. split; simpl; try done; logged. Qed.

Lemma remove_same k r : Connector.removeAndResetChannel k = Ok r -> same k (snd r).
Proof. unfold Connector.removeAndResetChannel. destruct (Connector.channel_ k) as [[s b]|]; intros E; inv_ok; by split. Qed.

Lemma handle_same k so self cb k' :
  Connector.connect_ k = false -> Connector.handle k so self cb = Ok k' -> same k k'.
Proof.
  intros Hc E. destruct cb; cbn [Connector.handle] in E; try (inv_ok; apply stopped_refl).
  - unfold Connector.handleError in E. apply bind_ok in E as (? & _ & E). apply bind_ok in E as (r & Hr & E).
    pose proof (remove_same _ _ Hr) as Hs. inv_ok. apply (stopped_trans _ _ _ Hs), retry_same.
    by rewrite (same_connect _ _ Hs).
  - unfold Connector.handleWrite in E. destruct (bool_decide _); [|inv_ok; apply stopped_refl].
    apply bind_ok in E as (r & Hr & E). pose proof (remove_same _ _ Hr) as Hs.
    assert (Hc2 : Connector.connect_ (snd r) = false) by (rewrite (same_connect _ _ Hs); done).
    apply (stopped_trans _ _ _ Hs).
    destruct (negb (so =? 0)); [inv_ok; by apply retry_same|].
    destruct self; [inv_ok; by apply retry_same|]. inv_ok. simpl. rewrite Hc2. split; simpl; try done; logged.
Qed.

Lemma handle_all_same cbs : forall k so self k',
  Connector.connect_ k = false -> Connector.handle_all k so self cbs = Ok k' -> same k k'.
Proof.
  induction cbs as [|cb cbs IH]; intros k so self k' Hc E; simpl in E; [inv_ok; apply stopped_refl|].
  apply bind_ok in E as (k1 & E1 & E2). pose proof (handle_same _ _ _ _ _ Hc E1) as H1.
  apply (stopped_trans _ _ _ H1), (IH _ so self); [|done]. by rewrite (same_connect _ _ H1).
Qed.

Lemma pending_same k e k' :
  Connector.connect_ k = false -> Connector.timers k = [] -> pending k e ->
  Connector.step k e = Ok k' -> same k k'.
Proof.
  intros Hc Ht Hp E. destruct e as [| |last| |rev so self|]; simpl in Hp; try done.
  - by destruct Hp.
  - by apply (handle_all_same _ _ _ _ _ Hc E).
  - simpl in E. destruct (Connector.resets k); inv_ok; by split.
Qed.

Lemma pending_allowed k e : pending k e -> Connector.allowed k e.
Proof. destruct e; simpl; tauto. Qed.

(** ** The life after the client *)

Record Inv (k0 : Connector.t) (a : t) : Prop := {
  inv_reachable : Connector.Inv (connector_ a);
  inv_same : same k0 (connector_ a);
  inv_stopped : Connector.connect_ (connector_ a) = false;
  inv_timers : Connector.timers (connector_ a) = [];
  inv_dead : alive a = false -> Connector.channel_ (connector_ a) = None
}.

(** Without a retry planned there is nothing to cancel. *)
Lemma cancel_idle k last : Connector.timers k = [] -> Connector.cancel k last = Ok k.
Proof.
  intros Ht. unfold Connector.cancel. destruct (Connector.timerId_ k); [|done].
  by rewrite Ht, bool_decide_false by apply not_elem_of_nil.
Qed.

Lemma ended_step_inv k0 a e a' : Inv k0 a -> allowed a e -> step a e = Ok a' -> Inv k0 a'.
Proof.
  intros [H1 H2 H3 H4 H5] Ha E. destruct e as [e|last|s]; simpl in Ha, E.
  - destruct (alive a) eqn:Hal; [|done]. apply bind_ok in E as (k & E & Ek).
    injection Ek as <-. pose proof (pending_same _ _ _ H3 H4 Ha E) as Hs.
    destruct (Connector.step_ok _ e H1 (pending_allowed _ _ Ha)) as (k2 & E2 & Hk).
    assert (k2 = k) as -> by congruence.
    split; simpl; try done; [by eapply stopped_trans|by rewrite (same_connect _ _ Hs)|by rewrite (same_timers _ _ Hs)].
  - unfold destroy_connector in E. rewrite cancel_idle in E by done. inv_ok. split; simpl; try done.
    intros _. by match goal with H : bool_decide _ = true |- _ => apply bool_decide_eq_true in H end.
  - injection E as <-. by split.
Qed.

Lemma runs_inv k0 a a' : runs a a' -> Inv k0 a -> Inv k0 a'.
Proof. induction 1 as [|a a1 e a2 _ IH Ha E]; intros HI; [done|]. by apply (ended_step_inv k0 a1 e a2 (IH HI)). Qed.

Lemma ended_step_ok k0 a e : Inv k0 a -> allowed a e ->
  (exists a', step a e = Ok a') \/
  ((exists last, e = Expire last) /\ Connector.channel_ (connector_ a) <> None /\ step a e = Err AssertFailed).
Proof.
  intros [H1 H2 H3 H4 H5] Ha. destruct e as [e|last|s]; simpl in Ha |- *.
  - left. destruct (alive a) eqn:Hal.
    + destruct (Connector.step_ok _ e H1 (pending_allowed _ _ Ha)) as (k & -> & _). by eexists.
    + exfalso. specialize (H5 eq_refl). pose proof (Connector.inv_channel _ H1) as Hch. rewrite H5 in Hch.
      destruct Hch as [_ Hr]. destruct e; simpl in Ha; try done; destruct Ha; congruence.
  - unfold destroy_connector. rewrite cancel_idle, bind_ret_l by done.
    case_bool_decide as Hd; [left; by eexists|right; split_and!; [by eexists|done|done]].
  - left. by eexists.
Qed.

(** C35. What becomes of a client destroyed while it has no connection.  When its
    retry timer is pending and the last of the loop's queue, the destructor aborts
    in [cancel].  Otherwise the connector, stopped, lives on until the timer of one
    second; meanwhile it calls nobody, plans no retry, and closes the socket it is
    connecting, so that none is left open once it is idle.  Everything the loop can
    still run returns, and nothing is run on a connector that is gone: with one
    exception, when the timer comes while the connection is still being made, the
    destructor of the connector fails its assert. *)
Theorem idle_client_destroyed c last :
  TcpClient.reachable c -> TcpClient.connection_ c = None ->
  if bool_decide (Connector.timers (TcpClient.connector_ c) <> []) && last
  then destroy c last = Err AssertFailed
  else exists a, destroy c last = Ok a /\
  forall a', runs a a' ->
    TcpClient.delivered (connector_ a') = TcpClient.delivered (TcpClient.connector_ c) /\
    Connector.retries (Connector.log (connector_ a')) =
      Connector.retries (Connector.log (TcpClient.connector_ c)) /\
    (Connector.channel_ (connector_ a') = None ->
       Connector.disposed (Connector.log (connector_ a')) ≡ₚ Connector.opened (Connector.log (connector_ a'))) /\
    forall e, allowed a' e ->
      (exists a2, step a' e = Ok a2) \/
      ((exists last', e = Expire last') /\ Connector.channel_ (connector_ a') <> None /\
         step a' e = Err AssertFailed).
Proof.
  intros HI%TcpClient.client_reachable_inv Hc. unfold destroy. rewrite Hc.
  pose proof (Connector.connector_reachable_inv _ (TcpClient.inv_connector c HI)) as HK.
  rewrite Connector.stop_spec by done. destruct (bool_decide _ && last); [done|].
  rewrite bind_ret_l. eexists. split; [reflexivity|].
  set (k := Connector.set_timers _ _). set (a := mk _ _ _ _).
  assert (HI0 : Inv k a).
  { split; simpl; try done. by apply Connector.stop_inv. }
  intros a' Hr. pose proof (runs_inv _ _ _ Hr HI0) as HA. destruct (inv_same _ _ HA) as [_ _ Hd Ht].
  split_and!; [by rewrite Hd|by rewrite Ht| |intros e Ha; by apply (ended_step_ok _ _ e HA)].
  intros Hch. pose proof (Connector.inv_sockets _ (inv_reachable _ _ HA)) as Hs.
  unfold Connector.in_progress in Hs. rewrite Hch in Hs.
  destruct (Connector.state_ (connector_ a')); by rewrite app_nil_r in Hs.
Qed.

(** A client with a connection can only be destroyed when the connector's
    channel is gone, one functor after the connection was made; then the
    connection's close still has it destroyed, once, and never calls the client. *)
Theorem busy_client_destroyed c s last :
  TcpClient.reachable c -> TcpClient.connection_ c = Some s ->
  match destroy c last with
  | Ok a => Connector.channel_ (TcpClient.connector_ c) = None /\
      forall a', runs a a' -> option_list (conn a') ++ destroyed a' = [s]
  | Err f => f = AssertFailed /\ Connector.resets (TcpClient.connector_ c) = 1%nat
  end.
Proof.
  intros HI%TcpClient.client_reachable_inv Hc. unfold destroy. rewrite Hc.
  pose proof (Connector.connector_reachable_inv _ (TcpClient.inv_connector c HI)) as HK.
  assert (Hst : Connector.state_ (TcpClient.connector_ c) = Connector.kConnected)
    by (apply (TcpClient.inv_up c HI); by rewrite Hc).
  assert (Ht : Connector.timers (TcpClient.connector_ c) = []).
  { destruct (decide (Connector.timers (TcpClient.connector_ c) = [])) as [|Hne]; [done|].
    destruct (Connector.inv_timers _ HK Hne). congruence. }
  pose proof (Connector.inv_channel _ HK) as Hch. unfold destroy_connector. rewrite cancel_idle, bind_ret_l by done.
  case_bool_decide as Hn; simpl.
  - split; [done|]. intros a' Hr. remember (mk _ _ _ _) as a eqn:Ea.
    induction Hr as [a|a a1 e a2 Hr IH Ha E]; [by subst a|]. specialize (IH Ea).
    destruct e as [e|l2|s2]; simpl in Ha, E.
    + destruct (alive a1); [|done]. by inv_ok.
    + by inv_ok.
    + injection E as <-. rewrite Ha in IH. simpl in *. destruct (destroyed a1); [done|]. simpl in IH. congruence.
  - split; [done|].
    destruct (Connector.channel_ (TcpClient.connector_ c)) as [[s' []]|]; destruct Hch; congruence.
Qed.

End ending.

(** ** The connection of a client that is gone *)

Section dangling.
Context `{Kern : EPoller.Kernel} `{HS : TcpConnection.Socket}.

(** When the client held the only reference, [~TcpConnection] frees the channel
    as it is, registered: what the kernel reports of the socket then is a
    pointer to nothing, and the poller follows it. *)
Theorem last_reference_dangles w c rev :
  TcpConnection.Inv (HP := EPoller.epoller_owner) TcpConnection.Strict w ->
  EPoller.store (TcpConnection.loop_ w) !! TcpConnection.channel_ w = Some c ->
  Channel.index_ c = EPoller.kAdded ->
  let freed := EPoller.erase (TcpConnection.loop_ w) (TcpConnection.channel_ w) in
  EPoller.reported freed [(rev, TcpConnection.channel_ w)] /\
  (1 <= EPoller.eventsSize freed -> EPoller.poll freed (Some [(rev, TcpConnection.channel_ w)]) = Err NullDeref).
Proof.
  intros HI Hc Hi freed.
  destruct (TcpConnection.inv_good _ _ HI) as [HE _].
  split.
  - intros r p Hin. apply list_elem_of_singleton in Hin. simplify_eq.
    exists (Channel.fd_ c), (Channel.events_ c). apply (EPoller.inv_watched _ HE). by exists c.
  - intros Hs. unfold EPoller.poll. rewrite assert_true by (by apply Z.leb_le). rewrite bind_ret_l.
    cbn [EPoller.fillActiveChannels]. unfold EPoller.channel, freed. simpl. by rewrite lookup_delete_eq.
Qed.
End dangling.

(** ** A client destroyed while it connects *)

#[local] Existing Instance Connector.demo_net.

Lemma client_connecting_reachable : TcpClient.reachable TcpClient.demo_connecting.
Proof.
  apply (TcpClient.client_reach_next TcpClient.init TcpClient.Connect TcpClient.reach_init);
    [|vm_compute; reflexivity].
  vm_compute. auto.
Qed.

Definition destroyed_or (d : t) (c : TcpClient.t) (last : bool) : t :=
  match destroy c last with Ok a => a | Err _ => d end.
Definition demo_left : t := destroyed_or (mk Connector.init false None []) TcpClient.demo_connecting true.
Definition demo_answer : event := Network (Connector.Ready Channel.POLLOUT 0 false).
Definition after (a : t) (e : event) : t := match step a e with Ok a' => a' | Err _ => a end.
Definition demo_answered : t := after (after demo_left demo_answer) (Network Connector.Functor).

Lemma demo_answered_runs : runs demo_left demo_answered.
Proof.
  apply (runs_step demo_left (after demo_left demo_answer) (Network Connector.Functor)).
  - apply (runs_step demo_left demo_left demo_answer); [constructor|by exists 0%nat|by vm_compute].
  - by vm_compute.
  - by vm_compute.
Qed.

(** Refused: the retry is planned. *)
Definition demo_waiting : TcpClient.t :=
  TcpClient.next TcpClient.demo_connecting (TcpClient.Network (Connector.Ready Channel.POLLERR 111 false)).

Lemma client_waiting_reachable : TcpClient.reachable demo_waiting.
Proof.
  apply (TcpClient.client_reach_next TcpClient.demo_connecting
    (TcpClient.Network (Connector.Ready Channel.POLLERR 111 false)) client_connecting_reachable);
    [exists 0%nat; vm_compute; reflexivity|vm_compute; reflexivity].
Qed.

Lemma idle_client_destroyed_witness :
  destroy demo_waiting true = Err AssertFailed /\ is_ok (destroy demo_waiting false) = true /\
  destroy TcpClient.demo_connecting true = Ok demo_left /\ step demo_left (Expire true) = Err AssertFailed /\
  is_ok (step demo_answered (Expire true)) = true /\
  Connector.disposed (Connector.log (connector_ demo_answered)) ≡ₚ [0%nat].
Proof.
  split.
  { pose proof (idle_client_destroyed demo_waiting true client_waiting_reachable ltac:(by vm_compute)) as H.
    rewrite bool_decide_true in H by (vm_compute; discriminate). exact H. }
  do 4 (split; [by vm_compute|]).
  pose proof (idle_client_destroyed TcpClient.demo_connecting true client_connecting_reachable ltac:(by vm_compute)) as H.
  rewrite bool_decide_false in H by (intros Hn; by apply Hn). destruct H as (a & E & H).
  assert (Ea : destroy TcpClient.demo_connecting true = Ok demo_left) by (vm_compute; reflexivity).
  rewrite E in Ea. injection Ea as Ea. subst a.
  destruct (H demo_answered demo_answered_runs) as (_ & _ & Hd & _).
  rewrite Hd by (vm_compute; reflexivity). vm_compute. reflexivity.
Defined.

End ClientEnd.
