(* ===== verification/Link.v ===== *)
(** * Link: a client, its connector, its connection and their poller

    [TcpClient] describes the client and its connector by their sockets and
    [TcpConnection] one connection; here they run together on the poller of
    their loop.  The connector's channel and the connection's have the same
    descriptor: the connector unregisters its own before it hands the socket
    over, and the object goes away only with the functor it has queued.  A
    connection that closes tells the client, which has it destroyed and, with
    [retry_], makes the connector connect again at once. *)

From S2P Require Import Prelude Buffer Channel ChannelOwner EPoller TcpConnection ConnectionFrame.
From S2P Require Import Connector TcpClient.

#[local] Open Scope Z_scope.

Module Link.
Import ConnectionFrame.
#[local] Existing Instance TcpConnection.StateE_eq_dec.

Section link.
Context {P : Type} `{HH : ChannelHost P} `{HS : TcpConnection.Socket} `{N : Connector.Net}
  (cb : TcpConnection.callbacks (P := P)).
(** The descriptor of each socket the connector makes. *)
Context (fds : nat -> Z).

Notation connection := (TcpConnection.t (P := P)).

Record t := mk {
  client : TcpClient.t;
  poller : P;
  (* the address of the connector's channel, when it has one *)
  watch : Z;
  conns : gmap nat connection;
  (* the connections whose [connectionDestroyed] is queued *)
  queued : list nat
}.

Definition init (l : P) : t := mk TcpClient.init l 0 ∅ [].

Definition connector (y : t) : Connector.t := TcpClient.connector_ (client y).

(** What the connector does to its channel, at [a], on the way from [k] to [k']:
    [connecting] makes one at [p], [removeAndResetChannel] unregisters it,
    [resetChannel] frees it. *)
Definition reflect (l : P) (a : Z) (k k' : Connector.t) (p : Z) : res (P * Z) :=
  match Connector.channel_ k, Connector.channel_ k' with
  | None, Some (s, true) =>
      l ← update (newChannel l p (fds s)) Channel.EnableWriting p ;
      Ok (l, p)
  | Some (_, true), Some (_, false) =>
      l ← update l Channel.DisableAll a ;
      l ← remove l a ;
      Ok (l, a)
  | Some (_, false), None => Ok (deleteChannel l a, a)
  | _, _ => Ok (l, a)
  end.

Definition conn_at (y : t) (w : connection) : connection := TcpConnection.set_loop w (poller y).
Definition put (y : t) (s : nat) (w : connection) : t :=
  mk (client y) (TcpConnection.loop_ w) (watch y) (<[s := w]> (conns y)) (queued y).

(** [TcpClient::newConnection]: the connection, its channel at [q], is
    established. *)
Definition establish (y : t) (s : nat) (q : Z) : res t :=
  w ← TcpConnection.step cb (TcpConnection.init (newChannel (poller y) q (fds s)) q) TcpConnection.Established ;
  Ok (put y s w).

(** A step of the client or of its connector; a socket handed over becomes a
    connection. *)
Definition network (y : t) (f : TcpClient.t -> res TcpClient.t) (p q : Z) : res t :=
  c ← f (client y) ;
  r ← reflect (poller y) (watch y) (connector y) (TcpClient.connector_ c) p ;
  let y' := mk c (fst r) (snd r) (conns y) (queued y) in
  match drop (length (TcpClient.delivered (connector y))) (TcpClient.delivered (TcpClient.connector_ c)) with
  | [] => Ok y'
  | s :: _ => establish y' s q
  end.

(** The close callback of the connection [s], [n] times. *)
Fixpoint closing (n : nat) (y : t) (s : nat) (p : Z) : res t :=
  match n with
  | O => Ok y
  | S n =>
      c ← TcpClient.removeConnection (client y) s ;
      r ← reflect (poller y) (watch y) (connector y) (TcpClient.connector_ c) p ;
      closing n (mk c (fst r) (snd r) (conns y) (queued y ++ [s])) s p
  end.

(** One step of the connection [s]; [p] is where the connector would make its
    next channel. *)
Definition drive (y : t) (s : nat) (f : connection -> res connection) (p : Z) : res t :=
  match conns y !! s with
  | None => Err NullDeref
  | Some w =>
      w' ← f (conn_at y w) ;
      closing (closes (TcpConnection.log w') - closes (TcpConnection.log w)) (put y s w') s p
  end.

(** [disconnect] shuts the current connection down; it is called on the loop's
    thread or another. *)
Definition disconnect (y : t) (inLoop : bool) : res t :=
  let y' := mk (TcpClient.disconnect (client y)) (poller y) (watch y) (conns y) (queued y) in
  match TcpClient.connection_ (client y) with
  | None => Ok y'
  | Some s => drive y' s (fun w => TcpConnection.exec_call cb w inLoop TcpConnection.Shutdown) 0
  end.

(** The loop runs the first [connectionDestroyed]; the object and its channel
    go with the last reference. *)
Definition destroy (y : t) : res t :=
  match queued y with
  | [] => Ok y
  | s :: l =>
      match conns y !! s with
      | None => Err NullDeref
      | Some w =>
          w' ← TcpConnection.step cb (conn_at y w) TcpConnection.Destroyed ;
          Ok (mk (client y) (deleteChannel (TcpConnection.loop_ w') (TcpConnection.channel_ w')) (watch y)
                (delete s (conns y)) l)
      end
  end.

Inductive event :=
  | Connect (p : Z)
  | Disconnect (inLoop : bool)
  | Stop (last : bool)
  | EnableRetry
  | Network (e : Connector.event) (p q : Z)
  | Ready (s : nat) (revents : Z) (rv : Buffer.readv_result) (p : Z)
  | Functor (s : nat)
  (* a step of another thread *)
  | Foreign (s : nat) (e : TcpConnection.event)
  | Destroy.

Definition step (y : t) (e : event) : res t :=
  match e with
  | Connect p => network y TcpClient.connect p p
  | Disconnect b => disconnect y b
  | Stop last => network y (fun c => TcpClient.stop c last) 0 0
  | EnableRetry => Ok (mk (TcpClient.enableRetry (client y)) (poller y) (watch y) (conns y) (queued y))
  | Network e p q => network y (fun c => TcpClient.run_connector c e) p q
  | Ready s revents rv p => drive y s (fun w => TcpConnection.step cb w (TcpConnection.Ready revents rv)) p
  | Functor s => drive y s (fun w => TcpConnection.step cb w TcpConnection.Functor) 0
  | Foreign s e => drive y s (fun w => TcpConnection.step cb w e) 0
  | Destroy => destroy y
  end.

(** A channel is made where there is none, for a descriptor that no registered
    channel has. *)
Definition fresh (y : t) (p : Z) : Prop :=
  channelAt (poller y) p = None /\
  forall q c, channelAt (poller y) q = Some c -> registered c = true ->
    Channel.fd_ c <> fds (Connector.nsockets (connector y)).

(** The events of the client and of the connections are those their files
    allow; before the loop polls again it has run the functor that frees the
    connector's channel; a connection is destroyed when its queued calls have
    run. *)
Definition allowed (y : t) (e : event) : Prop :=
  match e with
  | Connect p => TcpClient.allowed (client y) TcpClient.Connect /\ fresh y p
  | Disconnect _ | EnableRetry => True
  | Stop last => TcpClient.allowed (client y) (TcpClient.Stop last)
  | Network e p q => TcpClient.allowed (client y) (TcpClient.Network e) /\ fresh y p /\
      channelAt (poller y) q = None
  | Ready s revents rv p => Connector.resets (connector y) = 0%nat /\ fresh y p /\
      exists w, conns y !! s = Some w /\
        TcpConnection.allowed TcpConnection.Strict (conn_at y w) (TcpConnection.Ready revents rv)
  | Functor s => exists w, conns y !! s = Some w /\ TcpConnection.pending w <> [] /\
      TcpConnection.allowed TcpConnection.Strict (conn_at y w) TcpConnection.Functor
  | Foreign s e => TcpConnection.foreign e = true /\ exists w, conns y !! s = Some w /\
      TcpConnection.allowed TcpConnection.Strict (conn_at y w) e
  | Destroy =>
      match queued y with
      | [] => True
      | s :: _ => exists w, conns y !! s = Some w /\ TcpConnection.pending w = []
      end
  end.

(** ** What the connector does, from outside *)

Definition moves (k k' : Connector.t) : Prop :=
  match Connector.channel_ k, Connector.channel_ k' with
  | None, None | Some (_, false), None => True
  | None, Some (s, b) => b = true /\ s = Connector.nsockets k
  | Some (s, true), Some (s', _) => s' = s
  | Some (s, false), Some (s', b) => s' = s /\ b = false
  | Some (_, true), None => False
  end.

Definition handed (k k' : Connector.t) : Prop :=
  TcpClient.delivered k' = TcpClient.delivered k \/
  exists s, TcpClient.delivered k' = TcpClient.delivered k ++ [s] /\
    Connector.channel_ k = Some (s, true) /\ Connector.channel_ k' = Some (s, false).

Lemma moves_same k k' : Connector.channel_ k' = Connector.channel_ k -> moves k k'.
Proof. intros E. unfold moves. rewrite E. by destruct (Connector.channel_ k) as [[s []]|]. Qed.

Lemma retry_channel k s : Connector.channel_ (Connector.retry k s) = Connector.channel_ k.
Proof. unfold Connector.retry. simpl. by destruct (Connector.connect_ k). Qed.

Lemma startInLoop_moves k k' :
  Connector.channel_ k = None -> Connector.startInLoop k = Ok k' -> moves k k'.
Proof.
  intros Hc E. unfold Connector.startInLoop, Connector.connect in E. inv_ok.
  destruct (Connector.connect_ k); [|inv_ok; by apply moves_same]. unfold Connector.create_socket in *.
  destruct (Connector.socket_fails _); simpl in *; [inv_ok; by apply moves_same|].
  destruct (Connector.classify _).
  - unfold Connector.connecting in *. inv_ok. unfold moves. by rewrite Hc.
  - inv_ok. apply moves_same. by rewrite retry_channel.
  - inv_ok. by apply moves_same.
Qed.

Lemma ready_moves k s revents so self k' :
  Connector.state_ k = Connector.kConnecting -> Connector.channel_ k = Some (s, true) ->
  Connector.handleEvent k revents so self = Ok k' -> moves k k' /\ handed k k'.
Proof.
  intros Hs Hc E. unfold Connector.handleEvent, Channel.handleEvent in E. simpl in E.
  rewrite !andb_true_r, !andb_false_r in E.
  destruct (Channel.has revents (Z.lor Channel.POLLERR Channel.POLLNVAL)); simpl in E.
  - apply bind_ok in E as (k1 & E1 & E2). unfold Connector.handleError, Connector.removeAndResetChannel in E1.
    rewrite Hs, Hc in E1. simpl in E1. injection E1 as E1.
    assert (H1 : Connector.channel_ k1 = Some (s, false) /\ TcpClient.delivered k1 = TcpClient.delivered k /\
      Connector.state_ k1 = Connector.kDisconnected).
    { rewrite <- E1. rewrite retry_channel, TcpClient.delivered_retry. split_and!; try done.
      unfold Connector.retry. simpl. by destruct (Connector.connect_ k). }
    destruct H1 as (H1 & H2 & H3).
    assert (k' = k1) as ->.
    { destruct (Channel.has revents Channel.POLLOUT); simpl in E2; [|by inv_ok].
      unfold Connector.handleWrite in E2. rewrite H3 in E2. simpl in E2. by inv_ok. }
    split; [unfold moves; by rewrite Hc, H1|by left].
  - destruct (Channel.has revents Channel.POLLOUT); simpl in E; [|inv_ok; split; [by apply moves_same|by left]].
    apply bind_ok in E as (k1 & E1 & E2). injection E2 as <-.
    unfold Connector.handleWrite, Connector.removeAndResetChannel in E1. rewrite Hs, Hc in E1. simpl in E1.
    assert (Hr : forall k2, Connector.channel_ k2 = Some (s, false) -> TcpClient.delivered k2 = TcpClient.delivered k ->
      moves k (Connector.retry k2 s) /\ handed k (Connector.retry k2 s)).
    { intros k2 H1 H2. split; [unfold moves; by rewrite Hc, retry_channel, H1|left; by rewrite TcpClient.delivered_retry]. }
    destruct (negb (so =? 0)); [injection E1 as <-; by apply Hr|].
    destruct self; [injection E1 as <-; by apply Hr|]. injection E1 as <-.
    split; [unfold moves; by rewrite Hc|]. unfold handed, TcpClient.delivered. simpl. rewrite omap_app, Hc. simpl.
    destruct (Connector.connect_ k); [right; by exists s|left; by rewrite app_nil_r].
Qed.

Lemma connector_moves k e k' :
  Connector.Inv k -> Connector.allowed k e -> Connector.step k e = Ok k' -> moves k k' /\ handed k k'.
Proof.
  intros HI Ha E. destruct e as [| |last| |rev so self|]; simpl in Ha, E.
  - destruct Ha as (_ & Hc & _). unfold Connector.start in E.
    split; [by refine (startInLoop_moves _ _ _ E)|].
    left. by apply TcpClient.delivered_startInLoop in E.
  - destruct Ha as [_ Hc]. unfold Connector.restart in E. split; [by refine (startInLoop_moves _ _ _ E)|].
    left. by apply TcpClient.delivered_startInLoop in E.
  - apply Connector.stop_same in E as (l & ->). split; [by apply moves_same|by left].
  - destruct (Connector.timers k) as [|i l]; [inv_ok; split; [by apply moves_same|by left]|].
    split; [by refine (startInLoop_moves _ _ _ E)|]. left. by apply TcpClient.delivered_startInLoop in E.
  - destruct Ha as (s & Hc). pose proof (Connector.inv_channel k HI) as H. rewrite Hc in H.
    destruct H as [H _]. by apply (ready_moves k s rev so self).
  - pose proof (Connector.inv_channel k HI) as H.
    destruct (Connector.resets k) as [|n] eqn:Hr; inv_ok; [split; [by apply moves_same|by left]|].
    split; [|by left]. unfold moves. simpl. destruct (Connector.channel_ k) as [[s []]|]; try done.
    by destruct H.
Qed.

(** ** The connector's channel on the poller *)

Definition watch_ok (k : Connector.t) (l : P) (a : Z) : Prop :=
  match Connector.channel_ k with
  | None => True
  | Some (s, b) => exists c, channelAt l a = Some c /\ registered c = b /\
      (b = true -> good l a /\ Channel.fd_ c = fds s)
  end.

(** What [reflect] does to the poller: it works at one address, that of the
    connector's channel or of the new one. *)
Record reflected (l : P) (a : Z) (k k' : Connector.t) (p : Z) (l' : P) (a' : Z) : Prop := {
  ref_consistent : consistent l';
  ref_watch : watch_ok k' l' a';
  ref_spares : match Connector.channel_ k with
    | Some _ => spares a l l'
    | None => l' = l \/ (channelAt l p = None /\ spares p l l')
    end;
  ref_address : Connector.channel_ k' <> None ->
    (a' = a /\ Connector.channel_ k <> None) \/ (a' = p /\ channelAt l p = None);
  ref_free : forall s b, Connector.channel_ k = Some (s, true) -> Connector.channel_ k' = Some (s, b) ->
    b = false -> lone l' a (fds s) /\ forall c, channelAt l' a = Some c -> registered c = false
}.

Lemma reflect_same l a k k' p :
  consistent l -> watch_ok k l a -> Connector.channel_ k' = Connector.channel_ k ->
  reflected l a k k' p l a.
Proof.
  intros HC HW E. split; try done.
  - unfold watch_ok in *. by rewrite E.
  - destruct (Connector.channel_ k); [apply spares_refl|by left].
  - rewrite E. by left.
  - intros s b H1 H2 ->. congruence.
Qed.

Lemma reflect_ok l a k k' p :
  consistent l -> watch_ok k l a -> moves k k' ->
  (Connector.channel_ k = None -> Connector.channel_ k' <> None ->
     channelAt l p = None /\ lone l p (fds (Connector.nsockets k))) ->
  exists l' a', reflect l a k k' p = Ok (l', a') /\ reflected l a k k' p l' a'.
Proof.
  intros HC HW Hm Hf. unfold reflect.
  assert (Hsame : Connector.channel_ k' = Connector.channel_ k -> reflected l a k k' p l a)
    by (by apply reflect_same).
  unfold moves in Hm.
  destruct (Connector.channel_ k) as [[s b]|] eqn:Hk, (Connector.channel_ k') as [[s' b']|] eqn:Hk'.
  - unfold watch_ok in HW. rewrite Hk in HW. destruct HW as (c & Hc & Hr & Hg).
    destruct b; [subst s'|destruct Hm as [-> ->]; exists l, a; by split; [|apply Hsame]].
    destruct b'; [exists l, a; by split; [|apply Hsame]|].
    destruct (Hg eq_refl) as [Hgood Hfd]. pose proof (lone_registered l a c HC Hc Hr) as Hl.
    destruct (update_law l a c Channel.DisableAll Hgood Hc) as (l1 & idx & E1 & Hg1 & Hi & Hc1).
    pose proof (spares_update l a c _ l1 Hgood Hc Hl E1) as S1.
    pose proof (remove_law l1 a _ Hg1 Hc1) as Hrem. unfold registered in Hrem. simpl in Hrem.
    rewrite (proj2 (Z.leb_le 0 idx) Hi) in Hrem. unfold Channel.isNoneEvent in Hrem. simpl in Hrem.
    destruct Hrem as (l2 & E2 & Hg2 & Hc2).
    assert (S2 : spares a l1 l2).
    { apply (spares_remove l1 a _ l2 Hg1 Hc1); [|done]. simpl. by apply (lone_spares a _ l). }
    exists l2, a. rewrite E1, bind_ret_l, E2, bind_ret_l. split; [done|].
    assert (S : spares a l l2) by (by apply (spares_trans a l l1 l2)). split.
    + by apply (good_consistent l2 a).
    + unfold watch_ok. rewrite Hk'. eexists. split_and!; [exact Hc2|done|done].
    + by rewrite Hk.
    + intros _. left. split; [done|congruence].
    + intros s0 b0 H0 _ _. assert (s0 = s) as -> by congruence. split; [rewrite <- Hfd; by apply (lone_spares a _ l)|].
      intros d Hd. rewrite Hc2 in Hd. by injection Hd as <-.
  - destruct b; [done|]. unfold watch_ok in HW. rewrite Hk in HW. destruct HW as (c & Hc & Hr & _).
    exists (deleteChannel l a), a. split; [done|]. split.
    + by apply (delete_law l a c).
    + unfold watch_ok. by rewrite Hk'.
    + rewrite Hk. by apply (spares_delete l a c).
    + congruence.
    + congruence.
  - destruct Hm as [-> ->]. destruct Hf as [Hp Hl]; [done|done|].
    destruct (new_law l p (fds (Connector.nsockets k)) HC Hp) as (Hg & Hc & _).
    { intros q c Hq. apply (Hl q c); [congruence|done]. }
    set (l1 := newChannel l p (fds (Connector.nsockets k))) in *.
    pose proof (spares_new l p (fds (Connector.nsockets k)) HC Hp Hl) as S1. fold l1 in S1.
    destruct (update_law l1 p _ Channel.EnableWriting Hg Hc) as (l2 & idx & E2 & Hg2 & Hi & Hc2).
    assert (S2 : spares p l1 l2).
    { refine (spares_update l1 p _ _ l2 Hg Hc _ E2). simpl. by apply (lone_spares p _ l). }
    exists l2, p. rewrite E2, bind_ret_l. split; [done|]. split.
    + by apply (good_consistent l2 p).
    + unfold watch_ok. rewrite Hk'. eexists. split_and!; [exact Hc2|by apply Z.leb_le|done].
    + rewrite Hk. right. split; [done|]. by apply (spares_trans p l l1 l2).
    + intros _. by right.
    + congruence.
  - exists l, a. by split; [|apply Hsame].
Qed.

(** ** The invariant *)

(** A connection, under the poller [l]. *)
Record conn_ok (l : P) (w : connection) : Prop := {
  ok_inv : TcpConnection.Inv TcpConnection.Strict (TcpConnection.set_loop w l);
  ok_closes : closes (TcpConnection.log w) = down w;
  ok_registered : exists c, channelAt l (TcpConnection.channel_ w) = Some c /\ registered c = true;
  ok_up : TcpConnection.state_ w <> TcpConnection.kConnecting
}.

(** The channels: the connector's and those of the connections [m] are on [l],
    at addresses of their own. *)
Record Core (k : Connector.t) (l : P) (a : Z) (m : gmap nat connection) : Prop := {
  core_consistent : consistent l;
  core_watch : watch_ok k l a;
  core_apart : Connector.channel_ k <> None -> forall s w, m !! s = Some w -> TcpConnection.channel_ w <> a;
  core_addr : forall s1 s2 w1 w2, m !! s1 = Some w1 -> m !! s2 = Some w2 -> s1 <> s2 ->
    TcpConnection.channel_ w1 <> TcpConnection.channel_ w2;
  core_conns : forall s w, m !! s = Some w -> conn_ok l w;
  core_fd : forall s w c, m !! s = Some w -> channelAt l (TcpConnection.channel_ w) = Some c ->
    Channel.fd_ c = fds s
}.

(** The client's books: it has the connection that is up, or whose close
    callback is running ([x]); the others wait to be destroyed. *)
Record Books (x : option nat) (c : TcpClient.t) (m : gmap nat connection) (q : list nat) : Prop := {
  book_client : TcpClient.Inv c;
  book_domain : forall s, is_Some (m !! s) <-> TcpClient.connection_ c = Some s \/ s ∈ q;
  book_current : forall s w, TcpClient.connection_ c = Some s -> Some s <> x -> m !! s = Some w ->
    TcpConnection.state_ w <> TcpConnection.kDisconnected;
  book_queued : forall s w, s ∈ q -> m !! s = Some w -> TcpConnection.state_ w = TcpConnection.kDisconnected;
  book_nodup : NoDup q;
  book_destroyed : forall s, s ∈ q -> s ∈ TcpClient.destroyed c
}.

Record Inv (x : option nat) (y : t) : Prop := {
  inv_core : Core (connector y) (poller y) (watch y) (conns y);
  inv_books : Books x (client y) (conns y) (queued y)
}.

Lemma link_conn_frame l l' w : conn_ok l w -> untouched l l' (TcpConnection.channel_ w) -> conn_ok l' w.
Proof.
  intros [H1 H2 (c & Hc & Hr) H4] [E G]. split; try done.
  - destruct H1 as [I1 I2 I3 I4 I5 I6 I7 I8]. split; try done; simpl in *.
    + by apply (G c).
    + by rewrite E.
  - exists c. by rewrite E.
Qed.

Lemma watch_ok_frame k l l' a : watch_ok k l a -> untouched l l' a -> watch_ok k l' a.
Proof.
  unfold watch_ok. intros H [E G]. destruct (Connector.channel_ k) as [[s b]|]; [|done].
  destruct H as (c & Hc & Hr & Hg). exists c. rewrite E. split_and!; [done..|].
  intros Hb. destruct (Hg Hb) as [H1 H2]. split; [|done]. apply (G c); [done|congruence|done].
Qed.

Lemma core_reflect k l a m k' p l' a' :
  Core k l a m -> reflected l a k k' p l' a' -> Core k' l' a' m.
Proof.
  intros [H1 H2 H3 H4 H5 H6] [R1 R2 R3 R4 R5].
  assert (Hp : channelAt l p = None -> forall s w, m !! s = Some w -> TcpConnection.channel_ w <> p).
  { intros Hp s w Hw E. destruct (ok_registered _ _ (H5 s w Hw)) as (c & Hc & _). congruence. }
  assert (Hkeep : forall s w, m !! s = Some w -> untouched l l' (TcpConnection.channel_ w)).
  { intros s w Hw. destruct (Connector.channel_ k) as [x|] eqn:Hk; [apply R3; by apply (H3 ltac:(done) s)|].
    destruct R3 as [->|[Hn Hs]]; [by split|apply Hs; by apply (Hp Hn s)]. }
  split; try done.
  - intros Hk' s w Hw. destruct (R4 Hk') as [[-> Hk]|[-> Hn]]; [by apply (H3 Hk s)|by apply (Hp Hn s)].
  - intros s w Hw. apply (link_conn_frame l); [by apply (H5 s)|]. by apply (Hkeep s).
  - intros s w c Hw. rewrite (proj1 (Hkeep s w Hw)). by apply H6.
Qed.

(** A connection made or changed at its own address. *)
Lemma core_put k l a m s w l' :
  Core k l a m -> conn_ok l' w -> consistent l' -> spares (TcpConnection.channel_ w) l l' ->
  (Connector.channel_ k <> None -> TcpConnection.channel_ w <> a) ->
  (forall s2 w2, s2 <> s -> m !! s2 = Some w2 -> TcpConnection.channel_ w2 <> TcpConnection.channel_ w) ->
  (forall c, channelAt l' (TcpConnection.channel_ w) = Some c -> Channel.fd_ c = fds s) ->
  Core k l' a (<[s := w]> m).
Proof.
  intros [H1 H2 H3 H4 H5 H6] Hok Hc Hs Ha Hne Hfd. split; try done.
  - destruct (Connector.channel_ k) as [q|] eqn:Hk; [|unfold watch_ok; by rewrite Hk].
    apply (watch_ok_frame k l); [done|]. apply Hs. intros ->. by apply Ha.
  - intros Hk s2 w2 [[<- <-]|[Hn Hw]]%lookup_insert_Some; [by apply Ha|by apply (H3 Hk s2)].
  - intros s1 s2 w1 w2 [[<- <-]|[Hn1 Hw1]]%lookup_insert_Some [[<- <-]|[Hn2 Hw2]]%lookup_insert_Some Hss; try done.
    + intros E. by apply (Hne s2 w2).
    + by apply (Hne s1 w1).
    + by apply (H4 s1 s2).
  - intros s2 w2 [[<- <-]|[Hn Hw]]%lookup_insert_Some; [done|].
    apply (link_conn_frame l); [by apply (H5 s2)|]. apply Hs. by apply (Hne s2).
  - intros s2 w2 c [[<- <-]|[Hn Hw]]%lookup_insert_Some; [by apply Hfd|].
    rewrite (proj1 (Hs _ (Hne s2 w2 ltac:(done) Hw))). by apply H6.
Qed.

Lemma core_delete k l a m s w l' :
  Core k l a m -> m !! s = Some w -> consistent l' -> spares (TcpConnection.channel_ w) l l' ->
  Core k l' a (delete s m).
Proof.
  intros [H1 H2 H3 H4 H5 H6] Hw Hc Hs. split; try done.
  - destruct (Connector.channel_ k) as [q|] eqn:Hk; [|unfold watch_ok; by rewrite Hk].
    apply (watch_ok_frame k l); [done|]. apply Hs. intros E. by apply (H3 ltac:(done) s w Hw).
  - intros Hk s2 w2 [Hn Hw2]%lookup_delete_Some. by apply (H3 Hk s2).
  - intros s1 s2 w1 w2 [_ Hw1]%lookup_delete_Some [_ Hw2]%lookup_delete_Some. by apply (H4 s1 s2).
  - intros s2 w2 [Hn Hw2]%lookup_delete_Some. apply (link_conn_frame l); [by apply (H5 s2)|].
    apply Hs. by apply (H4 s2 s).
  - intros s2 w2 c [Hn Hw2]%lookup_delete_Some.
    rewrite (proj1 (Hs _ (H4 s2 s w2 w Hw2 Hw ltac:(done)))). by apply H6.
Qed.

(** ** The client's side of a step *)

(** A step of the connector, seen by the client. *)
Record advanced (c c' : TcpClient.t) : Prop := {
  adv_moves : moves (TcpClient.connector_ c) (TcpClient.connector_ c');
  adv_destroyed : TcpClient.destroyed c' = TcpClient.destroyed c;
  adv_handed :
    (TcpClient.delivered (TcpClient.connector_ c') = TcpClient.delivered (TcpClient.connector_ c) /\
     TcpClient.connection_ c' = TcpClient.connection_ c) \/
    exists s, TcpClient.delivered (TcpClient.connector_ c') = TcpClient.delivered (TcpClient.connector_ c) ++ [s] /\
      TcpClient.connection_ c' = Some s /\
      Connector.channel_ (TcpClient.connector_ c) = Some (s, true) /\
      Connector.channel_ (TcpClient.connector_ c') = Some (s, false)
}.

Lemma run_connector_advanced c e c' :
  Connector.Inv (TcpClient.connector_ c) -> Connector.allowed (TcpClient.connector_ c) e ->
  TcpClient.run_connector c e = Ok c' -> advanced c c'.
Proof.
  intros HI Ha E. unfold TcpClient.run_connector in E. apply bind_ok in E as (k & Ek & E).
  destruct (connector_moves _ _ _ HI Ha Ek) as [Hm [Hd|(s & Hd & H1 & H2)]]; rewrite Hd in E.
  - rewrite drop_all in E. injection E as <-. split; [done|done|by left].
  - rewrite drop_app_length in E. injection E as <-. split; [done|done|]. right. by exists s.
Qed.

(** [removeConnection], with the reconnection. *)
Lemma removed_advanced c s c' :
  TcpClient.Inv c -> TcpClient.allowed c (TcpClient.Closed s) -> TcpClient.removeConnection c s = Ok c' ->
  moves (TcpClient.connector_ c) (TcpClient.connector_ c') /\
  TcpClient.connection_ c' = None /\ TcpClient.destroyed c' = TcpClient.destroyed c ++ [s].
Proof.
  intros HI [Hs Hc] E. unfold TcpClient.removeConnection in E. rewrite Hs, bool_decide_true in E by done.
  simpl in E. destruct (TcpClient.retry_ c && TcpClient.connect_ c).
  - apply run_connector_advanced in E as [H1 H2 H3]; simpl in *.
    + split_and!; [done| |done]. destruct H3 as [[_ ?]|(s' & _ & _ & H & _)]; [done|congruence].
    + apply Connector.connector_reachable_inv, (TcpClient.inv_connector _ HI).
    + split; [|done]. apply (TcpClient.inv_up _ HI). congruence.
  - injection E as <-. split_and!; [by apply moves_same|done|done].
Qed.

(** ** The steps *)

Lemma book_set x c c' m q :
  Books x c m q -> TcpClient.Inv c' -> TcpClient.connection_ c' = TcpClient.connection_ c ->
  TcpClient.destroyed c' = TcpClient.destroyed c -> Books x c' m q.
Proof. intros [H1 H2 H3 H4 H5 H6] HI Ec Ed. split; rewrite ?Ec, ?Ed; done. Qed.

(** The queued connections are not the one that is up. *)
Lemma current_not_queued x c m q s : Books x c m q -> TcpClient.connection_ c = Some s -> s ∉ q.
Proof.
  intros HB Hs Hq. pose proof (book_client _ _ _ _ HB) as HI.
  pose proof (TcpClient.delivered_nodup _ (TcpClient.inv_connector _ HI)) as Hn.
  rewrite (TcpClient.inv_delivered _ HI), Hs in Hn. simpl in Hn.
  apply NoDup_app in Hn as (_ & Hn & _). apply (Hn s); [by apply (book_destroyed _ _ _ _ HB)|by left].
Qed.

Section polite.
Context (Hcb : TcpConnection.polite_callbacks cb).

Lemma establish_ok y s q :
  Core (connector y) (poller y) (watch y) (conns y) ->
  TcpClient.Inv (client y) -> TcpClient.connection_ (client y) = Some s ->
  conns y !! s = None -> (forall i, is_Some (conns y !! i) <-> i ∈ queued y) ->
  (forall i w, i ∈ queued y -> conns y !! i = Some w -> TcpConnection.state_ w = TcpConnection.kDisconnected) ->
  NoDup (queued y) -> (forall i, i ∈ queued y -> i ∈ TcpClient.destroyed (client y)) ->
  Connector.channel_ (connector y) <> None ->
  channelAt (poller y) q = None -> lone (poller y) q (fds s) ->
  wp TcpConnection.only_length (establish y s q) (Inv None).
Proof.
  intros HC HI Hs Hn Hdom Hdown Hnd Hdes Hch Hq Hl. pose proof (core_consistent _ _ _ _ HC) as Hcons.
  destruct (new_law (poller y) q (fds s) Hcons Hq) as (Hg & Hc & _).
  { intros p c Hp. apply (Hl p c); [congruence|done]. }
  pose proof (spares_new _ q (fds s) Hcons Hq Hl) as S1. unfold establish.
  set (l1 := newChannel (poller y) q (fds s)) in *. set (w0 := TcpConnection.init l1 q).
  assert (HI0 : TcpConnection.Inv TcpConnection.Strict w0) by (by apply (TcpConnection.conn_init_inv cb TcpConnection.Strict (fun _ => Hcb) l1 q _ Hg Hc)).
  pose proof (TcpConnection.connectionEstablished_wp cb TcpConnection.Strict (fun _ => Hcb) w0 HI0 eq_refl) as Hstep.
  simpl TcpConnection.step.
  destruct (TcpConnection.connectionEstablished cb w0) as [w|f] eqn:E; [|by apply Hstep].
  rewrite bind_ret_l. destruct Hstep as [HIw _].
  destruct (connectionEstablished_kept cb _ _ _ E Hg Hc) as ([K1 K2 K3 K4] & Hph & c2 & Hc2 & Hr2). simpl in *.
  assert (Hl1 : lone l1 q (Channel.fd_ (Channel.new (fds s)))) by (by apply (lone_spares q _ (poller y))).
  assert (S : spares q (poller y) (TcpConnection.loop_ w)).
  { apply (spares_trans q _ l1); [done|]. by apply (spares_touches l1 q (Channel.new (fds s))). }
  assert (Hd : down w = 0%nat) by (rewrite down_phase; by rewrite Hph).
  assert (Hdown0 : TcpConnection.state_ w <> TcpConnection.kDisconnected) by (intros E'; by rewrite E' in Hph).
  split; [|split]; unfold put, connector in *; simpl.
  - apply (core_put _ (poller y)); try done.
    + split.
      * destruct w; exact HIw.
      * change (down w0) with 0%nat in K3. change (closes (TcpConnection.log w0)) with 0%nat in K3. lia.
      * exists c2. by rewrite K1.
      * intros E'. by rewrite E' in Hph.
    + eapply good_consistent. apply (TcpConnection.inv_good _ _ HIw).
    + by rewrite K1.
    + intros _. rewrite K1. intros ->. pose proof (core_watch _ _ _ _ HC) as Hw. unfold watch_ok in Hw.
      destruct (Connector.channel_ _) as [[s' b]|]; [|done]. destruct Hw as (c & Hw & _). congruence.
    + intros s2 w2 _ Hw2. rewrite K1. intros E'.
      destruct (ok_registered _ _ (core_conns _ _ _ _ HC s2 w2 Hw2)) as (c & Hw & _). congruence.
    + intros c. rewrite K1. destruct (touches_self _ _ _ _ K2 Hg Hc) as (_ & c3 & Hc3 & Hf & _).
      intros Hc4. assert (c = c3) as -> by congruence. exact Hf.
  - done.
  - intros i. rewrite lookup_insert_is_Some, Hdom, Hs. split.
    + intros [->|[_ H]]; [by left|by right].
    + intros [[= ->]|H]; [by left|]. destruct (decide (s = i)) as [->|Hne]; [by left|by right].
  - intros i w' Hi _. assert (i = s) as -> by congruence. rewrite lookup_insert_eq. by intros [= <-].
  - intros i w' Hi. rewrite lookup_insert_ne; [by apply Hdown|]. intros ->.
    apply Hdom in Hi. rewrite Hn in Hi. by destruct Hi.
  - done.
  - done.
Qed.

(** Where a new channel of the connector may go. *)
Definition room (y : t) (p : Z) : Prop :=
  channelAt (poller y) p = None /\ lone (poller y) p (fds (Connector.nsockets (connector y))).

Lemma fresh_room y p : fresh y p -> room y p.
Proof. intros [H1 H2]. split; [done|]. intros q c _. apply H2. Qed.

Lemma network_ok y f p q c :
  Inv None y -> f (client y) = Ok c -> TcpClient.Inv c -> advanced (client y) c ->
  (Connector.channel_ (connector y) = None -> Connector.channel_ (TcpClient.connector_ c) <> None -> room y p) ->
  (TcpClient.connection_ c <> TcpClient.connection_ (client y) -> channelAt (poller y) q = None) ->
  wp TcpConnection.only_length (network y f p q) (Inv None).
Proof.
  intros [HC HB] Ef HI [A1 A2 A3] Hp Hq. unfold network. rewrite Ef, bind_ret_l.
  destruct (reflect_ok (poller y) (watch y) (connector y) (TcpClient.connector_ c) p) as (l' & a' & E & HR);
    [apply HC|apply HC|done|done|].
  rewrite E, bind_ret_l. cbn [fst snd]. pose proof (core_reflect _ _ _ _ _ _ _ _ HC HR) as HC'.
  unfold connector in *. destruct A3 as [[Hd Hc]|(s & Hd & Hc & Hk & Hk')]; rewrite Hd.
  - rewrite drop_all. split; [done|]. by apply (book_set None (client y)).
  - rewrite drop_app_length.
    pose proof (book_client _ _ _ _ HB) as HI0.
    assert (Hnone : TcpClient.connection_ (client y) = None).
    { destruct (TcpClient.connection_ (client y)) eqn:Hcc; [|done]. exfalso.
      pose proof (TcpClient.inv_up _ HI0) as Hup. rewrite Hcc in Hup. specialize (Hup ltac:(done)).
      pose proof (Connector.inv_channel _ (Connector.connector_reachable_inv _ (TcpClient.inv_connector _ HI0))) as Hch.
      rewrite Hk in Hch. destruct Hch. congruence. }
    assert (Hq0 : channelAt (poller y) q = None) by (apply Hq; congruence).
    pose proof (core_watch _ _ _ _ HC) as Hw. unfold watch_ok in Hw. rewrite Hk in Hw.
    destruct Hw as (cw & Hcw & _).
    destruct (ref_free _ _ _ _ _ _ _ HR s false Hk Hk' eq_refl) as [Hl Hfree].
    pose proof (ref_spares _ _ _ _ _ _ _ HR) as S. rewrite Hk in S.
    assert (Hqa : q <> watch y) by (intros ->; congruence).
    assert (Hdel : NoDup (TcpClient.destroyed (client y) ++ [s])).
    { pose proof (TcpClient.delivered_nodup _ (TcpClient.inv_connector _ HI)) as Hnd.
      by rewrite (TcpClient.inv_delivered _ HI), Hc, A2 in Hnd. }
    apply NoDup_app in Hdel as (_ & Hdel & _).
    assert (Hdom : forall i, is_Some (conns y !! i) <-> i ∈ queued y).
    { intros i. rewrite (book_domain _ _ _ _ HB), Hnone. naive_solver. }
    apply establish_ok; unfold connector; cbn [client poller watch conns queued]; try done.
    + destruct (conns y !! s) eqn:Hs; [|done]. exfalso. apply (Hdel s); [|by left].
      apply (book_destroyed _ _ _ _ HB), Hdom. by rewrite Hs.
    + apply HB.
    + apply HB.
    + rewrite A2. apply HB.
    + congruence.
    + by rewrite (proj1 (S q Hqa)).
    + intros q' d Hne Hd' Hr'. destruct (decide (q' = watch y)) as [->|Hne']; [|by apply (Hl q' d)].
      specialize (Hfree d Hd'). congruence.
Qed.

(** ** The close callback *)

Lemma closing_ok y s w p :
  Inv (Some s) y -> conns y !! s = Some w -> TcpClient.connection_ (client y) = Some s ->
  TcpConnection.state_ w = TcpConnection.kDisconnected ->
  Connector.resets (connector y) = 0%nat -> room y p ->
  exists y', closing 1 y s p = Ok y' /\ Inv None y'.
Proof.
  intros [HC HB] Hw Hs Hd Hr Hp. pose proof (book_client _ _ _ _ HB) as HI.
  assert (Hch : Connector.channel_ (connector y) = None).
  { pose proof (TcpClient.inv_up _ HI) as Hup. rewrite Hs in Hup. specialize (Hup ltac:(done)).
    pose proof (Connector.inv_channel _ (Connector.connector_reachable_inv _ (TcpClient.inv_connector _ HI))) as H.
    unfold connector in *. destruct (Connector.channel_ _) as [[s' []]|]; [|destruct H; congruence|done].
    destruct H. congruence. }
  assert (Ha : TcpClient.allowed (client y) (TcpClient.Closed s)) by done.
  destruct (TcpClient.client_step_ok _ _ HI Ha) as (c & E & HIc). simpl in E.
  destruct (removed_advanced _ _ _ HI Ha E) as (Hm & Hc & Hdes).
  destruct (reflect_ok (poller y) (watch y) (connector y) (TcpClient.connector_ c) p) as (l' & a' & Er & HR);
    [apply HC|apply HC|done|by intros _ _|].
  simpl. rewrite E, bind_ret_l, Er, bind_ret_l. cbn [fst snd]. eexists. split; [reflexivity|].
  assert (Hsq : s ∉ queued y) by (by apply (current_not_queued _ _ _ _ _ HB)).
  split; unfold connector; cbn [client poller watch conns queued]; [by eapply core_reflect|].
  destruct HB as [B1 B2 B3 B4 B5 B6]. split; try done.
  - intros i. rewrite B2, Hc, Hs, elem_of_app, list_elem_of_singleton. naive_solver.
  - intros i w' Hi. congruence.
  - intros i w' [Hi|Hi%list_elem_of_singleton]%elem_of_app Hw'; [by apply (B4 i)|congruence].
  - apply NoDup_app. split_and!; [done| |by apply NoDup_singleton].
    by intros i Hi ->%list_elem_of_singleton.
  - intros i. rewrite Hdes, !elem_of_app, list_elem_of_singleton. naive_solver.
Qed.

(** ** A step of a connection *)

Lemma link_drive_ok y s w f p :
  Inv None y -> conns y !! s = Some w ->
  wp TcpConnection.only_length (f (conn_at y w)) (TcpConnection.Inv TcpConnection.Strict) ->
  (forall w', f (conn_at y w) = Ok w' -> kept (conn_at y w) w' /\
     (down w' = down w \/ (Connector.resets (connector y) = 0%nat /\ room y p))) ->
  wp TcpConnection.only_length (drive y s f p) (Inv None).
Proof.
  intros [HC HB] Hw Hstep Hf. pose proof (core_conns _ _ _ _ HC s w Hw) as [O1 O2 (c & Hc & Hr) O4].
  pose proof (core_consistent _ _ _ _ HC) as Hcons. unfold drive. rewrite Hw.
  destruct (f (conn_at y w)) as [w'|fl] eqn:E; [|exact Hstep]. rewrite bind_ret_l. simpl in Hstep.
  destruct (Hf w' eq_refl) as [[K1 K2 K3 K4] Hcl]. simpl in K1, K2.
  change (TcpConnection.log (conn_at y w)) with (TcpConnection.log w) in K3.
  change (down (conn_at y w)) with (down w) in K3.
  change (TcpConnection.state_ (conn_at y w)) with (TcpConnection.state_ w) in K4.
  pose proof (TcpConnection.inv_good _ _ O1) as Hg. simpl in Hg.
  destruct (touches_self _ _ _ c K2 Hg Hc) as (Hg' & c' & Hc' & Hfd & Hreg).
  pose proof (lone_registered _ _ c Hcons Hc Hr) as Hl.
  pose proof (spares_touches _ _ c _ K2 Hg Hc Hl) as S.
  assert (Hcount : closes (TcpConnection.log w') = down w') by lia.
  assert (Hok : conn_ok (TcpConnection.loop_ w') w').
  { split; [by destruct w'|done|exists c'; rewrite K1; by split; [|apply Hreg]|].
    intros E'. rewrite E' in K4. destruct (TcpConnection.state_ w); simpl in K4; done || lia. }
  assert (HC' : Core (connector y) (TcpConnection.loop_ w') (watch y) (<[s := w']> (conns y))).
  { apply (core_put _ (poller y)); rewrite ?K1; try done.
    - by eapply good_consistent.
    - intros Hk. by apply (core_apart _ _ _ _ HC Hk s).
    - intros s2 w2 Hne Hw2. by apply (core_addr _ _ _ _ HC s2 s).
    - intros d Hd. assert (d = c') as -> by congruence. rewrite Hfd. by apply (core_fd _ _ _ _ HC s w). }
  assert (Hdom : forall i, is_Some (<[s := w']> (conns y) !! i) <-> is_Some (conns y !! i)).
  { intros i. rewrite lookup_insert_is_Some. split; [intros [<-|[_ H]]; [by rewrite Hw|done]|].
    intros H. destruct (decide (s = i)); [by left|by right]. }
  assert (Hphase : (down w <= down w')%nat).
  { rewrite (down_phase w), (down_phase w').
    destruct (TcpConnection.state_ w), (TcpConnection.state_ w'); simpl in K4 |- *; lia. }
  assert (Hle : (down w' <= 1)%nat) by (unfold down; case_bool_decide; lia).
  destruct HB as [B1 B2 B3 B4 B5 B6].
  assert (HB' : forall x, (x = Some s \/ down w' = down w) -> Books x (client y) (<[s := w']> (conns y)) (queued y)).
  { intros x Hx. split; try done.
    - intros i. by rewrite Hdom.
    - intros i wi Hi Hix [[<- <-]|[_ Hwi]]%lookup_insert_Some; [|by apply (B3 i)].
      destruct Hx as [->|Hd]; [done|]. rewrite <- down_iff, Hd, down_iff. by apply (B3 s).
    - intros i wi Hi [[<- <-]|[_ Hwi]]%lookup_insert_Some; [|by apply (B4 i)].
      apply down_iff. pose proof (proj2 (down_iff w) (B4 s w Hi Hw)). lia. }
  rewrite Hcount, O2. destruct (decide (down w' = down w)) as [Heq|Hne].
  - rewrite Heq, Nat.sub_diag. simpl. split; [done|]. apply HB'. by right.
  - destruct Hcl as [?|[Hres Hroom]]; [done|].
    assert (Hd1 : down w' = 1%nat) by lia. assert (Hd0 : down w = 0%nat) by lia.
    replace (down w' - down w)%nat with 1%nat by lia.
    assert (Hcur : TcpClient.connection_ (client y) = Some s).
    { destruct (proj1 (B2 s) ltac:(by rewrite Hw)) as [?|Hq]; [done|].
      pose proof (proj2 (down_iff w) (B4 s w Hq Hw)). lia. }
    destruct (closing_ok (put y s w') s w' p) as (y' & -> & HI'); try done.
    + split; [done|]. apply HB'. by left.
    + simpl. by rewrite lookup_insert_eq.
    + by apply down_iff.
    + destruct Hroom as [Hp Hlone]. split; unfold put, connector; cbn [poller client].
      * rewrite (proj1 (S p ltac:(intros E'; congruence))). done.
      * intros q d Hne' Hd Hrd. destruct (decide (q = TcpConnection.channel_ w)) as [->|Hqw].
        -- assert (d = c') as -> by congruence. rewrite Hfd. by apply (Hlone (TcpConnection.channel_ w) c).
        -- apply (Hlone q d); [done| |done]. by rewrite <- (proj1 (S q Hqw)).
Qed.

Lemma destroy_ok y s w l :
  Inv None y -> queued y = s :: l -> conns y !! s = Some w ->
  wp TcpConnection.only_length (destroy y) (Inv None).
Proof.
  intros [HC HB] Hq Hw. pose proof (core_conns _ _ _ _ HC s w Hw) as [O1 O2 (c & Hc & Hr) O4].
  pose proof (core_consistent _ _ _ _ HC) as Hcons. destruct HB as [B1 B2 B3 B4 B5 B6].
  rewrite Hq in *. assert (Hs : TcpConnection.state_ w = TcpConnection.kDisconnected) by (apply (B4 s); [by left|done]).
  pose proof (TcpConnection.inv_good _ _ O1) as Hg. simpl in Hg.
  destruct (TcpConnection.inv_channel _ _ O1) as (c2 & Hc2 & _ & _ & _ & _ & He). simpl in Hc2, He.
  assert (c2 = c) as -> by congruence. specialize (He eq_refl Hs).
  pose proof (remove_law _ _ c Hg Hc) as Hrem. unfold Channel.isNoneEvent in Hrem. rewrite Hr, He in Hrem.
  destruct Hrem as (l1 & E1 & Hg1 & Hc1).
  pose proof (spares_remove _ _ c l1 Hg Hc (lone_registered _ _ c Hcons Hc Hr) E1) as S1.
  unfold destroy. rewrite Hq, Hw. simpl TcpConnection.step.
  rewrite connectionDestroyed_down by done. simpl. rewrite E1. simpl.
  assert (Hr1 : registered (Channel.set_index c (-1)) = false) by done.
  pose proof (good_consistent _ _ Hg1) as Hcons1.
  destruct (delete_law l1 _ _ Hcons1 Hc1 Hr1) as (Hcons2 & _ & _).
  apply NoDup_cons in B5 as [Hsl Hnd].
  assert (Hcs : TcpClient.connection_ (client y) <> Some s).
  { intros Hcur. by apply (B3 s w Hcur ltac:(done) Hw). }
  split; unfold connector; cbn [client poller watch conns queued].
  - apply (core_delete _ (poller y) _ _ s w); try done.
    apply (spares_trans _ _ l1); [done|]. by apply (spares_delete l1 _ (Channel.set_index c (-1))).
  - split; try done.
    + intros i. destruct (decide (i = s)) as [->|Hne].
      * rewrite lookup_delete_eq. split; [by intros [? ?]|]. by intros [?|?].
      * rewrite lookup_delete_ne by done. rewrite B2, elem_of_cons. naive_solver.
    + intros i wi Hi _ [_ Hwi]%lookup_delete_Some. by apply (B3 i wi).
    + intros i wi Hi [_ Hwi]%lookup_delete_Some. apply (B4 i wi); [by right|done].
    + intros i Hi. apply B6. by right.
Qed.

(** ** Every step *)

Lemma post_inv (m : res connection) (Q : connection -> Prop) :
  wp (TcpConnection.faults TcpConnection.Strict) m (fun w => TcpConnection.Inv TcpConnection.Strict w /\ Q w) ->
  wp TcpConnection.only_length m (TcpConnection.Inv TcpConnection.Strict).
Proof. destruct m; simpl; [by intros []|by intros H; apply H]. Qed.

(** A call of the connection's interface never takes it down. *)
Lemma call_ok y s w b c :
  Inv None y -> conns y !! s = Some w -> (b = true -> c = TcpConnection.Shutdown) ->
  wp TcpConnection.only_length (drive y s (fun w => TcpConnection.exec_call cb w b c) 0) (Inv None).
Proof.
  intros HI Hw Hb. pose proof (core_conns _ _ _ _ (inv_core _ _ HI) s w Hw) as [O1 O2 O3 O4].
  apply (link_drive_ok y s w); try done.
  - eapply post_inv, TcpConnection.exec_call_wp; try done.
    intros _ E. rewrite (Hb E). by intros [?|?].
  - intros w' E. apply exec_call_acts in E. split; [by apply acts_kept|]. left. by apply acts_down in E.
Qed.

Lemma link_step_ok y e :
  Inv None y -> allowed y e -> wp TcpConnection.only_length (step y e) (Inv None).
Proof.
  intros HI Ha. pose proof HI as [HC HB]. pose proof (book_client _ _ _ _ HB) as HIc.
  pose proof (Connector.connector_reachable_inv _ (TcpClient.inv_connector _ HIc)) as HK.
  destruct e as [p|b|last| |e p q|s rev rv p|s|s e|]; cbn [step allowed] in *.
  - destruct Ha as [Ha Hf]. destruct (TcpClient.client_step_ok _ _ HIc Ha) as (c & E & HI').
    apply (network_ok y _ p p c); try done.
    + apply run_connector_advanced in E as [A1 A2 A3]; [by split|done|done].
    + intros _ _. by apply fresh_room.
    + intros _. apply Hf.
  - unfold disconnect. set (y' := mk _ _ _ _ _).
    assert (HI' : Inv None y').
    { destruct (TcpClient.client_step_ok _ TcpClient.Disconnect HIc I) as (c & E & HI'). simpl in E. injection E as E.
      unfold y', TcpClient.disconnect in *. unfold connector in HC.
      split; unfold connector; cbn [client poller watch conns queued].
      - by destruct (TcpClient.connection_ _).
      - rewrite E. apply (book_set None (client y)); [done|done|rewrite <- E..]; by destruct (TcpClient.connection_ _) eqn:?. }
    destruct (TcpClient.connection_ (client y)) as [s|] eqn:Hs; [|exact HI'].
    destruct (proj2 (book_domain _ _ _ _ HB s) (or_introl Hs)) as [w Hw]. by apply (call_ok y' s w).
  - destruct (TcpClient.client_step_ok _ (TcpClient.Stop last) HIc Ha) as (c & E & HI').
    assert (A : advanced (client y) c).
    { apply run_connector_advanced in E as [A1 A2 A3]; [by split|done|done]. }
    assert (Hsame : Connector.channel_ (TcpClient.connector_ c) = Connector.channel_ (connector y)).
    { simpl in E. unfold TcpClient.stop, TcpClient.run_connector in E. simpl in E.
      apply bind_ok in E as (k & Ek & E). apply Connector.stop_same in Ek as (ts & ->). injection E as <-.
      assert (Hfold : forall l c0, TcpClient.connector_ (foldl TcpClient.newConnection c0 l) = TcpClient.connector_ c0).
      { intros l. induction l as [|i l IH]; intros c0; [done|]. simpl. by rewrite IH. }
      by rewrite Hfold. }
    apply (network_ok y _ 0 0 c); try done.
    + intros H1 H2. congruence.
    + intros H. destruct (adv_handed _ _ A) as [[_ ?]|(s & _ & _ & H1 & H2)]; [done|].
      unfold connector in Hsame. congruence.
  - destruct (TcpClient.client_step_ok _ TcpClient.EnableRetry HIc I) as (c & E & HI'). simpl in E. injection E as <-.
    split; [done|]. by apply (book_set None (client y)).
  - destruct Ha as (Ha & Hf & Hq). destruct (TcpClient.client_step_ok _ _ HIc Ha) as (c & E & HI').
    apply (network_ok y _ p q c); try done.
    + simpl in E. apply run_connector_advanced in E; [done|done|]. by destruct e.
    + intros _ _. by apply fresh_room.
  - destruct Ha as (Hr & Hf & w & Hw & Ha). pose proof (core_conns _ _ _ _ HC s w Hw) as [O1 O2 O3 O4].
    apply (link_drive_ok y s w); try done.
    + by eapply post_inv, (TcpConnection.step_wp cb TcpConnection.Strict (fun _ => Hcb)).
    + intros w' E. split; [by refine (step_kept cb _ _ _ _ _ _ E)|]. right.
      split; [done|by apply fresh_room].
  - destruct Ha as (w & Hw & _ & Ha). pose proof (core_conns _ _ _ _ HC s w Hw) as [O1 O2 O3 O4].
    apply (link_drive_ok y s w); try done.
    + by eapply post_inv, (TcpConnection.step_wp cb TcpConnection.Strict (fun _ => Hcb)).
    + intros w' E. split; [by refine (step_kept cb _ _ _ _ _ _ E)|]. left.
      simpl in E. destruct (TcpConnection.pending w); [by injection E as <-|].
      apply run_functor_acts, acts_down in E. exact E.
  - destruct Ha as (Hf & w & Hw & Ha). pose proof (core_conns _ _ _ _ HC s w Hw) as [O1 O2 O3 O4].
    apply (link_drive_ok y s w); try done.
    + by eapply post_inv, (TcpConnection.step_wp cb TcpConnection.Strict (fun _ => Hcb)).
    + intros w' E. assert (HA : acts (conn_at y w) w').
      { apply (foreign_acts cb _ e); try done. intros ->. by apply Ha. }
      split; [by apply acts_kept|]. left. by apply acts_down in HA.
  - destruct (queued y) as [|s l] eqn:Hq; [unfold destroy; by rewrite Hq|].
    destruct Ha as (w & Hw & _). by apply (destroy_ok y s w l).
Qed.

End polite.

Inductive reachable : t -> Prop :=
  | reach_init l : consistent l -> reachable (init l)
  | reach_step y e y' : reachable y -> allowed y e -> step y e = Ok y' -> reachable y'.

Lemma link_reachable_inv y : TcpConnection.polite_callbacks cb -> reachable y -> Inv None y.
Proof.
  intros Hcb. induction 1 as [l Hl|y e y' _ HI Ha E].
  - assert (Hemp : forall s w, ~ (∅ : gmap nat connection) !! s = Some w) by (intros s w; by rewrite lookup_empty).
    split; [split; try done; intros; by destruct (Hemp _ _ ltac:(eassumption))|]. split; try done.
    + apply TcpClient.client_reachable_inv, TcpClient.reach_init.
    + intros s. simpl. rewrite lookup_empty. split; [by intros []|]. by intros [?|?%not_elem_of_nil].
    + constructor.
  - apply (wp_ok _ _ _ y' (link_step_ok Hcb y e HI Ha) E).
Qed.

(** C13. With polite callbacks, no assert of the client, its connector, its
    connections or the poller fails, in whatever order the user connects,
    disconnects and stops, the network answers, other threads call and the loop
    runs its functors: a step returns, unless a container is asked for more than
    memory can hold.  In particular the connection's channel always finds its
    descriptor free in the poller.  One call is excepted: [stop] while a retry is
    planned aborts, when the retry's timer is the last of the loop's queue. *)
Theorem link_progress y e :
  TcpConnection.polite_callbacks cb -> reachable y ->
  (allowed y e ->
     match step y e with
     | Ok y' => reachable y'
     | Err f => f = LengthError
     end) /\
  (Connector.timers (connector y) <> [] -> step y (Stop true) = Err AssertFailed).
Proof.
  intros Hcb Hr. pose proof (link_reachable_inv y Hcb Hr) as HI. split.
  - intros Ha. pose proof (link_step_ok Hcb y e HI Ha) as H.
    destruct (step y e) eqn:E; [by eapply reach_step|exact H].
  - intros Ht. simpl. unfold network, TcpClient.stop, TcpClient.run_connector. simpl.
    rewrite Connector.stop_spec, bool_decide_true; [done|done|].
    apply Connector.connector_reachable_inv, (TcpClient.inv_connector _ (book_client _ _ _ _ (inv_books _ _ HI))).
Qed.

(** C16. The client and the connection objects agree: the client's connection is
    the one that is not down, and there is at most one; each object works on the
    descriptor of the socket that was handed over, its close callback was called
    once if it is down and never otherwise, and its stream is intact; one that is
    down waits to be destroyed; while one is up the connector watches nothing;
    and when nothing is queued the objects left are the connection that is up. *)
Theorem link_connections y :
  TcpConnection.polite_callbacks cb -> reachable y ->
  (forall s, TcpClient.connection_ (client y) = Some s <->
     exists w, conns y !! s = Some w /\ TcpConnection.state_ w <> TcpConnection.kDisconnected) /\
  (forall s w, conns y !! s = Some w ->
     (exists c, channelAt (poller y) (TcpConnection.channel_ w) = Some c /\ registered c = true /\
        Channel.fd_ c = fds s) /\
     closes (TcpConnection.log w) = down w /\
     TcpConnection.written (TcpConnection.log w) ++ Buffer.readable (TcpConnection.outputBuffer_ w) =
       TcpConnection.accepted (TcpConnection.log w) /\
     (TcpConnection.state_ w = TcpConnection.kDisconnected -> s ∈ queued y)) /\
  (TcpClient.connection_ (client y) <> None -> forall s, Connector.channel_ (connector y) <> Some (s, true)) /\
  (queued y = [] -> forall s, is_Some (conns y !! s) <-> TcpClient.connection_ (client y) = Some s).
Proof.
  intros Hcb Hr. destruct (link_reachable_inv y Hcb Hr) as [HC HB]. pose proof HB as [B1 B2 B3 B4 B5 B6].
  split_and!.
  - intros s. split.
    + intros Hs. destruct (proj2 (B2 s) (or_introl Hs)) as [w Hw]. exists w. split; [done|]. by apply (B3 s).
    + intros (w & Hw & Hd). destruct (proj1 (B2 s) ltac:(by rewrite Hw)) as [?|Hq]; [done|].
      by destruct Hd; apply (B4 s).
  - intros s w Hw. destruct (core_conns _ _ _ _ HC s w Hw) as [O1 O2 (c & Hc & Hrc) O4]. split_and!; [|done| |].
    + exists c. split_and!; [done..|]. by apply (core_fd _ _ _ _ HC s w).
    + apply (TcpConnection.inv_stream _ _ O1).
    + intros Hd. destruct (proj1 (B2 s) ltac:(by rewrite Hw)) as [Hs|?]; [|done].
      by destruct (B3 s w Hs ltac:(done) Hw).
  - intros Hs s Hk. pose proof (TcpClient.inv_up _ B1 Hs) as Hup.
    pose proof (Connector.inv_channel _ (Connector.connector_reachable_inv _ (TcpClient.inv_connector _ B1))) as Hch.
    unfold connector in Hk. rewrite Hk in Hch. destruct Hch. congruence.
  - intros Hq s. rewrite B2, Hq. split; [by intros [?|?%not_elem_of_nil]|by left].
Qed.

End link.

(** ** A run: connected, closed by the server, connecting again *)

#[local] Existing Instance EPoller.demo_kernel.
#[local] Existing Instance EPoller.epoller_owner.
#[local] Existing Instance EPoller.epoller_host.
#[local] Existing Instance TcpConnection.demo_socket.
#[local] Existing Instance Connector.demo_net.

Notation link := (t (P := EPoller.t)).

Definition fd_of (s : nat) : Z := 5 + Z.of_nat s.
Definition step1 (y : link) (e : event) : res link := step TcpConnection.echo fd_of y e.
Definition next (y : link) (e : event) : link := match step1 y e with Ok y' => y' | Err _ => y end.

Definition eof : event := Ready 0 Channel.POLLIN (Buffer.RvData []) 300.

Definition demo_init : link := init EPoller.demo0.
Definition demo_connecting : link := next (next demo_init EnableRetry) (Connect 100).
Definition demo_made : link := next demo_connecting (Network (Connector.Ready Channel.POLLOUT 0 false) 300 200).
Definition demo_up : link := next demo_made (Network Connector.Functor 300 300).
Definition demo_closed : link := next demo_up eof.

Notation reached := (reachable TcpConnection.echo fd_of).

Lemma link_next y e : reached y -> allowed fd_of y e -> is_ok (step1 y e) = true -> reached (next y e).
Proof.
  intros Hr Ha E. apply (reach_step _ _ y e); [done|done|].
  unfold next, step1 in *. by destruct (step TcpConnection.echo fd_of y e).
Qed.

Definition demo_fresh (y : link) (p : Z) : bool :=
  bool_decide (EPoller.store (poller y) !! p = None) &&
  bool_decide (map_Forall (fun _ c => Channel.fd_ c <> fd_of (Connector.nsockets (connector y)))
    (EPoller.store (poller y))).

Lemma demo_fresh_ok y p : demo_fresh y p = true -> fresh fd_of y p.
Proof.
  unfold demo_fresh. intros [H1 H2]%andb_true_iff. apply bool_decide_eq_true in H1.
  apply (proj1 (bool_decide_eq_true _)) in H2. split; [done|]. intros q c Hc _. by apply (H2 q).
Qed.

Lemma link_connecting_reachable : reached demo_connecting.
Proof.
  apply link_next; [|split; [by vm_compute|by apply demo_fresh_ok; vm_compute]|by vm_compute].
  apply link_next; [|exact I|by vm_compute].
  apply reach_init. by apply EPoller.epoller_init_inv.
Qed.

Lemma link_up_reachable : reached demo_up.
Proof.
  apply link_next; [|split_and!; [exact I|by apply demo_fresh_ok; vm_compute|by vm_compute]|by vm_compute].
  apply link_next; [apply link_connecting_reachable| |by vm_compute].
  split_and!; [exists 0%nat; by vm_compute|by apply demo_fresh_ok; vm_compute|by vm_compute].
Qed.

Definition demo_conn (y : link) : TcpConnection.t (P := EPoller.t) :=
  default (TcpConnection.init EPoller.demo0 0) (conns y !! 0%nat).
Definition demo_there (y : link) : bool := bool_decide (is_Some (conns y !! 0%nat)).

Lemma demo_link_there y : demo_there y = true -> conns y !! 0%nat = Some (demo_conn y).
Proof. unfold demo_there, demo_conn. intros [w ->]%bool_decide_eq_true. done. Qed.

Definition demo_polled (y : link) : bool :=
  match channelAt (poller y) (TcpConnection.channel_ (demo_conn y)) with
  | Some c => registered c && negb (Channel.isNoneEvent c) && Channel.isReading c
  | None => false
  end.

Lemma link_ready y d p :
  Connector.resets (connector y) = 0%nat -> demo_fresh y p = true ->
  demo_there y = true -> demo_polled y = true ->
  allowed fd_of y (Ready 0 Channel.POLLIN (Buffer.RvData d) p).
Proof.
  intros Hr Hf Hw Hb. split; [done|]. split; [by apply demo_fresh_ok|].
  exists (demo_conn y). split; [by apply demo_link_there|]. unfold demo_polled in Hb.
  destruct (channelAt (poller y) (TcpConnection.channel_ (demo_conn y))) as [c|] eqn:Hc; [|done].
  apply andb_true_iff in Hb as [[Hb1 Hb2%negb_true_iff]%andb_true_iff Hb3].
  exists c. split; [exact Hc|]. split; [done|]. intros _. by split.
Qed.

Lemma link_closed_reachable : reached demo_closed.
Proof.
  apply link_next; [apply link_up_reachable|apply link_ready; vm_compute; reflexivity|vm_compute; reflexivity].
Qed.

(** The connection that closed is destroyed while the connector is already
    connecting the next socket; and a retry that is planned cannot be stopped when
    no other timer follows. *)
Definition demo_refused : link :=
  next demo_connecting (Network (Connector.Ready Channel.POLLERR 111 false) 300 200).

Lemma link_refused_reachable : reached demo_refused.
Proof.
  apply link_next; [apply link_connecting_reachable| |by vm_compute].
  split_and!; [exists 0%nat; by vm_compute|by apply demo_fresh_ok; vm_compute|by vm_compute].
Qed.

Lemma link_progress_witness :
  queued demo_closed = [0%nat] /\ Connector.channel_ (connector demo_closed) = Some (1%nat, true) /\
  match step1 demo_closed Destroy with
  | Ok y' => reached y'
  | Err f => f = LengthError
  end /\
  step1 demo_refused (Stop true) = Err AssertFailed.
Proof.
  assert (Hq : queued demo_closed = [0%nat]) by (vm_compute; reflexivity).
  split; [exact Hq|]. split; [vm_compute; reflexivity|]. split.
  - apply (link_progress TcpConnection.echo fd_of demo_closed Destroy TcpConnection.echo_polite link_closed_reachable).
    unfold allowed. rewrite Hq. exists (demo_conn demo_closed).
    split; [apply demo_link_there; vm_compute; reflexivity|vm_compute; reflexivity].
  - apply (link_progress TcpConnection.echo fd_of demo_refused Destroy TcpConnection.echo_polite link_refused_reachable).
    vm_compute. discriminate.
Defined.

Lemma link_connections_witness :
  TcpClient.connection_ (client demo_up) = Some 0%nat /\
  exists w, conns demo_up !! 0%nat = Some w /\ TcpConnection.state_ w <> TcpConnection.kDisconnected.
Proof.
  pose proof (link_connections TcpConnection.echo fd_of demo_up TcpConnection.echo_polite link_up_reachable) as [H _].
  assert (E : TcpClient.connection_ (client demo_up) = Some 0%nat) by (vm_compute; reflexivity).
  split; [exact E|]. exact (proj1 (H 0%nat) E).
Defined.

End Link.
