(* ===== verification/Printers.v ===== *)
(** * The timer examples ([examples/timer/timer2.cpp] to [timer5.cpp])

    A printer counts and arms its timer again until the count reaches a limit,
    then quits its loop.  [timer2] and [timer3] have one loop; [timer4] and
    [timer5] have two loops on two threads, whose callbacks share the counter
    under a mutex: [timer4] prints inside the critical section, [timer5] after
    it.  A timer of a loop fires when it is armed and the loop runs; the two
    threads interleave in any way.  When the first loop returns, [main] ends,
    and the destructor of the [EventLoopThread] quits the second. *)

From S2P Require Import Prelude.

Module Printers.

(** The numbers from [a] on, below [n]. *)
Definition from (a n : Z) : list Z := (fun i => a + Z.of_nat i) <$> seq 0 (Z.to_nat (n - a)).
Definition upto (n : Z) : list Z := from 0 n.

Lemma from_S a n : a <= n -> from a (n + 1) = from a n ++ [n].
Proof.
  intros Hn. unfold from. replace (Z.to_nat (n + 1 - a)) with (S (Z.to_nat (n - a))) by lia.
  rewrite seq_S, fmap_app. simpl. do 2 f_equal. lia.
Qed.

Lemma from_nil a n : n <= a -> from a n = [].
Proof. intros H. unfold from. by replace (Z.to_nat (n - a)) with 0%nat by lia. Qed.

Lemma upto_S n : 0 <= n -> upto (n + 1) = upto n ++ [n].
Proof. apply from_S. Qed.

(** ** One loop: [timer2], [timer3] *)

Module One.

Record t := mk {
  count_ : Z;
  armed : bool;
  quit : bool;
  out : list Z
}.

(** The constructor of [Printer], or [main] of [timer2]. *)
Definition init : t := mk 0 true false [].

(** [print], when the timer fires. *)
Definition print (s : t) : t :=
  if count_ s <? 5 then mk (count_ s + 1) true (quit s) (out s ++ [count_ s])
  else mk (count_ s) false true (out s).

(** The loop: the timer fires while it is armed and the loop was not quit. *)
Fixpoint loop (fuel : nat) (s : t) : option t :=
  if armed s && negb (quit s) then
    match fuel with O => None | S fuel => loop fuel (print s) end
  else Some s.

End One.

(** The program ends: six expirations print 0 to 4 and quit the loop. *)
Theorem printer_ends fuel : (6 <= fuel)%nat ->
  One.loop fuel One.init = Some (One.mk 5 false true (upto 5)).
Proof. intros H. by do 6 (destruct fuel as [|fuel]; [lia|]); destruct fuel. Qed.

Lemma printer_ends_witness : One.loop 10 One.init = Some (One.mk 5 false true [0; 1; 2; 3; 4]).
Proof. apply (printer_ends 10). lia. Defined.

(** ** Two loops: [timer4], [timer5] *)

(** The callback of a loop: waiting for its timer, holding what it took under
    the lock ([None]: it is to quit), or over. *)
Inductive phase := Armed | Took (x : option Z) | Over.

Record t := mk {
  count_ : Z;
  phase1 : phase;
  phase2 : phase;
  quit1 : bool;
  quit2 : bool;
  (* the lines printed: which callback, which number *)
  out : list (bool * Z)
}.

(** [Printer(loop1, loop2)]: both timers are armed.  The constructor of [timer4]
    does not write [count_], that of [timer5] writes 0. *)
Definition init (count : Z) : t := mk count Armed Armed false false [].

(** [who] is false for [print1] on the first loop, true for [print2]. *)
Definition phase_of (s : t) (who : bool) : phase := if who then phase2 s else phase1 s.
Definition quit_of (s : t) (who : bool) : bool := if who then quit2 s else quit1 s.
Definition set_phase (s : t) (who : bool) (p : phase) : t :=
  if who then mk (count_ s) (phase1 s) p (quit1 s) (quit2 s) (out s)
  else mk (count_ s) p (phase2 s) (quit1 s) (quit2 s) (out s).
Definition set_quit (s : t) (who : bool) : t :=
  if who then mk (count_ s) (phase1 s) (phase2 s) (quit1 s) true (out s)
  else mk (count_ s) (phase1 s) (phase2 s) true (quit2 s) (out s).
Definition set_count (s : t) (n : Z) : t := mk n (phase1 s) (phase2 s) (quit1 s) (quit2 s) (out s).
Definition emit (s : t) (who : bool) (n : Z) : t :=
  mk (count_ s) (phase1 s) (phase2 s) (quit1 s) (quit2 s) (out s ++ [(who, n)]).

(** The timer of [who] fires only while its loop runs. *)
Definition fires (s : t) (who : bool) : bool :=
  match phase_of s who with Armed => negb (quit_of s who) | _ => false end.

(** The first loop has returned, and [main] is leaving. *)
Definition leaving (s : t) : bool :=
  quit1 s && negb (quit2 s) && match phase1 s with Took _ => false | _ => true end.

(** [timer4]: the whole callback under the lock. *)
Definition print4 (s : t) (who : bool) : t :=
  if count_ s <? 10 then
    let n := count_ s in
    set_phase (set_count (emit s who n) (n + 1)) who Armed
  else set_phase (set_quit s who) who Over.

(** [timer5]: the critical section, *)
Definition lock5 (s : t) (who : bool) : t :=
  if count_ s <? 10 then
    set_phase (set_count s (count_ s + 1)) who (Took (Some (count_ s)))
  else set_phase s who (Took None).

(** and what follows it: [print2] too quits the first loop. *)
Definition finish5 (s : t) (who : bool) : t :=
  match phase_of s who with
  | Took (Some n) => set_phase (emit s who n) who Armed
  | Took None => set_phase (set_quit s false) who Over
  | _ => s
  end.

Inductive step4 : t -> t -> Prop :=
  | fire4 s who : fires s who = true -> step4 s (print4 s who)
  | leave4 s : leaving s = true -> step4 s (set_quit s true).

Inductive step5 : t -> t -> Prop :=
  | fire5 s who : fires s who = true -> step5 s (lock5 s who)
  | rest5 s who x : phase_of s who = Took x -> step5 s (finish5 s who)
  | leave5 s : leaving s = true -> step5 s (set_quit s true).

Definition taken (p : phase) : list Z := match p with Took (Some n) => [n] | _ => [] end.

(** ** [timer4] prints in order *)

Record Inv4 (c : Z) (s : t) : Prop := {
  inv4_count : c <= count_ s <= Z.max c 10;
  inv4_out : (out s).*2 = from c (count_ s);
  inv4_over : forall who, phase_of s who = Over -> quit_of s who = true;
  inv4_took : forall who x, phase_of s who <> Took x;
  inv4_quit : forall who, quit_of s who = true -> 10 <= count_ s
}.

Lemma step4_inv c s s' : Inv4 c s -> step4 s s' -> Inv4 c s'.
Proof.
  intros HI Hstep. destruct HI as [H1 H2 H3 H4 H5]. destruct Hstep as [s who Hf|s Hl].
  - unfold fires in Hf. unfold print4. destruct (Z.ltb_spec (count_ s) 10) as [Hlt|Hge]; split.
    + destruct who; simpl; lia.
    + replace (out _) with (out s ++ [(who, count_ s)]) by (by destruct who).
      rewrite fmap_app, H2. destruct who; simpl; by rewrite from_S by lia.
    + intros w. pose proof (H3 true). pose proof (H3 false). by destruct who, w.
    + intros w. pose proof (H4 true). pose proof (H4 false). by destruct who, w.
    + intros w. specialize (H5 w). destruct who, w; simpl in *; intros Hx; specialize (H5 Hx); lia.
    + by destruct who.
    + by destruct who.
    + intros w. pose proof (H3 true). pose proof (H3 false). by destruct who, w.
    + intros w. pose proof (H4 true). pose proof (H4 false). by destruct who, w.
    + intros w _. destruct who; simpl; lia.
  - unfold leaving in Hl. destruct (quit1 s) eqn:Hq; [|done].
    split; [done|done| | |].
    + intros []; [done|apply (H3 false)].
    + intros [] x; [apply (H4 true)|apply (H4 false)].
    + intros w _. by apply (H5 false).
Qed.

Lemma init_inv4 c : Inv4 c (init c).
Proof. split; simpl; try lia; [by rewrite from_nil by lia|by intros []..]. Qed.

(** ** [timer5] prints each number once *)

Record Inv5 (s : t) : Prop := {
  inv5_count : 0 <= count_ s <= 10;
  inv5_out : (out s).*2 ++ taken (phase1 s) ++ taken (phase2 s) ≡ₚ upto (count_ s);
  inv5_over : forall who, phase_of s who = Over \/ phase_of s who = Took None -> count_ s = 10;
  inv5_quit1 : quit1 s = true -> count_ s = 10;
  inv5_over_quit : forall who, phase_of s who = Over -> quit1 s = true;
  inv5_quit2 : quit2 s = true -> quit1 s = true
}.

Lemma step5_inv s s' : Inv5 s -> step5 s s' -> Inv5 s'.
Proof.
  intros [H1 H2 H3 H4 H5 H6] Hstep. destruct Hstep as [s who Hf|s who x Hp|s Hl];
    [| |unfold leaving in Hl; destruct (quit1 s) eqn:Hq; [|done]; split; simpl; auto].
  - unfold lock5. assert (Ha : phase_of s who = Armed) by (unfold fires in Hf; by case_match).
    destruct (Z.ltb_spec (count_ s) 10) as [Hlt|Hge]; split.
    + destruct who; simpl; lia.
    + replace (out _) with (out s) by (by destruct who).
      destruct who; simpl in *; rewrite upto_S, <- H2, Ha by lia; simpl;
        rewrite ?app_nil_r; [by rewrite <- app_assoc|].
      rewrite <- app_assoc. f_equiv. apply Permutation_cons_append.
    + intros w Hw. pose proof (H3 true). pose proof (H3 false).
      destruct who, w; simpl in *; destruct Hw; try congruence; exfalso; assert (count_ s = 10) by auto; lia.
    + intros Hq. assert (count_ s = 10) by (apply H4; by destruct who). lia.
    + intros w Hw. pose proof (H5 true). pose proof (H5 false). destruct who, w; simpl in *; auto; congruence.
    + by destruct who.
    + destruct who; simpl; lia.
    + destruct who; simpl in *; rewrite Ha in H2; exact H2.
    + intros w _. destruct who; simpl; lia.
    + intros _. destruct who; simpl; lia.
    + intros w Hw. pose proof (H5 true). pose proof (H5 false). destruct who, w; simpl in *; auto; congruence.
    + by destruct who.
  - unfold finish5. rewrite Hp. destruct x as [n|]; split.
    + by destruct who.
    + destruct who; simpl in *; rewrite Hp in H2; simpl in H2; rewrite fmap_app; simpl; rewrite <- H2;
        rewrite ?app_nil_r; [|by rewrite <- app_assoc].
      rewrite <- app_assoc. f_equiv. simpl. apply Permutation_cons_append.
    + intros w Hw. pose proof (H3 true). pose proof (H3 false). destruct who, w; simpl in *; auto; by destruct Hw.
    + intros Hq. replace (count_ _) with (count_ s) by (by destruct who). apply H4. by destruct who.
    + intros w Hw. pose proof (H5 true). pose proof (H5 false). destruct who, w; simpl in *; auto; congruence.
    + by destruct who.
    + by destruct who.
    + destruct who; simpl in *; rewrite Hp in H2; exact H2.
    + intros w _. replace (count_ _) with (count_ s) by (by destruct who). apply (H3 who). by right.
    + intros _. replace (count_ _) with (count_ s) by (by destruct who). apply (H3 who). by right.
    + intros w _. by destruct who.
    + by destruct who.
Qed.

Lemma init_inv5 : Inv5 (init 0).
Proof. split; simpl; try done; [by intros [] [|]|by intros []]. Qed.

(** ** The programs end *)

Lemma nsteps_inv {A} (R : A -> A -> Prop) (I : A -> Prop) (m : A -> nat) n x y :
  (forall a b, I a -> R a b -> I b /\ (m b < m a)%nat) -> nsteps R n x y -> I x ->
  I y /\ (n + m y <= m x)%nat.
Proof.
  intros Hstep. induction 1 as [x|n x y z Hxy _ IH]; intros Hx; [split; [done|lia]|].
  destruct (Hstep x y Hx Hxy) as [Hy Hm]. destruct (IH Hy) as [Hz Hn]. split; [done|lia].
Qed.

Definition weight (p : phase) : nat :=
  match p with Armed => 2 | Took (Some _) => 3 | Took None => 1 | Over => 0 end.
Definition measure (s : t) : nat :=
  2 * Z.to_nat (10 - count_ s) + weight (phase1 s) + weight (phase2 s) + (if quit2 s then 0 else 1).

Definition pending (p : phase) : nat := match p with Over => 0 | _ => 1 end.
Definition measure4 (s : t) : nat :=
  Z.to_nat (10 - count_ s) + pending (phase1 s) + pending (phase2 s) + (if quit2 s then 0 else 1).

Lemma leaving_measure (f : t -> nat) s :
  leaving s = true ->
  (f (set_quit s true) + (if quit2 s then 0 else 1) = f s)%nat -> (f (set_quit s true) < f s)%nat.
Proof. unfold leaving. destruct (quit1 s), (quit2 s); simpl; try done; lia. Qed.

Lemma step4_measure c s s' : Inv4 c s -> step4 s s' -> Inv4 c s' /\ (measure4 s' < measure4 s)%nat.
Proof.
  intros HI Hs. split; [by eapply step4_inv|]. destruct Hs as [s who Hf|s Hl].
  - unfold fires in Hf. unfold print4, measure4.
    destruct (Z.ltb_spec (count_ s) 10); destruct who; simpl in *; repeat case_match; try done; simpl; lia.
  - apply (leaving_measure measure4 s Hl). unfold measure4. simpl. lia.
Qed.

Lemma step5_measure s s' : Inv5 s -> step5 s s' -> Inv5 s' /\ (measure s' < measure s)%nat.
Proof.
  intros HI Hs. split; [by eapply step5_inv|]. pose proof (inv5_count _ HI).
  destruct Hs as [s who Hf|s who x Hp|s Hl].
  - unfold fires in Hf. unfold lock5, measure.
    destruct (Z.ltb_spec (count_ s) 10); destruct who; simpl in *; repeat case_match; try done; simpl; lia.
  - unfold finish5. rewrite Hp. unfold measure.
    destruct x; destruct who; simpl in *; rewrite Hp; simpl; lia.
  - apply (leaving_measure measure s Hl). unfold measure. simpl. lia.
Qed.

(** When no step is left, the program is over. *)
Lemma leaving_stuck s (R : t -> t -> Prop) :
  (leaving s = true -> R s (set_quit s true)) -> (forall s', ~ R s s') ->
  quit1 s = true -> (forall x, phase1 s <> Took x) -> quit2 s = true.
Proof.
  intros HR Hs Hq Hp. destruct (quit2 s) eqn:H2; [done|]. destruct (Hs (set_quit s true)). apply HR.
  unfold leaving. rewrite Hq, H2. destruct (phase1 s) as [|x|]; [done| |done]. by destruct (Hp x).
Qed.

(** [timer4], whatever the two threads do, and whatever [count_] holds before
    it is first read: the numbers are printed in order, each once; the callbacks
    run a bounded number of times, and when nothing is left to run the
    numbers from the first value of [count_] to 9 are printed, which is none
    when that value is 10 or more, and both loops are quit. *)
Theorem timer4_prints c n s :
  nsteps step4 n (init c) s ->
  (n <= Z.to_nat (10 - c) + 3)%nat /\ (out s).*2 = from c (count_ s) /\
  ((forall s', ~ step4 s s') -> (out s).*2 = from c 10 /\ quit1 s = true /\ quit2 s = true).
Proof.
  intros Hn.
  destruct (nsteps_inv step4 (Inv4 c) measure4 n (init c) s (step4_measure c) Hn (init_inv4 c)) as [HI Hm].
  assert (H0 : measure4 (init c) = (Z.to_nat (10 - c) + 3)%nat) by (unfold measure4; simpl; lia).
  split_and!; [lia|apply HI|]. intros Hstuck.
  assert (Hq : quit1 s = true).
  { destruct (quit1 s) eqn:Hq; [done|]. destruct (Hstuck (print4 s false)). constructor. unfold fires.
    pose proof (inv4_over c _ HI false) as Ho. pose proof (inv4_took c _ HI false) as Ht.
    simpl in *. rewrite Hq in *. destruct (phase1 s) as [|x|]; [done|by destruct (Ht x)|by discriminate Ho]. }
  split_and!; [|done|by apply (leaving_stuck s step4 (leave4 s) Hstuck Hq), (inv4_took c _ HI false)].
  pose proof (inv4_quit c _ HI false Hq). pose proof (inv4_count c _ HI). rewrite (inv4_out c _ HI).
  destruct (decide (c <= 10)); [by replace (count_ s) with 10 by lia|]. by rewrite !from_nil by lia.
Qed.

(** [timer5], whatever the two threads do: no number is lost or printed
    twice, though the order is free; a run has at most 25 steps, and at the
    end exactly 0 to 9 are printed and both loops are quit.  But the second loop
    only by the end of [main]: no callback ever quits it, because [print2] too
    quits the first one. *)
Theorem timer5_prints n s :
  nsteps step5 n (init 0) s ->
  (n <= 25)%nat /\ NoDup (out s).*2 /\ (out s).*2 ⊆ upto (count_ s) /\
  (forall who, quit2 (finish5 s who) = quit2 s) /\
  ((forall s', ~ step5 s s') -> (out s).*2 ≡ₚ upto 10 /\ quit1 s = true /\ quit2 s = true).
Proof.
  intros Hn. destruct (nsteps_inv step5 Inv5 measure n (init 0) s step5_measure Hn init_inv5) as [HI Hm].
  change (measure (init 0)) with 25%nat in Hm. pose proof (inv5_out _ HI) as Ho.
  assert (Hnd : NoDup (upto (count_ s))).
  { apply NoDup_fmap_2; [intros ???; lia|apply NoDup_seq]. }
  split_and!; [lia| | | |].
  - rewrite <- Ho in Hnd. by apply NoDup_app in Hnd as [? _].
  - rewrite <- Ho. intros x Hx. apply elem_of_app. by left.
  - intros who. unfold finish5. by destruct who; repeat case_match.
  - intros Hstuck.
    assert (Hfin : forall who x, phase_of s who <> Took x)
      by (intros who x Hp; apply (Hstuck (finish5 s who)); by econstructor).
    assert (Hq : quit1 s = true).
    { destruct (quit1 s) eqn:Hq; [done|]. destruct (phase1 s) as [|x|] eqn:Hp; [|by destruct (Hfin false x)|].
      - destruct (Hstuck (lock5 s false)). constructor. unfold fires. simpl. by rewrite Hp, Hq.
      - pose proof (inv5_over_quit _ HI false Hp). congruence. }
    split_and!; [|done|by apply (leaving_stuck s step5 (leave5 s) Hstuck Hq), (Hfin false)].
    rewrite (inv5_quit1 _ HI Hq) in Ho.
    destruct (phase1 s) as [|x|] eqn:H1; [|by destruct (Hfin false x)|];
      (destruct (phase2 s) as [|x|] eqn:H2; [|by destruct (Hfin true x)|]); by rewrite !app_nil_r in Ho.
Qed.

(** ** Two schedules *)

Fixpoint run4 (l : list bool) (s : t) : t :=
  match l with [] => s | who :: l => run4 l (print4 s who) end.
Fixpoint enabled4 (l : list bool) (s : t) : bool :=
  match l with [] => true | who :: l => fires s who && enabled4 l (print4 s who) end.

Lemma run4_steps l : forall s, enabled4 l s = true -> nsteps step4 (length l) s (run4 l s).
Proof.
  induction l as [|who l IH]; intros s H; simpl in *; [constructor|].
  apply andb_true_iff in H as [H1 H2]. eapply nsteps_l; [by apply (fire4 s who)|by apply IH].
Qed.

Definition demo4 : list bool := [false; true; true; false; true].

Lemma timer4_prints_witness :
  (out (run4 demo4 (init 7))).*2 = [7; 8; 9] /\ quit2 (run4 demo4 (init 7)) = true.
Proof.
  destruct (timer4_prints 7 5 (run4 demo4 (init 7))) as (_ & _ & H).
  { apply (run4_steps demo4). vm_compute. reflexivity. }
  destruct H as (H1 & _ & H2).
  - intros s' Hs. inversion Hs as [s who Hf E1 E2|s Hl E1 E2].
    + destruct who; vm_compute in Hf; discriminate Hf.
    + vm_compute in Hl. discriminate Hl.
  - split; [exact H1|exact H2].
Defined.

(** Each thread takes its number, then the other prints first. *)
Definition act5 (s : t) (who : bool) : t :=
  match phase_of s who with Took _ => finish5 s who | _ => lock5 s who end.
Definition able5 (s : t) (who : bool) : bool :=
  match phase_of s who with Took _ => true | _ => fires s who end.
Fixpoint run5 (l : list bool) (s : t) : t :=
  match l with [] => s | who :: l => run5 l (act5 s who) end.
Fixpoint enabled5 (l : list bool) (s : t) : bool :=
  match l with [] => true | who :: l => able5 s who && enabled5 l (act5 s who) end.

Lemma run5_steps l : forall s, enabled5 l s = true -> nsteps step5 (length l) s (run5 l s).
Proof.
  induction l as [|who l IH]; intros s H; simpl in *; [constructor|].
  apply andb_true_iff in H as [H1 H2]. econstructor; [|by apply IH].
  unfold act5, able5 in *. destruct (phase_of s who) as [|x|] eqn:Hp.
  - by constructor.
  - by apply (rest5 s who x).
  - by constructor.
Qed.

Definition demo5 : list bool := [false; true; true; false].

Lemma timer5_prints_witness :
  (out (run5 demo5 (init 0))).*2 = [1; 0] /\ NoDup (out (run5 demo5 (init 0))).*2.
Proof.
  split; [vm_compute; reflexivity|].
  apply (timer5_prints 4). apply (run5_steps demo5). vm_compute. reflexivity.
Defined.

End Printers.
