(* ===== verification/Discard.v ===== *)
(** * The discard server and client ([examples/discard/server.cc], [client.cpp])

    The server's two atomic counters, which the threads of the connections add
    to and the base loop's timer reports.  [onMessage] is two atomic additions,
    [printThroughput] two loads and a store: other threads run in between, so
    each is a step of its own.  The [double]s printed are left out: a report is
    the two integers they are computed from. *)

From S2P Require Import Prelude.

Module Discard.

(** Where [printThroughput] is, with its local variables. *)
Inductive phase :=
  | Idle
  | Loaded (newCounter bytes : Z)
  | Both (newCounter bytes msgs : Z).

Record t := mk {
  transferred_ : Z;
  receivedMessages_ : Z;
  oldCounter_ : Z;
  (* the [len] of each thread between its two additions *)
  adding : list Z;
  printing : phase;
  (* the [bytes] and [msgs] of each report *)
  reports : list (Z * Z)
}.

(** The constructor leaves the two [std::atomic]s uninitialised: [a] and [b] are
    what they hold. *)
Definition init (a b : Z) : t := mk a b 0 [] Idle [].

Inductive event :=
  | Transfer (len : Z)
  | Count (k : nat)
  | LoadTransferred
  | LoadMessages
  | Report.

Definition step (s : t) (e : event) : res t :=
  match e with
  | Transfer len =>
      Ok (mk (s64 (transferred_ s + len)) (receivedMessages_ s) (oldCounter_ s)
            (len :: adding s) (printing s) (reports s))
  | Count k =>
      match adding s !! k with
      | Some len =>
          Ok (mk (transferred_ s) (s64 (receivedMessages_ s + len)) (oldCounter_ s)
                (delete k (adding s)) (printing s) (reports s))
      | None => Ok s
      end
  | LoadTransferred =>
      match printing s with
      | Idle =>
          let newCounter := transferred_ s in
          bytes ← chk64 (newCounter - oldCounter_ s) ;
          Ok (mk (transferred_ s) (receivedMessages_ s) (oldCounter_ s) (adding s)
                (Loaded newCounter bytes) (reports s))
      | _ => Ok s
      end
  | LoadMessages =>
      match printing s with
      | Loaded newCounter bytes =>
          Ok (mk (transferred_ s) (receivedMessages_ s) (oldCounter_ s) (adding s)
                (Both newCounter bytes (receivedMessages_ s)) (reports s))
      | _ => Ok s
      end
  | Report =>
      match printing s with
      | Both newCounter bytes msgs =>
          Ok (mk (transferred_ s) 0 newCounter (adding s) Idle (reports s ++ [(bytes, msgs)]))
      | _ => Ok s
      end
  end.

Fixpoint run (s : t) (es : list event) : res t :=
  match es with
  | [] => Ok s
  | e :: es => s' ← step s e ; run s' es
  end.

Definition sum (l : list Z) : Z := foldr Z.add 0 l.
Definition len_of (e : event) : Z := match e with Transfer len => len | _ => 0 end.
(** The bytes that arrived. *)
Definition arrived (es : list event) : Z := sum (len_of <$> es).

(** A thread counts between the load and the store of [receivedMessages_]. *)
Fixpoint race (p : phase) (es : list event) : bool :=
  match es with
  | [] => false
  | Count _ :: es => match p with Both _ _ _ => true | _ => race p es end
  | LoadTransferred :: es => race (match p with Idle => Loaded 0 0 | _ => p end) es
  | LoadMessages :: es => race (match p with Loaded n b => Both n b 0 | _ => p end) es
  | Report :: es => race (match p with Both _ _ _ => Idle | _ => p end) es
  | _ :: es => race p es
  end.

Lemma sum_app l1 l2 : sum (l1 ++ l2) = sum l1 + sum l2.
Proof. induction l1; simpl; lia. Qed.

Lemma sum_delete l k x : l !! k = Some x -> sum (delete k l) = sum l - x.
Proof.
  revert k. induction l as [|y l IH]; intros [|k] H; simpl in *; simplify_eq; [lia|].
  rewrite (IH k H). lia.
Qed.

(** Nothing has overflowed, and the reports add up to what was last seen. *)
Record Inv (s : t) : Prop := {
  inv_old : 0 <= oldCounter_ s <= transferred_ s;
  inv_bytes : sum ((reports s).*1) = oldCounter_ s;
  inv_phase : match printing s with
    | Idle => True
    | Loaded n b | Both n b _ => b = n - oldCounter_ s /\ oldCounter_ s <= n <= transferred_ s
    end;
  inv_msgs : 0 <= receivedMessages_ s;
  inv_load : match printing s with Both _ _ m => 0 <= m <= receivedMessages_ s | _ => True end;
  inv_adding : Forall (fun len => 0 <= len) (adding s)
}.

Lemma s64_small x : 0 <= x < 2 ^ 63 -> s64 x = x.
Proof. intros. unfold s64. rewrite Z.mod_small; lia. Qed.

(** Everything the threads have counted or are about to. *)
Definition ledger (s : t) : Z := sum ((reports s).*2) + receivedMessages_ s + sum (adding s).

Lemma sum_nonneg l : Forall (fun len => 0 <= len) l -> 0 <= sum l.
Proof. induction 1; simpl; lia. Qed.

Definition quiet (s : t) : Prop :=
  match printing s with Both _ _ m => receivedMessages_ s = m | _ => True end.

Lemma forget_race p q es :
  match p, q with Idle, Idle | Loaded _ _, Loaded _ _ | Both _ _ _, Both _ _ _ => True | _, _ => False end ->
  race p es = race q es.
Proof.
  revert p q. induction es as [|e es IH]; intros p q H; [done|].
  destruct e, p, q; simpl; try done; by apply IH.
Qed.

Lemma discard_step_ok s e :
  Inv s -> (match e with Transfer len => 0 <= len | _ => True end) ->
  transferred_ s + len_of e < 2 ^ 63 -> ledger s + len_of e < 2 ^ 63 ->
  0 <= sum ((reports s).*2) ->
  exists s', step s e = Ok s' /\ Inv s' /\ transferred_ s' = transferred_ s + len_of e /\
    0 <= sum ((reports s').*2) /\ ledger s' <= ledger s + len_of e /\
    (forall es, race (printing s) (e :: es) = false -> quiet s ->
       quiet s' /\ race (printing s') es = false /\ ledger s' = ledger s + len_of e).
Proof.
  intros [H1 H2 H3 H4 H5 H6] He Ht Hl Hr. pose proof (sum_nonneg _ H6) as Ha. unfold ledger in *.
  destruct e as [len|k| | |]; simpl in *.
  - rewrite s64_small by lia. eexists. split; [reflexivity|]. unfold quiet. simpl.
    split_and!; try lia; [|intros es Hrc Hq; split_and!; try done; lia].
    destruct (printing s) eqn:Hp; split; simpl; rewrite ?Hp; try done; try lia; by constructor.
  - destruct (adding s !! k) as [len|] eqn:Hk.
    2:{ eexists. split; [reflexivity|]. split_and!; try lia; [done|].
        intros es Hrc Hq. destruct (printing s); try discriminate; by split_and!; [..|lia]. }
    assert (Hlen : 0 <= len) by (by eapply Forall_lookup_1 in H6).
    pose proof (sum_delete _ _ _ Hk) as Hd.
    assert (Hle : len <= sum (adding s)).
    { rewrite <- (take_drop_middle _ _ _ Hk), sum_app. simpl.
      pose proof (sum_nonneg (take k (adding s)) ltac:(by apply Forall_take)).
      pose proof (sum_nonneg (drop (S k) (adding s)) ltac:(by apply Forall_drop)). lia. }
    rewrite s64_small by lia. eexists. split; [reflexivity|]. unfold quiet. simpl.
    split_and!; try lia.
    + destruct (printing s) eqn:Hp; split; simpl; rewrite ?Hp; try done; try lia; by apply Forall_delete.
    + intros es Hrc Hq. destruct (printing s); try discriminate; split_and!; try done; lia.
  - destruct (printing s) eqn:Hp.
    + rewrite chk64_in, bind_ret_l by lia. eexists. split; [reflexivity|]. unfold quiet. simpl.
      split_and!; try lia; [by split; simpl; try done; try lia|].
      intros es Hrc _. split_and!; [done| |lia]. rewrite <- Hrc. by apply forget_race.
    + eexists. split; [reflexivity|]. split_and!; try lia; [by split; rewrite ?Hp|].
      intros es Hrc Hq. rewrite Hp. by split_and!; [..|lia].
    + eexists. split; [reflexivity|]. split_and!; try lia; [by split; rewrite ?Hp|].
      intros es Hrc Hq. rewrite Hp. by split_and!; [..|lia].
  - destruct (printing s) eqn:Hp.
    + eexists. split; [reflexivity|]. split_and!; try lia; [by split; rewrite ?Hp|].
      intros es Hrc Hq. rewrite Hp. by split_and!; [..|lia].
    + eexists. split; [reflexivity|]. unfold quiet. simpl. split_and!; try lia.
      * by split; simpl; try done; try lia.
      * intros es Hrc _. split_and!; [done| |lia]. rewrite <- Hrc. by apply forget_race.
    + eexists. split; [reflexivity|]. split_and!; try lia; [by split; rewrite ?Hp|].
      intros es Hrc Hq. rewrite Hp. by split_and!; [..|lia].
  - destruct (printing s) eqn:Hp.
    + eexists. split; [reflexivity|]. split_and!; try lia; [by split; rewrite ?Hp|].
      intros es Hrc Hq. rewrite Hp. by split_and!; [..|lia].
    + eexists. split; [reflexivity|]. split_and!; try lia; [by split; rewrite ?Hp|].
      intros es Hrc Hq. rewrite Hp. by split_and!; [..|lia].
    + eexists. split; [reflexivity|]. unfold quiet. rewrite Hp. simpl.
      rewrite !fmap_app, !sum_app. simpl. split_and!; try lia.
      * split; simpl; try done; try lia. rewrite fmap_app, sum_app. simpl. lia.
      * intros es Hrc Hq. split_and!; [done|done|lia].
Qed.

Lemma discard_run_ok es : forall s,
  Inv s -> Forall (fun e => match e with Transfer len => 0 <= len | _ => True end) es ->
  transferred_ s + arrived es < 2 ^ 63 -> ledger s + arrived es < 2 ^ 63 ->
  0 <= sum ((reports s).*2) ->
  exists s', run s es = Ok s' /\ Inv s' /\ transferred_ s' = transferred_ s + arrived es /\
    ledger s' <= ledger s + arrived es /\
    (race (printing s) es = false -> quiet s -> ledger s' = ledger s + arrived es).
Proof.
  induction es as [|e es IH]; intros s HI Hf Ht Hl Hr.
  { exists s. unfold arrived. simpl. split_and!; try done; intros; lia. }
  apply Forall_cons in Hf as [He Hf].
  change (arrived (e :: es)) with (len_of e + arrived es) in *.
  assert (Hnn : 0 <= arrived es).
  { apply sum_nonneg, Forall_fmap. eapply Forall_impl; [exact Hf|]. intros [len| | | |] H; simpl in *; lia. }
  assert (Hle : 0 <= len_of e) by (destruct e; simpl in *; lia).
  destruct (discard_step_ok s e HI He) as (s1 & E1 & HI1 & Ht1 & Hr1 & Hl1 & Hq1); [lia|lia|done|].
  destruct (IH s1 HI1 Hf) as (s2 & E2 & HI2 & Ht2 & Hl2 & Hq2); [lia|lia|done|].
  exists s2. cbn [run]. rewrite E1, bind_ret_l. split_and!; try done; try lia.
  intros Hrace Hq. destruct (Hq1 es Hrace Hq) as (A & B & C). rewrite (Hq2 B A). lia.
Qed.

Definition sizes_ok (es : list event) : Prop :=
  Forall (fun e => match e with Transfer len => 0 <= len | _ => True end) es.

(** Whatever the threads do, [printThroughput] loses no byte: while the
    counters fit, what the reports show, with what has arrived since the last,
    is what arrived, plus what the uninitialised counter held at the start.
    The messages counted never exceed that, and none is missed when no thread
    adds between the load and the store of [receivedMessages_]. *)
Theorem discard_throughput a b es :
  0 <= a -> 0 <= b -> sizes_ok es -> a + arrived es < 2 ^ 63 -> b + arrived es < 2 ^ 63 ->
  exists s, run (init a b) es = Ok s /\
    sum ((reports s).*1) + (transferred_ s - oldCounter_ s) = a + arrived es /\
    sum ((reports s).*2) + receivedMessages_ s + sum (adding s) <= b + arrived es /\
    (race Idle es = false ->
     sum ((reports s).*2) + receivedMessages_ s + sum (adding s) = b + arrived es).
Proof.
  intros Ha Hb Hs H1 H2. destruct (discard_run_ok es (init a b)) as (s & E & HI & Ht & Hl & Hq);
    unfold ledger in *; simpl in *; try done; try lia.
  exists s. split; [done|]. rewrite (inv_bytes _ HI). split_and!; [lia|lia|].
  intros Hr. specialize (Hq Hr I). lia.
Qed.

Lemma discard_throughput_witness :
  exists s, run (init 0 0) [Transfer 7; Count 0; LoadTransferred; LoadMessages; Transfer 5; Report; Count 0] = Ok s /\
    sum ((reports s).*1) + (transferred_ s - oldCounter_ s) = 12.
Proof.
  destruct (discard_throughput 0 0
    [Transfer 7; Count 0; LoadTransferred; LoadMessages; Transfer 5; Report; Count 0])
    as (s & E & H & _); [lia|lia| |vm_compute; reflexivity|vm_compute; reflexivity|].
  - repeat constructor; lia.
  - exists s. split; [exact E|exact H].
Defined.

(** Messages are lost: the bytes that a thread counts between the load and the
    store of [receivedMessages_] are in no report. *)
Theorem discard_messages_lost : exists es s,
  run (init 0 0) es = Ok s /\ adding s = [] /\ arrived es = 12 /\
  sum ((reports s).*1) + (transferred_ s - oldCounter_ s) = 12 /\
  sum ((reports s).*2) + receivedMessages_ s = 7.
Proof.
  exists [Transfer 7; Count 0; LoadTransferred; LoadMessages; Transfer 5; Count 0; Report].
  eexists. split; [reflexivity|]. by vm_compute.
Qed.

(** ** The client: two messages *)

Module Client.

(** The connection, as the client sees it: [i], and what it was asked to send. *)
Record t := mk {
  i : Z;
  sent : list (list byte);
  quit : bool
}.

Section client.
(** [std::string(size, 'H')] *)
Context (size : nat).
Definition message_ : list byte := repeat x48 size.

Definition init : t := mk 0 [] false.

Definition onConnection (s : t) (connected : bool) : t :=
  if connected then mk (i s) (sent s ++ [message_]) (quit s) else mk (i s) (sent s) true.
Definition onWriteComplete (s : t) : t :=
  if i s =? 0 then mk 1 (sent s ++ [message_]) (quit s) else s.

Inductive event := Up | Down | WriteComplete.
Definition step (s : t) (e : event) : t :=
  match e with
  | Up => onConnection s true
  | Down => onConnection s false
  | WriteComplete => onWriteComplete s
  end.

(** However often the write-complete callback is called, the client sends
    its message twice: when the connection comes up, and once more. *)
Theorem client_sends_twice n m :
  sent (foldl step init (Up :: repeat WriteComplete (S n) ++ repeat Down m)) = [message_; message_].
Proof.
  cbn [foldl]. rewrite foldl_app. cbn [repeat foldl].
  assert (Hw : forall s, i s = 1 -> foldl step s (repeat WriteComplete n) = s).
  { intros s Hs. induction n as [|k IH]; [done|]. cbn [repeat foldl]. unfold step at 2, onWriteComplete.
    by rewrite Hs. }
  rewrite Hw by done.
  assert (Hd : forall s, sent (foldl step s (repeat Down m)) = sent s).
  { induction m as [|k IH]; intros s; [done|]. cbn [repeat foldl]. by rewrite IH. }
  by rewrite Hd.
Qed.

End client.
End Client.

End Discard.
