(* ===== verification/Finger.v ===== *)
(** * The finger servers ([examples/finger/finger03.cpp] to [finger07.cpp])

    Their callbacks as programs on a [TcpConnection]: the first two hang up, at
    once or after a line; the third knows nobody; [finger06] looks the line up in
    a map, and [finger07] adds it when it is not there.  The theorems follow a
    query into the connection and out of it. *)

From S2P Require Import Prelude Buffer Channel ChannelOwner EPoller TcpConnection.

Module Finger.
Import TcpConnection.

Section finger.
Context {P : Type} `{HP : ChannelOwner P} `{HS : Socket}.

Notation conn := (TcpConnection.t (P := P)).
Notation user := (list byte).
Notation UserMap := (list (user * list byte)).

(** [buf->findCRLF()] on the input buffer. *)
Definition findCRLF (w : conn) : option Z :=
  match Buffer.findCRLF (inputBuffer_ w) with Ok c => c | Err _ => None end.

(** [string user(buf->peek(), crlf)] *)
Definition line (w : conn) (crlf : Z) : list byte :=
  match Buffer.load (inputBuffer_ w) (Buffer.peek (inputBuffer_ w))
          (crlf - Buffer.peek (inputBuffer_ w)) with Ok l => l | Err _ => [] end.

(** [conn->shutdown()], and [conn->send(...)] before it. *)
Definition hang_up : prog (P := P) := Do (Public Shutdown) (fun _ => Return).
Definition answer (d : list byte) : prog (P := P) := Do (Public (Send d)) (fun _ => hang_up).

(** [finger03]: the connection callback. *)
Definition onConnection03 (w : conn) : prog (P := P) := if connected w then hang_up else Return.
(** [finger04], [finger05]: the message callbacks. *)
Definition onMessage04 (w : conn) : prog (P := P) :=
  match findCRLF w with Some _ => hang_up | None => Return end.
Definition onMessage05 (w : conn) : prog (P := P) :=
  match findCRLF w with
  | Some _ => answer (bytes "No such user" ++ Buffer.kCRLF)
  | None => Return
  end.

(** [UserMap], a [std::map] keyed by strings, as an association list. *)
Definition find (user : list byte) (users : UserMap) : option (list byte) :=
  snd <$> List.find (fun p => bool_decide (p.1 = user)) users.

(** [getUser] of [finger06], and of [finger07] with the map it leaves. *)
Definition getUser06 (users : UserMap) (user : list byte) : list byte :=
  match find user users with Some result => result | None => bytes "No such user" end.
Definition getUser07 (users : UserMap) (user : list byte) : list byte * UserMap :=
  match find user users with
  | Some result => (result, users)
  | None => (bytes "add new user, yahaha!", (user, bytes "yahaha!") :: users)
  end.

(** The message callbacks: [reply] is what [getUser] gives. *)
Definition serve_line (w : conn) (crlf : Z) (reply : list byte) : prog (P := P) :=
  Do (Public (Send (reply ++ Buffer.kCRLF))) (fun _ =>
  Do (Retrieve (crlf + 2 - Buffer.peek (inputBuffer_ w))) (fun _ =>
  hang_up)).

Definition onMessage06 (users : UserMap) (w : conn) : prog (P := P) :=
  match findCRLF w with
  | Some crlf => serve_line w crlf (getUser06 users (line w crlf))
  | None => Return
  end.
Definition onMessage07 (users : UserMap) (w : conn) : prog (P := P) * UserMap :=
  match findCRLF w with
  | Some crlf =>
      let r := getUser07 users (line w crlf) in
      (serve_line w crlf (fst r), snd r)
  | None => (Return, users)
  end.

Definition with_callbacks (connection message : conn -> prog (P := P)) : callbacks (P := P) :=
  {| connectionCallback_ := connection;
     messageCallback_ := message;
     writeCompleteCallback_ := None;
     highWaterMarkCallback_ := None;
     highWaterMark_ := 64 * 1024 * 1024 |}.

Definition finger03 : callbacks := with_callbacks onConnection03 defaultMessageCallback.
Definition finger04 : callbacks := with_callbacks defaultConnectionCallback onMessage04.
Definition finger05 : callbacks := with_callbacks defaultConnectionCallback onMessage05.
Definition finger06 (users : UserMap) : callbacks :=
  with_callbacks defaultConnectionCallback (onMessage06 users).
(** [finger07] while the map is [users]: a callback on one message. *)
Definition finger07 (users : UserMap) : callbacks :=
  with_callbacks defaultConnectionCallback (fun w => fst (onMessage07 users w)).

(** ** The callbacks are polite: they never take more than is there *)

Lemma findCRLF_fits b c :
  Buffer.findCRLF b = Ok (Some c) ->
  0 <= c - Buffer.peek b /\ c + 2 - Buffer.peek b <= zlen (Buffer.readable b).
Proof.
  unfold Buffer.findCRLF, Buffer.load. case_bool_decide as H; [|done]. simpl.
  destruct (_ =? _) eqn:E; [done|]. intros [= <-]. unfold Buffer.peek, Buffer.beginWrite, Buffer.size in *.
  set (l := slice _ _ _) in *.
  assert (Hl : zlen l = Buffer.writerIndex_ b - Buffer.readerIndex_ b) by (unfold l, slice; zl).
  assert (Hr : Buffer.readable b = l) by done.
  pose proof (Buffer.search_range Buffer.kCRLF l) as Hs. apply Z.eqb_neq in E.
  pose proof (Buffer.search_found Buffer.kCRLF l ltac:(lia)) as Hf. apply (f_equal zlen) in Hf.
  unfold slice in Hf. rewrite zlen_take, zlen_drop in Hf. change (zlen Buffer.kCRLF) with 2 in Hf.
  rewrite Hr. lia.
Qed.

(** [send] of a [std::string] leaves the input buffer. *)
Lemma send_input_buffer cb w m w' :
  send cb w true m = Ok w' -> inputBuffer_ w' = inputBuffer_ w.
Proof.
  unfold send. intros ([] & _ & E)%bind_ok. case_match; [|by injection E as <-].
  unfold sendInLoop in E. apply bind_ok in E as (c & _ & E). apply bind_ok in E as ([] & _ & E).
  assert (Hd : forall x y, inputBuffer_ (snd (write_direct cb x y m)) = inputBuffer_ x).
  { intros x y. unfold write_direct, sys_write. repeat case_match; done. }
  case_match; [|injection E as <-; by rewrite Hd].
  apply bind_ok in E as (b & _ & E). apply bind_ok in E as (c2 & _ & E).
  match type of E with context [set_output ?x b] => set (q := x) in E end.
  assert (Hq : inputBuffer_ q = inputBuffer_ w).
  { unfold q. destruct (_ && _ && _); unfold queueInLoop, set_pending; cbn [inputBuffer_]; by rewrite Hd. }
  case_match; [|by injection E as <-]. unfold change in E. by apply bind_ok in E as (l & _ & [= <-]).
Qed.

Lemma hang_up_polite cb w : polite cb hang_up w.
Proof. by split. Qed.

Lemma serve_line_polite cb w crlf reply :
  findCRLF w = Some crlf -> polite cb (serve_line w crlf reply) w.
Proof.
  unfold findCRLF. intros Hf. destruct (Buffer.findCRLF (inputBuffer_ w)) as [c|] eqn:E; [|done].
  subst c. destruct (findCRLF_fits _ _ E) as [H1 H2]. split; [done|].
  intros w' Es. split; [|intros; apply hang_up_polite]. simpl in Es |- *.
  rewrite (send_input_buffer _ _ _ _ Es). set (n := crlf + 2 - _) in *.
  unfold u64. pose proof (Z.mod_le n (2 ^ 64)). lia.
Qed.

Lemma with_callbacks_polite c m :
  (forall w, polite (with_callbacks c m) (c w) w) -> (forall w, polite (with_callbacks c m) (m w) w) ->
  polite_callbacks (with_callbacks c m).
Proof. intros H1 H2. by split_and!. Qed.

(** Every finger server is polite: no assert of its connections fails. *)
Theorem finger_polite users :
  polite_callbacks finger03 /\ polite_callbacks finger04 /\ polite_callbacks finger05 /\
  polite_callbacks (finger06 users) /\ polite_callbacks (finger07 users).
Proof.
  split_and!; apply with_callbacks_polite; try done; intros w.
  - unfold onConnection03. destruct (connected w); [apply hang_up_polite|done].
  - unfold onMessage04. destruct (findCRLF w); [apply hang_up_polite|done].
  - unfold onMessage05. destruct (findCRLF w); [|done]. split; [done|]. intros. apply hang_up_polite.
  - unfold onMessage06. destruct (findCRLF w) eqn:E; [|done]. by apply serve_line_polite.
  - unfold onMessage07. destruct (findCRLF w) eqn:E; [|done]. by apply serve_line_polite.
Qed.

(** ** A query is answered *)

(** The connection after it answered [d] and hung up, [rest] unread. *)
Definition answered (w : conn) (d rest : list byte) (w' : conn) : Prop :=
  accepted (log w') = accepted (log w) ++ d /\ state_ w' = kDisconnecting /\
  Buffer.readable (inputBuffer_ w') = rest /\
  written (log w') ++ Buffer.readable (outputBuffer_ w') = accepted (log w').

Lemma hang_up_ok cb w :
  Inv Strict w -> state_ w = kConnected ->
  exists w', run cb hang_up w = Ok w' /\ state_ w' = kDisconnecting /\
    accepted (log w') = accepted (log w) /\ inputBuffer_ w' = inputBuffer_ w.
Proof.
  intros HI Hs. destruct (inv_channel _ _ HI) as (c & Hc & _).
  unfold hang_up. cbn [run exec_action exec_call]. unfold shutdown, connected. rewrite Hs.
  rewrite bool_decide_true by done. unfold shutdownInLoop, TcpConnection.chan.
  cbn [loop_ channel_ setState]. rewrite Hc. cbn [mbind res_bind]. eexists. split; [reflexivity|].
  destruct (Channel.isWriting c); cbn [negb]; [done|].
  split_and!; [done| |done]. cbn [log emit setState]. by rewrite accepted_app, app_nil_r.
Qed.

Lemma serve_line_ok cb w user rest reply :
  polite_callbacks cb -> Inv Strict w -> state_ w = kConnected -> x0d ∉ user ->
  Buffer.readable (inputBuffer_ w) = user ++ Buffer.kCRLF ++ rest ->
  zlen (reply ++ Buffer.kCRLF) <= max_size ->
  exists crlf, findCRLF w = Some crlf /\ line w crlf = user /\
    wp only_length (run cb (serve_line w crlf reply) w) (answered w (reply ++ Buffer.kCRLF) rest).
Proof.
  intros Hcb HI Hs Hu Hin Hz. set (b := inputBuffer_ w) in *. set (m := reply ++ Buffer.kCRLF) in *.
  assert (HB : Buffer.Inv b) by apply HI.
  destruct (Buffer.first_line user rest Hu) as (L1 & L2 & L3). cbv zeta in L1, L2, L3. rewrite <- Hin in L1, L2, L3.
  pose proof (Buffer.crlf_line b HB) as HL. cbv zeta in HL. set (n := Buffer.search _ _) in *.
  destruct HL as [HL (b' & Er & HB' & Hb')]; [by apply Z.eqb_neq|].
  assert (Hf : findCRLF w = Some (Buffer.peek b + n)).
  { unfold findCRLF. fold b. rewrite Buffer.findCRLF_ok by done. cbv zeta. fold n. by rewrite L1. }
  exists (Buffer.peek b + n). split; [done|]. split; [unfold line; fold b; by rewrite HL|].
  assert (Hrun := run_wp cb Strict (serve_line w (Buffer.peek b + n) reply) w HI ltac:(by rewrite Hs)
    (fun _ => serve_line_polite cb w _ reply Hf)).
  destruct (inv_channel _ _ HI) as (c & Hc & Hci).
  unfold serve_line in *. fold m in Hrun |- *. cbn [run exec_action exec_call] in *.
  unfold send in *. revert Hrun. unfold connected. rewrite Hs, bool_decide_true by done.
  unfold check. rewrite (proj2 (Z.leb_le _ _)) by done. rewrite !bind_ret_l.
  pose proof (sendInLoop_spec cb w c m (inv_good _ _ HI) Hc (inv_output _ _ HI) Hz) as Hsend.
  destruct (sendInLoop cb w m) as [w1|f]; [|by intros _]. rewrite !bind_ret_l. cbn [wp] in Hsend.
  destruct (sent_inv cb Strict w c m w1 HI Hc Hci ltac:(by rewrite Hs) ltac:(by rewrite Hs) Hsend) as [HI1 Hs1].
  destruct Hsend as (l & ob & c' & -> & _). cbn [inputBuffer_] in *. fold b.
  unfold Buffer.retrieveUntil in Er. apply bind_ok in Er as ([] & _ & Er). apply bind_ok in Er as ([] & _ & Er).
  replace (Buffer.peek b + n + 2 - Buffer.peek b) with (n + 2) in * by lia.
  rewrite Er, !bind_ret_l. match goal with |- context [set_input ?x b'] => set (w2 := set_input x b') end.
  intros Hrun. assert (HI2 : Inv Strict w2) by (by apply inv_set_input).
  destruct (hang_up_ok cb w2 HI2 Hs) as (w3 & E3 & S3 & A3 & I3).
  rewrite E3 in Hrun |- *. cbn [wp] in Hrun |- *. split_and!; [|done| |apply Hrun].
  - rewrite A3. unfold w2. cbn [log set_input]. rewrite (cons_middle (Accepted m)), !accepted_app, took_accepted.
    simpl. by rewrite !app_nil_r.
  - rewrite I3. unfold w2. cbn [inputBuffer_ set_input]. by rewrite Hb'.
Qed.

(** C38. A line that comes to [finger07] is answered by what [getUser] says of
    it, and the connection hung up: the answer is the last the connection
    accepts, all it has accepted is written or waits to be, the bytes after the
    line are left, and a new user is known from then on. *)
Theorem finger07_answers users w user rest :
  Inv Strict w -> state_ w = kConnected -> x0d ∉ user ->
  Buffer.readable (inputBuffer_ w) = user ++ Buffer.kCRLF ++ rest ->
  let reply := fst (getUser07 users user) in
  zlen (reply ++ Buffer.kCRLF) <= max_size ->
  snd (onMessage07 users w) = snd (getUser07 users user) /\
  match run (finger07 users) (messageCallback_ (finger07 users) w) w with
  | Ok w' => answered w (reply ++ Buffer.kCRLF) rest w'
  | Err f => f = LengthError
  end.
Proof.
  intros HI Hs Hu Hin reply Hz.
  assert (Hcb : polite_callbacks (finger07 users)).
  { apply with_callbacks_polite; [done|]. intros w2. unfold onMessage07.
    destruct (findCRLF w2) eqn:E; [|done]. by apply serve_line_polite. }
  destruct (serve_line_ok (finger07 users) w user rest reply Hcb HI Hs Hu Hin Hz)
    as (crlf & Hf & Hl & Hw).
  cbn [messageCallback_ finger07 with_callbacks]. unfold onMessage07. rewrite Hf, Hl. cbn [fst snd].
  split; [done|exact Hw].
Qed.

(** The answers to a series of queries, from any clients. *)
Fixpoint queries (users : UserMap) (us : list (list byte)) : list (list byte) :=
  match us with
  | [] => []
  | u :: us => let r := getUser07 users u in fst r :: queries (snd r) us
  end.

Lemma find_cons u v users u' :
  find u' ((u, v) :: users) = if bool_decide (u = u') then Some v else find u' users.
Proof. unfold find. simpl. by case_bool_decide. Qed.

Lemma queries_ok us : forall users seen,
  (forall u, find u users = if bool_decide (u ∈ seen) then Some (bytes "yahaha!") else None) ->
  queries users us = imap (fun i u =>
    if bool_decide (u ∈ seen ++ take i us) then bytes "yahaha!" else bytes "add new user, yahaha!") us.
Proof.
  induction us as [|u us IH]; intros users seen H; [done|]. cbn [queries imap]. unfold getUser07 at 1 2.
  rewrite (H u). cbn [take]. rewrite app_nil_r. f_equal; [by case_bool_decide|].
  rewrite (IH _ (seen ++ [u])).
  - apply imap_ext. intros i x _. simpl. by rewrite <- app_assoc.
  - intros x. case_bool_decide as Hu; cbn [snd].
    + rewrite (H x). by rewrite (bool_decide_ext (x ∈ seen ++ [u]) (x ∈ seen)) by set_solver.
    + rewrite find_cons, (H x). case_bool_decide as E; [subst; by rewrite bool_decide_true by set_solver|].
      by rewrite (bool_decide_ext (x ∈ seen ++ [u]) (x ∈ seen)) by set_solver.
Qed.

(** [finger07] remembers: of a series of queries, whichever clients they
    come from, the first for a name adds it, and every later one finds it. *)
Theorem finger07_remembers us :
  queries [] us = imap (fun i u =>
    if bool_decide (u ∈ take i us) then bytes "yahaha!" else bytes "add new user, yahaha!") us.
Proof. apply (queries_ok us [] []). intros u. by rewrite bool_decide_false by set_solver. Qed.

End finger.

(** ** A query on the epoll poller *)

#[local] Existing Instance EPoller.demo_kernel.
#[local] Existing Instance EPoller.epoller_owner.
#[local] Existing Instance TcpConnection.demo_socket.

Definition demo_query : TcpConnection.t (P := EPoller.t) :=
  set_input TcpConnection.demo_up (Buffer.buffer_of (bytes "chao" ++ Buffer.kCRLF ++ bytes "x")).

Lemma demo_query_inv : Inv Strict demo_query.
Proof.
  apply inv_set_input; [apply Buffer.buffer_of_ok; by vm_compute|].
  apply (conn_reachable_inv TcpConnection.echo Strict (fun _ => echo_polite)), TcpConnection.demo_up_reachable.
Qed.

Lemma finger07_answers_witness :
  match run (finger07 []) (messageCallback_ (finger07 []) demo_query) demo_query with
  | Ok w' => answered demo_query (bytes "add new user, yahaha!" ++ Buffer.kCRLF) (bytes "x") w'
  | Err f => f = LengthError
  end.
Proof.
  destruct (Buffer.buffer_of_ok (bytes "chao" ++ Buffer.kCRLF ++ bytes "x")) as [_ Hb]; [by vm_compute|].
  apply (finger07_answers [] demo_query (bytes "chao") (bytes "x") demo_query_inv).
  - vm_compute. reflexivity.
  - apply (bool_decide_unpack _). vm_compute. exact I.
  - exact Hb.
  - vm_compute. discriminate.
Defined.

End Finger.
