(* ===== verification/HttpContext.v ===== *)
(** * HttpRequest and HttpContext: the request parser of the HTTP example
      ([examples/http/HttpRequest.h], [HttpContext.h], [HttpContext.cpp])

    Strings and the ranges between two pointers are lists of bytes; a header map
    is a [std::map], a list sorted by key.  [parseRequest]'s loop has fuel; the
    parser is refined to one on the readable bytes, [parse]. *)

From S2P Require Import Prelude Buffer StdSet.

(** ** Bytes *)

(** [std::isspace] in the C locale. *)
Definition isspace (c : byte) : bool := (byte_val c =? 32) || ((9 <=? byte_val c) && (byte_val c <=? 13)).

Fixpoint skip_spaces (l : list byte) : list byte :=
  match l with
  | [] => []
  | x :: l' => if isspace x then skip_spaces l' else l
  end.

Definition trim_right (l : list byte) : list byte := reverse (skip_spaces (reverse l)).

Lemma skip_spaces_id l : match l with [] => True | x :: _ => isspace x = false end -> skip_spaces l = l.
Proof. destruct l as [|x l]; simpl; [done|]. by intros ->. Qed.

Module HttpRequest.

Inductive Method := kInvalid | kGet | kPost | kHead | kPut | kDelete.
Inductive Version := kUnknown | kHttp10 | kHttp11.

#[global] Instance Method_eq_dec : EqDecision Method.
Proof. solve_decision. Defined.
#[global] Instance Version_eq_dec : EqDecision Version.
Proof. solve_decision. Defined.

Definition header : Type := list byte * list byte.

Record t := mk {
  method_ : Method;
  version_ : Version;
  path_ : list byte;
  query_ : list byte;
  receiveTime_ : Z;
  headers_ : list header
}.

Definition new : t := mk kInvalid kUnknown [] [] 0 [].

Definition setVersion (r : t) (v : Version) : t :=
  mk (method_ r) v (path_ r) (query_ r) (receiveTime_ r) (headers_ r).
Definition setPath (r : t) (p : list byte) : t :=
  mk (method_ r) (version_ r) p (query_ r) (receiveTime_ r) (headers_ r).
Definition setQuery (r : t) (q : list byte) : t :=
  mk (method_ r) (version_ r) (path_ r) q (receiveTime_ r) (headers_ r).
Definition setReceiveTime (r : t) (time : Z) : t :=
  mk (method_ r) (version_ r) (path_ r) (query_ r) time (headers_ r).

Definition method_of (m : list byte) : Method :=
  if bool_decide (m = bytes "GET") then kGet
  else if bool_decide (m = bytes "POST") then kPost
  else if bool_decide (m = bytes "HEAD") then kHead
  else if bool_decide (m = bytes "PUT") then kPut
  else if bool_decide (m = bytes "DELETE") then kDelete
  else kInvalid.

Definition setMethod (r : t) (m : list byte) : res (bool * t) :=
  assert_ (bool_decide (method_ r = kInvalid)) ;;
  let m := method_of m in
  Ok (negb (bool_decide (m = kInvalid)),
      mk m (version_ r) (path_ r) (query_ r) (receiveTime_ r) (headers_ r)).

Definition methodString (r : t) : list byte :=
  match method_ r with
  | kGet => bytes "GET" | kPost => bytes "POST" | kHead => bytes "HEAD"
  | kPut => bytes "PUT" | kDelete => bytes "DELETE" | kInvalid => bytes "UNKNOWN"
  end.

(** [addHeader(start, colon, end)], of the line from [start] to [end]. *)
Definition addHeader (r : t) (line : list byte) (colon : Z) : t :=
  let field := ztake colon line in
  let value := trim_right (skip_spaces (zdrop (colon + 1) line)) in
  mk (method_ r) (version_ r) (path_ r) (query_ r) (receiveTime_ r)
    (SSet.assign fst bytes_lt (field, value) (headers_ r)).

Definition getHeader (r : t) (field : list byte) : list byte :=
  match SSet.find fst bytes_lt field (headers_ r) with Some h => snd h | None => [] end.

Definition fileType : list (list byte * list byte) :=
  [(bytes "txt", bytes "text/plain"); (bytes "c", bytes "text/plain");
   (bytes "h", bytes "text/plain"); (bytes "html", bytes "text/html");
   (bytes "htm", bytes "text/htm"); (bytes "css", bytes "text/css");
   (bytes "gif", bytes "image/gif"); (bytes "jpg", bytes "image/jpeg");
   (bytes "jpeg", bytes "image/jpeg"); (bytes "png", bytes "image/png");
   (bytes "pdf", bytes "application/pdf"); (bytes "ps", bytes "application/postscript")].

Definition type_of (suffix : list byte) : option (list byte) :=
  match List.find (fun p => bool_decide (fst p = suffix)) fileType with
  | Some p => Some (snd p)
  | None => None
  end.

(** The last ['.'] of the path, [-1] when there is none. *)
Definition last_dot (path : list byte) : Z :=
  zlen path - 1 - index_of x2e (reverse path).

Definition getFileType (r : t) : list byte :=
  let path := path_ r in
  if bool_decide (path = bytes "/") then bytes "text/html"
  else
    let i := last_dot path in
    let suffix := zdrop (i + 1) path in
    match type_of suffix with
    | Some ty => if i =? 0 then bytes "text/plain" else ty
    | None => bytes "text/plain"
    end.

End HttpRequest.

Module HttpContext.

Inductive ParseState := kExpectRequestLine | kExpectHeaders | kExpectBody | kGotAll.

#[global] Instance ParseState_eq_dec : EqDecision ParseState.
Proof. solve_decision. Defined.

Record t := mk { state_ : ParseState; request_ : HttpRequest.t }.

Definition new : t := mk kExpectRequestLine HttpRequest.new.
Definition gotAll (c : t) : bool := bool_decide (state_ c = kGotAll).
Definition reset (c : t) : t := mk kExpectRequestLine HttpRequest.new.

Definition kSpace : byte := x20.
Definition kQuestion : byte := x3f.
Definition kColon : byte := x3a.

(** [processRequestLine(begin, end)], of the bytes between. *)
Definition processRequestLine (r : HttpRequest.t) (line : list byte) : res (bool * HttpRequest.t) :=
  let space := index_of kSpace line in
  if space =? zlen line then Ok (false, r)
  else
    m ← HttpRequest.setMethod r (ztake space line) ;
    let r := snd m in
    if negb (fst m) then Ok (false, r)
    else
      let rest := zdrop (space + 1) line in
      let space := index_of kSpace rest in
      if space =? zlen rest then Ok (false, r)
      else
        let target := ztake space rest in
        let question := index_of kQuestion target in
        let r := if question =? zlen target then HttpRequest.setPath r target
                 else HttpRequest.setQuery (HttpRequest.setPath r (ztake question target))
                        (zdrop question target) in
        let start := zdrop (space + 1) rest in
        if (zlen start =? 8) && bool_decide (ztake 7 start = bytes "HTTP/1.") then
          if bool_decide (zdrop 7 start = bytes "1") then Ok (true, HttpRequest.setVersion r HttpRequest.kHttp11)
          else if bool_decide (zdrop 7 start = bytes "0") then Ok (true, HttpRequest.setVersion r HttpRequest.kHttp10)
          else Ok (false, r)
        else Ok (false, r).

(** The loop of [parseRequest]. *)
Fixpoint parseRequest (fuel : nat) (c : t) (buf : Buffer.t) (receiveTime : Z) : res (bool * t * Buffer.t) :=
  match fuel with
  | O => Err OutOfFuel
  | S fuel =>
      match state_ c with
      | kExpectRequestLine =>
          crlf ← Buffer.findCRLF buf ;
          match crlf with
          | Some crlf =>
              line ← Buffer.load buf (Buffer.peek buf) (crlf - Buffer.peek buf) ;
              p ← processRequestLine (request_ c) line ;
              let ok : bool := fst p in
              if ok then
                let r := HttpRequest.setReceiveTime (snd p) receiveTime in
                buf ← Buffer.retrieveUntil buf (crlf + 2) ;
                parseRequest fuel (mk kExpectHeaders r) buf receiveTime
              else Ok (false, mk (state_ c) (snd p), buf)
          | None => Ok (true, c, buf)
          end
      | kExpectHeaders =>
          crlf ← Buffer.findCRLF buf ;
          match crlf with
          | Some crlf =>
              line ← Buffer.load buf (Buffer.peek buf) (crlf - Buffer.peek buf) ;
              let colon := index_of kColon line in
              if negb (colon =? zlen line) then
                let r := HttpRequest.addHeader (request_ c) line colon in
                buf ← Buffer.retrieveUntil buf (crlf + 2) ;
                parseRequest fuel (mk kExpectHeaders r) buf receiveTime
              else
                buf ← Buffer.retrieveUntil buf (crlf + 2) ;
                Ok (true, mk kGotAll (request_ c), buf)
          | None => parseRequest fuel c buf receiveTime
          end
      | _ => parseRequest fuel c buf receiveTime
      end
  end.

(** ** The parser on the readable bytes *)

Fixpoint parse (fuel : nat) (c : t) (l : list byte) (time : Z) : res (bool * t * list byte) :=
  match fuel with
  | O => Err OutOfFuel
  | S fuel =>
      let n := Buffer.search Buffer.kCRLF l in
      let line := ztake n l in
      let rest := zdrop (n + 2) l in
      match state_ c with
      | kExpectRequestLine =>
          if n =? zlen l then Ok (true, c, l)
          else
            p ← processRequestLine (request_ c) line ;
            let ok : bool := fst p in
            if ok then parse fuel (mk kExpectHeaders (HttpRequest.setReceiveTime (snd p) time)) rest time
            else Ok (false, mk kExpectRequestLine (snd p), l)
      | kExpectHeaders =>
          if n =? zlen l then parse fuel c l time
          else if index_of kColon line =? zlen line then Ok (true, mk kGotAll (request_ c), rest)
          else parse fuel (mk kExpectHeaders (HttpRequest.addHeader (request_ c) line (index_of kColon line))) rest time
      | _ => parse fuel c l time
      end
  end.

Lemma parse_refines fuel : forall c b time,
  Buffer.Inv b ->
  match parse fuel c (Buffer.readable b) time with
  | Ok (ok, c', l') => exists b', parseRequest fuel c b time = Ok (ok, c', b') /\ Buffer.Inv b' /\
      Buffer.readable b' = l'
  | Err f => parseRequest fuel c b time = Err f
  end.
Proof.
  induction fuel as [|fuel IH]; intros c b time HI; [done|]. cbn [parse parseRequest].
  pose proof (Buffer.crlf_line b HI) as Hline. cbv zeta in Hline.
  set (l := Buffer.readable b) in *. set (n := Buffer.search Buffer.kCRLF l) in *.
  assert (Hcr := Buffer.findCRLF_ok b HI). cbv zeta in Hcr. fold l n in Hcr.
  destruct (state_ c) eqn:Hs; rewrite ?Hcr, ?bind_ret_l; try by apply IH.
  - destruct (Z.eqb_spec n (zlen l)) as [He|He]; [by exists b|].
    destruct (Hline He) as [-> (b' & Hu & HI' & Hb)]. rewrite bind_ret_l.
    destruct (processRequestLine (request_ c) (ztake n l)) as [[ok r]|f]; simpl; [|done].
    destruct ok; [|by exists b]. rewrite Hu. simpl. rewrite <- Hb. by apply IH.
  - destruct (Z.eqb_spec n (zlen l)) as [He|He]; [by apply IH|].
    destruct (Hline He) as [-> (b' & Hu & HI' & Hb)]. rewrite bind_ret_l.
    destruct (Z.eqb_spec (index_of kColon (ztake n l)) (zlen (ztake n l))); simpl; rewrite Hu; simpl.
    + by exists b'.
    + rewrite <- Hb. by apply IH.
Qed.

(** ** Requests as they are written *)

Record request := mk_request {
  rq_method : HttpRequest.Method;
  rq_path : list byte;
  (* with its question mark, or empty *)
  rq_query : list byte;
  rq_version : HttpRequest.Version;
  rq_headers : list HttpRequest.header
}.

Definition method_bytes (m : HttpRequest.Method) : list byte :=
  HttpRequest.methodString (HttpRequest.mk m HttpRequest.kUnknown [] [] 0 []).

Definition request_line (q : request) : list byte :=
  method_bytes (rq_method q) ++ kSpace :: (rq_path q ++ rq_query q) ++ kSpace :: bytes "HTTP/1." ++
  match rq_version q with HttpRequest.kHttp10 => bytes "0" | _ => bytes "1" end.
Definition header_line (h : HttpRequest.header) : list byte := fst h ++ kColon :: bytes " " ++ snd h.
Definition lines (ls : list (list byte)) : list byte := ls ≫= fun l => l ++ Buffer.kCRLF.

Definition render (q : request) : list byte :=
  request_line q ++ Buffer.kCRLF ++ lines (header_line <$> rq_headers q) ++ Buffer.kCRLF.

Definition trimmed (v : list byte) : Prop := skip_spaces v = v /\ trim_right v = v.

Record wf_request (q : request) : Prop := {
  wf_method : rq_method q <> HttpRequest.kInvalid;
  wf_version : rq_version q <> HttpRequest.kUnknown;
  wf_path : kSpace ∉ rq_path q /\ kQuestion ∉ rq_path q /\ x0d ∉ rq_path q;
  wf_query : kSpace ∉ rq_query q /\ x0d ∉ rq_query q /\
    (rq_query q = [] \/ exists l, rq_query q = kQuestion :: l);
  wf_headers : Forall (fun h => kColon ∉ fst h /\ x0d ∉ fst h /\ x0d ∉ snd h /\ trimmed (snd h))
    (rq_headers q)
}.

(** What the context holds after [q], received at [time]. *)
Definition parsed (q : request) (time : Z) : HttpRequest.t :=
  HttpRequest.mk (rq_method q) (rq_version q) (rq_path q) (rq_query q) time
    (foldl (fun m h => SSet.assign fst bytes_lt h m) [] (rq_headers q)).

(** The first line of a text, for the parser. *)
(** The tokens of a line. *)
Lemma token c l r :
  c ∉ l -> let t := l ++ c :: r in
  (index_of c t =? zlen t) = false /\ ztake (index_of c t) t = l /\ zdrop (index_of c t + 1) t = r.
Proof.
  intros Hn t. unfold t. rewrite index_of_app by done. pose proof (zlen_nonneg r). split_and!.
  - apply Z.eqb_neq. autorewrite with zlen. lia.
  - apply ztake_app_zlen.
  - rewrite zdrop_app_ge by lia. replace (_ - _) with 1 by lia. done.
Qed.

Lemma method_token m : m <> HttpRequest.kInvalid ->
  kSpace ∉ method_bytes m /\ x0d ∉ method_bytes m /\ HttpRequest.method_of (method_bytes m) = m.
Proof.
  intros Hm. split_and!; [| |by destruct m].
  1-2: apply (bool_decide_unpack _); destruct m; try done; by vm_compute.
Qed.

Lemma processRequestLine_ok q r :
  wf_request q -> HttpRequest.method_ r = HttpRequest.kInvalid -> HttpRequest.query_ r = [] ->
  processRequestLine r (request_line q) =
    Ok (true, HttpRequest.mk (rq_method q) (rq_version q) (rq_path q) (rq_query q)
                (HttpRequest.receiveTime_ r) (HttpRequest.headers_ r)).
Proof.
  intros [Hm Hv (Hp1 & Hp2 & _) (Hq1 & _ & Hq) _] Hr Hrq. unfold processRequestLine, request_line.
  destruct (method_token _ Hm) as (Ht & _ & Hmo).
  set (start := bytes "HTTP/1." ++ _).
  destruct (token kSpace (method_bytes (rq_method q)) ((rq_path q ++ rq_query q) ++ kSpace :: start) Ht)
    as (-> & -> & ->).
  unfold HttpRequest.setMethod. rewrite Hr, Hmo.
  rewrite (bool_decide_true (HttpRequest.kInvalid = HttpRequest.kInvalid)) by done. simpl.
  rewrite (bool_decide_false (rq_method q = HttpRequest.kInvalid)) by done. simpl.
  assert (Ht2 : kSpace ∉ rq_path q ++ rq_query q) by (rewrite not_elem_of_app; done).
  destruct (token kSpace (rq_path q ++ rq_query q) start Ht2) as (-> & -> & ->).
  assert (Hstart : forall A (x y z : A), (if (zlen start =? 8) && bool_decide (ztake 7 start = bytes "HTTP/1.")
    then if bool_decide (zdrop 7 start = bytes "1") then x
         else if bool_decide (zdrop 7 start = bytes "0") then y else z
    else z) = match rq_version q with HttpRequest.kHttp10 => y | _ => x end).
  { intros A x y z. unfold start. by destruct (rq_version q). }
  rewrite Hstart. unfold HttpRequest.setPath, HttpRequest.setQuery, HttpRequest.setVersion. simpl.
  destruct Hq as [Hq|[l Hq]]; rewrite Hq.
  - rewrite app_nil_r, index_of_none, Z.eqb_refl by done. simpl. rewrite Hrq.
    revert Hv. by destruct (rq_version q).
  - destruct (token kQuestion (rq_path q) l Hp2) as (-> & -> & _). simpl.
    rewrite index_of_app by done. rewrite zdrop_app_ge, Z.sub_diag by lia.
    rewrite zdrop_0. revert Hv. by destruct (rq_version q).
Qed.

Lemma request_line_no_cr q : wf_request q -> x0d ∉ request_line q.
Proof.
  intros [Hm Hv (_ & _ & Hp) (_ & Hq & _) _]. destruct (method_token _ Hm) as (_ & Hc & _).
  unfold request_line. rewrite !not_elem_of_app, !not_elem_of_cons, !not_elem_of_app, not_elem_of_cons, not_elem_of_app.
  split_and!; try done; apply (bool_decide_unpack _); by destruct (rq_version q).
Qed.

Lemma addHeader_ok r h :
  kColon ∉ fst h -> trimmed (snd h) ->
  HttpRequest.addHeader r (header_line h) (index_of kColon (header_line h)) =
    HttpRequest.mk (HttpRequest.method_ r) (HttpRequest.version_ r) (HttpRequest.path_ r)
      (HttpRequest.query_ r) (HttpRequest.receiveTime_ r)
      (SSet.assign fst bytes_lt h (HttpRequest.headers_ r)).
Proof.
  intros Hc [Hs Ht]. unfold HttpRequest.addHeader.
  destruct (token kColon (fst h) (bytes " " ++ snd h) Hc) as (_ & H1 & H2).
  unfold header_line. rewrite H1, H2. simpl. rewrite Hs, Ht. by destruct h.
Qed.

(** The header lines, then what follows them. *)
Lemma parse_headers hs : forall fuel r rest time,
  Forall (fun h => kColon ∉ fst h /\ x0d ∉ fst h /\ x0d ∉ snd h /\ trimmed (snd h)) hs ->
  parse (length hs + fuel) (mk kExpectHeaders r) (lines (header_line <$> hs) ++ rest) time =
  parse fuel (mk kExpectHeaders (HttpRequest.mk (HttpRequest.method_ r) (HttpRequest.version_ r)
    (HttpRequest.path_ r) (HttpRequest.query_ r) (HttpRequest.receiveTime_ r)
    (foldl (fun m h => SSet.assign fst bytes_lt h m) (HttpRequest.headers_ r) hs))) rest time.
Proof.
  induction hs as [|h hs IH]; intros fuel r rest time Hf; [by destruct r|].
  apply Forall_cons in Hf as [(Hc & Hx1 & Hx2 & Ht) Hf].
  assert (Hno : x0d ∉ header_line h).
  { unfold header_line. rewrite not_elem_of_app, not_elem_of_cons, not_elem_of_app.
    split_and!; try done. apply (bool_decide_unpack _). by vm_compute. }
  cbn [length Nat.add fmap list_fmap lines mbind list_bind]. rewrite <- !app_assoc.
  cbn [parse state_]. fold (lines (header_line <$> hs)).
  destruct (Buffer.first_line (header_line h) (lines (header_line <$> hs) ++ rest) Hno) as (H1 & H2 & H3).
  change (list_bind (list byte) byte (fun l => l ++ Buffer.kCRLF) (list_fmap _ _ header_line hs))
    with (lines (header_line <$> hs)).
  rewrite H1, H2, H3.
  destruct (token kColon (fst h) (bytes " " ++ snd h) Hc) as (Hidx & _ & _).
  fold (header_line h) in Hidx. rewrite Hidx. cbn [request_]. rewrite addHeader_ok by done.
  rewrite IH by done. done.
Qed.

Lemma parse_line q fuel rest time :
  wf_request q ->
  parse (S fuel) new (request_line q ++ Buffer.kCRLF ++ rest) time =
  parse fuel (mk kExpectHeaders (HttpRequest.mk (rq_method q) (rq_version q) (rq_path q) (rq_query q) time []))
    rest time.
Proof.
  intros Hq. cbn [parse state_ new].
  destruct (Buffer.first_line (request_line q) rest (request_line_no_cr q Hq)) as (H1 & H2 & H3).
  rewrite H1, H2, H3. cbn [request_]. rewrite processRequestLine_ok by done. done.
Qed.

Lemma parse_mono fuel : forall fuel' c l time x,
  parse fuel c l time = Ok x -> (fuel <= fuel')%nat -> parse fuel' c l time = Ok x.
Proof.
  induction fuel as [|fuel IH]; intros fuel' c l time x E Hle; [done|].
  destruct fuel' as [|fuel']; [lia|]. cbn [parse] in *.
  destruct (state_ c); try (apply IH; [done|lia]).
  - case_match; [done|]. destruct (processRequestLine _ _) as [[ok r]|]; simpl in *; [|done].
    destruct ok; [|done]. apply IH; [done|lia].
  - case_match; [apply IH; [done|lia]|]. case_match; [done|]. apply IH; [done|lia].
Qed.

(** A whole request in the buffer is parsed. *)
Lemma parse_whole q b rest time fuel :
  wf_request q -> Buffer.Inv b -> Buffer.readable b = render q ++ rest ->
  (length (rq_headers q) + 2 <= fuel)%nat ->
  exists b', parseRequest fuel new b time = Ok (true, mk kGotAll (parsed q time), b') /\
    Buffer.Inv b' /\ Buffer.readable b' = rest.
Proof.
  intros Hq HI Hb Hfuel. pose proof (parse_refines fuel new b time HI) as H.
  assert (E : parse (length (rq_headers q) + 2) new (Buffer.readable b) time =
    Ok (true, mk kGotAll (parsed q time), rest)).
  { rewrite Hb. unfold render. rewrite <- !app_assoc.
    replace (length (rq_headers q) + 2)%nat with (S (length (rq_headers q) + 1)) by lia.
    rewrite parse_line, parse_headers by (done || apply wf_headers; done).
    cbn [parse state_ request_]. pose proof (Buffer.first_line [] rest) as (H1 & H2 & H3); [apply not_elem_of_nil|].
    change (Buffer.kCRLF ++ rest) with ([] ++ Buffer.kCRLF ++ rest). rewrite H1, H2, H3. done. }
  apply (parse_mono _ fuel) in E; [|lia]. rewrite E in H. exact H.
Qed.

(** C23. Round trip: a request as it is written, whole in the buffer, is parsed to
    its method, version, path, query and headers (the last of equal names wins,
    values without the spaces around them) by at most [2 + headers] turns of the
    loop, and exactly its bytes are taken from the buffer. *)
Theorem request_roundtrip q b rest time fuel :
  wf_request q -> Buffer.Inv b -> Buffer.readable b = render q ++ rest ->
  (length (rq_headers q) + 2 <= fuel)%nat ->
  exists b', parseRequest fuel new b time = Ok (true, mk kGotAll (parsed q time), b') /\
    Buffer.Inv b' /\ Buffer.readable b' = rest.
Proof. apply parse_whole. Qed.

Lemma hang_headers r : forall fuel l time,
  Buffer.search Buffer.kCRLF l = zlen l -> parse fuel (mk kExpectHeaders r) l time = Err OutOfFuel.
Proof.
  induction fuel as [|fuel IH]; intros l time Hn; [done|].
  cbn [parse state_]. rewrite Hn, Z.eqb_refl. by apply IH.
Qed.

Lemma out_of_fuel_mono fuel : forall fuel' c l time,
  parse fuel c l time = Err OutOfFuel -> (fuel' <= fuel)%nat -> parse fuel' c l time = Err OutOfFuel.
Proof.
  intros fuel' c l time E Hle. destruct (parse fuel' c l time) as [x|f] eqn:E2.
  - apply (parse_mono _ fuel) in E2; [|done]. congruence.
  - revert fuel fuel' Hle c l E E2. induction fuel as [|fuel IH]; intros [|fuel'] Hle c l E E2;
      [congruence|lia|by injection E2 as <-|]. cbn [parse] in *.
    assert (Hle' : (fuel' <= fuel)%nat) by lia.
    destruct (state_ c); try by eapply IH.
    + case_match; [done|]. destruct (processRequestLine _ _) as [[ok r]|g] eqn:Ep; simpl in *.
      * destruct ok; [by eapply IH|done].
      * congruence.
    + case_match; [by eapply IH|]. case_match; [done|]. by eapply IH.
Qed.

(** C31. Equivalence with the reference parser: on every buffer the parser that keeps
    pointers into the storage, searches it and retrieves from it does what [parse]
    does on the list of readable bytes, the same verdict, context and remaining
    bytes or the same fault, so nothing depends on where the bytes lie in the
    buffer or on what surrounds them. *)
Theorem parser_reference fuel c b1 b2 time :
  Buffer.Inv b1 -> Buffer.Inv b2 -> (Buffer.readable b1 = Buffer.readable b2) ->
  match parse fuel c (Buffer.readable b1) time with
  | Ok (ok, c', l) => exists b1' b2',
      parseRequest fuel c b1 time = Ok (ok, c', b1') /\ parseRequest fuel c b2 time = Ok (ok, c', b2') /\
      Buffer.readable b1' = l /\ Buffer.readable b2' = l
  | Err f => parseRequest fuel c b1 time = Err f /\ parseRequest fuel c b2 time = Err f
  end.
Proof.
  intros H1 H2 He. pose proof (parse_refines fuel c b1 time H1) as P1.
  pose proof (parse_refines fuel c b2 time H2) as P2. rewrite <- He in P2.
  destruct (parse fuel c (Buffer.readable b1) time) as [[[ok c'] l]|f]; [|by split].
  destruct P1 as (b1' & E1 & _ & R1), P2 as (b2' & E2 & _ & R2). by exists b1', b2'.
Qed.

(** C39. When the request line has arrived but the headers are not complete, as
    when a request is split over two segments, [parseRequest] never returns: its
    loop finds no CRLF and has no exit for that. *)
Theorem incomplete_headers_hang q b n tail time fuel :
  wf_request q -> Buffer.Inv b -> (n <= length (rq_headers q))%nat ->
  Buffer.readable b =
    request_line q ++ Buffer.kCRLF ++ lines (header_line <$> take n (rq_headers q)) ++ tail ->
  Buffer.search Buffer.kCRLF tail = zlen tail ->
  parseRequest fuel new b time = Err OutOfFuel.
Proof.
  intros Hq HI Hn Hb Ht. pose proof (parse_refines fuel new b time HI) as H.
  assert (E : parse (S (length (take n (rq_headers q)) + fuel)) new (Buffer.readable b) time = Err OutOfFuel).
  { rewrite Hb, parse_line, parse_headers; [by apply hang_headers| |done].
    apply Forall_take, wf_headers, Hq. }
  apply (out_of_fuel_mono _ fuel) in E; [|lia]. by rewrite E in H.
Qed.

Lemma search_app_found l more :
  Buffer.search Buffer.kCRLF l <> zlen l ->
  Buffer.search Buffer.kCRLF (l ++ more) = Buffer.search Buffer.kCRLF l.
Proof.
  induction l as [|x l IH]; intros Hn; [done|]. rewrite <- app_comm_cons.
  cbn [Buffer.search] in *. destruct (bool_decide (take _ (x :: l) = _)) eqn:E.
  - apply bool_decide_eq_true in E. rewrite bool_decide_true; [done|].
    rewrite app_comm_cons, take_app_le; [done|].
    apply (f_equal length) in E. rewrite length_take in E. lia.
  - rewrite zlen_cons in Hn. apply bool_decide_eq_false in E.
    destruct (decide (l = [])) as [->|Hne]; [exfalso; apply Hn; done|].
    rewrite bool_decide_false; [rewrite IH by lia; done|].
    rewrite app_comm_cons, take_app_le; [done|]. change (length Buffer.kCRLF) with 2%nat.
    destruct l; [done|]. simpl. lia.
Qed.

(** Once the request line is parsed, nothing is refused. *)
Lemma headers_accepted f : forall r l time x, parse f (mk kExpectHeaders r) l time = Ok x -> fst (fst x) = true.
Proof.
  induction f as [|f IH]; intros r l time x Ex; [done|]. cbn [parse state_] in Ex.
  case_match; [by eapply IH|]. case_match; [by injection Ex as <-|]. by eapply IH.
Qed.

Lemma refused_state b time fuel c b' :
  Buffer.Inv b -> parseRequest fuel new b time = Ok (false, c, b') ->
  state_ c = kExpectRequestLine /\ Buffer.Inv b' /\ Buffer.readable b' = Buffer.readable b.
Proof.
  intros HI E. pose proof (parse_refines fuel new b time HI) as H.
  destruct (parse fuel new (Buffer.readable b) time) as [[[ok c'] l']|] eqn:Ep; [|congruence].
  destruct H as (b1 & E1 & HI1 & Hb1). rewrite E in E1. injection E1 as <- <- <-.
  destruct fuel as [|fuel]; [done|]. cbn [parse state_ new] in Ep.
  case_match; [done|]. destruct (processRequestLine _ _) as [[ok r]|]; simpl in Ep; [|done].
  destruct ok; [by apply headers_accepted in Ep|]. injection Ep as <- <-. done.
Qed.

(** After a request line with a known method that is refused, the line stays
    in the buffer and the method in the context, so whatever the peer sends next
    makes the parser run [setMethod] again and its assert stops the server. *)
Theorem refused_then_aborts b time fuel c b' b2 more time2 fuel2 :
  Buffer.Inv b -> parseRequest fuel new b time = Ok (false, c, b') ->
  HttpRequest.method_ (request_ c) <> HttpRequest.kInvalid ->
  Buffer.Inv b2 -> Buffer.readable b2 = Buffer.readable b' ++ more ->
  parseRequest (S fuel2) c b2 time2 = Err AssertFailed.
Proof.
  intros HI E Hm HI2 Hb2. pose proof (parse_refines fuel new b time HI) as H.
  destruct (parse fuel new (Buffer.readable b) time) as [[[ok c'] l']|] eqn:Ep; [|congruence].
  destruct H as (b1 & E1 & _ & Hb1). rewrite E in E1. injection E1 as <- <- <-.
  destruct fuel as [|fuel]; [done|]. cbn [parse state_ new] in Ep.
  set (l := Buffer.readable b) in *. set (n := Buffer.search Buffer.kCRLF l) in *.
  destruct (Z.eqb_spec n (zlen l)) as [|Hn]; [done|].
  destruct (processRequestLine (request_ new) (ztake n l)) as [[ok r]|] eqn:Er; simpl in Ep; [|done].
  destruct ok; [by apply headers_accepted in Ep|]. injection Ep as <- <-.
  pose proof (parse_refines (S fuel2) (mk kExpectRequestLine r) b2 time2 HI2) as H2.
  rewrite Hb2, Hb1 in H2. cbn [parse state_ request_] in H2.
  assert (Hs : Buffer.search Buffer.kCRLF (l ++ more) = n) by (by apply search_app_found).
  pose proof (Buffer.search_range Buffer.kCRLF l) as Hr. fold n in Hr.
  rewrite Hs in H2. replace (n =? zlen (l ++ more)) with false in H2 by (symmetry; apply Z.eqb_neq; zl).
  rewrite ztake_app_le in H2 by lia.
  assert (Habort : processRequestLine r (ztake n l) = Err AssertFailed).
  { revert Er. unfold processRequestLine.
    destruct (index_of kSpace (ztake n l) =? zlen (ztake n l)); intros Er; [injection Er as <-; by destruct Hm|].
    unfold HttpRequest.setMethod at 1. simpl in Hm.
    by rewrite (bool_decide_false (HttpRequest.method_ r = HttpRequest.kInvalid) Hm). }
  by rewrite Habort in H2.
Qed.

(** ** Concrete requests *)

Definition demo_request : request :=
  mk_request HttpRequest.kGet (bytes "/index.html") (bytes "?a=1") HttpRequest.kHttp11
    [(bytes "Host", bytes "example"); (bytes "Connection", bytes "close")].

Lemma demo_request_wf : wf_request demo_request.
Proof.
  split; try done.
  - by split_and!; apply (bool_decide_unpack _); vm_compute.
  - split_and!; [by apply (bool_decide_unpack _); vm_compute..|]. right. by eexists.
  - repeat apply Forall_cons_2; try apply Forall_nil_2;
      (split_and!; [apply (bool_decide_unpack _); by vm_compute..|split; by vm_compute]).
Qed.

Lemma request_roundtrip_witness :
  exists b', parseRequest 4 new (Buffer.buffer_of (render demo_request ++ bytes "GET")) 7 =
    Ok (true, mk kGotAll (parsed demo_request 7), b') /\
    Buffer.readable b' = bytes "GET" /\
    HttpRequest.getHeader (parsed demo_request 7) (bytes "Host") = bytes "example".
Proof.
  destruct (Buffer.buffer_of_ok (render demo_request ++ bytes "GET")) as [HI Hb]; [by vm_compute|].
  destruct (request_roundtrip demo_request _ (bytes "GET") 7 4 demo_request_wf HI Hb) as (b' & E & _ & Hr).
  { simpl. lia. }
  exists b'. split; [exact E|]. split; [exact Hr|]. vm_compute. reflexivity.
Defined.

(** The same request elsewhere in its storage, with other bytes around it. *)
Definition demo_moved (l : list byte) : Buffer.t :=
  Buffer.mk (replicate 8 x00 ++ bytes "xx" ++ l ++ bytes "yy") 10 (10 + zlen l).

Lemma parser_reference_witness :
  exists b1 b2,
    parseRequest 4 new (Buffer.buffer_of (render demo_request)) 7 = Ok (true, mk kGotAll (parsed demo_request 7), b1) /\
    parseRequest 4 new (demo_moved (render demo_request)) 7 = Ok (true, mk kGotAll (parsed demo_request 7), b2) /\
    Buffer.readable b2 = [].
Proof.
  destruct (Buffer.buffer_of_ok (render demo_request)) as [HI Hb]; [by vm_compute|].
  assert (HI2 : Buffer.Inv (demo_moved (render demo_request))) by (split_and!; vm_compute; congruence).
  assert (He : Buffer.readable (Buffer.buffer_of (render demo_request)) =
    Buffer.readable (demo_moved (render demo_request))) by (vm_compute; reflexivity).
  pose proof (parser_reference 4 new _ _ 7 HI HI2 He) as H.
  assert (E : parse 4 new (Buffer.readable (Buffer.buffer_of (render demo_request))) 7 =
    Ok (true, mk kGotAll (parsed demo_request 7), [])) by (vm_compute; reflexivity).
  rewrite E in H. destruct H as (b1 & b2 & E1 & E2 & _ & R2).
  exists b1, b2. split; [exact E1|]. split; [exact E2|exact R2].
Defined.

Definition demo_partial : list byte :=
  request_line demo_request ++ Buffer.kCRLF ++ lines (header_line <$> take 1 (rq_headers demo_request)) ++
    bytes "Connec".

Lemma incomplete_headers_hang_witness :
  parseRequest 1000 new (Buffer.buffer_of demo_partial) 7 = Err OutOfFuel.
Proof.
  destruct (Buffer.buffer_of_ok demo_partial) as [HI Hb]; [by vm_compute|].
  apply (incomplete_headers_hang demo_request _ 1 (bytes "Connec") 7 1000 demo_request_wf HI).
  - simpl. lia.
  - exact Hb.
  - vm_compute. reflexivity.
Defined.

Definition demo_refused : list byte := bytes "GET / HTTP/2.0" ++ Buffer.kCRLF.

Lemma refused_then_aborts_witness :
  parseRequest 3 (mk kExpectRequestLine (HttpRequest.mk HttpRequest.kGet HttpRequest.kUnknown (bytes "/") [] 0 []))
    (Buffer.buffer_of (demo_refused ++ bytes "x")) 8 = Err AssertFailed.
Proof.
  destruct (Buffer.buffer_of_ok demo_refused) as [HI Hb]; [by vm_compute|].
  destruct (Buffer.buffer_of_ok (demo_refused ++ bytes "x")) as [HI2 Hb2]; [by vm_compute|].
  apply (refused_then_aborts (Buffer.buffer_of demo_refused) 7 3 _ (Buffer.buffer_of demo_refused)
    (Buffer.buffer_of (demo_refused ++ bytes "x")) (bytes "x") 8 2 HI).
  - vm_compute. reflexivity.
  - discriminate.
  - exact HI2.
  - rewrite Hb, Hb2. reflexivity.
Defined.

End HttpContext.
