(* ===== verification/HttpServer.v ===== *)
(** * HttpResponse and HttpServer ([examples/http/HttpResponse.h], [HttpResponse.cpp],
      [HttpServer.h], [HttpServer.cpp])

    What the server does with a connection is the list of the calls it makes on
    it, [send] and [shutdown].  The file system is a function from names to
    contents; [fread] gives blocks of [kBufSize] bytes and then none. *)

From stdpp Require Import pretty.
From S2P Require Import Prelude Buffer StdSet HttpContext.

#[local] Open Scope Z_scope.

Definition CRLF : list byte := [x0d; x0a].
Definition dec (z : Z) : list byte := bytes (pretty z).
(** [snprintf] into 32 bytes. *)
Definition snprintf32 (l : list byte) : list byte := ztake 31 l.

Module HttpResponse.

Definition k200k : Z := 200.
Definition k404NotFound : Z := 404.

Record t := mk {
  headers_ : list (list byte * list byte);
  statusCode_ : Z;
  statusMessage_ : list byte;
  closeConnection_ : bool;
  body_ : list byte
}.

Definition new (close : bool) : t := mk [] 0 [] close [].
Definition setStatusCode (r : t) (code : Z) : t :=
  mk (headers_ r) code (statusMessage_ r) (closeConnection_ r) (body_ r).
Definition setStatusMessage (r : t) (message : list byte) : t :=
  mk (headers_ r) (statusCode_ r) message (closeConnection_ r) (body_ r).
Definition setCloseConnection (r : t) (on : bool) : t :=
  mk (headers_ r) (statusCode_ r) (statusMessage_ r) on (body_ r).
Definition addHeader (r : t) (key value : list byte) : t :=
  mk (SSet.assign fst bytes_lt (key, value) (headers_ r)) (statusCode_ r) (statusMessage_ r)
    (closeConnection_ r) (body_ r).
Definition setContentType (r : t) (ty : list byte) : t := addHeader r (bytes "Content-Type") ty.
Definition setBody (r : t) (body : list byte) : t :=
  mk (headers_ r) (statusCode_ r) (statusMessage_ r) (closeConnection_ r) body.

(** The strings that [appendToBuffer] appends, in order. *)
Definition pieces (r : t) : list (list byte) :=
  [snprintf32 (bytes "HTTP/1.1 " ++ dec (statusCode_ r) ++ bytes " "); statusMessage_ r; CRLF] ++
  (if closeConnection_ r then [bytes "Connection: close" ++ CRLF]
   else [snprintf32 (bytes "Content-Length: " ++ dec (zlen (body_ r)) ++ CRLF);
         bytes "Connection: Keep-Alive" ++ CRLF]) ++
  (headers_ r ≫= fun h => [fst h; bytes ": "; snd h; CRLF]) ++
  [CRLF; body_ r].

Fixpoint append_all (b : Buffer.t) (ps : list (list byte)) : res Buffer.t :=
  match ps with
  | [] => Ok b
  | p :: ps => b ← Buffer.append b p ; append_all b ps
  end.

Definition appendToBuffer (r : t) (output : Buffer.t) : res Buffer.t := append_all output (pieces r).

Lemma append_all_ok ps : forall b, Buffer.Inv b -> Buffer.size b + zlen (concat ps) <= max_size ->
  exists b', append_all b ps = Ok b' /\ Buffer.Inv b' /\
    Buffer.readable b' = Buffer.readable b ++ concat ps.
Proof.
  induction ps as [|p ps IH]; intros b HI Hm; simpl; [exists b; by rewrite app_nil_r|].
  cbn [concat] in Hm. rewrite zlen_app in Hm. pose proof HI as (Hr & Hw & Hs).
  pose proof (zlen_nonneg p). pose proof (zlen_nonneg (concat ps)).
  pose proof (Buffer.append_ok b p HI ltac:(unfold Buffer.kCheapPrepend in *; lia)) as Ha.
  replace (Buffer.writerIndex_ b + zlen p <=? max_size) with true in Ha by lia.
  rewrite orb_true_r in Ha. destruct Ha as (b1 & -> & HI1 & Hb1 & Hs1). simpl.
  destruct (IH b1 HI1) as (b' & -> & HI' & Hb').
  { rewrite Hs1. case_match; lia. }
  exists b'. split_and!; try done. by rewrite Hb', Hb1, <- app_assoc.
Qed.

End HttpResponse.

Module HttpServer.

Definition kBufSize : Z := 64 * 1024.

(** A digit of [std::hex], and a number of 64 bits. *)
Definition hex_digit (d : Z) : byte := byte_of (if d <? 10 then 48 + d else 87 + d).
Fixpoint hex_from (fuel : nat) (n : Z) : list byte :=
  match fuel with
  | O => []
  | S fuel => if n <? 16 then [hex_digit n] else hex_from fuel (n / 16) ++ [hex_digit (n mod 16)]
  end.
Definition hex (n : Z) : list byte := hex_from 16 n.

(** The blocks [fread] gives, the last one empty; the [do] loop of
    [sendPageFile] ends with it.  A file of [n] bytes has at most [n] others. *)
Fixpoint freads (fuel : nat) (content : list byte) : list (list byte) :=
  match fuel with
  | O => []
  | S fuel =>
      let block := ztake kBufSize content in
      match block with
      | [] => [[]]
      | _ => block :: freads fuel (zdrop kBufSize content)
      end
  end.

Definition send_block (block : list byte) : list action :=
  [Send (hex (zlen block) ++ CRLF); Send (block ++ CRLF)].

Definition sendPageFile (content : list byte) : list action :=
  (freads (S (length content)) content ≫= send_block) ++ [Send (bytes "0" ++ CRLF); Send CRLF].

(** [pageRoot_], [fopen] with the file's contents, and [httpCallback_]. *)
Class Site := {
  pageRoot_ : list byte;
  fopen : list byte -> option (list byte);
  httpCallback_ : HttpRequest.t -> HttpResponse.t -> HttpResponse.t
}.

Definition defaultHttpCallback (req : HttpRequest.t) (resp : HttpResponse.t) : HttpResponse.t :=
  HttpResponse.setCloseConnection
    (HttpResponse.setStatusMessage
       (HttpResponse.setStatusCode resp HttpResponse.k404NotFound) (bytes "Not Found")) true.

Section server.
Context `{St : Site}.

Definition wants_close (req : HttpRequest.t) : bool :=
  let connection := HttpRequest.getHeader req (bytes "Connection") in
  bool_decide (connection = bytes "close") ||
  (bool_decide (HttpRequest.version_ req = HttpRequest.kHttp10) &&
   negb (bool_decide (connection = bytes "Keep-Alive"))).

Definition fileName (req : HttpRequest.t) : list byte :=
  pageRoot_ ++ (if bool_decide (HttpRequest.path_ req = bytes "/") then bytes "/index.html"
                else HttpRequest.path_ req).

(** [response.appendToBuffer(&bufToSend); conn->send(&bufToSend)] *)
Definition send_response (response : HttpResponse.t) : res (list action) :=
  b ← HttpResponse.appendToBuffer response Buffer.init ;
  m ← Buffer.retrieveAsString b ;
  Ok [Send (fst m)].

(** The response for a file that was found. *)
Definition page_response (req : HttpRequest.t) (close : bool) : HttpResponse.t :=
  let response := HttpResponse.new close in
  let response := HttpResponse.setStatusCode response HttpResponse.k200k in
  let response := HttpResponse.setStatusMessage response (bytes "OK") in
  let response := HttpResponse.setContentType response (HttpRequest.getFileType req) in
  let response := HttpResponse.addHeader response (bytes "Transfer-Encoding") (bytes "chunked") in
  HttpResponse.addHeader response (bytes "Server") (bytes "Chaonet").

Definition onRequest (req : HttpRequest.t) : res (list action) :=
  let close := wants_close req in
  let fp := fopen (fileName req) in
  r ← match fp with
      | Some content =>
          let response := page_response req close in
          s ← send_response response ;
          Ok (s ++ sendPageFile content, response)
      | None =>
          let response := httpCallback_ req (HttpResponse.new close) in
          s ← send_response response ;
          Ok (s, response)
      end ;
  Ok (fst r ++ if HttpResponse.closeConnection_ (snd r) then [Shutdown] else []).

(** [onMessage]: the calls on the connection, the context and the buffer. *)
Definition onMessage (fuel : nat) (context : HttpContext.t) (buf : Buffer.t) (receiveTime : Z) :
    res (list action * HttpContext.t * Buffer.t) :=
  p ← HttpContext.parseRequest fuel context buf receiveTime ;
  let ok : bool := fst (fst p) in
  let context := snd (fst p) in
  let buf := snd p in
  let a := if negb ok then [Send (bytes "HTTP/1.1 400 Bad Request" ++ CRLF ++ CRLF); Shutdown] else [] in
  if HttpContext.gotAll context then
    r ← onRequest (HttpContext.request_ context) ;
    Ok (a ++ r, HttpContext.reset context, buf)
  else Ok (a, context, buf).

(** ** A reader of the chunked encoding *)

Definition hex_value (c : byte) : option Z :=
  let v := byte_val c in
  if (48 <=? v) && (v <=? 57) then Some (v - 48)
  else if (97 <=? v) && (v <=? 102) then Some (v - 87) else None.

Definition parse_hex (l : list byte) : option Z :=
  foldl (fun acc c => match acc, hex_value c with Some a, Some d => Some (16 * a + d) | _, _ => None end)
    (Some 0) l.

(** The contents of a chunked body and what follows it. *)
Fixpoint dechunk (fuel : nat) (l : list byte) : option (list byte * list byte) :=
  match fuel with
  | O => None
  | S fuel =>
      let n := Buffer.search Buffer.kCRLF l in
      if n =? zlen l then None
      else
        let body := zdrop (n + 2) l in
        match parse_hex (ztake n l) with
        | None => None
        | Some 0 => if bool_decide (ztake 2 body = CRLF) then Some ([], zdrop 2 body) else None
        | Some size =>
            if (size <? 0) || (zlen body <? size + 2) then None
            else if bool_decide (slice size 2 body = CRLF) then
              match dechunk fuel (zdrop (size + 2) body) with
              | Some (c, rest) => Some (ztake size body ++ c, rest)
              | None => None
              end
            else None
        end
  end.

Lemma hex_digit_ok d : 0 <= d < 16 -> hex_value (hex_digit d) = Some d /\ hex_digit d <> x0d.
Proof.
  intros Hd. assert (Hc : d ∈ (Z.of_nat <$> seq 0 16)).
  { apply list_elem_of_fmap. exists (Z.to_nat d). rewrite elem_of_seq. lia. }
  revert Hc. simpl. rewrite !elem_of_cons.
  intros H. repeat destruct H as [->|H]; try (split; [reflexivity|discriminate]).
  by apply not_elem_of_nil in H.
Qed.

Lemma parse_hex_app l c d a :
  parse_hex l = Some a -> hex_value c = Some d -> parse_hex (l ++ [c]) = Some (16 * a + d).
Proof. intros H1 H2. unfold parse_hex in *. by rewrite foldl_app, H1; simpl; rewrite H2. Qed.

Lemma hex_from_ok fuel : forall n, 0 <= n < 16 ^ Z.of_nat fuel ->
  parse_hex (hex_from fuel n) = Some n /\ x0d ∉ hex_from fuel n.
Proof.
  induction fuel as [|fuel IH]; intros n Hn.
  - assert (n = 0) as -> by (simpl in Hn; lia). split; [done|apply not_elem_of_nil].
  - cbn [hex_from]. destruct (Z.ltb_spec n 16).
    + destruct (hex_digit_ok n ltac:(lia)) as [H1 H2]. split.
      * unfold parse_hex. simpl. by rewrite H1.
      * rewrite list_elem_of_singleton. congruence.
    + rewrite Nat2Z.inj_succ, Z.pow_succ_r in Hn by lia.
      pose proof (Z.mod_pos_bound n 16 ltac:(lia)). pose proof (Z.div_mod n 16 ltac:(lia)).
      destruct (IH (n / 16)) as [Hp Hx]; [lia|].
      destruct (hex_digit_ok (n mod 16) ltac:(lia)) as [Hd Hy]. split.
      * rewrite (parse_hex_app _ _ _ _ Hp Hd). f_equal. lia.
      * rewrite not_elem_of_app, list_elem_of_singleton. split; congruence.
Qed.

Lemma hex_ok n : 0 <= n < 2 ^ 64 -> parse_hex (hex n) = Some n /\ x0d ∉ hex n.
Proof. intros Hn. by apply hex_from_ok. Qed.

(** One chunk is read back. *)
Lemma dechunk_block fuel block rest :
  0 < zlen block < 2 ^ 64 ->
  dechunk (S fuel) (sent (send_block block) ++ rest) =
    match dechunk fuel rest with Some (c, r) => Some (block ++ c, r) | None => None end.
Proof.
  intros Hb. destruct (hex_ok (zlen block) ltac:(lia)) as [Hh Hn].
  unfold sent, send_block. simpl. rewrite app_nil_r, <- !app_assoc.
  destruct (Buffer.first_line (hex (zlen block)) (block ++ CRLF ++ rest) Hn) as (H1 & H2 & H3).
  change (Buffer.kCRLF) with CRLF in *. rewrite H1, H2, H3, Hh.
  destruct (zlen block) as [|p|p] eqn:Hz; [lia| |lia].
  rewrite <- Hz. assert (Hlen : zlen (block ++ CRLF ++ rest) = zlen block + 2 + zlen rest).
  { rewrite !zlen_app. change (zlen CRLF) with 2. lia. }
  pose proof (zlen_nonneg rest).
  replace ((zlen block <? 0) || (zlen (block ++ CRLF ++ rest) <? zlen block + 2)) with false by lia.
  assert (Hs : slice (zlen block) 2 (block ++ CRLF ++ rest) = CRLF).
  { unfold slice. rewrite zdrop_app_ge, Z.sub_diag by lia. done. }
  rewrite bool_decide_true by exact Hs.
  rewrite zdrop_app_ge by lia. replace (zlen block + 2 - zlen block) with 2 by lia.
  change (zdrop 2 (CRLF ++ rest)) with rest. by rewrite ztake_app_zlen.
Qed.

Lemma dechunk_last fuel rest : dechunk (S fuel) (sent (send_block []) ++ rest) = Some ([], rest).
Proof.
  destruct (Buffer.first_line (bytes "0") (CRLF ++ rest)) as (H1 & H2 & H3).
  { apply (bool_decide_unpack _). by vm_compute. }
  change (Buffer.kCRLF) with CRLF in *.
  change (sent (send_block []) ++ rest) with (bytes "0" ++ CRLF ++ CRLF ++ rest).
  cbn [dechunk]. change (Buffer.kCRLF) with CRLF. rewrite H1, H2, H3. done.
Qed.

Lemma freads_blocks fuel : forall content, (length content < fuel)%nat ->
  exists blocks, freads fuel content = blocks ++ [[]] /\ concat blocks = content /\
    (length blocks < fuel)%nat /\ Forall (fun b => 0 < zlen b < 2 ^ 64) blocks.
Proof.
  induction fuel as [|fuel IH]; intros content Hl; [lia|]. cbn [freads].
  destruct (ztake kBufSize content) as [|x l] eqn:Hb.
  - assert (content = []) as ->.
    { apply zlen_zero_nil. apply (f_equal zlen) in Hb. rewrite zlen_take in Hb.
      change (zlen []) with 0 in Hb. unfold kBufSize in Hb. pose proof (zlen_nonneg content). lia. }
    exists []. simpl. split_and!; try done; apply Forall_nil_2.
  - assert (Hlen : zlen (x :: l) = Z.min kBufSize (zlen content)).
    { rewrite <- Hb, zlen_take. unfold kBufSize. lia. }
    pose proof (zlen_nonneg l). rewrite zlen_cons in Hlen.
    destruct (IH (zdrop kBufSize content)) as (bs & Hf & Hc & Hn & Ha).
    { unfold zdrop. rewrite length_drop. unfold zlen in Hlen. unfold kBufSize in *. lia. }
    exists ((x :: l) :: bs). rewrite Hf. split_and!.
    + done.
    + cbn [concat]. rewrite Hc, <- Hb. apply ztake_drop.
    + simpl. lia.
    + constructor; [|done]. rewrite zlen_cons. unfold kBufSize in Hlen. lia.
Qed.

Lemma dechunk_page content :
  dechunk (S (length content)) (sent (sendPageFile content)) = Some (content, bytes "0" ++ CRLF ++ CRLF).
Proof.
  destruct (freads_blocks (S (length content)) content ltac:(lia)) as (bs & Hf & Hc & Hn & Ha).
  unfold sendPageFile. rewrite Hf, bind_app, !sent_app. rewrite <- Hc. clear Hf.
  assert (Hgen : forall bs fuel, Forall (fun b => 0 < zlen b < 2 ^ 64) bs -> (length bs < fuel)%nat ->
    forall rest, dechunk fuel (sent (bs ≫= send_block) ++ sent (send_block []) ++ rest) =
      Some (concat bs, rest)).
  { clear. induction bs as [|b bs IH]; intros [|fuel] Ha Hl rest; try (simpl in Hl; lia);
      [apply dechunk_last|].
    apply Forall_cons in Ha as [Hb Ha]. cbn [mbind list_bind concat]. rewrite sent_app, <- app_assoc.
    rewrite dechunk_block by done. rewrite IH by (done || simpl in Hl; lia). done. }
  rewrite <- app_assoc. rewrite <- (app_nil_r (send_block [])) at 1.
  change ([[]] ≫= send_block) with (send_block [] ++ []). rewrite app_nil_r.
  rewrite Hgen; [done|done|]. rewrite Hc. lia.
Qed.

(** ** Serving a file *)

Lemma file_type_short req : zlen (HttpRequest.getFileType req) <= 64.
Proof.
  unfold HttpRequest.getFileType. case_bool_decide; [by vm_compute|].
  destruct (HttpRequest.type_of _) as [ty|] eqn:E; [|by vm_compute]. case_match; [by vm_compute|].
  unfold HttpRequest.type_of in E. destruct (List.find _ _) as [p|] eqn:Ef; [|done].
  injection E as <-. apply List.find_some in Ef as [Hin _].
  assert (Hall : Forall (fun p => zlen (snd p) <= 64) HttpRequest.fileType)
    by (apply (bool_decide_unpack _); by vm_compute).
  rewrite List.Forall_forall in Hall. by apply Hall.
Qed.

Definition page_header (req : HttpRequest.t) : list byte :=
  bytes "HTTP/1.1 200 OK" ++ CRLF ++
  (if wants_close req then bytes "Connection: close" ++ CRLF
   else bytes "Content-Length: 0" ++ CRLF ++ bytes "Connection: Keep-Alive" ++ CRLF) ++
  bytes "Content-Type: " ++ HttpRequest.getFileType req ++ CRLF ++
  bytes "Server: Chaonet" ++ CRLF ++ bytes "Transfer-Encoding: chunked" ++ CRLF ++ CRLF.

Lemma page_pieces req :
  concat (HttpResponse.pieces (page_response req (wants_close req))) = page_header req.
Proof.
  unfold HttpResponse.pieces, page_header, page_response. simpl.
  destruct (wants_close req); simpl; rewrite <- ?app_assoc; reflexivity.
Qed.

Lemma send_response_ok r :
  zlen (concat (HttpResponse.pieces r)) <= 2 ^ 32 ->
  send_response r = Ok [Send (concat (HttpResponse.pieces r))].
Proof.
  intros Hl. unfold send_response, HttpResponse.appendToBuffer.
  destruct (HttpResponse.append_all_ok (HttpResponse.pieces r) Buffer.init Buffer.buffer_init_inv)
    as (b & -> & HI & Hb).
  { change (Buffer.size Buffer.init) with 1032. unfold max_size. lia. }
  rewrite bind_ret_l, Buffer.retrieveAsString_ok, bind_ret_l by done. cbn [fst].
  by rewrite Hb, Buffer.init_readable.
Qed.

(** The calls for a file that exists. *)
Lemma page_ok req content :
  fopen (fileName req) = Some content ->
  onRequest req = Ok (Send (page_header req) :: sendPageFile content ++
    if wants_close req then [Shutdown] else []).
Proof.
  intros Hf.
  unfold onRequest. rewrite Hf. cbv zeta. generalize (sendPageFile content). intros page.
  assert (Hc : HttpResponse.closeConnection_ (page_response req (wants_close req)) = wants_close req)
    by reflexivity.
  rewrite send_response_ok, page_pieces.
  { rewrite !bind_ret_l. cbn [fst snd]. by rewrite Hc. }
  rewrite page_pieces. unfold page_header. pose proof (file_type_short req).
  assert (Hs : forall t, zlen (bytes t) = Z.of_nat (String.length t)).
  { intros t. unfold zlen, bytes. f_equal. induction t as [|a t IH]; [done|].
    cbn [String.length]. by rewrite <- IH. }
  assert (Hcr : zlen CRLF = 2) by reflexivity.
  destruct (wants_close req); rewrite !zlen_app, !Hs, Hcr; cbn [String.length]; lia.
Qed.

(** [sendPageFile] does nothing but send. *)
Lemma page_parts content : exists parts,
  sendPageFile content = Send <$> parts /\ sent (sendPageFile content) = concat parts.
Proof.
  assert (Hf : forall bs, exists parts, bs ≫= send_block = Send <$> parts).
  { induction bs as [|b bs [parts IH]]; [by exists []|].
    exists ([hex (zlen b) ++ CRLF; b ++ CRLF] ++ parts). cbn [mbind list_bind]. by rewrite IH. }
  destruct (Hf (freads (S (length content)) content)) as [parts Hp].
  exists (parts ++ [bytes "0" ++ CRLF; CRLF]).
  assert (E : sendPageFile content = Send <$> parts ++ [bytes "0" ++ CRLF; CRLF])
    by (unfold sendPageFile; by rewrite Hp, fmap_app).
  split; [exact E|]. rewrite E. generalize (parts ++ [bytes "0" ++ CRLF; CRLF]). clear.
  induction l as [|d l IH]; [done|]. cbn [concat fmap list_fmap]. by rewrite <- IH.
Qed.

(** C26. A file that exists is answered with the header block below, then with its
    contents in the chunked encoding, which a reader of that encoding gets back;
    all the calls made are sends, but for one shutdown, the last call, exactly when
    the request asks for it.  After the last chunk five more bytes are sent, a
    second end of the body; and a kept-alive answer carries both
    [Content-Length: 0] and the chunked encoding. *)
Theorem page_served req content :
  fopen (fileName req) = Some content ->
  exists parts,
    onRequest req = Ok ((Send <$> page_header req :: parts) ++
      if wants_close req then [Shutdown] else []) /\
    dechunk (S (length content)) (concat parts) = Some (content, bytes "0" ++ CRLF ++ CRLF).
Proof.
  intros Hf. destruct (page_parts content) as (parts & E & Es). exists parts.
  split; [by rewrite (page_ok req content), E|]. rewrite <- Es. apply dechunk_page.
Qed.

End server.
#[local] Instance demo_site : Site :=
  {| pageRoot_ := bytes "pages"; httpCallback_ := defaultHttpCallback;
     fopen name := if bool_decide (name = bytes "pages/a.txt") then Some (bytes "hello") else None |}.

Definition demo_get : HttpRequest.t :=
  HttpRequest.mk HttpRequest.kGet HttpRequest.kHttp11 (bytes "/a.txt") [] 0 [].

Lemma page_served_witness :
  exists parts, onRequest demo_get = Ok (Send <$> page_header demo_get :: parts) /\
    dechunk 6 (concat parts) = Some (bytes "hello", bytes "0" ++ CRLF ++ CRLF).
Proof.
  assert (Hf : fopen (fileName demo_get) = Some (bytes "hello")) by (vm_compute; reflexivity).
  destruct (page_served demo_get (bytes "hello") Hf) as (parts & E & Hd).
  exists parts. split; [|exact Hd]. rewrite E. f_equal. apply app_nil_r.
Defined.

End HttpServer.
