(* ===== verification/HttpConversation.v ===== *)
(** * The HTTP server on its connections ([examples/http/HttpServer.cpp])

    The connection and message callbacks of [HttpServer] run on the model of
    [TcpConnection]: the parser's context is what the connection holds in its
    [std::any], [None] before it is set; a message is what one [readv] brings.
    [HttpServer.v] says which calls a request leads to, this file what becomes of
    them and of the requests that come in one message. *)

From S2P Require Import Prelude Buffer Channel ChannelOwner EPoller TcpConnection StdSet HttpContext HttpServer.

Module HttpConversation.

Section server.
Context {P : Type} `{HP : ChannelOwner P} `{HS : TcpConnection.Socket} `{St : HttpServer.Site}.

Notation conn := (TcpConnection.t (P := P)).
Notation cb := TcpConnection.default_callbacks.
Notation context := (option HttpContext.t).

(** [HttpServer::onConnection]. *)
Definition onConnection (w : conn) (c : context) : context :=
  if TcpConnection.connected w then Some HttpContext.new else c.

(** The calls on the connection, in order. *)
Fixpoint program (l : list action) : TcpConnection.prog (P := P) :=
  match l with
  | [] => TcpConnection.Return
  | Send d :: l => TcpConnection.Do (TcpConnection.Public (TcpConnection.Send d)) (fun _ => program l)
  | Shutdown :: l => TcpConnection.Do (TcpConnection.Public TcpConnection.Shutdown) (fun _ => program l)
  end.

(** [HttpServer::onMessage]: the parser takes its bytes from the input buffer, then
    the calls are made; [any_cast] of an empty [std::any] is a null pointer. *)
Definition onMessage (fuel : nat) (c : context) (w : conn) (time : Z) : res (context * conn) :=
  match c with
  | None => Err NullDeref
  | Some c =>
      r ← HttpServer.onMessage fuel c (TcpConnection.inputBuffer_ w) time ;
      w ← TcpConnection.run cb (program (fst (fst r))) (TcpConnection.set_input w (snd r)) ;
      Ok (Some (snd (fst r)), w)
  end.

(** [TcpConnection::handleRead] when [d] has arrived, with this callback. *)
Definition receive (fuel : nat) (s : context * conn) (m : list byte * Z) : res (context * conn) :=
  let w := snd s in
  r ← Buffer.readFd (TcpConnection.inputBuffer_ w)
        (TcpConnection.received (TcpConnection.inputBuffer_ w) (Buffer.RvData (fst m))) ;
  let w := TcpConnection.set_input w (snd r) in
  if 0 <? fst (fst r) then onMessage fuel (fst s) (TcpConnection.emit w TcpConnection.Message) (snd m)
  else Ok (fst s, w).

Fixpoint conversation (fuel : nat) (s : context * conn) (ms : list (list byte * Z)) : res (context * conn) :=
  match ms with
  | [] => Ok s
  | m :: ms => s ← receive fuel s m ; conversation fuel s ms
  end.

(** ** The calls *)

Lemma run_program_app l1 : forall l2 w,
  TcpConnection.run cb (program (l1 ++ l2)) w =
    w' ← TcpConnection.run cb (program l1) w ; TcpConnection.run cb (program l2) w'.
Proof.
  induction l1 as [|[d|] l1 IH]; intros l2 w; cbn [program app TcpConnection.run]; [done|..];
    destruct (TcpConnection.exec_action _ _ _) as [w'|f]; cbn [mbind res_bind]; by rewrite ?IH.
Qed.

(** What the calls leave alone, and what the connection has accepted. *)
Definition answered (w : conn) (d : list byte) (s : TcpConnection.StateE) (w' : conn) : Prop :=
  TcpConnection.Inv TcpConnection.Strict w' /\ TcpConnection.state_ w' = s /\
  TcpConnection.inputBuffer_ w' = TcpConnection.inputBuffer_ w /\
  TcpConnection.accepted (TcpConnection.log w') = TcpConnection.accepted (TcpConnection.log w) ++ d.

Definition is_send (a : action) : Prop := match a with Send _ => True | Shutdown => False end.

Lemma sends_ok l : forall w,
  TcpConnection.Inv TcpConnection.Strict w -> TcpConnection.state_ w = TcpConnection.kConnected -> Forall is_send l ->
  wp TcpConnection.only_length (TcpConnection.run cb (program l) w)
    (answered w (sent l) TcpConnection.kConnected).
Proof.
  induction l as [|a l IH]; intros w HI Hs Hl; cbn [program TcpConnection.run].
  { split_and!; [done..|by rewrite app_nil_r]. }
  apply Forall_cons in Hl as [Ha Hl]. destruct a as [d|]; [|done].
  cbn [program TcpConnection.run TcpConnection.exec_action TcpConnection.exec_call].
  unfold TcpConnection.send, TcpConnection.connected. rewrite Hs, bool_decide_true by done.
  unfold check. destruct (Z.leb_spec (zlen d) max_size) as [Hd|Hd]; [|done]. rewrite bind_ret_l.
  destruct (TcpConnection.inv_channel _ _ HI) as (c & Hc & Hci).
  pose proof (TcpConnection.sendInLoop_spec cb w c d (TcpConnection.inv_good _ _ HI) Hc
    (TcpConnection.inv_output _ _ HI) Hd) as Hsend.
  destruct (TcpConnection.sendInLoop cb w d) as [w1|f]; [|done]. rewrite bind_ret_l. cbn [wp] in Hsend.
  destruct (TcpConnection.sent_inv cb TcpConnection.Strict w c d w1 HI Hc Hci ltac:(by rewrite Hs) ltac:(by rewrite Hs) Hsend)
    as [HI1 Hs1].
  assert (Hw1 : TcpConnection.inputBuffer_ w1 = TcpConnection.inputBuffer_ w /\
    TcpConnection.accepted (TcpConnection.log w1) = TcpConnection.accepted (TcpConnection.log w) ++ d).
  { destruct Hsend as (ob & b & c' & -> & _). cbn [TcpConnection.inputBuffer_ TcpConnection.log]. split; [done|].
    rewrite (cons_middle (TcpConnection.Accepted d)), !TcpConnection.accepted_app, TcpConnection.took_accepted.
    simpl. by rewrite !app_nil_r. }
  destruct Hw1 as [Hb Hacc]. eapply wp_mono; [apply (IH w1 HI1); [congruence|done]|].
  intros w' (HI' & Hs' & Hb' & Ha'). split_and!; [done|done|congruence|].
  rewrite Ha', Hacc. by rewrite <- app_assoc.
Qed.

Lemma shutdown_ok w :
  TcpConnection.Inv TcpConnection.Strict w -> TcpConnection.state_ w = TcpConnection.kConnected ->
  wp TcpConnection.only_length (TcpConnection.run cb (program [Shutdown]) w)
    (answered w [] TcpConnection.kDisconnecting).
Proof.
  intros HI Hs.
  assert (Hrun := TcpConnection.run_wp cb TcpConnection.Strict (program [Shutdown]) w HI ltac:(by rewrite Hs)
    (fun _ => conj I (fun _ _ => I))).
  destruct (TcpConnection.inv_channel _ _ HI) as (c & Hc & _).
  revert Hrun. cbn [program TcpConnection.run TcpConnection.exec_action TcpConnection.exec_call].
  unfold TcpConnection.shutdown, TcpConnection.connected. rewrite Hs, bool_decide_true by done.
  unfold TcpConnection.shutdownInLoop, TcpConnection.chan.
  cbn [TcpConnection.loop_ TcpConnection.channel_ TcpConnection.setState]. rewrite Hc.
  cbn [mbind res_bind wp]. intros [HI' _].
  split_and!; [done|..]; destruct (Channel.isWriting c); cbn [negb]; try done; cbn;
    by rewrite ?TcpConnection.accepted_app, ?app_nil_r.
Qed.

Lemma answer_ok l (close : bool) w :
  TcpConnection.Inv TcpConnection.Strict w -> TcpConnection.state_ w = TcpConnection.kConnected -> Forall is_send l ->
  wp TcpConnection.only_length (TcpConnection.run cb (program (l ++ if close then [Shutdown] else [])) w)
    (answered w (sent l) (if close then TcpConnection.kDisconnecting else TcpConnection.kConnected)).
Proof.
  intros HI Hs Hl. pose proof (sends_ok l w HI Hs Hl) as H. destruct close; [|by rewrite app_nil_r].
  rewrite run_program_app. apply wp_bind. eapply wp_mono; [exact H|].
  intros w1 (HI1 & Hs1 & Hb1 & Ha1). eapply wp_mono; [by apply shutdown_ok|].
  intros w' (HI' & Hs' & Hb' & Ha'). split_and!; [done|done|congruence|]. by rewrite Ha', Ha1, app_nil_r.
Qed.

(** ** One message *)

Notation request := HttpContext.request.

(** The answer to a request for a file. *)
Definition page (req : HttpRequest.t) (content : list byte) : list byte :=
  HttpServer.page_header req ++ sent (HttpServer.sendPageFile content).

Definition closes (q : request) : bool := HttpServer.wants_close (HttpContext.parsed q 0).
Definition fileName (q : request) : list byte := HttpServer.fileName (HttpContext.parsed q 0).
Definition answer (q : request) : list byte :=
  match HttpServer.fopen (fileName q) with
  | Some content => page (HttpContext.parsed q 0) content
  | None => []
  end.

Lemma page_sends content : Forall is_send (HttpServer.sendPageFile content).
Proof.
  apply Forall_app. split; [|by repeat constructor]. apply Forall_forall. intros a Ha.
  apply list_elem_of_bind in Ha as (b & Ha & _). unfold HttpServer.send_block in Ha. set_unfold.
  by destruct Ha as [->|[->|[]]].
Qed.

(** A message whose buffer begins with a whole request for a file that exists: its
    answer is given to the connection, its bytes alone are taken, and the context
    is ready for another. *)
Lemma http_message_ok fuel w q rest time :
  TcpConnection.Inv TcpConnection.Strict w -> TcpConnection.state_ w = TcpConnection.kConnected ->
  HttpContext.wf_request q -> is_Some (HttpServer.fopen (fileName q)) ->
  Buffer.readable (TcpConnection.inputBuffer_ w) = HttpContext.render q ++ rest ->
  (length (HttpContext.rq_headers q) + 2 <= fuel)%nat ->
  wp TcpConnection.only_length (onMessage fuel (Some HttpContext.new) w time) (fun s =>
    fst s = Some HttpContext.new /\ TcpConnection.Inv TcpConnection.Strict (snd s) /\
    TcpConnection.state_ (snd s) = (if closes q then TcpConnection.kDisconnecting else TcpConnection.kConnected) /\
    Buffer.readable (TcpConnection.inputBuffer_ (snd s)) = rest /\
    TcpConnection.accepted (TcpConnection.log (snd s)) = TcpConnection.accepted (TcpConnection.log w) ++ answer q).
Proof.
  intros HI Hs Hq [content Hf] Hb Hfuel. unfold onMessage, HttpServer.onMessage.
  destruct (HttpContext.parse_whole q (TcpConnection.inputBuffer_ w) rest time fuel Hq
    (TcpConnection.inv_input _ _ HI) Hb Hfuel) as (b' & -> & HB & Hr).
  rewrite bind_ret_l. cbn [fst snd negb]. unfold HttpContext.gotAll. cbn [HttpContext.state_ HttpContext.request_].
  rewrite bool_decide_true by done.
  rewrite (HttpServer.page_ok _ content) by exact Hf. rewrite !bind_ret_l. cbn [fst snd app].
  change (HttpServer.wants_close (HttpContext.parsed q time)) with (closes q).
  change (HttpServer.page_header (HttpContext.parsed q time)) with (HttpServer.page_header (HttpContext.parsed q 0)).
  rewrite app_comm_cons. apply wp_bind.
  eapply wp_mono; [apply answer_ok; [by apply TcpConnection.inv_set_input|done|]|].
  { constructor; [done|apply page_sends]. }
  intros w' (HI' & Hs' & Hb' & Ha'). cbn [wp fst snd]. split_and!; [done|exact HI'|exact Hs'|rewrite Hb'; exact Hr|].
  rewrite Ha'. unfold answer. rewrite Hf. unfold page. generalize (HttpServer.sendPageFile content). intros l.
  cbn [TcpConnection.log TcpConnection.set_input sent mbind list_bind]. reflexivity.
Qed.

(** A request line that is refused is answered with the error and the connection
    shut down; the line stays in the buffer. *)
Theorem bad_request_refused fuel w time c b' :
  TcpConnection.Inv TcpConnection.Strict w -> TcpConnection.state_ w = TcpConnection.kConnected ->
  HttpContext.parseRequest fuel HttpContext.new (TcpConnection.inputBuffer_ w) time = Ok (false, c, b') ->
  match onMessage fuel (Some HttpContext.new) w time with
  | Ok s =>
      fst s = Some c /\ TcpConnection.state_ (snd s) = TcpConnection.kDisconnecting /\
      Buffer.readable (TcpConnection.inputBuffer_ (snd s)) = Buffer.readable (TcpConnection.inputBuffer_ w) /\
      TcpConnection.accepted (TcpConnection.log (snd s)) =
        TcpConnection.accepted (TcpConnection.log w) ++ bytes "HTTP/1.1 400 Bad Request" ++ CRLF ++ CRLF
  | Err f => f = LengthError
  end.
Proof.
  intros HI Hs E. destruct (HttpContext.refused_state _ _ _ _ _ (TcpConnection.inv_input _ _ HI) E) as (Hst & HB & Hb).
  unfold onMessage, HttpServer.onMessage. rewrite E, bind_ret_l. cbn [fst snd negb].
  unfold HttpContext.gotAll. rewrite Hst, bool_decide_false by done. rewrite bind_ret_l. cbn [fst snd].
  pose proof (answer_ok [Send (bytes "HTTP/1.1 400 Bad Request" ++ CRLF ++ CRLF)] true
    (TcpConnection.set_input w b') (TcpConnection.inv_set_input _ _ _ HB HI) Hs ltac:(by repeat constructor)) as H.
  cbn [app] in H. destruct (TcpConnection.run _ _ _) as [w'|f]; [|exact H]. rewrite bind_ret_l. cbn [fst snd].
  destruct H as (_ & Hs' & Hb' & Ha'). split_and!; [done|exact Hs'|rewrite Hb'; exact Hb|exact Ha'].
Qed.

(** ** A conversation *)

Definition renders (qs : list request) : list byte := qs ≫= HttpContext.render.

(** A request for a file, on a connection that is to stay, within the fuel. *)
Definition asks (fuel : nat) (q : request) : Prop :=
  HttpContext.wf_request q /\ is_Some (HttpServer.fopen (fileName q)) /\ closes q = false /\
  (length (HttpContext.rq_headers q) + 2 <= fuel)%nat.

(** Between two messages: the requests [qs] wait in the input buffer. *)
Definition Waiting (s : context * conn) (qs : list request) : Prop :=
  fst s = Some HttpContext.new /\ TcpConnection.Inv TcpConnection.Strict (snd s) /\
  TcpConnection.state_ (snd s) = TcpConnection.kConnected /\
  Buffer.readable (TcpConnection.inputBuffer_ (snd s)) = renders qs.

Notation accepted s := (TcpConnection.accepted (TcpConnection.log (snd s))).

Lemma renders_app l1 l2 : renders (l1 ++ l2) = renders l1 ++ renders l2.
Proof. apply bind_app. Qed.

Lemma render_pos q : 0 < zlen (HttpContext.render q).
Proof.
  unfold HttpContext.render. rewrite !zlen_app. change (zlen Buffer.kCRLF) with 2.
  pose proof (zlen_nonneg (HttpContext.request_line q)).
  pose proof (zlen_nonneg (HttpContext.lines (HttpContext.header_line <$> HttpContext.rq_headers q))). lia.
Qed.

Lemma receive_ok fuel s wait qs q rest time :
  Waiting s wait -> qs <> [] -> wait ++ qs = q :: rest -> zlen (renders qs) <= Buffer.kExtraBuf ->
  asks fuel q ->
  wp TcpConnection.only_length (receive fuel s (renders qs, time))
    (fun s' => Waiting s' rest /\ accepted s' = accepted s ++ answer q).
Proof.
  destruct s as [c w]. intros (Hc & HI & Hs & Hb) Hne Hq Hz (Hwf & Hf & Hcl & Hfuel). cbn [fst snd] in *. subst c.
  unfold receive. cbn [fst snd]. pose proof (TcpConnection.inv_input _ _ HI) as HB.
  assert (Hrv : TcpConnection.received (TcpConnection.inputBuffer_ w) (Buffer.RvData (renders qs)) =
    Buffer.RvData (renders qs)).
  { simpl. rewrite ztake_all; [done|]. destruct HB as (_ & Hw & _). lia. }
  assert (Hfit : Buffer.rv_fits (TcpConnection.inputBuffer_ w) (Buffer.RvData (renders qs))).
  { unfold Buffer.rv_fits. destruct HB as (_ & Hw & _). lia. }
  rewrite Hrv. pose proof (Buffer.readFd_wp _ _ HB Hfit) as Hr.
  destruct (Buffer.readFd _ _) as [r|f]; cbn [wp] in Hr; [|by destruct Hr]. rewrite bind_ret_l.
  destruct Hr as (E & HB' & Hb'). rewrite E. cbn [fst].
  assert (Hpos : 0 < zlen (renders qs)).
  { destruct qs as [|q1 qs]; [done|]. change (renders (q1 :: qs)) with (HttpContext.render q1 ++ renders qs).
    rewrite zlen_app. pose proof (render_pos q1). pose proof (zlen_nonneg (renders qs)). lia. }
  rewrite (proj2 (Z.ltb_lt _ _)) by done. set (w1 := TcpConnection.emit _ _).
  assert (Hin : Buffer.readable (TcpConnection.inputBuffer_ w1) = HttpContext.render q ++ renders rest).
  { cbn. by rewrite Hb', Hb, <- renders_app, Hq. }
  eapply wp_mono; [apply (http_message_ok fuel w1 q (renders rest) time); try done|].
  - apply TcpConnection.inv_emit; [done|]. by apply TcpConnection.inv_set_input.
  - intros s' (H1 & H2 & H3 & H4 & H5). rewrite Hcl in H3. split; [done|]. rewrite H5. cbn.
    by rewrite TcpConnection.accepted_app, app_nil_r.
Qed.

(** C22. A client that keeps its connection sends requests for files that exist, any
    number of whole requests in each message of at most 64 KiB.  Every message is
    answered by the next request in order, exactly one, with the page in the form
    [page_served] states; the connection stays up, all it has accepted is written
    or waits to be, the context is ready again, and the requests beyond one for
    each message stay in the input buffer unanswered. *)
Theorem http_conversation fuel (ms : list (list request * Z)) : forall s wait,
  Waiting s wait ->
  Forall (fun m => fst m <> [] /\ zlen (renders (fst m)) <= Buffer.kExtraBuf) ms ->
  Forall (asks fuel) (wait ++ (ms ≫= fst)) ->
  match conversation fuel s ((fun m => (renders (fst m), snd m)) <$> ms) with
  | Ok s' =>
      Waiting s' (drop (length ms) (wait ++ (ms ≫= fst))) /\
      accepted s' = accepted s ++ (take (length ms) (wait ++ (ms ≫= fst)) ≫= answer) /\
      TcpConnection.written (TcpConnection.log (snd s')) ++
        Buffer.readable (TcpConnection.outputBuffer_ (snd s')) = accepted s'
  | Err f => f = LengthError
  end.
Proof.
  induction ms as [|[qs time] ms IH]; intros s wait Hw Hms Hall; cbn [fmap list_fmap conversation].
  { cbn [mbind list_bind length take drop]. split_and!; [by rewrite app_nil_r|by rewrite app_nil_r|apply Hw]. }
  apply Forall_cons in Hms as [[Hne Hz] Hms]. cbn [fst snd] in *. cbn [mbind list_bind fst] in *.
  rewrite (app_assoc wait) in *. destruct (wait ++ qs) as [|q rest] eqn:Hq.
  { by destruct wait; [destruct qs|]. }
  assert (Hask : asks fuel q) by (by apply Forall_cons in Hall as [? _]).
  pose proof (receive_ok fuel s wait qs q rest time Hw Hne Hq Hz Hask) as Hr.
  destruct (receive fuel s (renders qs, time)) as [s1|f]; cbn [wp] in Hr; [|done]. rewrite bind_ret_l.
  destruct Hr as [Hw1 Ha1]. specialize (IH s1 rest Hw1 Hms). cbn [app] in *.
  apply Forall_cons in Hall as [_ Hall]. specialize (IH Hall).
  destruct (conversation fuel s1 _) as [s'|f]; [|done]. destruct IH as (H1 & H2 & H3).
  split_and!; [done| |done]. rewrite H2, Ha1. cbn [length take mbind list_bind]. by rewrite <- app_assoc.
Qed.

End server.

(** ** Three requests in two messages *)

#[local] Existing Instance EPoller.demo_kernel.
#[local] Existing Instance EPoller.epoller_owner.
#[local] Existing Instance TcpConnection.demo_socket.
#[local] Existing Instance HttpServer.demo_site.

Definition demo_file : HttpContext.request :=
  HttpContext.mk_request HttpRequest.kGet (bytes "/a.txt") [] HttpRequest.kHttp11 [].

Definition demo_start : option HttpContext.t * TcpConnection.t (P := EPoller.t) :=
  (onConnection TcpConnection.demo_up None, TcpConnection.demo_up).

Definition demo_messages : list (list HttpContext.request * Z) := [([demo_file; demo_file], 1); ([demo_file], 2)].

Lemma demo_asks : asks 2 demo_file.
Proof.
  split_and!; [|by eexists|done|simpl; lia].
  split; [done|done|split_and!; apply (bool_decide_unpack _); by vm_compute|split_and!| constructor].
  - apply not_elem_of_nil.
  - apply not_elem_of_nil.
  - by left.
Qed.

Lemma demo_waiting : Waiting demo_start [].
Proof.
  split_and!; [done| |done|done].
  apply (TcpConnection.conn_reachable_inv TcpConnection.echo TcpConnection.Strict (fun _ => TcpConnection.echo_polite)),
    TcpConnection.demo_up_reachable.
Qed.

(** The third request is still in the buffer. *)
Lemma http_conversation_witness :
  match conversation 2 demo_start ((fun m => (renders (fst m), snd m)) <$> demo_messages) with
  | Ok s' => Buffer.readable (TcpConnection.inputBuffer_ (snd s')) = HttpContext.render demo_file
  | Err f => f = LengthError
  end.
Proof.
  pose proof (http_conversation 2 demo_messages demo_start [] demo_waiting) as H.
  assert (H1 : Forall (fun m => fst m <> [] /\ zlen (renders (fst m)) <= Buffer.kExtraBuf) demo_messages).
  { repeat constructor; try done; vm_compute; discriminate. }
  assert (H2 : Forall (asks 2) ([] ++ (demo_messages ≫= fst))) by (repeat constructor; apply demo_asks).
  specialize (H H1 H2). destruct (conversation _ _ _) as [s'|f]; [|exact H].
  destruct H as ((_ & _ & _ & Hb) & _). exact Hb.
Defined.

Definition demo_bad : TcpConnection.t (P := EPoller.t) :=
  TcpConnection.set_input TcpConnection.demo_up (Buffer.buffer_of (bytes "HELLO / HTTP/1.1" ++ CRLF)).

Lemma bad_request_refused_witness :
  match onMessage 2 (Some HttpContext.new) demo_bad 7 with
  | Ok s => TcpConnection.state_ (snd s) = TcpConnection.kDisconnecting
  | Err f => f = LengthError
  end.
Proof.
  assert (HI : TcpConnection.Inv TcpConnection.Strict demo_bad).
  { apply TcpConnection.inv_set_input; [apply Buffer.buffer_of_ok; by vm_compute|]. apply demo_waiting. }
  assert (E : exists c b', HttpContext.parseRequest 2 HttpContext.new (TcpConnection.inputBuffer_ demo_bad) 7 =
    Ok (false, c, b')) by (do 2 eexists; vm_compute; reflexivity).
  destruct E as (c & b' & E). pose proof (bad_request_refused 2 demo_bad 7 c b' HI eq_refl E) as H.
  destruct (onMessage _ _ _ _) as [s|f]; [|exact H]. destruct H as (_ & H & _). exact H.
Defined.

End HttpConversation.
