(* ===== verification/Sudoku.v ===== *)
(** * Sudoku: the solver of the sudoku example ([examples/sudoku/Sudoku.h])

    The boards are [vector<vector<char>>], lists of rows; [operator[]] out of
    range is undefined, the fault [OutOfBounds].  [char] is signed.  What the
    program prints is left out. *)

From S2P Require Import Prelude.

(** ** [vector<vector<char>>] *)

Notation matrix := (list (list byte)).

(** [m[i][j]], read and written. *)
Definition at2 (m : matrix) (i j : Z) : option byte :=
  if (0 <=? i) && (0 <=? j) then (m !! Z.to_nat i) ≫= fun r => r !! Z.to_nat j else None.
Definition get2 (m : matrix) (i j : Z) : res byte :=
  match at2 m i j with Some c => Ok c | None => Err OutOfBounds end.
Definition set2 (m : matrix) (i j : Z) (c : byte) : res matrix :=
  match at2 m i j with
  | Some _ => Ok (alter (fun r => <[Z.to_nat j := c]> r) (Z.to_nat i) m)
  | None => Err OutOfBounds
  end.

(** A constant matrix of 9 rows and 9 columns. *)
Definition nine (c : byte) : matrix := replicate 9 (replicate 9 c).

(** The indices [0 .. 8], and the pairs in the order of the nested loops. *)
Definition upto9 : list Z := Z.of_nat <$> seq 0 9.
Definition cells : list (Z * Z) := upto9 ≫= fun i => (fun j => (i, j)) <$> upto9.

Module Sudoku.

Record t := mk {
  board_ : matrix;
  rows_ : matrix;
  cols_ : matrix;
  blocks_ : matrix;
  solved_ : bool
}.

Definition init : t := mk (nine x30) (nine x30) (nine x30) (nine x30) false.

Definition dot : byte := x2e.

(** [char] to [int]: signed. *)
Definition to_int (c : byte) : Z := if byte_val c <? 128 then byte_val c else byte_val c - 256.

Definition set_board (s : t) (b : matrix) : t := mk b (rows_ s) (cols_ s) (blocks_ s) (solved_ s).
Definition set_records (s : t) (r c b : matrix) : t := mk (board_ s) r c b (solved_ s).
Definition set_solved (s : t) (b : bool) : t := mk (board_ s) (rows_ s) (cols_ s) (blocks_ s) b.

(** The loop of [update] over the cells, [si] counting along the string. *)
Fixpoint fill (b : matrix) (ps : list (Z * Z)) (s : list byte) : res matrix :=
  match ps, s with
  | [], _ => Ok b
  | (i, j) :: ps, c :: s =>
      b ← set2 b i j c ;
      b ← (if bool_decide (c = x30) then set2 b i j dot else Ok b) ;
      fill b ps s
  | _ :: _, [] => Err OutOfBounds
  end.

Definition update (u : t) (s : list byte) : res t :=
  if zlen s <? 81 then Ok u
  else
    b ← fill (board_ u) cells s ;
    Ok (mk b (rows_ u) (cols_ u) (blocks_ u) false).

Definition new (s : list byte) : res t := update init s.

(** The loop of [result]. *)
Fixpoint read (b : matrix) (ps : list (Z * Z)) : res (list byte) :=
  match ps with
  | [] => Ok []
  | (i, j) :: ps => c ← get2 b i j ; l ← read b ps ; Ok (c :: l)
  end.

Definition result (u : t) : res (list byte) :=
  if solved_ u then read (board_ u) cells else Ok [].

Definition bidx (i j : Z) : Z := (i / 3) * 3 + j / 3.

(** [rows_[i][idx] != '0' || cols_[j][idx] != '0' || blocks_[bidx][idx] != '0'] *)
Definition taken (u : t) (i j idx : Z) : res bool :=
  r ← get2 (rows_ u) i idx ;
  if negb (bool_decide (r = x30)) then Ok true
  else
    c ← get2 (cols_ u) j idx ;
    if negb (bool_decide (c = x30)) then Ok true
    else
      b ← get2 (blocks_ u) (bidx i j) idx ;
      Ok (negb (bool_decide (b = x30))).

(** The three records of a cell and a digit, set to [c]. *)
Definition record (u : t) (i j idx : Z) (c : byte) : res t :=
  r ← set2 (rows_ u) i idx c ;
  cs ← set2 (cols_ u) j idx c ;
  b ← set2 (blocks_ u) (bidx i j) idx c ;
  Ok (set_records u r cs b).

Definition curEleValid (u : t) (i j k : Z) : res bool := negb <$> taken u i j (k - 1).
Definition updateRecord (u : t) (i j k : Z) : res t := record u i j (k - 1) x76.
Definition cancelRecord (u : t) (i j k : Z) : res t := record u i j (k - 1) x30.

(** The loops of [isValidSudoku], over the cells in order. *)
Fixpoint valid_from (u : t) (ps : list (Z * Z)) : res (bool * t) :=
  match ps with
  | [] => Ok (true, u)
  | (i, j) :: ps =>
      c ← get2 (board_ u) i j ;
      if bool_decide (c = dot) then valid_from u ps
      else
        let idx := to_int c - 48 - 1 in
        b ← taken u i j idx ;
        if b : bool then Ok (false, u)
        else u ← record u i j idx x76 ; valid_from u ps
  end.

Definition isValidSudoku (u : t) : res (bool * t) := valid_from u cells.

Definition digits : list Z := [1; 2; 3; 4; 5; 6; 7; 8; 9].

(** The loop of [traceback] over the digits; [next] is the call for the cell
    that follows. *)
Fixpoint try_digits (next : t -> res t) (i j : Z) (ks : list Z) (u : t) : res t :=
  match ks with
  | [] => Ok u
  | k :: ks =>
      if solved_ u then Ok u
      else
        v ← curEleValid u i j k ;
        if v : bool then
          b ← set2 (board_ u) i j (byte_of (k + 48)) ;
          u ← updateRecord (set_board u b) i j k ;
          u ← next u ;
          if solved_ u then Ok u
          else
            b ← set2 (board_ u) i j dot ;
            u ← cancelRecord (set_board u b) i j k ;
            try_digits next i j ks u
        else try_digits next i j ks u
  end.

(** [traceback]: the fuel bounds the depth of the recursion. *)
Fixpoint traceback (fuel : nat) (u : t) (i j : Z) : res t :=
  match fuel with
  | O => Err OutOfFuel
  | S fuel =>
      let next u := if j <? 8 then traceback fuel u i (j + 1) else traceback fuel u (i + 1) 0 in
      if solved_ u then Ok u
      else if i =? 9 then Ok (set_solved u true)
      else
        c ← get2 (board_ u) i j ;
        if negb (bool_decide (c = dot)) then next u
        else try_digits next i j digits u
  end.

(** 82 calls deep: one for each cell, and the one that finds [i == 9]. *)
Definition solveSudoku (u : t) : res t :=
  if solved_ u then Ok u
  else
    let u := set_records u (nine x30) (nine x30) (nine x30) in
    p ← isValidSudoku u ;
    let ok : bool := fst p in
    if ok then traceback 82 (snd p) 0 0 else Ok (snd p).

(** ** Matrices *)

Definition dims (m : matrix) : Prop :=
  forall i j, 0 <= i < 9 /\ 0 <= j < 9 <-> is_Some (at2 m i j).

Lemma nine_at c i j : 0 <= i < 9 -> 0 <= j < 9 -> at2 (nine c) i j = Some c.
Proof.
  intros Hi Hj. unfold at2, nine. destruct ((0 <=? i) && (0 <=? j)) eqn:E; [clear E|lia].
  rewrite lookup_replicate_2 by lia. cbn [mbind option_bind]. by rewrite lookup_replicate_2 by lia.
Qed.

Lemma nine_dims c : dims (nine c).
Proof.
  intros i j. split; [intros [Hi Hj]; rewrite nine_at by done; by eexists|].
  intros [x Hx]. unfold at2, nine in Hx. destruct ((0 <=? i) && (0 <=? j)) eqn:E; [|done].
  apply bind_Some in Hx as (r & Hr & Hx). apply lookup_replicate in Hr as [-> Hi].
  apply lookup_replicate in Hx as [_ Hj]. lia.
Qed.

Lemma get2_ok m i j : dims m -> 0 <= i < 9 -> 0 <= j < 9 -> exists c, at2 m i j = Some c /\ get2 m i j = Ok c.
Proof.
  intros Hd Hi Hj. destruct (proj1 (Hd i j) (conj Hi Hj)) as [c E].
  exists c. unfold get2. by rewrite E.
Qed.

Lemma set2_at m i j c m' : set2 m i j c = Ok m' ->
  forall i' j', at2 m' i' j' = if decide (i' = i /\ j' = j) then Some c else at2 m i' j'.
Proof.
  unfold set2. destruct (at2 m i j) as [x|] eqn:E; [|done]. intros [= <-] i' j'.
  unfold at2 in *. destruct ((0 <=? i) && (0 <=? j)) eqn:Hij; [|done].
  apply bind_Some in E as (r & Hr & Hx).
  destruct ((0 <=? i') && (0 <=? j')) eqn:Hij'; [|rewrite decide_False by lia; done].
  destruct (decide (i' = i)) as [->|Hi].
  - rewrite list_lookup_alter_eq, Hr. simpl. destruct (decide (j' = j)) as [->|Hj].
    + rewrite decide_True by done. apply list_lookup_insert_eq. by eapply lookup_lt_Some.
    + rewrite decide_False by tauto. by rewrite list_lookup_insert_ne by lia.
  - rewrite decide_False by tauto. by rewrite list_lookup_alter_ne by lia.
Qed.

Lemma set2_ok m i j c : dims m -> 0 <= i < 9 -> 0 <= j < 9 ->
  exists m', set2 m i j c = Ok m' /\ dims m' /\
    forall i' j', at2 m' i' j' = if decide (i' = i /\ j' = j) then Some c else at2 m i' j'.
Proof.
  intros Hd Hi Hj. destruct (set2 m i j c) as [m'|f] eqn:E.
  - pose proof (set2_at _ _ _ _ _ E) as Ha. exists m'. split_and!; try done.
    intros i' j'. rewrite Ha. case_decide as Hc; [|apply Hd].
    split; [by eexists|]. lia.
  - unfold set2 in E. destruct (proj1 (Hd i j) (conj Hi Hj)) as [x Ex]. by rewrite Ex in E.
Qed.

(** Writing back what was there. *)
Lemma set2_restore m i j c x m' :
  at2 m i j = Some x -> set2 m i j c = Ok m' -> set2 m' i j x = Ok m.
Proof.
  intros Hx E. pose proof (set2_at _ _ _ _ _ E i j) as Ha. rewrite decide_True in Ha by done.
  unfold set2 in *. rewrite Hx in E. injection E as <-. rewrite Ha. f_equal.
  unfold at2 in Hx. destruct (_ && _); [|done]. apply bind_Some in Hx as (r & Hr & Hx).
  rewrite list_alter_alter_eq. rewrite <- (list_alter_id id m (Z.to_nat i)) at 2 by done.
  apply list_alter_ext; [|done]. intros r' Hr'. replace r' with r by congruence. simpl.
  by rewrite list_insert_insert_eq, list_insert_id.
Qed.

(** ** Digits *)

Definition digit (k : Z) : byte := byte_of (k + 48).

Lemma digit_val k : 1 <= k <= 9 -> byte_val (digit k) = k + 48.
Proof. intros Hk. unfold digit. rewrite byte_val_of. apply Z.mod_small. lia. Qed.

Lemma digit_int k : 1 <= k <= 9 -> to_int (digit k) = k + 48.
Proof. intros Hk. unfold to_int. rewrite digit_val by done. case_match; lia. Qed.

Lemma digit_dot k : 1 <= k <= 9 -> digit k <> dot.
Proof. intros Hk E. pose proof (digit_val k Hk) as H. rewrite E in H. vm_compute (byte_val dot) in H. lia. Qed.

Lemma digit_inj k k' : 1 <= k <= 9 -> 1 <= k' <= 9 -> digit k = digit k' -> k = k'.
Proof. intros H H' E. apply (f_equal byte_val) in E. rewrite !digit_val in E by done. lia. Qed.

(** ** Grids and completions *)

Definition in_grid (p : Z * Z) : Prop := 0 <= p.1 < 9 /\ 0 <= p.2 < 9.

(** The row, the column and the block of a cell. *)
Inductive unit_of : (Z * Z -> Z) -> Prop :=
  | row_unit : unit_of fst
  | col_unit : unit_of snd
  | block_unit : unit_of (fun p => bidx p.1 p.2).

Definition holds (b : matrix) (p : Z * Z) (k : Z) : Prop :=
  1 <= k <= 9 /\ at2 b p.1 p.2 = Some (digit k).

(** No digit twice in a row, a column or a block. *)
Definition consistent (b : matrix) : Prop :=
  forall f p q k, unit_of f -> in_grid p -> in_grid q -> f p = f q ->
    holds b p k -> holds b q k -> p = q.

Definition full (b : matrix) : Prop := forall p, in_grid p -> exists k, holds b p k.

Definition extends (b g : matrix) : Prop := forall p k, in_grid p -> holds b p k -> holds g p k.

(** A solution of the puzzle [b]. *)
Definition completion (b g : matrix) : Prop := full g /\ consistent g /\ extends b g.

(** Every cell is empty or holds a digit. *)
Definition puzzle (b : matrix) : Prop :=
  dims b /\ forall p, in_grid p -> at2 b p.1 p.2 = Some dot \/ exists k, holds b p k.

Lemma holds_fun b p k k' : holds b p k -> holds b p k' -> k = k'.
Proof. intros [H E] [H' E']. apply digit_inj; try done. congruence. Qed.

Lemma holds_not_dot b p k : holds b p k -> at2 b p.1 p.2 <> Some dot.
Proof. intros [H E] E'. apply (digit_dot k H). congruence. Qed.

Lemma unit_range f p : unit_of f -> in_grid p -> 0 <= f p < 9.
Proof.
  intros [] [H1 H2]; [done|done|]. unfold bidx.
  pose proof (Z.div_le_mono p.1 8 3). pose proof (Z.div_le_mono p.2 8 3).
  pose proof (Z.div_pos p.1 3). pose proof (Z.div_pos p.2 3). change (8 / 3) with 2 in *. lia.
Qed.

Lemma cells_in p : p ∈ cells <-> in_grid p.
Proof.
  destruct p as [i j]. unfold cells, upto9, in_grid. simpl fst. simpl snd. rewrite list_elem_of_bind.
  setoid_rewrite list_elem_of_fmap. split.
  - intros (x & (y & [= -> ->] & (z & -> & Hz)%list_elem_of_fmap) & (w & -> & Hw)).
    rewrite elem_of_seq in *. lia.
  - intros [Hi Hj]. exists i. split; [exists j; split; [done|]|].
    + apply list_elem_of_fmap. exists (Z.to_nat j). rewrite elem_of_seq. lia.
    + exists (Z.to_nat i). rewrite elem_of_seq. lia.
Qed.

(** ** The records *)

(** [m] marks the pairs of [S]. *)
Definition marks (S : Z -> Z -> Prop) (m : matrix) : Prop :=
  dims m /\ forall x k, 0 <= x < 9 -> 1 <= k <= 9 -> at2 m x (k - 1) <> Some x30 <-> S x k.

(** The digits among the cells of [L] in the unit [x] of [f]. *)
Definition seen (b : matrix) (L : list (Z * Z)) (f : Z * Z -> Z) (x k : Z) : Prop :=
  exists p, p ∈ L /\ f p = x /\ holds b p k.

Record marked (u : t) (b : matrix) (L : list (Z * Z)) : Prop := {
  marked_rows : marks (seen b L fst) (rows_ u);
  marked_cols : marks (seen b L snd) (cols_ u);
  marked_blocks : marks (seen b L (fun p => bidx p.1 p.2)) (blocks_ u)
}.

Lemma marks_nine b f : marks (seen b [] f) (nine x30).
Proof.
  split; [apply nine_dims|]. intros x k Hx Hk. rewrite nine_at by lia.
  split; [done|]. intros (p & Hp & _). by apply not_elem_of_nil in Hp.
Qed.

Lemma marks_get S m x k : marks S m -> 0 <= x < 9 -> 1 <= k <= 9 ->
  exists c, get2 m x (k - 1) = Ok c /\ (c <> x30 <-> S x k).
Proof.
  intros [Hd Hm] Hx Hk. destruct (get2_ok m x (k - 1) Hd Hx ltac:(lia)) as (c & E & Hg).
  exists c. split; [done|]. rewrite <- (Hm x k Hx Hk), E. split; congruence.
Qed.

Lemma marks_set S S' m x k : marks S m -> 0 <= x < 9 -> 1 <= k <= 9 ->
  (forall x' k', 0 <= x' < 9 -> 1 <= k' <= 9 -> S' x' k' <-> S x' k' \/ (x' = x /\ k' = k)) ->
  exists m', set2 m x (k - 1) x76 = Ok m' /\ marks S' m'.
Proof.
  intros [Hd Hm] Hx Hk HS. destruct (set2_ok m x (k - 1) x76 Hd Hx ltac:(lia)) as (m' & E & Hd' & Ha).
  exists m'. split; [done|]. split; [done|]. intros x' k' Hx' Hk'. rewrite Ha, HS by done.
  case_decide as Hc; [split; [right; lia|done]|]. rewrite Hm by done. split; [by left|].
  intros [H|H]; [done|]. exfalso. lia.
Qed.

Lemma taken_ok u b L p k : marked u b L -> in_grid p -> 1 <= k <= 9 ->
  exists v, taken u p.1 p.2 (k - 1) = Ok v /\
    (v = true <-> exists f, unit_of f /\ seen b L f (f p) k).
Proof.
  intros HM Hp Hk.
  destruct (marks_get _ _ p.1 k (marked_rows _ _ _ HM) (unit_range _ _ row_unit Hp) Hk) as (r & Er & Hr).
  destruct (marks_get _ _ p.2 k (marked_cols _ _ _ HM) (unit_range _ _ col_unit Hp) Hk) as (c & Ec & Hc).
  destruct (marks_get _ _ (bidx p.1 p.2) k (marked_blocks _ _ _ HM)
    (unit_range _ _ block_unit Hp) Hk) as (d & Ed & Hdd).
  unfold taken. rewrite Er, bind_ret_l. case_bool_decide as Hr0; simpl;
    [|exists true; split; [done|]; split; [|done]; intros _; exists fst; split; [constructor|tauto]].
  rewrite Ec, bind_ret_l. case_bool_decide as Hc0; simpl;
    [|exists true; split; [done|]; split; [|done]; intros _; exists snd; split; [constructor|tauto]].
  rewrite Ed, bind_ret_l. eexists. split; [done|]. case_bool_decide as Hd0; simpl.
  - split; [done|]. intros (f & [] & Hs); simpl in Hs; tauto.
  - split; [|done]. intros _. exists (fun p => bidx p.1 p.2). split; [constructor|]. simpl. tauto.
Qed.

Lemma record_ok u b b' L L' p k : marked u b L -> in_grid p -> 1 <= k <= 9 ->
  (forall f x' k', unit_of f -> 0 <= x' < 9 -> 1 <= k' <= 9 ->
    seen b' L' f x' k' <-> seen b L f x' k' \/ (x' = f p /\ k' = k)) ->
  exists u', record u p.1 p.2 (k - 1) x76 = Ok u' /\ board_ u' = board_ u /\ solved_ u' = solved_ u /\
    marked u' b' L'.
Proof.
  intros [Hr Hc Hb] Hp Hk HS. unfold record.
  destruct (marks_set _ (seen b' L' fst) _ p.1 k Hr (unit_range _ _ row_unit Hp) Hk) as (r & -> & Hr');
    [intros; by apply HS; [constructor|..]|].
  destruct (marks_set _ (seen b' L' snd) _ p.2 k Hc (unit_range _ _ col_unit Hp) Hk) as (c & -> & Hc');
    [intros; by apply HS; [constructor|..]|].
  destruct (marks_set _ (seen b' L' (fun p => bidx p.1 p.2)) _ _ k Hb (unit_range _ _ block_unit Hp) Hk)
    as (d & -> & Hd'); [intros; by apply (HS (fun p => bidx p.1 p.2)); [constructor|..]|].
  eexists. split; [done|]. by split_and!.
Qed.

(** [cancelRecord] undoes [updateRecord] where nothing was recorded. *)
Lemma record_restore u i j idx u' :
  taken u i j idx = Ok false -> record u i j idx x76 = Ok u' -> record u' i j idx x30 = Ok u.
Proof.
  unfold taken, record. intros Ht Hr.
  apply bind_ok in Ht as (r & Er & Ht). case_bool_decide as Hr0; simpl in Ht; [subst r|congruence].
  apply bind_ok in Ht as (c & Ec & Ht). case_bool_decide as Hc0; simpl in Ht; [subst c|congruence].
  apply bind_ok in Ht as (d & Ed & Ht). injection Ht as Ht. apply negb_false_iff in Ht.
  apply bool_decide_eq_true in Ht as ->.
  apply bind_ok in Hr as (mr & Sr & Hr). apply bind_ok in Hr as (mc & Sc & Hr).
  apply bind_ok in Hr as (mb & Sb & Hr). injection Hr as <-. simpl.
  assert (Hat : forall m x y c, get2 m x y = Ok c -> at2 m x y = Some c).
  { intros m x y c. unfold get2. destruct (at2 m x y); congruence. }
  rewrite (set2_restore _ _ _ _ _ _ (Hat _ _ _ _ Er) Sr). simpl.
  rewrite (set2_restore _ _ _ _ _ _ (Hat _ _ _ _ Ec) Sc). simpl.
  rewrite (set2_restore _ _ _ _ _ _ (Hat _ _ _ _ Ed) Sb). simpl. by destruct u.
Qed.

(** ** [isValidSudoku] *)

Definition consistent_on (b : matrix) (L : list (Z * Z)) : Prop :=
  forall f p q k, unit_of f -> p ∈ L -> q ∈ L -> f p = f q -> holds b p k -> holds b q k -> p = q.

Lemma seen_cons b L p k f x k' :
  holds b p k -> seen b (p :: L) f x k' <-> seen b L f x k' \/ (x = f p /\ k' = k).
Proof.
  intros Hp. unfold seen. split.
  - intros (q & [->|Hq]%elem_of_cons & Hf & Hh); [right|left; by exists q].
    split; [done|]. by eapply holds_fun.
  - intros [(q & Hq & H)|[-> ->]]; [exists q|exists p]; (split; [|done]); [by right|by left].
Qed.

Lemma seen_dot b L p f x k :
  at2 b p.1 p.2 = Some dot -> seen b (p :: L) f x k <-> seen b L f x k.
Proof.
  intros Hp. unfold seen. split; intros (q & Hq & Hf & Hh); exists q; (split; [|done]); [|by right].
  apply elem_of_cons in Hq as [->|Hq]; [|done]. by apply holds_not_dot in Hh.
Qed.

Lemma marks_iff S S' m : (forall x k, S x k <-> S' x k) -> marks S m -> marks S' m.
Proof. intros HS [Hd Hm]. split; [done|]. intros. by rewrite Hm, HS. Qed.

Lemma consistent_cons b L p k : consistent_on b L -> holds b p k ->
  ~ (exists f, unit_of f /\ seen b L f (f p) k) -> consistent_on b (p :: L).
Proof.
  intros HC Hp Hn f q r k' Hf Hq Hr Heq Hhq Hhr.
  apply elem_of_cons in Hq as [->|Hq]; apply elem_of_cons in Hr as [->|Hr]; [done| | |by eapply HC].
  - destruct Hn. exists f. split; [done|]. exists r. split_and!; [done|done|].
    by rewrite (holds_fun _ _ _ _ Hp Hhq).
  - destruct Hn. exists f. split; [done|]. exists q. split_and!; [done|done|].
    by rewrite (holds_fun _ _ _ _ Hp Hhr).
Qed.

Lemma valid_from_ok ps : forall u L,
  puzzle (board_ u) -> marked u (board_ u) L -> consistent_on (board_ u) L ->
  NoDup ps -> (forall p, p ∈ ps -> in_grid p /\ p ∉ L) -> (forall p, p ∈ L -> in_grid p) ->
  exists (ok : bool) u', valid_from u ps = Ok (ok, u') /\ board_ u' = board_ u /\ solved_ u' = solved_ u /\
    if ok then exists L', (forall p, p ∈ L' <-> p ∈ L \/ p ∈ ps) /\ marked u' (board_ u) L' /\
      consistent_on (board_ u) L'
    else ~ consistent (board_ u).
Proof.
  induction ps as [|p ps IH]; intros u L Hb HM HC HN Hps HL.
  { exists true, u. split_and!; try done. exists L. split_and!; [|done..].
    intros p. rewrite elem_of_nil. tauto. }
  apply NoDup_cons in HN as [Hp HN]. destruct (Hps p) as [Hg HpL]; [by left|].
  assert (Hps' : forall q, q ∈ ps -> in_grid q /\ q ∉ p :: L).
  { intros q Hq. destruct (Hps q) as [H1 H2]; [by right|]. split; [done|].
    rewrite not_elem_of_cons. split; [intros ->; done|done]. }
  assert (HL' : forall q, q ∈ p :: L -> in_grid q).
  { intros q [->|Hq]%elem_of_cons; [done|by apply HL]. }
  assert (Hin : forall L' : list (Z * Z), (forall q, q ∈ L' <-> q ∈ p :: L \/ q ∈ ps) ->
    forall q, q ∈ L' <-> q ∈ L \/ q ∈ p :: ps).
  { intros L' H q. rewrite H, !elem_of_cons. tauto. }
  destruct p as [i j]. cbn [valid_from]. destruct Hb as [Hd Hb].
  destruct (get2_ok (board_ u) i j Hd) as (c & Ec & Hc); [apply Hg..|]. rewrite Hc, bind_ret_l.
  case_bool_decide as Hdot.
  - subst c. destruct (IH u ((i, j) :: L)) as (ok & u' & E & E1 & E2 & H); try done.
    + destruct HM as [Hr Hcol Hbl]. constructor; (eapply marks_iff; [|done]);
        intros x k; symmetry; by apply seen_dot.
    + intros f q r k Hf Hq Hr Heq Hhq Hhr.
      apply elem_of_cons in Hq as [->|Hq]; [by apply holds_not_dot in Hhq|].
      apply elem_of_cons in Hr as [->|Hr]; [by apply holds_not_dot in Hhr|]. by eapply HC.
    + exists ok, u'. split_and!; try done. destruct ok; [|done].
      destruct H as (L' & Hin' & H). exists L'. split; [by apply Hin|done].
  - destruct (Hb (i, j) Hg) as [H|[k Hk]]; [simpl in H; congruence|]. pose proof Hk as [Hrange Hk'].
    simpl in Hk'. assert (c = digit k) as -> by congruence. rewrite digit_int by done.
    replace (k + 48 - 48 - 1) with (k - 1) by lia. cbv zeta.
    destruct (taken_ok u _ _ (i, j) k HM Hg Hrange) as (v & Ev & Hv). cbn [fst snd] in Ev.
    rewrite Ev, bind_ret_l. destruct v.
    + exists false, u. split_and!; try done. intros Hcons.
      destruct (proj1 Hv eq_refl) as (f & Hf & q & Hq & Hfq & Hhq).
      apply HpL. by rewrite <- (Hcons f q (i, j) k Hf (HL q Hq) Hg Hfq Hhq Hk).
    + destruct (record_ok u (board_ u) (board_ u) L ((i, j) :: L) (i, j) k HM Hg Hrange) as
        (u' & Eu & E1 & E2 & HM'); [intros; by apply seen_cons|]. cbn [fst snd] in Eu.
      rewrite Eu, bind_ret_l. rewrite <- E1 in HM'.
      destruct (IH u' ((i, j) :: L)) as (ok & u2 & E & E3 & E4 & H); rewrite ?E1; try done.
      * by rewrite <- E1.
      * eapply consistent_cons; [done..|]. intros H. by apply Hv in H.
      * exists ok, u2. rewrite E1 in E3, H. rewrite E2 in E4. split_and!; try done.
        destruct ok; [|done]. destruct H as (L' & Hin' & H). exists L'. split; [by apply Hin|done].
Qed.

(** ** [traceback] *)

Record good (u : t) : Prop := {
  good_puzzle : puzzle (board_ u);
  good_consistent : consistent (board_ u);
  good_marked : marked u (board_ u) cells;
  good_unsolved : solved_ u = false
}.

(** The cells before [(i, j)] are full. *)
Definition before (b : matrix) (i j : Z) : Prop :=
  forall p, in_grid p -> p.1 < i \/ (p.1 = i /\ p.2 < j) -> exists k, holds b p k.

(** What a search from [u] gives: a solution, or nothing changed and there is none. *)
Definition searched (u u' : t) : Prop :=
  (solved_ u' = true /\ dims (board_ u') /\ completion (board_ u) (board_ u')) \/
  (u' = u /\ forall g, ~ completion (board_ u) g).

(** Putting a free digit in an empty cell. *)
Lemma place_ok u i j k :
  good u -> in_grid (i, j) -> at2 (board_ u) i j = Some dot -> 1 <= k <= 9 ->
  ~ (exists f, unit_of f /\ seen (board_ u) cells f (f (i, j)) k) ->
  exists b' u', set2 (board_ u) i j (byte_of (k + 48)) = Ok b' /\
    updateRecord (set_board u b') i j k = Ok u' /\ good u' /\ board_ u' = b' /\
    (forall p k', holds b' p k' <-> holds (board_ u) p k' \/ (p = (i, j) /\ k' = k)).
Proof.
  intros [[Hd Hb] HC HM HS] Hg Hdot Hk Hfree.
  destruct (set2_ok (board_ u) i j (digit k) Hd) as (b' & Eb & Hd' & Ha); [apply Hg..|].
  assert (Hh : forall p k', holds b' p k' <-> holds (board_ u) p k' \/ (p = (i, j) /\ k' = k)).
  { intros [x y] k'. unfold holds. cbn [fst snd]. rewrite Ha. case_decide as Hc.
    - destruct Hc as [-> ->]. rewrite Hdot. split.
      + intros [H1 [= H2]]. right. split; [done|]. symmetry. by apply digit_inj.
      + intros [[H1 [= H2]]|[_ ->]]; [|done]. exfalso. by apply (digit_dot k').
    - split; [by left|]. intros [H|[[= -> ->] _]]; [done|]. by destruct Hc. }
  destruct (record_ok (set_board u b') (board_ u) b' cells cells (i, j) k) as (u' & Eu & E1 & E2 & HM').
  { by destruct HM. } { done. } { done. }
  { intros f x' k' Hf Hx Hk'. unfold seen. split.
    - intros (p & Hp & Hfp & [H|[-> ->]]%Hh); [left; by exists p|by right].
    - intros [(p & Hp & Hfp & H)|[-> ->]]; [exists p|exists (i, j)]; rewrite cells_in in *;
        (split; [done|]; split; [done|]); apply Hh; [by left|by right]. }
  exists b', u'. cbn [fst snd] in Eu. split_and!; try done. constructor.
  - rewrite E1. simpl. split; [done|]. intros p Hp. destruct (decide (p = (i, j))) as [->|Hne].
    + right. exists k. apply Hh. by right.
    + destruct (Hb p Hp) as [H|[k' H]]; [left|right; exists k'; apply Hh; by left].
      rewrite Ha. destruct p as [x y]. rewrite decide_False; [done|]. simpl. intros [-> ->]. done.
  - rewrite E1. simpl. intros f p q k' Hf Hp Hq Heq [Hhp|[-> ->]]%Hh [Hhq|[-> ?]]%Hh;
      [by eapply HC| | |done].
    + subst. destruct Hfree. exists f. split; [done|]. exists p. by rewrite cells_in.
    + destruct Hfree. exists f. split; [done|]. exists q. by rewrite cells_in.
  - by rewrite E1.
  - by rewrite E2.
Qed.

Lemma record_board u b i j idx c :
  record (set_board u b) i j idx c = (fun u' => set_board u' b) <$> record u i j idx c.
Proof.
  unfold record. simpl. destruct (set2 (rows_ u) i idx c); [simpl|done].
  destruct (set2 (cols_ u) j idx c); [simpl|done]. by destruct (set2 (blocks_ u) (bidx i j) idx c).
Qed.

Lemma unplace_ok u i j k b' u' :
  at2 (board_ u) i j = Some dot -> taken u i j (k - 1) = Ok false ->
  set2 (board_ u) i j (byte_of (k + 48)) = Ok b' -> updateRecord (set_board u b') i j k = Ok u' ->
  board_ u' = b' ->
  set2 (board_ u') i j dot = Ok (board_ u) /\ cancelRecord (set_board u' (board_ u)) i j k = Ok u.
Proof.
  intros Hdot Ht Eb Eu Hbd. rewrite Hbd. split; [by eapply set2_restore|].
  unfold cancelRecord. rewrite record_board, (record_restore (set_board u b') i j (k - 1) u') by done.
  simpl. by destruct u.
Qed.

Lemma try_ok next i j u :
  good u -> in_grid (i, j) -> at2 (board_ u) i j = Some dot ->
  (forall u', good u' -> extends (board_ u) (board_ u') -> (exists k, holds (board_ u') (i, j) k) ->
    exists u'', next u' = Ok u'' /\ searched u' u'') ->
  forall ks, (forall k, k ∈ ks -> 1 <= k <= 9) ->
    (forall g k, completion (board_ u) g -> holds g (i, j) k -> k ∈ ks) ->
    exists u', try_digits next i j ks u = Ok u' /\ searched u u'.
Proof.
  intros HG Hg Hdot Hnext. induction ks as [|k ks IH]; intros Hks Hall.
  { exists u. split; [done|]. right. split; [done|]. intros g HC.
    destruct (proj1 HC (i, j) Hg) as [k Hk]. by apply Hall, not_elem_of_nil in Hk. }
  assert (Hk : 1 <= k <= 9) by (apply Hks; by left).
  (* when [k] leads nowhere, the others are tried *)
  assert (Hskip : (forall g, completion (board_ u) g -> ~ holds g (i, j) k) ->
    exists u', try_digits next i j ks u = Ok u' /\ searched u u').
  { intros Hno. apply IH; [intros; apply Hks; by right|]. intros g k' HC Hk'.
    assert (Hin := Hall g k' HC Hk'). apply elem_of_cons in Hin as [->|Hin]; [|done].
    exfalso. by apply (Hno g). }
  cbn [try_digits]. rewrite (good_unsolved _ HG). unfold curEleValid.
  destruct (taken_ok u _ _ (i, j) k (good_marked _ HG) Hg Hk) as (v & Ev & Hv). cbn [fst snd] in Ev.
  rewrite Ev. cbn [fmap res_fmap]. rewrite bind_ret_l. destruct v; cbn [negb].
  - apply Hskip. intros g (HF & HC & HE) Hgk.
    destruct (proj1 Hv eq_refl) as (f & Hf & q & Hq & Hfq & Hhq). apply cells_in in Hq.
    assert (q = (i, j)) as -> by (eapply HC; [done|done|done|done|by apply HE|done]).
    by apply holds_not_dot in Hhq.
  - destruct (place_ok u i j k HG Hg Hdot Hk) as (b' & u1 & Eb & Eu & HG1 & Hb1 & Hh).
    { intros H. by apply Hv in H. }
    rewrite Eb, bind_ret_l, Eu, bind_ret_l.
    assert (Hext : extends (board_ u) (board_ u1)) by (intros p k' _ H; rewrite Hb1; apply Hh; by left).
    destruct (Hnext u1 HG1 Hext) as (u2 & En & Hs).
    { exists k. rewrite Hb1. apply Hh. by right. }
    rewrite En, bind_ret_l. destruct Hs as [(Hs & Hd & HF & HC & HE)|[-> Hno]].
    + rewrite Hs. exists u2. split; [done|]. left. split_and!; try done.
      split_and!; try done. intros p k' Hp H. apply HE; [done|]. by apply Hext.
    + rewrite (good_unsolved _ HG1).
      destruct (unplace_ok u i j k b' u1 Hdot Ev Eb Eu Hb1) as [-> Hc]. rewrite bind_ret_l, Hc, bind_ret_l.
      apply Hskip. intros g (HF & HC & HE) Hgk. apply (Hno g). split_and!; try done.
      intros p k' Hp H. rewrite Hb1 in H. apply Hh in H as [H|[-> ->]]; [by apply HE|done].
Qed.

Lemma traceback_ok fuel : forall u i j,
  good u -> 0 <= i <= 9 -> 0 <= j < 9 -> (i = 9 -> j = 0) -> before (board_ u) i j ->
  82 - (9 * i + j) <= Z.of_nat fuel ->
  exists u', traceback fuel u i j = Ok u' /\ searched u u'.
Proof.
  induction fuel as [|fuel IH]; intros u i j HG Hi Hj H9 HB Hfuel; [lia|].
  cbn [traceback]. rewrite (good_unsolved _ HG). destruct (Z.eqb_spec i 9) as [->|Hi9].
  { eexists. split; [done|]. left. split; [done|]. destruct (good_puzzle _ HG) as [Hd _].
    split; [done|]. split; [|split].
    - intros p Hp. apply (HB p Hp). destruct Hp. lia.
    - apply HG.
    - intros p k _ H. exact H. }
  assert (Hg : in_grid (i, j)) by (split; simpl; lia).
  assert (Hnext : forall u', good u' -> extends (board_ u) (board_ u') ->
    (exists k, holds (board_ u') (i, j) k) ->
    exists u'', (if j <? 8 then traceback fuel u' i (j + 1) else traceback fuel u' (i + 1) 0) = Ok u'' /\
      searched u' u'').
  { intros u' HG' HE Hk. assert (HB' : forall p, in_grid p -> p.1 < i \/ (p.1 = i /\ p.2 <= j) ->
      exists k, holds (board_ u') p k).
    { intros p Hp Hlt. destruct (decide (p = (i, j))) as [->|Hne]; [done|].
      destruct (HB p Hp) as [k H]; [|exists k; by apply HE].
      destruct p as [x y]. simpl in *. destruct Hlt as [Hlt|[-> Hlt]]; [by left|right].
      split; [done|]. destruct (decide (y = j)) as [->|]; [done|lia]. }
    destruct (Z.ltb_spec j 8); apply IH; try done; try lia; intros p Hp Hlt; apply HB';
      destruct Hp; try done; lia. }
  destruct (good_puzzle _ HG) as [Hd Hb].
  destruct (get2_ok (board_ u) i j Hd) as (c & Ec & ->); [lia..|]. rewrite bind_ret_l.
  case_bool_decide as Hdot; cbn [negb].
  - subst c. apply try_ok; try done.
    + intros k Hk. unfold digits in Hk. rewrite !elem_of_cons in Hk.
      repeat destruct Hk as [->|Hk]; try lia. by apply not_elem_of_nil in Hk.
    + intros g k _ [Hk _]. unfold digits. rewrite !elem_of_cons. lia.
  - apply Hnext; [done|intros p k _ H; exact H|]. destruct (Hb (i, j) Hg) as [H|H]; [|done].
    simpl in H. congruence.
Qed.

Lemma solved u :
  puzzle (board_ u) -> solved_ u = false ->
  exists u', solveSudoku u = Ok u' /\
    if solved_ u' then dims (board_ u') /\ completion (board_ u) (board_ u')
    else board_ u' = board_ u /\ forall g, ~ completion (board_ u) g.
Proof.
  intros Hb Hs. unfold solveSudoku. rewrite Hs. cbv zeta.
  set (u0 := set_records u (nine x30) (nine x30) (nine x30)).
  destruct (valid_from_ok cells u0 []) as (ok & u1 & E & E1 & E2 & H).
  { done. } { constructor; apply marks_nine. } { intros f p q k _ Hp. by apply not_elem_of_nil in Hp. }
  { apply (bool_decide_unpack _). by vm_compute. }
  { intros p Hp. split; [by apply cells_in|apply not_elem_of_nil]. }
  { intros p Hp. by apply not_elem_of_nil in Hp. }
  unfold isValidSudoku. rewrite E, bind_ret_l. cbn [fst snd]. change (solved_ u0) with (solved_ u) in E2.
  change (board_ u0) with (board_ u) in *. destruct ok.
  - destruct H as (L' & HL & HM & HC).
    assert (Hsame : forall f x k, seen (board_ u) L' f x k <-> seen (board_ u) cells f x k).
    { intros f x k. split; intros (p & Hp & H'); exists p; (split; [|exact H']).
      - apply HL in Hp as [Hp|Hp]; [by apply not_elem_of_nil in Hp|exact Hp].
      - apply HL. right. exact Hp. }
    assert (HG : good u1).
    { constructor; rewrite ?E1; [done| | |congruence].
      - intros f p q k Hf Hp Hq. apply HC; [done|..]; apply HL; right; by apply cells_in.
      - destruct HM as [H1 H2 H3]. constructor; (eapply marks_iff; [|done]); intros; apply Hsame. }
    destruct (traceback_ok 82 u1 0 0 HG) as (u' & Et & Hsr); try lia.
    { intros p Hp Hlt. destruct Hp. lia. }
    exists u'. split; [done|]. unfold searched in Hsr. rewrite E1 in Hsr. destruct Hsr as [(-> & Hd & HC')|[-> Hno]]; [done|].
    rewrite (good_unsolved _ HG). by rewrite E1.
  - exists u1. split; [done|]. rewrite E2, Hs. split; [done|].
    intros g (HF & HC & HE). apply H. intros f p q k Hf Hp Hq Heq Hhp Hhq.
    by eapply HC; [done|done|done|done|apply HE|apply HE].
Qed.

(** C18. The solver is sound and complete, and it returns: on every unsolved puzzle,
    whatever its records hold, [solveSudoku] ends with a solution of it when it
    has one, and otherwise leaves the board as it was, unsolved. *)
Theorem solver_correct u :
  puzzle (board_ u) -> solved_ u = false ->
  exists u', solveSudoku u = Ok u' /\
    if solved_ u' then dims (board_ u') /\ completion (board_ u) (board_ u')
    else board_ u' = board_ u /\ forall g, ~ completion (board_ u) g.
Proof. apply solved. Qed.

(** ** Strings *)

(** The cells of [b] are the characters of [s], with ['0'] for an empty cell. *)
Definition reads (s : list byte) (b : matrix) : Prop :=
  dims b /\ forall n p c, cells !! n = Some p -> s !! n = Some c ->
    at2 b p.1 p.2 = Some (if bool_decide (c = x30) then dot else c).

Definition puzzle_text (s : list byte) : Prop :=
  81 <= zlen s /\ Forall (fun c => c = dot \/ exists k, 0 <= k <= 9 /\ c = digit k) (ztake 81 s).

Definition text (g : matrix) : list byte := omap (fun p => at2 g p.1 p.2) cells.

Lemma board_fill_ok ps : forall s b, dims b -> NoDup ps -> (forall p, p ∈ ps -> in_grid p) ->
  (length ps <= length s)%nat ->
  exists b', fill b ps s = Ok b' /\ dims b' /\
    (forall p, p ∉ ps -> at2 b' p.1 p.2 = at2 b p.1 p.2) /\
    forall n p c, ps !! n = Some p -> s !! n = Some c ->
      at2 b' p.1 p.2 = Some (if bool_decide (c = x30) then dot else c).
Proof.
  induction ps as [|p ps IH]; intros s b Hd HN Hps Hl.
  { exists b. split_and!; try done. }
  destruct s as [|c s]; [simpl in Hl; lia|]. apply NoDup_cons in HN as [Hp HN].
  destruct (Hps p) as [H1 H2]; [by left|]. destruct p as [i j]. simpl in H1, H2. cbn [fill].
  destruct (set2_ok b i j c Hd H1 H2) as (b1 & -> & Hd1 & Ha1). rewrite bind_ret_l.
  assert (Hb2 : exists b2, (if bool_decide (c = x30) then set2 b1 i j dot else Ok b1) = Ok b2 /\
    dims b2 /\ forall i' j', at2 b2 i' j' = if decide (i' = i /\ j' = j) then
      Some (if bool_decide (c = x30) then dot else c) else at2 b i' j').
  { case_bool_decide; [|by exists b1].
    destruct (set2_ok b1 i j dot Hd1 H1 H2) as (b2 & E & Hd2 & Ha2). exists b2. split_and!; try done.
    intros i' j'. rewrite Ha2, Ha1. by case_decide. }
  destruct Hb2 as (b2 & -> & Hd2 & Ha2). rewrite bind_ret_l.
  destruct (IH s b2 Hd2 HN) as (b' & E & Hd' & Hout & Hin).
  { intros p H. apply Hps. by right. } { simpl in Hl. lia. }
  exists b'. split_and!; try done.
  - intros [x y] Hxy. apply not_elem_of_cons in Hxy as [Hne Hxy]. rewrite Hout by done.
    simpl. rewrite Ha2, decide_False; [done|]. intros [-> ->]. done.
  - intros [|n] p d Hn Hc; [|by eapply Hin]. simpl in Hn, Hc. injection Hn as <-. injection Hc as <-.
    rewrite Hout by done. simpl. by rewrite Ha2, decide_True.
Qed.

Lemma new_ok s : puzzle_text s ->
  exists u, new s = Ok u /\ solved_ u = false /\ reads s (board_ u) /\ puzzle (board_ u).
Proof.
  intros [Hl Hs]. unfold new, update. destruct (Z.ltb_spec (zlen s) 81); [lia|].
  destruct (board_fill_ok cells s (nine x30) (nine_dims _)) as (b & E & Hd & _ & Hin).
  { apply (bool_decide_unpack _). by vm_compute. } { intros p Hp. by apply cells_in. }
  { change (length cells) with 81%nat. unfold zlen in Hl. lia. }
  cbn [board_ init]. rewrite E, bind_ret_l. eexists. split; [done|]. split; [done|]. cbn [board_].
  split; [by split|]. split; [done|]. intros p Hp.
  apply cells_in, list_elem_of_lookup in Hp as [n Hn].
  assert (Hn81 : (n < 81)%nat) by (apply lookup_lt_Some in Hn; exact Hn).
  destruct (lookup_lt_is_Some_2 s n) as [c Hc]; [unfold zlen in Hl; lia|].
  rewrite (Hin n p c Hn Hc). rewrite Forall_lookup in Hs.
  destruct (Hs n c) as [->|(k & Hk & ->)].
  { unfold ztake. by rewrite lookup_take_lt by lia. }
  - left. done.
  - destruct (decide (k = 0)) as [->|Hk0]; [left; done|]. right. exists k. split; [lia|].
    rewrite (Hin n p (digit k) Hn Hc). rewrite bool_decide_false; [done|].
    intros E0. apply (f_equal byte_val) in E0. rewrite digit_val in E0 by lia.
    vm_compute (byte_val x30) in E0. lia.
Qed.

Lemma read_ok b ps : dims b -> (forall p, p ∈ ps -> in_grid p) ->
  read b ps = Ok (omap (fun p => at2 b p.1 p.2) ps).
Proof.
  intros Hd. induction ps as [|[i j] ps IH]; intros Hps; [done|]. cbn [read].
  destruct (Hps (i, j)) as [H1 H2]; [by left|].
  destruct (get2_ok b i j Hd H1 H2) as (c & Ec & ->). rewrite bind_ret_l, IH by (intros; apply Hps; by right).
  simpl. by rewrite Ec.
Qed.

(** What the three calls of the server give for a string. *)
Definition answer (s : list byte) : res (list byte) :=
  u ← new s ; u ← solveSudoku u ; result u.

Lemma answered s :
  puzzle_text s ->
  exists b r, reads s b /\ puzzle b /\ answer s = Ok r /\
    ((exists g, completion b g /\ r = text g) \/ (r = [] /\ forall g, ~ completion b g)).
Proof.
  intros Hs. destruct (new_ok s Hs) as (u & E & Hu & Hr & Hb).
  destruct (solved u Hb Hu) as (u' & E' & H).
  exists (board_ u). unfold answer. rewrite E, bind_ret_l, E', bind_ret_l. unfold result.
  destruct (solved_ u').
  - destruct H as [Hd HC]. eexists. split_and!; [done|done|apply read_ok; [done|]; intros p; apply cells_in|].
    left. by exists (board_ u').
  - exists []. split_and!; try done. right. split; [done|]. apply H.
Qed.

(** The class on strings: 81 characters or more that begin with a puzzle are
    answered with the text of one of its solutions, or with the empty string
    when it has none. *)
Theorem answer_correct s :
  puzzle_text s ->
  exists b r, reads s b /\ puzzle b /\ answer s = Ok r /\
    ((exists g, completion b g /\ r = text g) \/ (r = [] /\ forall g, ~ completion b g)).
Proof. apply answered. Qed.

(** ** A concrete puzzle *)

Definition demo_text : list byte :=
  bytes "530070000600195000098000060800060003400803001700020006060000280000419005000080079"%string.

Definition demo_unsolved : t := match new demo_text with Ok u => u | Err _ => init end.

Definition puzzle_textb (s : list byte) : bool :=
  (81 <=? zlen s) && forallb (fun c => bool_decide (c = dot) || ((48 <=? byte_val c) && (byte_val c <=? 57))) (ztake 81 s).

Lemma puzzle_textb_ok s : puzzle_textb s = true -> puzzle_text s.
Proof.
  unfold puzzle_textb. intros [Hl Hs]%andb_true_iff. split; [lia|].
  apply Forall_forall. intros c Hc. rewrite forallb_forall in Hs.
  specialize (Hs c). rewrite <- list_elem_of_In in Hs. specialize (Hs Hc).
  apply orb_true_iff in Hs as [Hs|Hs]; [left; by apply bool_decide_eq_true in Hs|right].
  exists (byte_val c - 48). split; [lia|]. unfold digit.
  replace (byte_val c - 48 + 48) with (byte_val c) by lia. by rewrite byte_of_val.
Qed.

Lemma answer_correct_witness :
  exists b r, reads demo_text b /\ puzzle b /\ answer demo_text = Ok r /\
    ((exists g, completion b g /\ r = text g) \/ (r = [] /\ forall g, ~ completion b g)).
Proof. apply answer_correct. apply puzzle_textb_ok. vm_compute. reflexivity. Defined.

Lemma solver_correct_witness :
  exists u', solveSudoku demo_unsolved = Ok u' /\
    if solved_ u' then dims (board_ u') /\ completion (board_ demo_unsolved) (board_ u')
    else board_ u' = board_ demo_unsolved /\ forall g, ~ completion (board_ demo_unsolved) g.
Proof.
  apply solver_correct; [|vm_compute; reflexivity].
  destruct (new_ok demo_text) as (u & E & _ & _ & H); [apply puzzle_textb_ok; vm_compute; reflexivity|].
  unfold demo_unsolved. rewrite E. exact H.
Defined.

Example demo_answer : answer demo_text =
  Ok (bytes "534678912672195348198342567859761423426853791713924856961537284287419635345286179"%string).
Proof. vm_compute. reflexivity. Qed.

End Sudoku.
