(* ===== verification/SudokuServer.v ===== *)
(** * The message callback of the sudoku server ([examples/sudoku/server.cpp])

    What it does with the connection is the list of its calls, [send] and
    [shutdown]. *)

From S2P Require Import Prelude Buffer Sudoku.

Module SudokuServer.

Definition kCells : Z := 81.
Definition kColon : byte := x3a.

(** The request and its id. *)
Definition split_id (request : list byte) : list byte * list byte :=
  let colon := index_of kColon request in
  if colon =? zlen request then ([], request)
  else (ztake colon request, zdrop (colon + 1) request).

(** What is done with a line. *)
Definition reply (line : list byte) : res (list action) :=
  let id := fst (split_id line) in
  let request := snd (split_id line) in
  if kCells <=? zlen request then
    sudoku ← Sudoku.new request ;
    sudoku ← Sudoku.solveSudoku sudoku ;
    result ← Sudoku.result sudoku ;
    if bool_decide (id = []) then Ok [Send (result ++ Buffer.kCRLF)]
    else Ok [Send (id ++ request ++ Buffer.kCRLF)]
  else Ok [Send (bytes "Bad Request!" ++ Buffer.kCRLF); Shutdown].

(** The loop of [onMessage]: [len] keeps its first value, so each turn takes a
    line or is the last.  The fuel is the number of turns. *)
Fixpoint loop (fuel : nat) (len : Z) (buf : Buffer.t) : res (list action * Buffer.t) :=
  match fuel with
  | O => Err OutOfFuel
  | S fuel =>
      if kCells + 2 <=? len then
        crlf ← Buffer.findCRLF buf ;
        match crlf with
        | Some crlf =>
            request ← Buffer.load buf (Buffer.peek buf) (crlf - Buffer.peek buf) ;
            buf ← Buffer.retrieveUntil buf (crlf + 2) ;
            a ← reply request ;
            r ← loop fuel len buf ;
            Ok (a ++ fst r, snd r)
        | None => Ok ([], buf)
        end
      else Ok ([], buf)
  end.

(** Every turn but the last takes two bytes or more from the buffer. *)
Definition onMessage (buf : Buffer.t) : res (list action * Buffer.t) :=
  let len := Buffer.readableBytes buf in
  loop (S (Z.to_nat len)) len buf.

(** ** What is answered *)

Definition lines (ls : list (list byte)) : list byte := ls ≫= fun l => l ++ Buffer.kCRLF.

(** The answer to a line that is a puzzle. *)
Definition answers (line : list byte) (a : action) : Prop :=
  exists b r, a = Send (r ++ Buffer.kCRLF) /\ Sudoku.reads line b /\ Sudoku.puzzle b /\
    ((exists g, Sudoku.completion b g /\ r = Sudoku.text g) \/
     (r = [] /\ forall g, ~ Sudoku.completion b g)).

(** Lines that are puzzles and nothing else. *)
Definition puzzle_line (line : list byte) : Prop :=
  Sudoku.puzzle_text line /\ kColon ∉ line /\ x0d ∉ line.

Lemma reply_ok line : puzzle_line line -> exists a, reply line = Ok [a] /\ answers line a.
Proof.
  intros (Hp & Hc & _). destruct (Sudoku.answered line Hp) as (b & r & Hr & Hb & Ha & H).
  unfold reply, split_id. rewrite index_of_none, Z.eqb_refl by done. cbn [fst snd].
  unfold kCells. rewrite (proj2 (Z.leb_le 81 (zlen line))) by apply Hp.
  unfold Sudoku.answer in Ha. apply bind_ok in Ha as (u & -> & Ha). rewrite bind_ret_l.
  apply bind_ok in Ha as (u' & -> & Ha). rewrite bind_ret_l, Ha, bind_ret_l.
  eexists. split; [done|]. by exists b, r.
Qed.

Lemma loop_ok tail len : 83 <= len -> Buffer.search Buffer.kCRLF tail = zlen tail ->
  forall ls buf fuel, Forall puzzle_line ls -> Buffer.Inv buf ->
    Buffer.readable buf = lines ls ++ tail -> (length ls < fuel)%nat ->
    exists l buf', loop fuel len buf = Ok (l, buf') /\ Forall2 answers ls l /\
      Buffer.Inv buf' /\ Buffer.readable buf' = tail.
Proof.
  intros Hlen Htail. induction ls as [|line ls IH]; intros buf [|fuel] Hls HI Hb Hf;
    try (simpl in Hf; lia); cbn [loop]; unfold kCells;
    rewrite (proj2 (Z.leb_le (81 + 2) len)) by lia; rewrite Buffer.findCRLF_ok, bind_ret_l by done;
    cbv zeta; rewrite Hb.
  - simpl. rewrite Htail, Z.eqb_refl. exists [], buf. split_and!; [done|constructor|done|done].
  - apply Forall_cons in Hls as [Hline Hls]. cbn [lines mbind list_bind] in *.
    rewrite <- !app_assoc in *.
    destruct (Buffer.first_line line (lines ls ++ tail)) as (H1 & H2 & H3); [apply Hline|].
    pose proof (Buffer.crlf_line buf HI) as Hl. cbv zeta in Hl. fold (lines ls) in *. rewrite Hb in Hl.
    rewrite H1. destruct Hl as [Hl (b1 & E1 & HI1 & Hb1)]; [by apply Z.eqb_neq|].
    rewrite Hl, bind_ret_l, E1, bind_ret_l, H2.
    destruct (reply_ok line Hline) as (a & -> & Ha). rewrite bind_ret_l.
    destruct (IH b1 fuel Hls HI1) as (l & b2 & -> & HF & HI2 & Hb2); [by rewrite Hb1|simpl in Hf; lia|].
    rewrite bind_ret_l. exists (a :: l), b2. split_and!; [done|by constructor|done|done].
Qed.

(** A message that is made of puzzles, a line each, and the beginning of
    another line is answered line by line in order, each with a solution or,
    when it has none, with an empty line; the callback returns and keeps the
    unfinished line. *)
Theorem puzzles_answered buf ls tail :
  Buffer.Inv buf -> Buffer.readable buf = lines ls ++ tail ->
  Forall puzzle_line ls -> ls <> [] -> Buffer.search Buffer.kCRLF tail = zlen tail ->
  exists l buf', onMessage buf = Ok (l, buf') /\ Forall2 answers ls l /\
    Buffer.Inv buf' /\ Buffer.readable buf' = tail.
Proof.
  intros HI Hb Hls Hne Htail. unfold onMessage.
  assert (Hlen : Buffer.readableBytes buf = zlen (lines ls) + zlen tail).
  { rewrite Buffer.readableBytes_len, Hb by done. apply zlen_app. }
  assert (Hlines : Z.of_nat (length ls) <= zlen (lines ls) /\ (ls <> [] -> 83 <= zlen (lines ls))).
  { clear Hb Hne Hlen. induction Hls as [|line ls [[Hp _] _] Hls [IH _]]; [done|].
    cbn [lines mbind list_bind length]. fold (lines ls). rewrite !zlen_app.
    change (zlen Buffer.kCRLF) with 2. pose proof (zlen_nonneg (lines ls)). split; [|intros _]; lia. }
  destruct Hlines as [Hl H83]. specialize (H83 Hne). pose proof (zlen_nonneg tail).
  apply loop_ok; [lia|done|done|done|done|lia].
Qed.

(** A request with an id is not answered with the solution: the puzzle itself
    comes back behind the id, without the colon, once it has been solved. *)
Theorem id_request_echoed id puzzle buf :
  id <> [] -> kColon ∉ id -> x0d ∉ id -> x0d ∉ puzzle -> Sudoku.puzzle_text puzzle ->
  Buffer.Inv buf -> Buffer.readable buf = id ++ [kColon] ++ puzzle ++ Buffer.kCRLF ->
  exists buf', onMessage buf = Ok ([Send (id ++ puzzle ++ Buffer.kCRLF)], buf') /\
    Buffer.readable buf' = [].
Proof.
  intros Hne Hc Hr Hr' Hp HI Hb. unfold onMessage.
  set (line := id ++ [kColon] ++ puzzle).
  assert (Hno : x0d ∉ line).
  { unfold line. rewrite !not_elem_of_app. split_and!; [done| |done].
    rewrite list_elem_of_singleton. discriminate. }
  assert (Hl : Buffer.readable buf = line ++ Buffer.kCRLF ++ []).
  { rewrite Hb, app_nil_r. unfold line. by rewrite <- !app_assoc. }
  assert (Hlen : 83 <= Buffer.readableBytes buf).
  { rewrite Buffer.readableBytes_len, Hb, !zlen_app by done. destruct Hp as [Hp _].
    change (zlen Buffer.kCRLF) with 2. pose proof (zlen_nonneg id). pose proof (zlen_nonneg [kColon]). lia. }
  assert (Hfuel : (0 < Z.to_nat (Buffer.readableBytes buf))%nat) by lia.
  revert Hfuel. generalize (Z.to_nat (Buffer.readableBytes buf)). intros fuel Hfuel.
  destruct (Buffer.first_line line [] Hno) as (H1 & H2 & H3).
  pose proof (Buffer.crlf_line buf HI) as HL. cbv zeta in HL. rewrite Hl in HL.
  destruct HL as [HL (b1 & E1 & HI1 & Hb1)]; [by apply Z.eqb_neq|].
  cbn [loop]. unfold kCells. rewrite (proj2 (Z.leb_le (81 + 2) _)) by lia.
  rewrite Buffer.findCRLF_ok, bind_ret_l by done. cbv zeta. rewrite Hl, H1.
  rewrite HL, bind_ret_l, E1, bind_ret_l, H2.
  assert (Hrep : reply line = Ok [Send (id ++ puzzle ++ Buffer.kCRLF)]).
  { unfold reply, split_id, line. cbn [app]. rewrite index_of_app by done.
    replace (zlen id =? zlen (id ++ kColon :: puzzle)) with false.
    2:{ symmetry. apply Z.eqb_neq. rewrite zlen_app, zlen_cons. pose proof (zlen_nonneg puzzle). lia. }
    cbn [fst snd]. rewrite ztake_app_zlen, zdrop_app_ge by lia.
    replace (zlen id + 1 - zlen id) with 1 by lia. change (zdrop 1 (kColon :: puzzle)) with puzzle.
    unfold kCells. rewrite (proj2 (Z.leb_le 81 _)) by apply Hp.
    destruct (Sudoku.answered puzzle Hp) as (b & r & _ & _ & Ha & _).
    unfold Sudoku.answer in Ha. apply bind_ok in Ha as (u & -> & Ha). rewrite bind_ret_l.
    apply bind_ok in Ha as (u' & -> & Ha). rewrite bind_ret_l, Ha, bind_ret_l.
    by rewrite bool_decide_false. }
  rewrite Hrep, bind_ret_l. rewrite H3 in Hb1.
  destruct (loop_ok [] (Buffer.readableBytes buf) Hlen eq_refl [] b1 fuel) as (l & b2 & E & HF & _ & Hb2);
    [constructor|done|done|exact Hfuel|].
  apply Forall2_nil_inv_l in HF as ->.
  rewrite E, bind_ret_l. by exists b2.
Qed.

(** ** Concrete messages *)

Lemma puzzles_answered_witness :
  let buf := Buffer.buffer_of (lines [Sudoku.demo_text; Sudoku.demo_text] ++ bytes "5300"%string) in
  exists l buf', onMessage buf = Ok (l, buf') /\
    Forall2 answers [Sudoku.demo_text; Sudoku.demo_text] l /\
    Buffer.Inv buf' /\ Buffer.readable buf' = bytes "5300"%string.
Proof.
  assert (Hp : puzzle_line Sudoku.demo_text).
  { split; [apply Sudoku.puzzle_textb_ok; vm_compute; reflexivity|].
    split; apply (bool_decide_unpack _); vm_compute; exact I. }
  apply puzzles_answered.
  - apply Buffer.buffer_of_ok. vm_compute. reflexivity.
  - vm_compute. reflexivity.
  - constructor; [exact Hp|]. constructor; [exact Hp|]. constructor.
  - discriminate.
  - vm_compute. reflexivity.
Defined.

Lemma id_request_echoed_witness :
  let buf := Buffer.buffer_of (bytes "a:"%string ++ Sudoku.demo_text ++ Buffer.kCRLF) in
  exists buf', onMessage buf = Ok ([Send (bytes "a"%string ++ Sudoku.demo_text ++ Buffer.kCRLF)], buf') /\
    Buffer.readable buf' = [].
Proof.
  apply id_request_echoed.
  - discriminate.
  - apply (bool_decide_unpack _); vm_compute; exact I.
  - apply (bool_decide_unpack _); vm_compute; exact I.
  - apply (bool_decide_unpack _); vm_compute; exact I.
  - apply Sudoku.puzzle_textb_ok. vm_compute. reflexivity.
  - apply Buffer.buffer_of_ok. vm_compute. reflexivity.
  - vm_compute. reflexivity.
Defined.

End SudokuServer.
