(* ===== verification/ProtobufCodec.v ===== *)
(** * ProtobufCodecLite: frames of protobuf messages
      ([examples/protobuf/ProtobufCodecLite.h], [ProtobufCodecLite.cpp])

    The protobuf library and zlib's [adler32] are parameters.  A callback the
    codec calls is recorded; the callbacks do not touch the buffer. *)

From S2P Require Import Prelude Endian Buffer.

(** ** More on [Buffer] *)

Module BufferFacts.
Import Buffer.

Lemma ensure_reader b len b' : ensureWritableBytes b len = Ok b' ->
  readerIndex_ b' = readerIndex_ b \/ readerIndex_ b' = kCheapPrepend.
Proof.
  unfold ensureWritableBytes, makeSpace, resize, compact, store. intros E.
  apply bind_ok in E as (b1 & E1 & E). apply bind_ok in E as ([] & _ & E). injection E as <-.
  destruct (writableBytes b <? len); [|injection E1 as <-; by left].
  destruct (_ <? _); [destruct (_ <=? _); [injection E1 as <-; by left|done]|].
  apply bind_ok in E1 as ([] & _ & E). apply bind_ok in E as (d & _ & E).
  apply bind_ok in E as (b2 & _ & E). apply bind_ok in E as ([] & _ & E). injection E as <-. by right.
Qed.

Lemma append_reader b d b' : append b d = Ok b' ->
  readerIndex_ b' = readerIndex_ b \/ readerIndex_ b' = kCheapPrepend.
Proof.
  unfold append, store. intros E. apply bind_ok in E as (b1 & E1 & E). apply ensure_reader in E1.
  destruct (bool_decide _); simpl in E; [|done]. injection E as <-. exact E1.
Qed.

(** Where there is room, [append] writes in place. *)
Lemma append_room b d : Inv b -> zlen d <= size b - writerIndex_ b ->
  (b2 ← store b (beginWrite b) d ; Ok (hasWritten b2 (zlen d))) = append b d.
Proof.
  intros HI Hl. unfold append, ensureWritableBytes. rewrite inv_writableBytes by done.
  destruct (Z.ltb_spec (size b - writerIndex_ b) (zlen d)); [lia|]. rewrite bind_ret_l.
  rewrite inv_writableBytes by done. by rewrite assert_true by lia.
Qed.
End BufferFacts.

Module ProtobufCodecLite.

Definition kHeaderLen : Z := 4.
Definition kChecksumLen : Z := 4.
Definition kMaxMessageLen : Z := 64 * 1024 * 1024.

Inductive ErrorCode :=
  kNoError | kInvalidLengeth | kCheckSumError | kInvalidNameLen | kUnkownMessageType | kParseError.

(** The libraries: a message, and [adler32(adler, buf, len)]. *)
Class Protobuf := {
  Message : Type;
  IsInitialized : Message -> bool;
  ByteSizeLong : Message -> Z;
  SerializeToArray : Message -> list byte;
  ParseFromArray : list byte -> option Message;
  adler32 : Z -> list byte -> Z
}.

Section codec.
Context (h : endianness) `{P : Protobuf}.

(** The callbacks are known by being called; [rawCb_] is tested. *)
Record t := mk {
  tag_ : list byte;
  rawCb_ : option (list byte -> Z -> bool);
  kMinMessageLen : Z
}.

(** The constructor leaves its argument [rawCb] aside, so [rawCb_] is empty. *)
Definition new (tagArg : list byte) (rawCb : option (list byte -> Z -> bool)) : t :=
  mk tagArg None (s32 (zlen tagArg + kChecksumLen)).

Inductive call :=
  | MessageCallback (m : Message) (receiveTime : Z)
  | ErrorCallback (errorCode : ErrorCode).

Definition asInt32 (buf : list byte) : Z := s32 (networkToHost32 h (s32 (mem_val h buf))).

Definition checksum (buf : list byte) : Z := s32 (adler32 1 buf).

(** ** Sending *)

(** The size and the buffer. *)
Definition serializeToBuffer (message : Message) (buf : Buffer.t) : res (Z * Buffer.t) :=
  assert_ (IsInitialized message) ;;
  let byte_size := s32 (ByteSizeLong message) in
  room ← chk32 (byte_size + kChecksumLen) ;
  buf ← Buffer.ensureWritableBytes buf (u64 room) ;
  let d := SerializeToArray message in
  buf ← Buffer.store buf (Buffer.beginWrite buf) d ;
  assert_ (zlen d =? byte_size) ;;
  Ok (byte_size, Buffer.hasWritten buf byte_size).

Definition fillEmptyBuffer (c : t) (buf : Buffer.t) (message : Message) : res Buffer.t :=
  assert_ (Buffer.readableBytes buf =? 0) ;;
  buf ← Buffer.append buf (tag_ c) ;
  p ← serializeToBuffer message buf ;
  let byte_size : Z := fst p in
  let buf := snd p in
  data ← Buffer.load buf (Buffer.peek buf) (s32 (Buffer.readableBytes buf)) ;
  buf ← Buffer.appendInt32 h buf (checksum data) ;
  assert_ (Buffer.readableBytes buf =? u64 (zlen (tag_ c) + byte_size + kChecksumLen)) ;;
  let len := s32 (hostToNetwork32 h (s32 (Buffer.readableBytes buf))) in
  Buffer.prepend buf (mem h 4 (u32 len)).

(** [send], as the bytes [conn->send(&buf)] is given. *)
Definition send (c : t) (message : Message) : res action :=
  buf ← fillEmptyBuffer c Buffer.init message ;
  p ← Buffer.retrieveAsString buf ;
  Ok (Send (fst p)).

(** ** Receiving *)

Definition range (l : list byte) (off n : Z) : res (list byte) :=
  if bool_decide (0 <= off /\ 0 <= n /\ off + n <= zlen l) then Ok (slice off n l) else Err OutOfBounds.

Definition validateChecksum (buf : list byte) (len : Z) : res bool :=
  e ← range buf (len - kChecksumLen) 4 ;
  d ← range buf 0 (len - kChecksumLen) ;
  Ok (checksum d =? asInt32 e).

(** [parse] up to its closing brace: [error], and the message when it is filled. *)
Definition parse_body (c : t) (buf : list byte) (len : Z) : res (ErrorCode * option Message) :=
  v ← validateChecksum buf len ;
  if v : bool then
    m ← range buf 0 (zlen (tag_ c)) ;
    if bool_decide (m = tag_ c) then
      data ← range buf (zlen (tag_ c)) (len - kChecksumLen - zlen (tag_ c)) ;
      match ParseFromArray data with
      | Some m => Ok (kNoError, Some m)
      | None => Ok (kParseError, None)
      end
    else Ok (kUnkownMessageType, None)
  else Ok (kNoError, None).

(** The function has no [return]: flowing off its end is undefined. *)
Definition parse (c : t) (buf : list byte) (len : Z) : res (ErrorCode * option Message) :=
  r ← parse_body c buf len ;
  let _ := r in Err NoReturn.

(** The loop of [onMessage]; a turn that is not the last takes a whole frame. *)
Fixpoint onMessage (fuel : nat) (c : t) (buf : Buffer.t) (receiveTime : Z) :
    res (list call * Buffer.t) :=
  match fuel with
  | O => Err OutOfFuel
  | S fuel =>
      if negb (u32 (kMaxMessageLen + kHeaderLen) <=? Buffer.readableBytes buf) then Ok ([], buf)
      else
        len ← Buffer.peekInt32 h buf ;
        if (kMaxMessageLen <? len) || (len <? kMinMessageLen c) then
          Ok ([ErrorCallback kInvalidLengeth], buf)
        else if u64 (kHeaderLen + len) <=? Buffer.readableBytes buf then
          frame ← Buffer.load buf (Buffer.peek buf) (kHeaderLen + len) ;
          if (match rawCb_ c with Some cb => negb (cb frame receiveTime) | None => false end) then
            buf ← Buffer.retrieve buf (kHeaderLen + len) ;
            onMessage fuel c buf receiveTime
          else
            l ← Buffer.load buf (Buffer.peek buf + kHeaderLen) len ;
            r ← parse c l len ;
            match r with
            | (kNoError, Some m) =>
                buf ← Buffer.retrieve buf (kHeaderLen + len) ;
                k ← onMessage fuel c buf receiveTime ;
                Ok (MessageCallback m receiveTime :: fst k, snd k)
            | (e, _) => Ok ([ErrorCallback e], buf)
            end
        else Ok ([], buf)
  end.

(** ** Frames *)

(** The message on the wire: the length, the tag, the payload, the checksum. *)
Definition body (c : t) (m : Message) : list byte := tag_ c ++ SerializeToArray m.
Definition framed (c : t) (m : Message) : list byte :=
  body c m ++ be_bytes 4 (checksum (body c m)).
Definition frame (c : t) (m : Message) : list byte :=
  be_bytes 4 (zlen (framed c m)) ++ framed c m.

(** The documented behaviour of the library that the codec relies on. *)
Class ProtobufLaws : Prop := {
  serialize_size : forall m, zlen (SerializeToArray m) = ByteSizeLong m;
  parse_serialize : forall m, ParseFromArray (SerializeToArray m) = Some m
}.
Context `{L : !ProtobufLaws}.

Lemma asInt32_be x : - 2 ^ 31 <= x < 2 ^ 31 -> asInt32 (be_bytes 4 x) = x.
Proof. intros. unfold asInt32. rewrite network_read32. by apply s32_small. Qed.

Lemma checksum_range l : - 2 ^ 31 <= checksum l < 2 ^ 31.
Proof. apply s32_range. Qed.

Lemma serialize_ok m buf :
  Buffer.Inv buf -> IsInitialized m = true -> ByteSizeLong m <= 2 ^ 30 -> Buffer.size buf <= 2 ^ 31 ->
  exists buf', serializeToBuffer m buf = Ok (ByteSizeLong m, buf') /\ Buffer.Inv buf' /\
    Buffer.readable buf' = Buffer.readable buf ++ SerializeToArray m /\
    Buffer.size buf' <= 2 ^ 33 /\
    (Buffer.readerIndex_ buf' = Buffer.readerIndex_ buf \/ Buffer.readerIndex_ buf' = Buffer.kCheapPrepend).
Proof.
  intros HI Hi Hb Hs. pose proof (serialize_size m) as Hz. pose proof (zlen_nonneg (SerializeToArray m)).
  unfold serializeToBuffer. rewrite Hi. cbn [assert_]. rewrite bind_ret_l.
  rewrite s32_small by lia. unfold kChecksumLen. rewrite chk32_in, bind_ret_l, u64_small by lia.
  pose proof HI as (Hr & Hw & Hm).
  pose proof (Buffer.ensureWritableBytes_ok buf (ByteSizeLong m + 4) HI ltac:(unfold max_size; lia)) as He.
  rewrite (proj2 (Z.leb_le (Buffer.writerIndex_ buf + (ByteSizeLong m + 4)) max_size)), orb_true_r in He
    by (unfold max_size; lia).
  destruct He as (b1 & E1 & HI1 & Hb1 & Hroom & Hs1). pose proof (BufferFacts.ensure_reader _ _ _ E1) as Hrd.
  rewrite E1, bind_ret_l.
  pose proof (Buffer.append_ok b1 (SerializeToArray m) HI1 ltac:(unfold max_size; lia)) as Ha.
  assert (Hf : Buffer.fits b1 (zlen (SerializeToArray m)) = true) by (unfold Buffer.fits; lia).
  rewrite Hf in Ha. destruct Ha as (b2 & E2 & HI2 & Hb2 & Hs2).
  rewrite <- BufferFacts.append_room in E2 by (done || lia).
  apply bind_ok in E2 as (b3 & E3 & E2). injection E2 as E2.
  rewrite E3, bind_ret_l, Hz, Z.eqb_refl. cbn [assert_]. rewrite bind_ret_l. rewrite <- Hz, E2.
  exists b2. split_and!; [done|done|by rewrite Hb2, Hb1| |].
  - rewrite Hs2, Hs1. case_match; lia.
  - unfold Buffer.store in E3. case_bool_decide; [|done]. injection E3 as <-. by rewrite <- E2.
Qed.

Lemma append_small b d : Buffer.Inv b -> zlen d <= 2 ^ 34 -> Buffer.size b <= 2 ^ 34 ->
  exists b', Buffer.append b d = Ok b' /\ Buffer.Inv b' /\
    Buffer.readable b' = Buffer.readable b ++ d /\ Buffer.size b' <= Buffer.size b + zlen d /\
    (Buffer.readerIndex_ b' = Buffer.readerIndex_ b \/ Buffer.readerIndex_ b' = Buffer.kCheapPrepend).
Proof.
  intros HI Hd Hs. pose proof HI as (Hr & Hw & Hm). pose proof (zlen_nonneg d).
  pose proof (Buffer.append_ok b d HI ltac:(unfold max_size; lia)) as Ha.
  rewrite (proj2 (Z.leb_le (Buffer.writerIndex_ b + zlen d) max_size)), orb_true_r in Ha
    by (unfold max_size; lia).
  destruct Ha as (b' & E & HI' & Hb & Hsz). exists b'. split_and!; try done.
  - rewrite Hsz. case_match; lia.
  - by eapply BufferFacts.append_reader.
Qed.

Lemma frame_fill_ok c m :
  IsInitialized m = true -> ByteSizeLong m <= 2 ^ 30 -> zlen (tag_ c) <= 2 ^ 20 ->
  exists buf, fillEmptyBuffer c Buffer.init m = Ok buf /\ Buffer.Inv buf /\
    Buffer.readable buf = frame c m.
Proof.
  intros Hi Hb Ht. pose proof (serialize_size m) as Hz. pose proof (zlen_nonneg (SerializeToArray m)).
  pose proof (zlen_nonneg (tag_ c)). unfold fillEmptyBuffer.
  assert (E0 : Buffer.readableBytes Buffer.init = 0) by reflexivity.
  rewrite E0. cbn [Z.eqb assert_]. rewrite bind_ret_l.
  assert (Hsz : Buffer.size Buffer.init = 1032) by reflexivity.
  destruct (append_small Buffer.init (tag_ c) Buffer.buffer_init_inv) as (b1 & -> & HI1 & Hb1 & Hs1 & Hr1);
    [lia..|]. rewrite bind_ret_l. rewrite Buffer.init_readable in Hb1. cbn [app] in Hb1.
  destruct (serialize_ok m b1 HI1 Hi Hb) as (b2 & -> & HI2 & Hb2 & Hs2 & Hr2); [lia|].
  rewrite bind_ret_l. cbn [fst snd]. rewrite Hb1 in Hb2. fold (body c m) in Hb2.
  assert (Hlen : zlen (body c m) = zlen (tag_ c) + ByteSizeLong m)
    by (unfold body; rewrite zlen_app; lia).
  rewrite s32_small by (rewrite Buffer.readableBytes_len, Hb2, Hlen by done; lia).
  rewrite Buffer.load_readable, bind_ret_l, Hb2 by done.
  rewrite appendInt32_bytes.
  destruct (append_small b2 (be_bytes 4 (checksum (body c m))) HI2) as (b3 & -> & HI3 & Hb3 & Hs3 & Hr3);
    [rewrite zlen_be_bytes; lia|lia|]. rewrite bind_ret_l. rewrite Hb2 in Hb3. fold (framed c m) in Hb3.
  assert (Hlf : zlen (framed c m) = zlen (tag_ c) + ByteSizeLong m + 4)
    by (unfold framed; rewrite zlen_app, zlen_be_bytes; lia).
  rewrite Buffer.readableBytes_len, Hb3 by done. unfold kChecksumLen.
  rewrite <- Hlf, u64_small, Z.eqb_refl by lia. cbn [assert_]. rewrite bind_ret_l.
  rewrite (s32_small (zlen (framed c m))) by lia. unfold hostToNetwork32.
  rewrite u32_s32. rewrite (u32_small (zlen (framed c m))) by lia.
  rewrite u32_small by (apply (swap_if_little_range h 4); lia). rewrite mem_swap_if_little.
  pose proof (Buffer.prepend_ok b3 (be_bytes 4 (zlen (framed c m))) HI3 ltac:(rewrite zlen_be_bytes; done)) as Hp.
  rewrite zlen_be_bytes in Hp.
  assert (Hrd : 4 <= Buffer.readerIndex_ b3).
  { assert (Buffer.readerIndex_ Buffer.init = 8) by reflexivity. unfold Buffer.kCheapPrepend in *. lia. }
  rewrite (proj2 (Z.leb_le (Z.of_nat 4) (Buffer.readerIndex_ b3))) in Hp by lia.
  destruct Hp as (b4 & -> & HI4 & Hb4 & _). exists b4. split_and!; try done. by rewrite Hb4, Hb3.
Qed.

Lemma range_ok l off n : 0 <= off -> 0 <= n -> off + n <= zlen l -> range l off n = Ok (slice off n l).
Proof. intros. unfold range. by rewrite bool_decide_true. Qed.

Lemma parse_framed c m : zlen (framed c m) < 2 ^ 31 ->
  parse_body c (framed c m) (zlen (framed c m)) = Ok (kNoError, Some m).
Proof.
  intros Hl. assert (Hlf : zlen (framed c m) = zlen (body c m) + 4)
    by (unfold framed; rewrite zlen_app, zlen_be_bytes; lia).
  pose proof (zlen_nonneg (tag_ c)). pose proof (zlen_nonneg (SerializeToArray m)).
  assert (Hlb : zlen (body c m) = zlen (tag_ c) + zlen (SerializeToArray m))
    by (unfold body; apply zlen_app).
  assert (H1 : slice (zlen (body c m)) 4 (framed c m) = be_bytes 4 (checksum (body c m))).
  { unfold slice, framed. rewrite zdrop_app_ge, Z.sub_diag, zdrop_0 by lia.
    apply ztake_all. by rewrite zlen_be_bytes. }
  assert (H2 : slice 0 (zlen (body c m)) (framed c m) = body c m).
  { rewrite slice_0. unfold framed. apply ztake_app_zlen. }
  assert (H3 : slice 0 (zlen (tag_ c)) (framed c m) = tag_ c).
  { rewrite slice_0. unfold framed, body. rewrite <- app_assoc. apply ztake_app_zlen. }
  assert (H4 : slice (zlen (tag_ c)) (zlen (SerializeToArray m)) (framed c m) = SerializeToArray m).
  { unfold slice, framed, body. rewrite <- app_assoc, zdrop_app_ge, Z.sub_diag, zdrop_0 by lia.
    apply ztake_app_zlen. }
  unfold parse_body, validateChecksum, kChecksumLen. rewrite Hlf.
  replace (zlen (body c m) + 4 - 4) with (zlen (body c m)) by lia.
  rewrite !range_ok by lia. rewrite H1, H2, H3. cbn [mbind res_bind].
  rewrite asInt32_be, Z.eqb_refl, bool_decide_true by (done || apply checksum_range).
  replace (zlen (body c m) - zlen (tag_ c)) with (zlen (SerializeToArray m)) by lia.
  by rewrite H4, parse_serialize.
Qed.

(** C25. Round trip of a frame.  [send] gives the connection the frame of the
    message: its length in network order, the tag, the serialized message and the
    checksum; what follows the length has the announced size, at least
    [kMinMessageLen], and up to its missing [return] [parse] accepts it and
    finds the message again. *)
Theorem frame_roundtrip tagArg rawCb m :
  let c := new tagArg rawCb in
  IsInitialized m = true -> ByteSizeLong m <= 2 ^ 25 -> zlen tagArg <= 2 ^ 20 ->
  send c m = Ok (Send (frame c m)) /\
  (exists l, frame c m = be_bytes 4 (zlen l) ++ l /\ asInt32 (ztake 4 (frame c m)) = zlen l /\
    kMinMessageLen c <= zlen l <= kMaxMessageLen /\
    parse_body c l (zlen l) = Ok (kNoError, Some m)).
Proof.
  intros c Hi Hb Ht. pose proof (serialize_size m). pose proof (zlen_nonneg (SerializeToArray m)).
  pose proof (zlen_nonneg tagArg). assert (Hlf : zlen (framed c m) = zlen tagArg + ByteSizeLong m + 4).
  { unfold framed, body. rewrite !zlen_app, zlen_be_bytes. simpl. lia. }
  split.
  - unfold send. destruct (frame_fill_ok c m Hi) as (buf & -> & HI & Hbuf); [lia|simpl; lia|].
    by rewrite bind_ret_l, Buffer.retrieveAsString_ok, bind_ret_l, Hbuf.
  - exists (framed c m). split; [done|]. split; [|split].
    + unfold frame. replace 4 with (zlen (be_bytes 4 (zlen (framed c m)))) at 1 by apply zlen_be_bytes.
      rewrite ztake_app_zlen. apply asInt32_be. lia.
    + assert (Hk : kMinMessageLen c = zlen tagArg + 4)
        by (unfold c, new, kChecksumLen; cbn [kMinMessageLen]; rewrite s32_small; lia).
      rewrite Hk. unfold kMaxMessageLen. lia.
    + apply parse_framed. lia.
Qed.

Lemma parse_total c l : zlen (tag_ c) + 4 <= zlen l -> exists r, parse_body c l (zlen l) = Ok r.
Proof.
  intros Hl. pose proof (zlen_nonneg (tag_ c)).
  unfold parse_body, validateChecksum, kChecksumLen. rewrite !range_ok by lia.
  cbn [mbind res_bind]. repeat case_match; by eexists.
Qed.

(** A codec as it is constructed never delivers a message.  For every buffer
    one turn of the loop settles it: with less than 64 MiB and 4 bytes waiting
    nothing happens, so a frame of any size that [send] makes waits; with more, a
    length out of range is reported, and any other frame runs into the end of
    [parse], which has no [return]. *)
Theorem codec_never_delivers tagArg rawCb buf receiveTime fuel :
  Buffer.Inv buf -> zlen tagArg <= 2 ^ 20 ->
  let c := new tagArg rawCb in
  let len := asInt32 (ztake 4 (Buffer.readable buf)) in
  onMessage (S fuel) c buf receiveTime =
    if zlen (Buffer.readable buf) <? kMaxMessageLen + kHeaderLen then Ok ([], buf)
    else if (kMaxMessageLen <? len) || (len <? zlen tagArg + kChecksumLen)
      then Ok ([ErrorCallback kInvalidLengeth], buf)
      else Err NoReturn.
Proof.
  intros HI Ht c len. pose proof (zlen_nonneg tagArg). cbn [onMessage].
  rewrite Buffer.readableBytes_len by done. rewrite u32_small by (unfold kMaxMessageLen, kHeaderLen; lia).
  destruct (Z.leb_spec (kMaxMessageLen + kHeaderLen) (zlen (Buffer.readable buf))) as [Hle|Hlt]; cbn [negb];
    [rewrite (proj2 (Z.ltb_ge _ _)) by done|by rewrite (proj2 (Z.ltb_lt _ _))].
  unfold kMaxMessageLen, kHeaderLen, kChecksumLen in *.
  assert (Hk : kMinMessageLen c = zlen tagArg + 4)
    by (unfold c, new, kChecksumLen; cbn [kMinMessageLen]; rewrite s32_small; lia).
  pose proof HI as (Hr & Hw & Hm). pose proof (Buffer.zlen_readable buf HI) as Hz.
  assert (Hp : Buffer.peekInt32 h buf = Ok len).
  { unfold Buffer.peekInt32. rewrite Buffer.readableBytes_len by done. rewrite assert_true by lia.
    cbn [mbind res_bind]. rewrite Buffer.load_ok by (unfold Buffer.peek; lia). rewrite bind_ret_l.
    unfold len, asInt32, Buffer.readable, Buffer.peek. by rewrite ztake_slice by lia. }
  rewrite Hp, bind_ret_l, Hk.
  destruct ((64 * 1024 * 1024 <? len) || (len <? zlen tagArg + 4)) eqn:Hc; [done|].
  rewrite u64_small by lia. rewrite (proj2 (Z.leb_le _ _)) by lia.
  rewrite !Buffer.load_ok by (unfold Buffer.peek; lia). rewrite !bind_ret_l.
  cbn [rawCb_ c new]. set (l := slice _ len _).
  assert (Hl : zlen l = len) by (apply zlen_slice; unfold Buffer.peek, Buffer.size in *; lia).
  destruct (parse_total c l) as [r Hpr]; [rewrite Hl; simpl; lia|]. rewrite Hl in Hpr.
  unfold parse. by rewrite Hpr.
Qed.
End codec.

Definition errorCodeToString (errorCode : ErrorCode) : list byte :=
  match errorCode with
  | kNoError => bytes "NoError"
  | kInvalidLengeth => bytes "InvalidLength"
  | kCheckSumError => bytes "CheckSumError"
  | kInvalidNameLen => bytes "InvalidNameLen"
  | kUnkownMessageType => bytes "UnknownMessageType"
  | kParseError => bytes "ParseError"
  end.

(** [defaultErrorCallback], with [conn && conn->connected()]. *)
Definition defaultErrorCallback (connected : bool) (errorCode : ErrorCode) : list action :=
  if connected then [Shutdown] else [].

(** ** A concrete codec: the messages are short byte strings *)

#[local] Instance demo_protobuf : Protobuf :=
  {| Message := list byte; IsInitialized _ := true; ByteSizeLong m := zlen m;
     SerializeToArray m := m; ParseFromArray l := Some l;
     adler32 a l := foldl (fun s b => (s + byte_val b) mod 65521) a l |}.

#[local] Instance demo_laws : ProtobufLaws.
Proof. by split. Qed.

Definition demo_message : @Message demo_protobuf := bytes "hello".

Lemma frame_roundtrip_witness :
  let c := new (bytes "RPC0") None in
  send Little c demo_message = Ok (Send (frame c demo_message)) /\
  (exists l, frame c demo_message = be_bytes 4 (zlen l) ++ l /\
    asInt32 Little (ztake 4 (frame c demo_message)) = zlen l /\
    kMinMessageLen c <= zlen l <= kMaxMessageLen /\
    parse_body Little c l (zlen l) = Ok (kNoError, Some demo_message)).
Proof.
  intros c. assert (Hi : IsInitialized demo_message = true) by reflexivity.
  assert (Hm : ByteSizeLong demo_message <= 2 ^ 25) by (vm_compute; discriminate).
  assert (Ht : zlen (bytes "RPC0") <= 2 ^ 20) by (vm_compute; discriminate).
  exact (frame_roundtrip Little (bytes "RPC0") None demo_message Hi Hm Ht).
Defined.

Lemma codec_never_delivers_witness :
  let c := new (bytes "RPC0") None in
  let buf := Buffer.buffer_of (frame c demo_message) in
  onMessage Little 1 c buf 0 = Ok ([], buf).
Proof.
  intros c buf. assert (HI : Buffer.Inv buf) by (apply Buffer.buffer_of_ok; vm_compute; reflexivity).
  assert (Ht : zlen (bytes "RPC0") <= 2 ^ 20) by (vm_compute; discriminate).
  exact (codec_never_delivers Little (bytes "RPC0") None buf 0 0 HI Ht).
Defined.

End ProtobufCodecLite.
