(* ===== verification/PersonToy.v ===== *)
(** * The person programs ([examples/protobuftoy/client.cpp], [server.cpp])

    The client sends one serialised [Person] when its connection comes up; the
    server parses what each message brings as a [Person] of its own and prints it.
    The class [Person] is generated by protoc and a parameter: what its
    [SerializeToString] gives, and the object its [ParseFromString] leaves. *)

From S2P Require Import Prelude Buffer.

Module PersonToy.

Class Persons := {
  Person : Type;
  name : Person -> list byte;
  id : Person -> Z;
  SerializeToString : Person -> list byte;
  (* of a new object, whether it succeeds or not *)
  ParseFromString : list byte -> Person;
  parse_serialized : forall p, ParseFromString (SerializeToString p) = p
}.

Section toy.
Context `{P : Persons}.

(** The client's connection callback, with the string made before. *)
Definition client_onConnection (s : list byte) (connected : bool) : list action :=
  if connected then [Send s] else [].

(** The client's message callback prints and empties the buffer. *)
Definition client_onMessage (buf : Buffer.t) : res (list byte * Buffer.t) := Buffer.retrieveAsString buf.

(** The server's: what it prints, a name and a number, and the buffer. *)
Definition server_onMessage (connected : bool) (buf : Buffer.t) : res (option (list byte * Z) * Buffer.t) :=
  if connected then
    r ← Buffer.retrieveAsString buf ;
    let p1 := ParseFromString (fst r) in
    Ok (Some (name p1, id p1), snd r)
  else Ok (None, buf).

(** The messages [ds] arrive one after the other, each with one [readv]. *)
Fixpoint serve (buf : Buffer.t) (ds : list (list byte)) : res (list (list byte * Z) * Buffer.t) :=
  match ds with
  | [] => Ok ([], buf)
  | d :: ds =>
      r ← Buffer.readFd buf (Buffer.RvData d) ;
      s ← server_onMessage true (snd r) ;
      k ← serve (snd s) ds ;
      Ok (match fst s with Some l => l :: fst k | None => fst k end, snd k)
  end.

Lemma serve_ok ds : forall b,
  Buffer.Inv b -> Buffer.readable b = [] -> Forall (fun d => zlen d <= Buffer.kExtraBuf) ds ->
  wp (fun f => f = LengthError) (serve b ds) (fun r =>
    fst r = (fun d => (name (ParseFromString d), id (ParseFromString d))) <$> ds /\
    Buffer.readable (snd r) = []).
Proof.
  induction ds as [|d ds IH]; intros b HI Hb Hd; cbn [serve]; [done|]. apply Forall_cons in Hd as [Hz Hd].
  assert (Hfit : Buffer.rv_fits b (Buffer.RvData d)).
  { unfold Buffer.rv_fits. destruct HI as (_ & Hw & _). lia. }
  pose proof (Buffer.readFd_wp b d HI Hfit) as Hr. destruct (Buffer.readFd _ _) as [r|f]; cbn [wp] in Hr; [|by destruct Hr].
  destruct Hr as (_ & HI1 & Hb1). rewrite bind_ret_l. unfold server_onMessage at 1.
  rewrite Buffer.retrieveAsString_ok, bind_ret_l by done. cbn [fst snd]. rewrite bind_ret_l. cbn [fst snd].
  apply wp_bind. eapply wp_mono.
  - apply IH; [by apply Buffer.retrieveAll_inv|apply Buffer.retrieveAll_readable|done].
  - intros k [Hk1 Hk2]. cbn [wp fst snd fmap list_fmap]. by rewrite Hb1, Hb, Hk1.
Qed.

(** The server has no framing: it prints one line for each message, of what that
    message alone parses to.  So a person that the client sent is printed if it
    comes in a message of its own, and not if it comes in pieces. *)
Theorem person_per_message (ds : list (list byte)) :
  Forall (fun d => zlen d <= Buffer.kExtraBuf) ds ->
  match serve Buffer.init ds with
  | Ok (printed, _) =>
      length printed = length ds /\
      forall i p d, Send d ∈ client_onConnection (SerializeToString p) true -> ds !! i = Some d ->
        printed !! i = Some (name p, id p)
  | Err f => f = LengthError
  end.
Proof.
  intros Hd. pose proof (serve_ok ds Buffer.init Buffer.buffer_init_inv Buffer.init_readable Hd) as H.
  destruct (serve _ _) as [[printed b]|f]; [|exact H]. destruct H as [H _]. cbn [fst] in H. subst printed.
  split; [apply length_fmap|]. intros i p d Hs Hi. unfold client_onConnection in Hs.
  apply list_elem_of_singleton in Hs as [= ->]. rewrite list_lookup_fmap, Hi. cbn. by rewrite parse_serialized.
Qed.
End toy.

(** A person is a name, and its number the length of it; a text that is cut is
    another person. *)
#[local] Program Instance demo_persons : Persons :=
  {| Person := list byte; name p := p; id p := zlen p; SerializeToString p := p; ParseFromString d := d |}.
Next Obligation. done. Qed.

Lemma person_per_message_witness :
  match serve Buffer.init [bytes "chao"; bytes "ch"; bytes "ao"] with
  | Ok (printed, _) => length printed = 3%nat
  | Err f => f = LengthError
  end.
Proof.
  pose proof (person_per_message [bytes "chao"; bytes "ch"; bytes "ao"]) as H.
  assert (Hd : Forall (fun d => zlen d <= Buffer.kExtraBuf) [bytes "chao"; bytes "ch"; bytes "ao"])
    by (repeat constructor; vm_compute; discriminate).
  specialize (H Hd). destruct (serve _ _) as [[printed b]|f]; [exact (proj1 H)|exact H].
Defined.

Example person_cut :
  fst <$> serve Buffer.init [bytes "ch"; bytes "ao"] = Ok [(bytes "ch", 2); (bytes "ao", 2)].
Proof. vm_compute. reflexivity. Qed.

End PersonToy.
