(* ===== verification/Poller.v ===== *)
(** * Poller: the poll(2) poller ([Poller.h], [Poller.cpp])

    The vector of [struct pollfd] with the position of each channel kept in the
    channel's [index_], and the map from descriptors to channels.  The channel
    objects live in [store], as in [EPoller]; [change] is an enabling operation
    of a channel with its [update()].  The array of [::poll]'s answers is an
    input. *)

From S2P Require Import Prelude Channel.

Module Poller.

Record pollfd := mk_pollfd { pfd_fd : Z; pfd_events : Z; pfd_revents : Z }.

Record t := mk {
  store : gmap Z Channel.t;
  pollfds_ : list pollfd;
  channels_ : gmap Z Z
}.

Definition init : t := mk ∅ [] ∅.

Definition channel (w : t) (p : Z) : res Channel.t :=
  match store w !! p with Some c => Ok c | None => Err NullDeref end.
Definition set_channel (w : t) (p : Z) (c : Channel.t) : t :=
  mk (<[p := c]> (store w)) (pollfds_ w) (channels_ w).
Definition set_pollfds (w : t) (l : list pollfd) : t := mk (store w) l (channels_ w).
Definition set_channels (w : t) (m : gmap Z Z) : t := mk (store w) (pollfds_ w) m.

Definition mapped (w : t) (fd : Z) : bool := bool_decide (is_Some (channels_ w !! fd)).
Definition maps_to (w : t) (fd p : Z) : bool := bool_decide (channels_ w !! fd = Some p).

(** [static_cast<short>] *)
Definition s16 (x : Z) : Z := (x + 2 ^ 15) mod 2 ^ 16 - 2 ^ 15.

(** [assert(0 <= idx && idx < size)] and [pollfds_[idx]]. *)
Definition entry (w : t) (idx : Z) : res pollfd :=
  assert_ ((0 <=? idx) && (idx <? zlen (pollfds_ w))) ;;
  match pollfds_ w !! Z.to_nat idx with Some pfd => Ok pfd | None => Err OutOfBounds end.

(** A descriptor that [::poll] ignores, and the one it stands for. *)
Definition ignored (fd : Z) : Z := - fd - 1.
Definition descriptor (fd : Z) : Z := if fd <? 0 then - fd - 1 else fd.

Definition updateChannel (w : t) (p : Z) : res t :=
  c ← channel w p ;
  let fd := Channel.fd_ c in
  if Channel.index_ c <? 0 then
    assert_ (negb (mapped w fd)) ;;
    let l := pollfds_ w ++ [mk_pollfd fd (s16 (Channel.events_ c)) 0] in
    let w := set_pollfds w l in
    let w := set_channel w p (Channel.set_index c (zlen l - 1)) in
    Ok (set_channels w (<[fd := p]> (channels_ w)))
  else
    assert_ (mapped w fd) ;;
    assert_ (maps_to w fd p) ;;
    let idx := Channel.index_ c in
    pfd ← entry w idx ;
    assert_ ((pfd_fd pfd =? fd) || (pfd_fd pfd =? ignored fd)) ;;
    let pfd := mk_pollfd (if Channel.isNoneEvent c then ignored fd else pfd_fd pfd)
                 (s16 (Channel.events_ c)) 0 in
    Ok (set_pollfds w (<[Z.to_nat idx := pfd]> (pollfds_ w))).

(** [std::iter_swap] of the entry at [idx] with the last, and [pop_back]. *)
Definition swap_pop (l : list pollfd) (idx : nat) (pfd last : pollfd) : list pollfd :=
  take (length l - 1) (<[length l - 1 := pfd]> (<[idx := last]> l))%nat.

Definition removeChannel (w : t) (p : Z) : res t :=
  c ← channel w p ;
  let fd := Channel.fd_ c in
  assert_ (mapped w fd) ;;
  assert_ (maps_to w fd p) ;;
  assert_ (Channel.isNoneEvent c) ;;
  let idx := Channel.index_ c in
  pfd ← entry w idx ;
  assert_ ((pfd_fd pfd =? ignored fd) && (pfd_events pfd =? Channel.events_ c)) ;;
  let w := set_channels w (delete fd (channels_ w)) in
  let l := pollfds_ w in
  if idx =? zlen l - 1 then Ok (set_pollfds w (take (length l - 1) l))
  else
    match last l with
    | None => Err OutOfBounds
    | Some back =>
        let channelAtEnd := descriptor (pfd_fd back) in
        let w := set_pollfds w (swap_pop l (Z.to_nat idx) pfd back) in
        match channels_ w !! channelAtEnd with
        | None => Err NullDeref
        | Some q => d ← channel w q ; Ok (set_channel w q (Channel.set_index d idx))
        end
    end.

(** [fillActiveChannels], over the rest of the vector. *)
Fixpoint fillActiveChannels (w : t) (l : list pollfd) (numEvents : Z) : res (list Z * t) :=
  match l with
  | [] => Ok ([], w)
  | pfd :: l =>
      if 0 <? numEvents then
        if 0 <? pfd_revents pfd then
          match channels_ w !! pfd_fd pfd with
          | None => Err AssertFailed
          | Some p =>
              c ← channel w p ;
              assert_ (Channel.fd_ c =? pfd_fd pfd) ;;
              r ← fillActiveChannels (set_channel w p (Channel.set_revents c (pfd_revents pfd)))
                    l (numEvents - 1) ;
              Ok (p :: fst r, snd r)
          end
        else fillActiveChannels w l numEvents
      else Ok ([], w)
  end.

(** What [::poll] writes: [revents] entry by entry. *)
Fixpoint answered (l : list pollfd) (revents : list Z) : list pollfd :=
  match l, revents with
  | pfd :: l, r :: revents => mk_pollfd (pfd_fd pfd) (pfd_events pfd) r :: answered l revents
  | _, _ => l
  end.

Definition poll (w : t) (numEvents : Z) (revents : list Z) : res (list Z * t) :=
  let w := set_pollfds w (answered (pollfds_ w) revents) in
  if 0 <? numEvents then fillActiveChannels w (pollfds_ w) numEvents else Ok ([], w).

(** ** The operations of a channel *)

Definition change (w : t) (i : Channel.interest) (p : Z) : res t :=
  c ← channel w p ;
  updateChannel (set_channel w p (Channel.change i c)) p.

Definition create (w : t) (p fd : Z) : t := set_channel w p (Channel.new fd).

(** ** The abstraction: the descriptors with their events, polled or ignored *)

Definition table (w : t) (fd : Z) : option (bool * Z) :=
  p ← channels_ w !! fd ;
  c ← store w !! p ;
  pfd ← pollfds_ w !! Z.to_nat (Channel.index_ c) ;
  Some (0 <=? pfd_fd pfd, pfd_events pfd).

(** The entry [pfd] at [idx] is that of channel [c]. *)
Definition slot (c : Channel.t) (pfd : pollfd) : Prop :=
  0 <= Channel.fd_ c /\
  (pfd_fd pfd = Channel.fd_ c \/ pfd_fd pfd = ignored (Channel.fd_ c)) /\
  pfd_events pfd = Channel.events_ c /\
  (Channel.isNoneEvent c = true -> pfd_fd pfd = ignored (Channel.fd_ c)).

Record Inv (w : t) : Prop := {
  inv_slot : forall fd p, channels_ w !! fd = Some p ->
    exists c pfd, store w !! p = Some c /\ Channel.fd_ c = fd /\ 0 <= Channel.index_ c /\
      pollfds_ w !! Z.to_nat (Channel.index_ c) = Some pfd /\ slot c pfd;
  inv_entry : forall i pfd, pollfds_ w !! i = Some pfd ->
    exists p c, channels_ w !! descriptor (pfd_fd pfd) = Some p /\ store w !! p = Some c /\
      Channel.index_ c = Z.of_nat i;
  inv_wf : forall p c, store w !! p = Some c -> Channel.wf c
}.

Lemma s16_events c : Channel.wf c -> s16 (Channel.events_ c) = Channel.events_ c.
Proof. intros [->|[->|[->| ->]]]; reflexivity. Qed.

Lemma slot_descriptor c pfd : slot c pfd -> descriptor (pfd_fd pfd) = Channel.fd_ c.
Proof. unfold slot, descriptor, ignored. intros (H & [->| ->] & _); case_match; lia. Qed.

Lemma poller_init_inv : Inv init.
Proof. by split; simpl. Qed.

Lemma entry_ok w idx pfd :
  0 <= idx -> pollfds_ w !! Z.to_nat idx = Some pfd -> entry w idx = Ok pfd.
Proof.
  intros Hi E. pose proof (lookup_lt_Some _ _ _ E) as Hl. unfold entry.
  rewrite assert_true by (unfold zlen; lia). cbn [mbind res_bind]. by rewrite E.
Qed.

Lemma entry_checks w fd p :
  channels_ w !! fd = Some p -> mapped w fd = true /\ maps_to w fd p = true.
Proof.
  intros H. unfold mapped, maps_to. rewrite H. split; apply bool_decide_true; [by eexists|done].
Qed.

(** Two mapped channels at one position are one. *)
Lemma index_inj w fd p c fd' p' c' :
  Inv w -> channels_ w !! fd = Some p -> store w !! p = Some c ->
  channels_ w !! fd' = Some p' -> store w !! p' = Some c' ->
  Channel.index_ c = Channel.index_ c' -> fd = fd' /\ p = p' /\ c = c'.
Proof.
  intros HI H1 H2 H3 H4 He.
  destruct (inv_slot w HI fd p H1) as (c1 & pfd & E1 & F1 & _ & P1 & S1).
  destruct (inv_slot w HI fd' p' H3) as (c2 & pfd' & E2 & F2 & _ & P2 & S2).
  assert (c1 = c) as -> by congruence. assert (c2 = c') as -> by congruence.
  rewrite He, P2 in P1. injection P1 as ->.
  apply slot_descriptor in S1. apply slot_descriptor in S2.
  assert (fd = fd') as -> by congruence. assert (p = p') as -> by congruence. split_and!; congruence.
Qed.

(** The channel at [p] and its entry replaced. *)
Lemma inv_update w p c c' pfd' :
  Inv w -> store w !! p = Some c -> channels_ w !! Channel.fd_ c = Some p ->
  Channel.fd_ c' = Channel.fd_ c -> Channel.index_ c' = Channel.index_ c ->
  Channel.wf c' -> slot c' pfd' ->
  let w' := mk (<[p := c']> (store w))
              (<[Z.to_nat (Channel.index_ c) := pfd']> (pollfds_ w)) (channels_ w) in
  Inv w' /\ forall fd, table w' fd =
    if decide (fd = Channel.fd_ c) then Some (0 <=? pfd_fd pfd', pfd_events pfd') else table w fd.
Proof.
  intros HI Hp Hm Hfd Hidx Hwf Hs w'.
  destruct (inv_slot w HI _ p Hm) as (c1 & pfd & E1 & _ & Hi & P1 & _).
  assert (c1 = c) as -> by congruence. clear E1.
  pose proof (lookup_lt_Some _ _ _ P1) as Hlt.
  (* another mapped channel keeps its entry *)
  assert (Hother : forall fd q, channels_ w !! fd = Some q -> fd <> Channel.fd_ c ->
    exists d pfd0, store w !! q = Some d /\ q <> p /\ Channel.fd_ d = fd /\ 0 <= Channel.index_ d /\
      Z.to_nat (Channel.index_ d) <> Z.to_nat (Channel.index_ c) /\
      pollfds_ w !! Z.to_nat (Channel.index_ d) = Some pfd0 /\ slot d pfd0).
  { intros fd q Hq Hne. destruct (inv_slot w HI fd q Hq) as (d & pfd0 & E & F & Hd & P & S).
    exists d, pfd0. split_and!; try done; [intros ->; congruence|].
    intros Heq. destruct (index_inj w fd q d (Channel.fd_ c) p c HI) as (-> & _); try done. lia. }
  split.
  - split.
    + intros fd q Hq. change (channels_ w !! fd = Some q) in Hq. cbn [store pollfds_ w'].
      destruct (decide (fd = Channel.fd_ c)) as [->|Hne].
      * assert (q = p) as -> by congruence. exists c', pfd'.
        rewrite lookup_insert_eq, Hidx, list_lookup_insert_eq by done. by split_and!.
      * destruct (Hother fd q Hq Hne) as (d & pfd0 & E & Hqp & F & Hd & Hn & P & S).
        exists d, pfd0. rewrite lookup_insert_ne, list_lookup_insert_ne by done. by split_and!.
    + intros i pfd0 Hpf. cbn [pollfds_ w'] in Hpf. cbn [channels_ store w'].
      destruct (decide (i = Z.to_nat (Channel.index_ c))) as [->|Hne].
      * rewrite list_lookup_insert_eq in Hpf by done. injection Hpf as <-.
        rewrite (slot_descriptor c' pfd' Hs), Hfd. exists p, c'. rewrite lookup_insert_eq.
        split_and!; try done. lia.
      * rewrite list_lookup_insert_ne in Hpf by done.
        destruct (inv_entry w HI i pfd0 Hpf) as (q & d & Hq & Hd & Hx). exists q, d.
        rewrite lookup_insert_ne by (intros ->; assert (d = c) as -> by congruence; lia). by split_and!.
    + intros q d. cbn [store w']. intros [[<- <-]|[_ H]]%lookup_insert_Some; [done|]. by eapply inv_wf.
  - intros fd. unfold table. cbn [channels_ store pollfds_ w']. case_decide as Hd.
    + subst fd. rewrite Hm. simpl. rewrite lookup_insert_eq. simpl.
      by rewrite Hidx, list_lookup_insert_eq by done.
    + destruct (channels_ w !! fd) as [q|] eqn:Hq; [simpl|done].
      destruct (Hother fd q Hq Hd) as (d & pfd0 & E & Hqp & F & _ & Hn & P & S).
      rewrite lookup_insert_ne, E by done. simpl. by rewrite list_lookup_insert_ne by done.
Qed.

(** [updateChannel] on a mapped channel. *)
Lemma change_mapped w i p c b ev :
  Inv w -> store w !! p = Some c -> channels_ w !! Channel.fd_ c = Some p ->
  table w (Channel.fd_ c) = Some (b, ev) ->
  exists w', change w i p = Ok w' /\ Inv w' /\ channels_ w' = channels_ w /\
    store w' = <[p := Channel.change i c]> (store w) /\
    forall fd, table w' fd = if decide (fd = Channel.fd_ c)
      then Some (b && negb (Channel.isNoneEvent (Channel.change i c)), Channel.events_ (Channel.change i c))
      else table w fd.
Proof.
  intros HI Hp Hm Ht. destruct (inv_slot w HI _ p Hm) as (c1 & pfd & E1 & _ & Hi & P1 & S1).
  assert (c1 = c) as -> by congruence. clear E1.
  assert (Hb : b = (0 <=? pfd_fd pfd)).
  { unfold table in Ht. rewrite Hm in Ht. simpl in Ht. rewrite Hp in Ht. simpl in Ht.
    rewrite P1 in Ht. simpl in Ht. congruence. }
  set (c' := Channel.change i c).
  assert (Hwf : Channel.wf c') by (apply Channel.change_wf; by eapply inv_wf).
  unfold change, channel. rewrite Hp, bind_ret_l. fold c'. unfold updateChannel, channel.
  cbn [store set_channel]. rewrite lookup_insert_eq, bind_ret_l.
  rewrite (Channel.change_fd i c : Channel.fd_ c' = _), (Channel.change_index i c : Channel.index_ c' = _).
  rewrite (proj2 (Z.ltb_ge _ _)) by done.
  destruct (entry_checks (set_channel w p c') (Channel.fd_ c) p Hm) as [-> ->]. cbn [assert_].
  rewrite !bind_ret_l. rewrite (entry_ok (set_channel w p c') _ pfd) by done. rewrite bind_ret_l.
  destruct S1 as (Hpos & Hfds & Hev & Hn).
  rewrite assert_true by (destruct Hfds as [->| ->]; lia). rewrite bind_ret_l.
  rewrite s16_events by done. eexists. split; [reflexivity|].
  set (pfd' := mk_pollfd _ _ _).
  assert (Hs' : slot c' pfd').
  { unfold slot, pfd'. rewrite (Channel.change_fd i c : Channel.fd_ c' = _). cbn [pfd_fd pfd_events].
    split_and!; [done| |done|]; destruct (Channel.isNoneEvent c'); auto; done. }
  destruct (inv_update w p c c' pfd' HI Hp Hm) as [HI' Htab]; try done.
  split; [exact HI'|]. split_and!; try done. intros fd. rewrite Htab. case_decide; [|done].
  unfold pfd'. cbn [pfd_fd pfd_events]. do 2 f_equal. rewrite Hb.
  destruct (Channel.isNoneEvent c'); simpl; [|by rewrite andb_true_r].
  rewrite andb_false_r. apply Z.leb_gt. unfold ignored. lia.
Qed.

(** [updateChannel] on a channel that was never registered: a new entry. *)
Lemma change_new w i p c :
  Inv w -> store w !! p = Some c -> Channel.index_ c < 0 -> 0 <= Channel.fd_ c ->
  channels_ w !! Channel.fd_ c = None -> Channel.isNoneEvent (Channel.change i c) = false ->
  exists w', change w i p = Ok w' /\ Inv w' /\
    channels_ w' = <[Channel.fd_ c := p]> (channels_ w) /\
    store w' = <[p := Channel.set_index (Channel.change i c) (zlen (pollfds_ w))]> (store w) /\
    forall fd, table w' fd = if decide (fd = Channel.fd_ c)
      then Some (true, Channel.events_ (Channel.change i c)) else table w fd.
Proof.
  intros HI Hp Hi Hpos Hm Hn. set (c' := Channel.change i c) in *.
  assert (Hwf : Channel.wf c') by (apply Channel.change_wf; by eapply inv_wf).
  unfold change, channel. rewrite Hp, bind_ret_l. fold c'. unfold updateChannel, channel.
  cbn [store set_channel]. rewrite lookup_insert_eq, bind_ret_l.
  rewrite (Channel.change_fd i c : Channel.fd_ c' = _), (Channel.change_index i c : Channel.index_ c' = _).
  rewrite (proj2 (Z.ltb_lt _ _)) by done.
  assert (Hmap : mapped (set_channel w p c') (Channel.fd_ c) = false).
  { unfold mapped. apply bool_decide_false. cbn. rewrite Hm. intros [? ?]. done. }
  rewrite Hmap. cbn [negb assert_]. rewrite bind_ret_l. cbv zeta. rewrite s16_events by done.
  set (pfd := mk_pollfd (Channel.fd_ c) (Channel.events_ c') 0).
  cbn [pollfds_ set_channel]. rewrite zlen_app. change (zlen [pfd]) with 1.
  replace (zlen (pollfds_ w) + 1 - 1) with (zlen (pollfds_ w)) by lia.
  set (cn := Channel.set_index c' (zlen (pollfds_ w))).
  eexists. split; [reflexivity|]. unfold set_channels, set_channel, set_pollfds. cbn [store channels_ pollfds_].
  rewrite insert_insert_eq. pose proof (zlen_nonneg (pollfds_ w)).
  assert (Hlast : (pollfds_ w ++ [pfd]) !! Z.to_nat (zlen (pollfds_ w)) = Some pfd).
  { unfold zlen. rewrite Nat2Z.id. by rewrite lookup_app_r, Nat.sub_diag by lia. }
  assert (Hsl : slot cn pfd).
  { split_and!; [done|by left|done|]. intros Hno.
    change (Channel.isNoneEvent cn) with (Channel.isNoneEvent c') in Hno. congruence. }
  (* the registered channels are as before *)
  assert (Hother : forall fd q, channels_ w !! fd = Some q -> fd <> Channel.fd_ c /\
    exists d pfd0, store w !! q = Some d /\ q <> p /\ Channel.fd_ d = fd /\ 0 <= Channel.index_ d /\
      (Z.to_nat (Channel.index_ d) < length (pollfds_ w))%nat /\
      pollfds_ w !! Z.to_nat (Channel.index_ d) = Some pfd0 /\ slot d pfd0).
  { intros fd q Hq. split; [congruence|]. destruct (inv_slot w HI fd q Hq) as (d & pfd0 & E & F & Hd & P & S).
    exists d, pfd0. split_and!; try done; [|by eapply lookup_lt_Some].
    intros ->. assert (d = c) as -> by congruence. lia. }
  split; [|split_and!; try done].
  - split; cbn [store channels_ pollfds_].
    + intros fd q [[<- <-]|[Hne Hq]]%lookup_insert_Some.
      * exists cn, pfd. rewrite lookup_insert_eq. by split_and!.
      * destruct (Hother fd q Hq) as (_ & d & pfd0 & E & Hqp & F & Hd & Hl & P & S). exists d, pfd0.
        rewrite lookup_insert_ne, lookup_app_l by done. by split_and!.
    + intros k pfd0 Hk. apply lookup_app_Some in Hk as [Hk|[Hl Hk]].
      * destruct (inv_entry w HI k pfd0 Hk) as (q & d & Hq & Hd & Hx). exists q, d.
        destruct (Hother _ q Hq) as (Hne & d' & _ & _ & Hqp & _). rewrite !lookup_insert_ne by congruence.
        by split_and!.
      * apply list_lookup_singleton_Some in Hk as [Hk <-].
        rewrite (slot_descriptor cn pfd Hsl). exists p, cn.
        change (Channel.fd_ cn) with (Channel.fd_ c). rewrite !lookup_insert_eq. split_and!; try done.
        cbn. unfold zlen. lia.
    + intros q d [[<- <-]|[_ Hd]]%lookup_insert_Some; [exact Hwf|by eapply inv_wf].
  - intros fd. unfold table. cbn [channels_ store pollfds_]. case_decide as Hd.
    + subst fd. rewrite lookup_insert_eq. simpl. rewrite lookup_insert_eq. simpl. rewrite Hlast. simpl.
      by rewrite (proj2 (Z.leb_le _ _)) by done.
    + rewrite lookup_insert_ne by done. destruct (channels_ w !! fd) as [q|] eqn:Hq; [simpl|done].
      destruct (Hother fd q Hq) as (_ & d & pfd0 & E & Hqp & F & _ & Hl & P & S).
      rewrite lookup_insert_ne, E by done. simpl. by rewrite lookup_app_l by done.
Qed.

(** ** Removal: the last entry takes the place of the removed one *)

(** What the two ways of [removeChannel] have in common: [q], with channel [d],
    is the owner of the last entry. *)
Lemma inv_remove w p c q d back l' s' :
  Inv w -> store w !! p = Some c -> channels_ w !! Channel.fd_ c = Some p ->
  pollfds_ w !! (length (pollfds_ w) - 1)%nat = Some back ->
  channels_ w !! descriptor (pfd_fd back) = Some q -> store w !! q = Some d ->
  Z.to_nat (Channel.index_ d) = (length (pollfds_ w) - 1)%nat ->
  (forall i, l' !! i = if decide (i < length (pollfds_ w) - 1)%nat then
    (if decide (i = Z.to_nat (Channel.index_ c)) then Some back else pollfds_ w !! i) else None) ->
  (forall x, s' !! x = if decide (x = q /\ x <> p) then Some (Channel.set_index d (Channel.index_ c))
    else store w !! x) ->
  let w' := mk s' l' (delete (Channel.fd_ c) (channels_ w)) in
  Inv w' /\ forall fd, table w' fd = if decide (fd = Channel.fd_ c) then None else table w fd.
Proof.
  intros HI Hp Hm Hback Hq Hd Hidx Hl Hs w'. set (n := Z.to_nat (Channel.index_ c)) in *.
  set (m := length (pollfds_ w)) in *.
  destruct (inv_slot w HI _ p Hm) as (c1 & pfd & E1 & _ & Hi & P1 & _).
  assert (c1 = c) as -> by congruence. clear E1. fold n in P1.
  destruct (inv_slot w HI _ q Hq) as (d1 & back1 & E1 & Fd & Hid & P2 & Sd).
  assert (d1 = d) as -> by congruence. clear E1. rewrite Hidx, Hback in P2. injection P2 as <-.
  assert (Hqp : q <> p -> (n < m - 1)%nat).
  { intros Hne. pose proof (lookup_lt_Some _ _ _ P1). fold m in H.
    destruct (decide (n = (m - 1)%nat)) as [He|]; [|lia]. exfalso. apply Hne.
    assert (Channel.index_ d = Channel.index_ c) as Hx by lia.
    by destruct (index_inj w _ q d _ p c HI Hq Hd Hm Hp Hx) as (_ & -> & _). }
  (* the entry of a channel that stays *)
  assert (Hstay : forall fd x, channels_ w !! fd = Some x -> fd <> Channel.fd_ c ->
    exists e e' pfd0, store w !! x = Some e /\ s' !! x = Some e' /\ Channel.fd_ e = fd /\
      0 <= Channel.index_ e' /\ pollfds_ w !! Z.to_nat (Channel.index_ e) = Some pfd0 /\
      l' !! Z.to_nat (Channel.index_ e') = Some pfd0 /\ slot e pfd0 /\
      e' = Channel.set_index e (Channel.index_ e')).
  { intros fd x Hx Hne. destruct (inv_slot w HI fd x Hx) as (e & pfd0 & E & F & He & P & S).
    assert (Hxp : x <> p) by (intros ->; congruence).
    destruct (decide (x = q)) as [->|Hxq].
    - assert (e = d) as -> by congruence. rewrite Hidx, Hback in P. injection P as <-.
      exists d, (Channel.set_index d (Channel.index_ c)), back. rewrite Hs, decide_True by done.
      specialize (Hqp Hxp). cbn [Channel.index_ Channel.set_index]. fold n.
      rewrite Hl, decide_True, decide_True by done. rewrite Hidx. by split_and!.
    - exists e, e, pfd0. rewrite Hs, decide_False by tauto. split_and!; try done; [|by destruct e].
      pose proof (lookup_lt_Some _ _ _ P) as Hlt. fold m in Hlt.
      assert (Z.to_nat (Channel.index_ e) <> (m - 1)%nat).
      { intros Heq. apply Hxq. assert (Channel.index_ e = Channel.index_ d) as Hy by lia.
        by destruct (index_inj w fd x e _ q d HI Hx E Hq Hd Hy) as (_ & -> & _). }
      assert (Z.to_nat (Channel.index_ e) <> n).
      { intros Heq. apply Hxp. assert (Channel.index_ e = Channel.index_ c) as Hy by lia.
        by destruct (index_inj w fd x e _ p c HI Hx E Hm Hp Hy) as (_ & -> & _). }
      by rewrite Hl, decide_True, decide_False by lia. }
  split; [split; unfold w'; cbn [store channels_ pollfds_]|].
  - intros fd x [Hne Hx]%lookup_delete_Some.
    destruct (Hstay fd x Hx) as (e & e' & pfd0 & E & E' & F & He & P & P' & S & Heq); [done|].
    exists e', pfd0. rewrite Heq in *. by split_and!.
  - intros i pfd0 Hi0. rewrite Hl in Hi0. case_decide as Hlt; [|done]. case_decide as Hin.
    + injection Hi0 as <-. subst i. assert (Hne : q <> p).
      { intros ->. assert (d = c) as -> by congruence. unfold n in Hlt. lia. }
      exists q, (Channel.set_index d (Channel.index_ c)).
      rewrite Hs, decide_True, lookup_delete_ne by (done || congruence). split_and!; try done.
      cbn. unfold n. lia.
    + destruct (inv_entry w HI i pfd0 Hi0) as (x & e & Hx & E & Hix). exists x, e.
      assert (x <> p) by (intros ->; assert (e = c) as -> by congruence; unfold n in Hin; lia).
      assert (x <> q) by (intros ->; assert (e = d) as -> by congruence; lia).
      rewrite Hs, decide_False by tauto. rewrite lookup_delete_ne; [by split_and!|]. congruence.
  - intros x e. rewrite Hs. case_decide; [|by eapply inv_wf]. intros [= <-].
    change (Channel.wf d). by eapply inv_wf.
  - intros fd. unfold table, w'. cbn [store channels_ pollfds_]. case_decide as Hfd.
    + subst fd. by rewrite lookup_delete_eq.
    + rewrite lookup_delete_ne by done. destruct (channels_ w !! fd) as [x|] eqn:Hx; [|done].
      destruct (Hstay fd x Hx Hfd) as (e & e' & pfd0 & E & E' & F & He & P & P' & S & Heq).
      simpl. rewrite E, E'. simpl. by rewrite P, P'.
Qed.

Lemma swap_pop_lookup l n pfd back i : (n < length l - 1)%nat ->
  swap_pop l n pfd back !! i = if decide (i < length l - 1)%nat then
    (if decide (i = n) then Some back else l !! i) else None.
Proof.
  intros Hn. unfold swap_pop. case_decide as Hi.
  - rewrite lookup_take_lt, list_lookup_insert_ne by lia. case_decide as He.
    + subst i. apply list_lookup_insert_eq. lia.
    + by rewrite list_lookup_insert_ne.
  - apply lookup_take_ge. lia.
Qed.

Lemma remove_mapped w p c :
  Inv w -> store w !! p = Some c -> channels_ w !! Channel.fd_ c = Some p ->
  Channel.isNoneEvent c = true ->
  exists w', removeChannel w p = Ok w' /\ Inv w' /\
    channels_ w' = delete (Channel.fd_ c) (channels_ w) /\
    store w' !! p = Some c /\
    (forall x, is_Some (store w' !! x) <-> is_Some (store w !! x)) /\
    (forall x e', store w' !! x = Some e' -> exists e, store w !! x = Some e /\
      e' = Channel.set_index e (Channel.index_ e')) /\
    forall fd, table w' fd = if decide (fd = Channel.fd_ c) then None else table w fd.
Proof.
  intros HI Hp Hm Hno. destruct (inv_slot w HI _ p Hm) as (c1 & pfd & E1 & _ & Hi & P1 & S1).
  assert (c1 = c) as -> by congruence. clear E1.
  pose proof (lookup_lt_Some _ _ _ P1) as Hlt.
  destruct (lookup_lt_is_Some_2 (pollfds_ w) (length (pollfds_ w) - 1)) as [back Hback]; [lia|].
  destruct (inv_entry w HI _ back Hback) as (q & d & Hq & Hd & Hidx).
  assert (Hidx' : Z.to_nat (Channel.index_ d) = (length (pollfds_ w) - 1)%nat) by lia.
  unfold removeChannel, channel. rewrite Hp, bind_ret_l.
  destruct (entry_checks w (Channel.fd_ c) p Hm) as [-> ->]. cbn [assert_]. rewrite !bind_ret_l.
  rewrite Hno. cbn [assert_]. rewrite bind_ret_l, (entry_ok w _ pfd), bind_ret_l by done.
  destruct S1 as (Hpos & Hfds & Hev & Hn). rewrite (Hn Hno), Hev, !Z.eqb_refl. cbn [andb assert_].
  rewrite bind_ret_l. cbv zeta. cbn [pollfds_ set_channels].
  destruct (Z.eqb_spec (Channel.index_ c) (zlen (pollfds_ w) - 1)) as [Hlast|Hlast]; unfold zlen in Hlast.
  - assert (Hqp : q = p).
    { assert (Channel.index_ d = Channel.index_ c) as Hx by lia.
      by destruct (index_inj w _ q d _ p c HI Hq Hd Hm Hp Hx) as (_ & -> & _). }
    subst q. destruct (inv_remove w p c p d back (take (length (pollfds_ w) - 1) (pollfds_ w)) (store w)
      HI Hp Hm Hback Hq Hd Hidx') as [HI' Ht].
    { intros i. case_decide as Hlt'; [|apply lookup_take_ge; lia].
      rewrite decide_False by lia. by rewrite lookup_take_lt. }
    { intros x. by rewrite decide_False by tauto. }
    eexists. split; [reflexivity|]. split; [exact HI'|]. split_and!; try done.
    intros x e Hx. exists e. split; [done|]. by destruct e.
  - assert (Hqp : q <> p) by (intros ->; assert (d = c) as -> by congruence; lia).
    rewrite last_lookup. replace (Nat.pred (length (pollfds_ w))) with (length (pollfds_ w) - 1)%nat by lia.
    rewrite Hback. cbn [channels_ set_pollfds set_channels].
    assert (Hfd : descriptor (pfd_fd back) <> Channel.fd_ c) by congruence.
    unfold channel. cbn [channels_ set_pollfds set_channels store].
    rewrite lookup_delete_ne, Hq, Hd, bind_ret_l by congruence.
    set (l' := swap_pop _ _ _ _).
    destruct (inv_remove w p c q d back l'
      (<[q := Channel.set_index d (Channel.index_ c)]> (store w)) HI Hp Hm Hback Hq Hd Hidx') as [HI' Ht].
    { intros i. apply swap_pop_lookup. lia. }
    { intros x. case_decide as Hx; [by destruct Hx as [-> _]; rewrite lookup_insert_eq|].
      rewrite lookup_insert_ne; [done|]. intros ->. tauto. }
    eexists. split; [reflexivity|]. split; [exact HI'|]. split_and!; try done.
    + cbn. by rewrite lookup_insert_ne.
    + intros x. cbn. rewrite lookup_insert_is_Some. split; [intros [->|[_ H]]; [by eexists|done]|].
      intros H. destruct (decide (q = x)); auto.
    + intros x e'. cbn. intros [[<- <-]|[_ Hx]]%lookup_insert_Some; [by exists d|].
      exists e'. split; [done|]. by destruct e'.
Qed.

(** ** [poll] *)

(** The same up to the fields [revents]. *)
Record same (w w' : t) : Prop := {
  same_channels : channels_ w' = channels_ w;
  same_pollfds : forall i, (fun e => (pfd_fd e, pfd_events e)) <$> (pollfds_ w' !! i) =
    (fun e => (pfd_fd e, pfd_events e)) <$> (pollfds_ w !! i);
  same_store : forall x, (fun c => Channel.set_revents c 0) <$> (store w' !! x) =
    (fun c => Channel.set_revents c 0) <$> (store w !! x)
}.

Lemma same_entry w w' i pfd : same w w' -> pollfds_ w' !! i = Some pfd ->
  exists pfd0, pollfds_ w !! i = Some pfd0 /\ pfd_fd pfd0 = pfd_fd pfd /\ pfd_events pfd0 = pfd_events pfd.
Proof.
  intros H E. pose proof (same_pollfds _ _ H i) as Hi. rewrite E in Hi.
  destruct (pollfds_ w !! i) as [pfd0|]; [|done]. injection Hi as H1 H2. by exists pfd0.
Qed.

Lemma same_channel w w' x c : same w w' -> store w' !! x = Some c ->
  exists c0, store w !! x = Some c0 /\ Channel.set_revents c0 0 = Channel.set_revents c 0.
Proof.
  intros H E. pose proof (same_store _ _ H x) as Hx. rewrite E in Hx.
  destruct (store w !! x) as [c0|]; [|done]. apply (inj Some) in Hx. by exists c0.
Qed.

Lemma same_sym w w' : same w w' -> same w' w.
Proof. intros []. by split. Qed.

Lemma same_trans w1 w2 w3 : same w1 w2 -> same w2 w3 -> same w1 w3.
Proof. intros [] []. split; intros; etrans; eauto. Qed.

Lemma revents_fields c c0 : Channel.set_revents c0 0 = Channel.set_revents c 0 ->
  Channel.fd_ c0 = Channel.fd_ c /\ Channel.index_ c0 = Channel.index_ c /\
  Channel.events_ c0 = Channel.events_ c.
Proof. destruct c, c0. unfold Channel.set_revents. simpl. intros [=]. by subst. Qed.

Lemma same_inv w w' : Inv w -> same w w' -> Inv w' /\ forall fd, table w' fd = table w fd.
Proof.
  intros HI HS. pose proof (same_sym _ _ HS) as HS'. split; [split|].
  - intros fd p Hp. rewrite (same_channels _ _ HS) in Hp.
    destruct (inv_slot w HI fd p Hp) as (c & pfd & E & F & Hi & P & S).
    destruct (same_channel _ _ p c HS' E) as (c' & E' & Hc).
    destruct (same_entry _ _ _ pfd HS' P) as (pfd' & P' & Hf & He).
    apply revents_fields in Hc as (H1 & H2 & H3). exists c', pfd'. rewrite H2.
    split_and!; try done; [congruence|]. unfold slot, Channel.isNoneEvent in *.
    by rewrite H1, H3, Hf, He.
  - intros i pfd Hi. destruct (same_entry _ _ _ pfd HS Hi) as (pfd0 & P & Hf & _).
    destruct (inv_entry w HI i pfd0 P) as (p & c & Hp & Hc & Hx).
    destruct (same_channel _ _ p c HS' Hc) as (c' & E' & He). apply revents_fields in He as (_ & H2 & _).
    exists p, c'. rewrite (same_channels _ _ HS), <- Hf. split_and!; try done. congruence.
  - intros p c Hc. destruct (same_channel _ _ p c HS Hc) as (c0 & E & He).
    apply revents_fields in He as (_ & _ & H3). unfold Channel.wf. rewrite <- H3. by eapply inv_wf.
  - intros fd. unfold table. rewrite (same_channels _ _ HS).
    destruct (channels_ w !! fd) as [p|]; [simpl|done].
    pose proof (same_store _ _ HS p) as Hx.
    destruct (store w !! p) as [c|], (store w' !! p) as [c'|]; try done; simpl in *.
    apply (inj Some), revents_fields in Hx as (_ & Hc & _). rewrite Hc. pose proof (same_pollfds _ _ HS (Z.to_nat (Channel.index_ c))) as Hi.
    destruct (pollfds_ w !! _), (pollfds_ w' !! _); try done; simpl in *. congruence.
Qed.

(** The channels of the entries with events, in the order of the vector. *)
Definition active (w : t) (l : list pollfd) : list Z :=
  omap (fun e => if 0 <? pfd_revents e then channels_ w !! pfd_fd e else None) l.

Definition ready (l : list pollfd) : Z := zlen (filter (fun e => 0 < pfd_revents e) l).

Lemma fill_active l : forall w,
  (forall e, e ∈ l -> 0 < pfd_revents e -> exists p c, channels_ w !! pfd_fd e = Some p /\
    store w !! p = Some c /\ Channel.fd_ c = pfd_fd e) ->
  exists w', fillActiveChannels w l (ready l) = Ok (active w l, w') /\ same w w' /\
    pollfds_ w' = pollfds_ w /\
    (forall p, p ∉ active w l -> store w' !! p = store w !! p) /\
    (NoDup (active w l) -> forall e p, e ∈ l -> 0 < pfd_revents e -> channels_ w !! pfd_fd e = Some p ->
      exists c', store w' !! p = Some c' /\ Channel.revents_ c' = pfd_revents e).
Proof.
  unfold ready. induction l as [|e l IH]; intros w Hown; cbn [fillActiveChannels].
  { exists w. split_and!; [done|done|done|done|]. intros _ e p He. by apply not_elem_of_nil in He. }
  assert (Hl : forall e0, e0 ∈ l -> e0 ∈ e :: l) by (intros; by right).
  unfold active in *. cbn [omap list_omap]. rewrite filter_cons.
  destruct (Z.ltb_spec 0 (pfd_revents e)) as [Hr|Hr]; case_decide; try lia.
  - destruct (Hown e) as (p & c & Hp & Hc & Hf); [by left|done|].
    rewrite zlen_cons. set (n := filter _ l) in *. pose proof (zlen_nonneg n).
    rewrite (proj2 (Z.ltb_lt 0 _)) by lia. rewrite Hp. unfold channel. rewrite Hc, bind_ret_l.
    rewrite Hf, Z.eqb_refl. cbn [assert_]. rewrite bind_ret_l.
    replace (1 + zlen n - 1) with (zlen n) by lia.
    set (c1 := Channel.set_revents c (pfd_revents e)). set (w1 := set_channel w p c1).
    assert (HS : same w w1).
    { split; [done|done|]. intros x. cbn. destruct (decide (p = x)) as [<-|].
      - by rewrite lookup_insert_eq, Hc.
      - by rewrite lookup_insert_ne. }
    destruct (IH w1) as (w' & E & HS' & Hpf & Hout & Hin).
    { intros e0 He0 Hr0. destruct (Hown e0) as (p0 & c0 & H1 & H2 & H3); [by right|done|].
      destruct (decide (p = p0)) as [<-|Hne].
      - exists p, c1. assert (c0 = c) as -> by congruence. cbn. by rewrite lookup_insert_eq.
      - exists p0, c0. cbn. by rewrite lookup_insert_ne. }
    rewrite E, bind_ret_l. exists w'. change (channels_ w1) with (channels_ w) in *.
    split_and!; [done|by eapply same_trans|done| |].
    + intros q Hq. apply not_elem_of_cons in Hq as [Hne Hq]. rewrite Hout by done. cbn.
      by rewrite lookup_insert_ne.
    + intros [Hnp Hnd]%NoDup_cons e0 q [->|He0]%elem_of_cons Hr0 Hq; [|by eapply Hin].
      assert (q = p) as -> by congruence. exists c1. split; [|done].
      rewrite Hout by done. cbn. by rewrite lookup_insert_eq.
  - destruct (IH w) as (w' & E & HS & Hpf & Hout & Hin); [intros; apply Hown; auto|].
    exists w'. split_and!; try done.
    + destruct l as [|e1 l]; [|].
      * simpl in *. rewrite <- E. reflexivity.
      * set (n := zlen _) in *. destruct (Z.ltb_spec 0 n); [done|].
        cbn [fillActiveChannels] in E. rewrite (proj2 (Z.ltb_ge _ _)) in E by done. done.
    + intros Hnd e0 q [->|He0]%elem_of_cons Hr0; [lia|by apply Hin].
Qed.

(** ** The poller in use *)

Inductive event :=
  | Create (p fd : Z)
  | Change (i : Channel.interest) (p : Z)
  | Remove (p : Z)
  | Poll (numEvents : Z) (revents : list Z).

(** The active channels, empty for all but [Poll], and the new state. *)
Definition step (w : t) (e : event) : res (list Z * t) :=
  match e with
  | Create p fd => Ok ([], create w p fd)
  | Change i p => w ← change w i p ; Ok ([], w)
  | Remove p => w ← removeChannel w p ; Ok ([], w)
  | Poll numEvents revents => poll w numEvents revents
  end.

(** What the owners of channels and [::poll] do: a channel's first change asks for
    something, a removed channel is not used again, and a channel is removed when
    it asks for nothing; [::poll] gives no events for negative descriptors and
    counts the entries that have some, or fails and writes nothing. *)
Definition allowed (w : t) (e : event) : Prop :=
  match e with
  | Create p fd => store w !! p = None
  | Change i p => exists c, store w !! p = Some c /\
      (channels_ w !! Channel.fd_ c = Some p \/
       (Channel.index_ c < 0 /\ 0 <= Channel.fd_ c /\ channels_ w !! Channel.fd_ c = None /\
        Channel.isNoneEvent (Channel.change i c) = false))
  | Remove p => exists c, store w !! p = Some c /\ channels_ w !! Channel.fd_ c = Some p /\
      Channel.isNoneEvent c = true
  | Poll numEvents revents =>
      let l := answered (pollfds_ w) revents in
      (numEvents = ready l /\ Forall (fun e => 0 < pfd_revents e -> 0 <= pfd_fd e) l) \/
      (numEvents < 0 /\ revents = [])
  end.

(** The specification: a table of descriptors.  A change keeps a descriptor polled
    as long as something is asked for. *)
Definition spec (w : t) (e : event) (fd : Z) : option (bool * Z) :=
  match e with
  | Change i p =>
      match store w !! p with
      | Some c =>
          let c' := Channel.change i c in
          if decide (fd = Channel.fd_ c) then
            match table w fd with
            | Some (b, _) => Some (b && negb (Channel.isNoneEvent c'), Channel.events_ c')
            | None => Some (true, Channel.events_ c')
            end
          else table w fd
      | None => table w fd
      end
  | Remove p =>
      match store w !! p with
      | Some c => if decide (fd = Channel.fd_ c) then None else table w fd
      | None => table w fd
      end
  | _ => table w fd
  end.

(** The channels that [poll] is to report. *)
Definition reported (w : t) (e : event) : list Z :=
  match e with
  | Poll numEvents revents =>
      if 0 <? numEvents then active w (answered (pollfds_ w) revents) else []
  | _ => []
  end.

Lemma answered_same w revents : same w (set_pollfds w (answered (pollfds_ w) revents)).
Proof.
  split; [done| |done]. cbn [pollfds_ set_pollfds]. generalize (pollfds_ w) as l. clear w. intros l. revert revents.
  induction l as [|e l IH]; intros [|r rs] [|i]; simpl; try done.
Qed.

Lemma table_mapped w p c : Inv w -> store w !! p = Some c -> channels_ w !! Channel.fd_ c = Some p ->
  exists b ev, table w (Channel.fd_ c) = Some (b, ev).
Proof.
  intros HI Hp Hm. destruct (inv_slot w HI _ p Hm) as (c1 & pfd & E1 & _ & _ & P1 & _).
  assert (c1 = c) as -> by congruence. unfold table. rewrite Hm. simpl. rewrite Hp. simpl.
  rewrite P1. simpl. by do 2 eexists.
Qed.

Lemma poller_create_inv w p fd : Inv w -> store w !! p = None ->
  Inv (create w p fd) /\ forall fd', table (create w p fd) fd' = table w fd'.
Proof.
  intros HI Hp. assert (Hne : forall q c, store w !! q = Some c -> p <> q) by (intros q c H ->; congruence).
  split; [split|].
  - intros fd' q Hq. destruct (inv_slot w HI fd' q Hq) as (c & pfd & E & H). exists c, pfd. cbn.
    by rewrite lookup_insert_ne by (by eapply Hne).
  - intros i pfd Hi. destruct (inv_entry w HI i pfd Hi) as (q & c & Hq & Hc & Hx). exists q, c. cbn.
    by rewrite lookup_insert_ne by (by eapply Hne).
  - intros q c. cbn. intros [[<- <-]|[_ H]]%lookup_insert_Some; [apply Channel.channel_new_wf|by eapply inv_wf].
  - intros fd'. unfold table. cbn. destruct (channels_ w !! fd') as [q|] eqn:Hq; [simpl|done].
    destruct (inv_slot w HI fd' q Hq) as (c & pfd & E & _). by rewrite lookup_insert_ne by (by eapply Hne).
Qed.

Lemma poll_ok w n revents : Inv w -> allowed w (Poll n revents) ->
  exists w', poll w n revents = Ok (reported w (Poll n revents), w') /\ same w w'.
Proof.
  intros HI Ha. set (l := answered (pollfds_ w) revents). set (w1 := set_pollfds w l).
  pose proof (answered_same w revents : same w w1) as HS.
  destruct (same_inv w w1 HI HS) as [HI1 _].
  unfold poll, reported. fold l w1. destruct (Z.ltb_spec 0 n) as [Hn|Hn]; [|by exists w1].
  destruct Ha as [[-> Ha]|[Hlt _]]; [|lia]. fold l in Ha, Hn |- *.
  change (pollfds_ w1) with l.
  destruct (fill_active l w1) as (w' & E & HS' & _).
  { intros e He Hr. rewrite Forall_forall in Ha. specialize (Ha e He Hr).
    apply list_elem_of_lookup in He as [i Hi].
    destruct (inv_entry w1 HI1 i e Hi) as (p & c & Hp & Hc & _).
    assert (Hd : descriptor (pfd_fd e) = pfd_fd e) by (unfold descriptor; case_match; lia).
    rewrite Hd in Hp. exists p, c. split_and!; [done|done|].
    destruct (inv_slot w1 HI1 _ p Hp) as (c' & _ & Hc' & Hf & _). congruence. }
  exists w'. split; [exact E|by eapply same_trans].
Qed.

Lemma poller_step w e : Inv w -> allowed w e ->
  exists w', step w e = Ok (reported w e, w') /\ Inv w' /\ forall fd, table w' fd = spec w e fd.
Proof.
  intros HI Ha. destruct e as [p fd|i p|p|n revents]; cbn [step reported spec].
  - exists (create w p fd). split; [done|]. by apply poller_create_inv.
  - destruct Ha as (c & Hc & [Hm|(Hi & Hf & Hm & Hn)]); rewrite Hc.
    + destruct (table_mapped w p c HI Hc Hm) as (b & ev & Ht).
      destruct (change_mapped w i p c b ev HI Hc Hm Ht) as (w' & -> & HI' & _ & _ & Htab).
      exists w'. split_and!; [done|done|]. intros fd. rewrite Htab. case_decide as Hd; [|done].
      subst fd. by rewrite Ht.
    + destruct (change_new w i p c HI Hc Hi Hf Hm Hn) as (w' & -> & HI' & _ & _ & Htab).
      exists w'. split_and!; [done|done|]. intros fd. rewrite Htab. case_decide as Hd; [|done].
      subst fd. unfold table. by rewrite Hm.
  - destruct Ha as (c & Hc & Hm & Hn). rewrite Hc.
    destruct (remove_mapped w p c HI Hc Hm Hn) as (w' & -> & HI' & _ & _ & _ & _ & Htab).
    by exists w'.
  - destruct (poll_ok w n revents HI Ha) as (w' & E & HS). exists w'. split; [exact E|].
    by apply same_inv.
Qed.

Inductive reachable : t -> Prop :=
  | reach_init : reachable init
  | reach_step w e l w' : reachable w -> allowed w e -> step w e = Ok (l, w') -> reachable w'.

Lemma poller_reachable_inv w : reachable w -> Inv w.
Proof.
  induction 1 as [|w e l w' _ IH Ha E]; [apply poller_init_inv|].
  destruct (poller_step w e IH Ha) as (w'' & E' & HI & _). congruence.
Qed.

(** C27. The vector with its swap-and-pop removal implements a table of descriptors.
    In every reachable poller each call the owners make returns, no assert failing,
    and changes the table as specified: a change updates the entry of its own
    descriptor only, a removal deletes it only, [poll] leaves the table alone and
    reports the channels of the entries with events in the order of the vector. *)
Theorem poller_refines w e :
  reachable w -> allowed w e ->
  exists w', step w e = Ok (reported w e, w') /\ forall fd, table w' fd = spec w e fd.
Proof.
  intros HR Ha. destruct (poller_step w e (poller_reachable_inv w HR) Ha) as (w' & E & _ & H).
  by exists w'.
Qed.

(** In every reachable poller the position in a registered channel is that of
    its entry, no two share one, and the entries are exactly those of the
    registered channels, with their events. *)
Theorem poller_positions w :
  reachable w ->
  (forall fd p, channels_ w !! fd = Some p -> exists c pfd, store w !! p = Some c /\
    Channel.fd_ c = fd /\ pollfds_ w !! Z.to_nat (Channel.index_ c) = Some pfd /\
    (pfd_fd pfd = fd \/ pfd_fd pfd = ignored fd) /\ pfd_events pfd = Channel.events_ c) /\
  (forall i pfd, pollfds_ w !! i = Some pfd -> exists p c,
    channels_ w !! descriptor (pfd_fd pfd) = Some p /\ store w !! p = Some c /\
    Channel.index_ c = Z.of_nat i) /\
  NoDup ((fun e => descriptor (pfd_fd e)) <$> pollfds_ w).
Proof.
  intros HR. pose proof (poller_reachable_inv w HR) as HI. split_and!; [|apply inv_entry; exact HI|].
  - intros fd p Hp. destruct (inv_slot w HI fd p Hp) as (c & pfd & E & F & _ & P & _ & S1 & S2 & _).
    exists c, pfd. rewrite F in S1. by split_and!.
  - apply NoDup_alt. intros i j fd Hi Hj.
    rewrite list_lookup_fmap in Hi, Hj.
    apply fmap_Some in Hi as (e1 & H1 & ->). apply fmap_Some in Hj as (e2 & H2 & He).
    destruct (inv_entry w HI i e1 H1) as (p & c & Hp & Hc & Hx).
    destruct (inv_entry w HI j e2 H2) as (p' & c' & Hp' & Hc' & Hx').
    rewrite He in Hp. assert (p' = p) as -> by congruence. assert (c' = c) as -> by congruence. lia.
Qed.

(** Runs in which the channel of [fd] is not removed. *)
Inductive keeps (fd : Z) : t -> t -> Prop :=
  | keeps_refl w : keeps fd w w
  | keeps_step w e l w1 w2 :
      allowed w e -> (forall p c, e = Remove p -> store w !! p = Some c -> Channel.fd_ c <> fd) ->
      step w e = Ok (l, w1) -> keeps fd w1 w2 -> keeps fd w w2.

Lemma spec_ignored w e fd ev :
  table w fd = Some (false, ev) ->
  (forall p c, e = Remove p -> store w !! p = Some c -> Channel.fd_ c <> fd) ->
  exists ev', spec w e fd = Some (false, ev').
Proof.
  intros Ht Hr. destruct e as [p f|i p|p|n revents]; cbn [spec]; try by exists ev.
  - destruct (store w !! p) as [c|]; [|by exists ev]. case_decide; [|by exists ev].
    rewrite Ht. by eexists.
  - destruct (store w !! p) as [c|] eqn:Hc; [|by exists ev].
    rewrite decide_False; [by exists ev|]. intros ->. by apply (Hr p c).
Qed.

Lemma ignored_entry w fd ev e : Inv w -> table w fd = Some (false, ev) -> e ∈ pollfds_ w -> pfd_fd e <> fd.
Proof.
  intros HI Ht He Hf. apply list_elem_of_lookup in He as [i Hi].
  destruct (inv_entry w HI i e Hi) as (p & c & Hp & Hc & Hx). unfold table in Ht.
  destruct (channels_ w !! fd) as [q|] eqn:Hq; [simpl in Ht|done].
  destruct (inv_slot w HI fd q Hq) as (d & pfd & E & F & Hd & P & S). destruct S as (Hpos & _).
  assert (Hdesc : descriptor (pfd_fd e) = fd) by (unfold descriptor; case_match; lia).
  rewrite Hdesc in Hp. assert (q = p) as -> by congruence. assert (d = c) as -> by congruence.
  rewrite E in Ht. simpl in Ht. rewrite Hx, Nat2Z.id, Hi in Ht. simpl in Ht. injection Ht as Ht _. lia.
Qed.

(** A registered descriptor that asked for nothing once is never polled again,
    whatever its channel asks for later and whatever else happens, until it is
    removed: [updateChannel] makes the descriptor negative and nothing makes it
    positive again. *)
Theorem disabled_stays_ignored w fd ev w' :
  reachable w -> table w fd = Some (false, ev) -> keeps fd w w' ->
  (exists ev', table w' fd = Some (false, ev')) /\ forall e, e ∈ pollfds_ w' -> pfd_fd e <> fd.
Proof.
  intros HR Ht HK. pose proof (poller_reachable_inv w HR) as HI. clear HR. revert ev Ht HI.
  induction HK as [w|w e l w1 w2 Ha Hr E HK IH]; intros ev Ht HI.
  - split; [by exists ev|]. intros e He. by eapply ignored_entry.
  - destruct (poller_step w e HI Ha) as (w1' & E' & HI' & Hs). assert (w1' = w1) as -> by congruence.
    destruct (spec_ignored w e fd ev Ht Hr) as [ev' Hev]. apply (IH ev'); [|done]. by rewrite Hs.
Qed.

(** A channel that was removed keeps its index, so enabling it again, which with the
    epoll poller registers it afresh, aborts: the poll poller does not keep what
    [ChannelOwner] asks of a poller. *)
Theorem removed_cannot_return w p c i :
  reachable w -> store w !! p = Some c -> channels_ w !! Channel.fd_ c = Some p ->
  Channel.isNoneEvent c = true ->
  exists w', step w (Remove p) = Ok ([], w') /\ step w' (Change i p) = Err AssertFailed.
Proof.
  intros HR Hp Hm Hn. pose proof (poller_reachable_inv w HR) as HI.
  destruct (remove_mapped w p c HI Hp Hm Hn) as (w' & E & _ & Hch & Hp' & _).
  exists w'. cbn [step]. rewrite E. split; [done|].
  destruct (inv_slot w HI _ p Hm) as (c1 & _ & E1 & _ & Hi & _). assert (c1 = c) as -> by congruence.
  unfold change, channel. rewrite Hp', bind_ret_l. unfold updateChannel, channel. cbn [store set_channel].
  rewrite lookup_insert_eq, bind_ret_l, Channel.change_index, Channel.change_fd.
  rewrite (proj2 (Z.ltb_ge _ _)) by done. unfold mapped. cbn [channels_ set_channel].
  rewrite Hch, lookup_delete_eq, bool_decide_false; [done|]. by intros [? ?].
Qed.

(** ** A concrete poller: three channels, the first removed *)

Definition after (w : t) (e : event) : t := match step w e with Ok (_, w') => w' | Err _ => w end.
Definition run_all (w : t) (es : list event) : t := foldl after w es.

Definition allowedb (w : t) (e : event) : bool :=
  match e with
  | Create p fd => bool_decide (store w !! p = None)
  | Change i p =>
      match store w !! p with
      | Some c => bool_decide (channels_ w !! Channel.fd_ c = Some p) ||
          ((Channel.index_ c <? 0) && (0 <=? Channel.fd_ c) &&
           bool_decide (channels_ w !! Channel.fd_ c = None) &&
           negb (Channel.isNoneEvent (Channel.change i c)))
      | None => false
      end
  | Remove p =>
      match store w !! p with
      | Some c => bool_decide (channels_ w !! Channel.fd_ c = Some p) && Channel.isNoneEvent c
      | None => false
      end
  | Poll numEvents revents =>
      let l := answered (pollfds_ w) revents in
      (numEvents =? ready l) && forallb (fun e => (pfd_revents e <=? 0) || (0 <=? pfd_fd e)) l
  end.

Lemma allowedb_ok w e : allowedb w e = true -> allowed w e.
Proof.
  destruct e as [p fd|i p|p|n revents]; cbn [allowedb allowed].
  - apply bool_decide_eq_true.
  - destruct (store w !! p) as [c|]; [|done]. intros [H|H]%orb_true_iff; exists c; (split; [done|]).
    + left. by apply bool_decide_eq_true in H.
    + right. apply andb_true_iff in H as [H H4]. apply andb_true_iff in H as [H H3].
      apply andb_true_iff in H as [H1 H2]. apply bool_decide_eq_true in H3.
      apply negb_true_iff in H4. split_and!; (done || lia).
  - destruct (store w !! p) as [c|]; [|done]. intros [H1 H2]%andb_true_iff. exists c.
    by apply bool_decide_eq_true in H1.
  - intros [H1 H2]%andb_true_iff. left. split; [lia|]. apply Forall_forall. intros e He Hr.
    rewrite forallb_forall in H2. specialize (H2 e). rewrite <- list_elem_of_In in H2.
    specialize (H2 He). lia.
Qed.

Fixpoint all_allowed (w : t) (es : list event) : bool :=
  match es with [] => true | e :: es => allowedb w e && is_ok (step w e) && all_allowed (after w e) es end.

Lemma run_reachable es : forall w, reachable w -> all_allowed w es = true -> reachable (run_all w es).
Proof.
  induction es as [|e es IH]; intros w HR H; [done|]. cbn [all_allowed] in H.
  apply andb_true_iff in H as [H H3]. apply andb_true_iff in H as [H1 H2].
  apply IH; [|done]. unfold after. destruct (step w e) as [[l w']|] eqn:E; [|done].
  eapply reach_step; [exact HR|by apply allowedb_ok|exact E].
Qed.

Definition demo_events : list event :=
  [Create 1 7; Create 2 8; Create 3 9; Change Channel.EnableReading 1; Change Channel.EnableReading 2;
   Change Channel.EnableReading 3; Change Channel.EnableWriting 3; Change Channel.DisableAll 1].
Definition demo : t := run_all init demo_events.

Lemma poller_demo_reachable : reachable demo.
Proof. apply run_reachable; [constructor|]. vm_compute. reflexivity. Qed.

Lemma poller_refines_witness :
  exists w', step demo (Remove 1) = Ok ([], w') /\ forall fd, table w' fd = spec demo (Remove 1) fd.
Proof.
  assert (Ha : allowed demo (Remove 1)) by (apply allowedb_ok; vm_compute; reflexivity).
  exact (poller_refines demo (Remove 1) poller_demo_reachable Ha).
Defined.

Lemma poller_positions_witness : NoDup ((fun e => descriptor (pfd_fd e)) <$> pollfds_ demo).
Proof. exact (proj2 (proj2 (poller_positions demo poller_demo_reachable))). Defined.

Lemma disabled_stays_ignored_witness :
  let w' := after demo (Change Channel.EnableReading 1) in
  (exists ev', table w' 7 = Some (false, ev')) /\ forall e, e ∈ pollfds_ w' -> pfd_fd e <> 7.
Proof.
  intros w'. assert (Ht : table demo 7 = Some (false, 0)) by (vm_compute; reflexivity).
  assert (Ha : allowed demo (Change Channel.EnableReading 1)) by (apply allowedb_ok; vm_compute; reflexivity).
  assert (E : step demo (Change Channel.EnableReading 1) = Ok ([], w')) by (vm_compute; reflexivity).
  assert (HK : keeps 7 demo w').
  { eapply keeps_step; [exact Ha|discriminate|exact E|apply keeps_refl]. }
  exact (disabled_stays_ignored demo 7 0 w' poller_demo_reachable Ht HK).
Defined.

Lemma removed_cannot_return_witness :
  exists w', step demo (Remove 1) = Ok ([], w') /\ step w' (Change Channel.EnableReading 1) = Err AssertFailed.
Proof.
  assert (Hc : exists c, store demo !! 1 = Some c /\ channels_ demo !! Channel.fd_ c = Some 1 /\
    Channel.isNoneEvent c = true) by (eexists; vm_compute; auto).
  destruct Hc as (c & Hp & Hm & Hn).
  exact (removed_cannot_return demo 1 c Channel.EnableReading poller_demo_reachable Hp Hm Hn).
Defined.

(** Nor can a channel be removed whose first change asks for nothing: its entry has
    the descriptor itself, where removal asserts the ignored one. *)
Example silent_first_stays :
  (r1 ← step (create init 1 7) (Change Channel.DisableAll 1) ; step (snd r1) (Remove 1)) = Err AssertFailed.
Proof. vm_compute. reflexivity. Qed.

End Poller.
