(* ===== verification/InetAddress.v ===== *)
(** * InetAddress and the address functions of SocketsOps
      ([InetAddress.h], [InetAddress.cpp], [SocketsOps.cpp])

    A [sockaddr_in] holds its port and its address as the integers the host
    reads from memory, so in network order; the host's byte order [h] is a
    parameter.  [inet_ntop], [inet_pton] and [snprintf] are those of the C
    library; the name service and the socket calls are inputs. *)

From S2P Require Import Prelude Endian.

(** ** Decimal numbers *)

Definition dec_digit (d : Z) : byte := byte_of (48 + d).
Fixpoint dec_from (fuel : nat) (n : Z) : list byte :=
  match fuel with
  | O => []
  | S fuel => if n <? 10 then [dec_digit n] else dec_from fuel (n / 10) ++ [dec_digit (n mod 10)]
  end.

(** [%u] of an octet and of a [uint16_t]. *)
Definition dec8 (n : Z) : list byte := dec_from 3 n.
Definition dec16 (n : Z) : list byte := dec_from 5 n.

(** [snprintf] into [size] bytes. *)
Definition snprintf (size : Z) (l : list byte) : list byte := ztake (size - 1) l.

Module InetAddress.

Definition AF_INET : Z := 2.
Definition kDot : byte := x2e.

Record sockaddr_in := mk {
  sin_family : Z;
  sin_port : Z;
  s_addr : Z
}.

(** [bzero] *)
Definition zero : sockaddr_in := mk 0 0 0.
Definition kInaddrAny : Z := 0.

(** [inet_ntop] of the four octets. *)
Definition dotted (o : list byte) : list byte :=
  match o with
  | [a; b; c; d] => dec8 (byte_val a) ++ kDot :: dec8 (byte_val b) ++ kDot ::
      dec8 (byte_val c) ++ kDot :: dec8 (byte_val d)
  | _ => []
  end.

(** [inet_pton]: up to four decimal octets, without leading zeros, and dots
    between them; [cur] is the octet being read. *)
Fixpoint pton (octets : list byte) (cur : option Z) (l : list byte) : option (list byte) :=
  match l with
  | [] => match cur with
          | Some v => if zlen octets =? 3 then Some (octets ++ [byte_of v]) else None
          | None => None
          end
  | c :: l =>
      if (48 <=? byte_val c) && (byte_val c <=? 57) then
        let d := byte_val c - 48 in
        match cur with
        | None => if zlen octets <? 4 then pton octets (Some d) l else None
        | Some v => if (v =? 0) || (255 <? 10 * v + d) then None else pton octets (Some (10 * v + d)) l
        end
      else if bool_decide (c = kDot) then
        match cur with
        | Some v => if zlen octets =? 3 then None else pton (octets ++ [byte_of v]) None l
        | None => None
        end
      else None
  end.
Definition inet_pton (l : list byte) : option (list byte) := pton [] None l.

Section host.
Context (h : endianness).

(** [InetAddress(uint64_t port)]: the port is converted to [uint16_t]. *)
Definition of_port (port : Z) : sockaddr_in :=
  mk AF_INET (hostToNetwork16 h (u16 port)) (hostToNetwork32 h kInaddrAny).

(** [sockets::fromHostPort]: on a failure the address is left as it was. *)
Definition fromHostPort (ip : list byte) (port : Z) (addr : sockaddr_in) : sockaddr_in :=
  mk AF_INET (hostToNetwork16 h port)
    (match inet_pton ip with Some o => mem_val h o | None => s_addr addr end).

(** [InetAddress(ip, port)] *)
Definition of_host_port (ip : list byte) (port : Z) : sockaddr_in := fromHostPort ip port zero.

(** The text that [sockets::toHostPort] prints, and what a buffer of [size] holds. *)
Definition host_port_text (addr : sockaddr_in) : list byte :=
  dotted (mem h 4 (s_addr addr)) ++ bytes ":" ++ dec16 (networkToHost16 h (sin_port addr)).
Definition sockets_toHostPort (size : Z) (addr : sockaddr_in) : list byte :=
  snprintf size (host_port_text addr).

(** [InetAddress::toHostPort], with its 32 bytes. *)
Definition toHostPort (addr : sockaddr_in) : list byte := sockets_toHostPort 32 addr.

Definition ipv4NetEndian (addr : sockaddr_in) : res Z :=
  assert_ (sin_family addr =? AF_INET) ;; Ok (s_addr addr).

(** [resolve], with the answer of [gethostbyname_r]: its result and, unless the
    entry is null, the type, the length and the bytes of the address. *)
Definition resolve (ret : Z) (he : option (Z * Z * list byte)) (out : sockaddr_in) :
    res (bool * sockaddr_in) :=
  match he with
  | Some (h_addrtype, h_length, h_addr) =>
      if ret =? 0 then
        assert_ ((h_addrtype =? AF_INET) && (h_length =? 4)) ;;
        Ok (true, mk (sin_family out) (sin_port out) (mem_val h h_addr))
      else Ok (false, out)
  | None => Ok (false, out)
  end.
End host.

(** [getLocalAddr] and [getPeerAddr], with what the kernel gives; a failure is
    only logged. *)
Definition getAddr (answer : option sockaddr_in) : sockaddr_in := default zero answer.

Definition isSelfConnect (local peer : option sockaddr_in) : bool :=
  let localaddr := getAddr local in
  let peeraddr := getAddr peer in
  (sin_port localaddr =? sin_port peeraddr) && (s_addr localaddr =? s_addr peeraddr).

(** [getSocketError], with the option's value or the [errno] of the call. *)
Definition getSocketError (answer : Z + Z) : Z :=
  match answer with inl optval => optval | inr errno => errno end.

(** ** Decimal numbers are read back *)

Lemma dec_digit_val d : 0 <= d < 10 -> byte_val (dec_digit d) = 48 + d.
Proof. intros Hd. unfold dec_digit. rewrite byte_val_of. apply Z.mod_small. lia. Qed.

Lemma dec_from_length fuel : forall n, zlen (dec_from fuel n) <= Z.of_nat fuel.
Proof.
  induction fuel as [|fuel IH]; intros n; [done|]. cbn [dec_from]. case_match.
  - change (zlen [dec_digit n]) with 1. lia.
  - rewrite zlen_app. change (zlen [dec_digit (n mod 10)]) with 1. specialize (IH (n / 10)). lia.
Qed.

(** [pton] reads the digits of an octet. *)
Lemma pton_digits o l : forall n, 0 <= n < 256 -> zlen o < 4 ->
  pton o None (dec8 n ++ l) = pton o (Some n) l.
Proof.
  intros n Hn Ho. unfold dec8. cbn [dec_from].
  assert (Hd : forall d, 0 <= d < 10 -> (48 <=? byte_val (dec_digit d)) && (byte_val (dec_digit d) <=? 57) = true).
  { intros d Hd. rewrite dec_digit_val by done. lia. }
  pose proof (Z.mod_pos_bound n 10 ltac:(lia)). pose proof (Z.div_mod n 10 ltac:(lia)).
  assert (Hq : 0 <= n / 10 < 26) by lia.
  pose proof (Z.mod_pos_bound (n / 10) 10 ltac:(lia)). pose proof (Z.div_mod (n / 10) 10 ltac:(lia)).
  destruct (Z.ltb_spec n 10); [|destruct (Z.ltb_spec (n / 10) 10); [|destruct (Z.ltb_spec (n / 10 / 10) 10); [|lia]]].
  - cbn [app pton]. rewrite Hd, dec_digit_val by lia. rewrite (proj2 (Z.ltb_lt (zlen o) 4)) by done.
    do 2 f_equal. lia.
  - cbn [app pton]. rewrite !Hd, !dec_digit_val by lia. rewrite (proj2 (Z.ltb_lt (zlen o) 4)) by done.
    replace (48 + n / 10 - 48) with (n / 10) by lia.
    replace (10 * (n / 10) + (48 + n mod 10 - 48)) with n by lia.
    by rewrite (proj2 (orb_false_iff _ _)) by lia.
  - cbn [app pton]. rewrite !Hd, !dec_digit_val by lia. rewrite (proj2 (Z.ltb_lt (zlen o) 4)) by done.
    replace (48 + n / 10 / 10 - 48) with (n / 10 / 10) by lia.
    replace (10 * (n / 10 / 10) + (48 + (n / 10) mod 10 - 48)) with (n / 10) by lia.
    rewrite (proj2 (orb_false_iff _ _)) by lia.
    replace (10 * (n / 10) + (48 + n mod 10 - 48)) with n by lia.
    by rewrite (proj2 (orb_false_iff _ _)) by lia.
Qed.

Lemma pton_dotted a b c d : inet_pton (dotted [a; b; c; d]) = Some [a; b; c; d].
Proof.
  unfold inet_pton, dotted.
  assert (Hb : forall x, 0 <= byte_val x < 256) by apply byte_val_range.
  rewrite pton_digits by (done || apply Hb). cbn [pton]. rewrite byte_of_val. change (zlen [] =? 3) with false.
  change ((48 <=? byte_val kDot) && (byte_val kDot <=? 57)) with false. rewrite bool_decide_true by done.
  cbn [app]. rewrite pton_digits by (done || apply Hb). cbn [pton]. rewrite byte_of_val.
  change ((48 <=? byte_val kDot) && (byte_val kDot <=? 57)) with false. rewrite bool_decide_true by done.
  change (zlen [a] =? 3) with false. cbn [app].
  rewrite pton_digits by (done || apply Hb). cbn [pton]. rewrite byte_of_val.
  change ((48 <=? byte_val kDot) && (byte_val kDot <=? 57)) with false. rewrite bool_decide_true by done.
  change (zlen [a; b] =? 3) with false. cbn [app].
  rewrite <- (app_nil_r (dec8 (byte_val d))).
  rewrite pton_digits by (done || apply Hb). cbn [pton]. rewrite byte_of_val.
  change (zlen [a; b; c] =? 3) with true. done.
Qed.

Lemma mem_mem_val h o : length o = 4%nat -> mem h 4 (mem_val h o) = o.
Proof.
  intros Hl. unfold mem, mem_val. rewrite <- Hl. destruct h; [exact (le_bytes_val o)|].
  rewrite <- (length_reverse o), le_bytes_val. apply reverse_involutive.
Qed.

Lemma port_back h port : 0 <= port < 2 ^ 16 -> networkToHost16 h (hostToNetwork16 h port) = port.
Proof. intros Hp. exact (proj1 (network_host_roundtrip h port (proj1 Hp)) (proj2 Hp)). Qed.

(** ** Texts fit *)

Lemma dotted_length o : zlen (dotted o) <= 15.
Proof.
  assert (H0 : zlen (@nil byte) <= 15) by (rewrite zlen_nil; lia).
  unfold dotted. destruct o as [|a [|b [|c [|d [|]]]]]; try exact H0. clear H0.
  pose proof (dec_from_length 3 (byte_val a)). pose proof (dec_from_length 3 (byte_val b)).
  pose proof (dec_from_length 3 (byte_val c)). pose proof (dec_from_length 3 (byte_val d)).
  unfold dec8. repeat rewrite ?zlen_app, ?zlen_cons. lia.
Qed.

Lemma text_length h addr : zlen (host_port_text h addr) <= 21.
Proof.
  unfold host_port_text. rewrite !zlen_app. pose proof (dotted_length (mem h 4 (s_addr addr))).
  pose proof (dec_from_length 5 (networkToHost16 h (sin_port addr))). unfold dec16.
  change (zlen (bytes ":")) with 1. lia.
Qed.

Lemma not_truncated h size addr : 22 <= size -> sockets_toHostPort h size addr = host_port_text h addr.
Proof. intros Hs. apply ztake_all. pose proof (text_length h addr). lia. Qed.

(** C37. The buffer of 32 bytes is always enough: for every address and port, of any
    value, the text of [toHostPort] has at most 21 characters and is not cut. *)
Theorem host_port_fits h addr :
  zlen (toHostPort h addr) <= 21 /\ toHostPort h addr = host_port_text h addr.
Proof.
  unfold toHostPort. rewrite not_truncated by lia. split; [apply text_length|done].
Qed.

(** Round trip of an address: built from the text of four octets and a port it is
    printed as that text, a colon and the port, and the kernel reads from it the
    octets in order and the port in network order, on hosts of either byte order;
    an address built from a port alone is [0.0.0.0] with the port's low 16 bits. *)
Theorem host_port_roundtrip h a b c d port :
  0 <= port < 2 ^ 16 ->
  let addr := of_host_port h (dotted [a; b; c; d]) port in
  toHostPort h addr = dotted [a; b; c; d] ++ bytes ":" ++ dec16 port /\
  mem h 4 (s_addr addr) = [a; b; c; d] /\ mem h 2 (sin_port addr) = be_bytes 2 port /\
  ipv4NetEndian addr = Ok (s_addr addr) /\
  forall k, 0 <= k -> toHostPort h (of_port h (port + k * 2 ^ 16)) = bytes "0.0.0.0:" ++ dec16 port.
Proof.
  intros Hp addr. unfold addr, of_host_port, fromHostPort. rewrite pton_dotted. cbn [s_addr sin_port].
  split_and!.
  - unfold toHostPort. rewrite not_truncated by lia. unfold host_port_text. cbn [s_addr sin_port].
    by rewrite mem_mem_val, port_back.
  - by apply mem_mem_val.
  - unfold hostToNetwork16. rewrite mem_swap_if_little. by rewrite u16_small.
  - done.
  - intros k Hk. unfold toHostPort. rewrite not_truncated by lia. unfold host_port_text, of_port. cbn [s_addr sin_port].
    replace (u16 (port + k * 2 ^ 16)) with port.
    2:{ unfold u16. rewrite Z.mod_add by lia. symmetry. by apply Z.mod_small. }
    rewrite port_back by done. by destruct h.
Qed.

(** The other results of the section, at once: what a failed [getsockname] and
    [getpeername] mean, and [resolve]. *)
Lemma self_connect_on_failure : isSelfConnect None None = true.
Proof. reflexivity. Qed.

Lemma resolve_ok h o out : length o = 4%nat ->
  resolve h 0 (Some (AF_INET, 4, o)) out = Ok (true, mk (sin_family out) (sin_port out) (mem_val h o)) /\
  mem h 4 (mem_val h o) = o.
Proof. intros Hl. split; [done|]. by apply mem_mem_val. Qed.

Lemma host_port_roundtrip_witness :
  toHostPort Little (of_host_port Little (bytes "127.0.0.1") 2007) = bytes "127.0.0.1:2007".
Proof.
  exact (proj1 (host_port_roundtrip Little x7f x00 x00 x01 2007 ltac:(split; [discriminate|reflexivity]))).
Defined.

End InetAddress.
