(* ===== verification/Sockets.v ===== *)
(** * Sockets: the socket calls and the [Acceptor]'s descriptor
      ([SocketsOps.cpp], [Socket.cpp], [Acceptor.cpp])

    The kernel is code outside the repository: [System] gives the result and the
    [errno] of each call from the calls made before it.  [calls] records every
    call with its result, so that what becomes of the descriptors can be read
    off it.  A line of the log may leave any [errno]. *)

From S2P Require Import Prelude Endian InetAddress.

Module Sockets.
Import InetAddress.

Definition EINTR : Z := 4.
Definition EBADF : Z := 9.
Definition EAGAIN : Z := 11.
Definition ENOMEM : Z := 12.
Definition EFAULT : Z := 14.
Definition EINVAL : Z := 22.
Definition EMFILE : Z := 24.
Definition EPROTO : Z := 71.
Definition ENOTSOCK : Z := 88.
Definition EOPNOTSUPP : Z := 95.
Definition ECONNABORTED : Z := 103.
Definition ENOBUFS : Z := 105.

Inductive option_name := SO_REUSEADDR | TCP_NODELAY.

Inductive syscall :=
  | SysSocket
  | SysConnect (sockfd : Z) (addr : sockaddr_in)
  | SysBind (sockfd : Z) (addr : sockaddr_in)
  | SysListen (sockfd : Z)
  | SysAccept4 (sockfd : Z)
  | SysClose (sockfd : Z)
  | SysShutdown (sockfd : Z)
  | SysSetsockopt (sockfd : Z) (name : option_name) (optval : Z)
  | SysGetError (sockfd : Z)
  | SysFcntl (sockfd cmd arg : Z).

Inductive message := Failed (where_ : syscall) | Unexpected (err : Z) | Unknown (err : Z).

Class System := {
  (* the result and [errno] of a call, after the calls before it *)
  answer : list (syscall * Z) -> syscall -> Z * Z;
  (* the peer that [accept4] writes, the error that [getsockopt] writes *)
  peer : list (syscall * Z) -> sockaddr_in;
  pending_error : list (syscall * Z) -> Z;
  (* [errno] after a line of the log *)
  logged : Z -> Z
}.

Section sockets.
Context `{Sys : System}.

Record t := mk {
  calls : list (syscall * Z);
  errno : Z;
  log : list message
}.

Definition init : t := mk [] 0 [].

Definition sys (s : t) (c : syscall) : Z * t :=
  let a := answer (calls s) c in
  (fst a, mk (calls s ++ [(c, fst a)]) (if fst a <? 0 then snd a else errno s) (log s)).

(** [SPDLOG_ERROR] *)
Definition spdlog_error (s : t) (m : message) : t := mk (calls s) (logged (errno s)) (log s ++ [m]).
Definition set_errno (s : t) (e : Z) : t := mk (calls s) e (log s).

(** A call whose failure is logged. *)
Definition logged_call (s : t) (c : syscall) : Z * t :=
  let r := sys s c in
  (fst r, if fst r <? 0 then spdlog_error (snd r) (Failed c) else snd r).

(** ** [SocketsOps.cpp] *)

Definition F_GETFD : Z := 1.
Definition F_SETFD : Z := 2.
Definition F_GETFL : Z := 3.
Definition F_SETFL : Z := 4.
Definition FD_CLOEXEC : Z := 1.

(** [setNonBlockAndCloseOnExec], which only the build with [VALGRIND] calls. *)
Definition setNonBlockAndCloseOnExec (s : t) (sockfd : Z) : t :=
  let s := snd (sys s (SysFcntl sockfd F_GETFL 0)) in
  let s := snd (sys s (SysFcntl sockfd F_SETFL 0)) in
  let r := sys s (SysFcntl sockfd F_GETFD 0) in
  let flags := Z.lor (fst r) FD_CLOEXEC in
  snd (sys (snd r) (SysFcntl sockfd F_SETFD flags)).

Definition createNonblockingOrDie (s : t) : Z * t := logged_call s SysSocket.
Definition connect (s : t) (sockfd : Z) (addr : sockaddr_in) : Z * t := sys s (SysConnect sockfd addr).
Definition bindOrDie (s : t) (sockfd : Z) (addr : sockaddr_in) : t :=
  snd (logged_call s (SysBind sockfd addr)).
Definition listenOrDie (s : t) (sockfd : Z) : t := snd (logged_call s (SysListen sockfd)).

Definition accept (s : t) (sockfd : Z) : Z * sockaddr_in * t :=
  let c := SysAccept4 sockfd in
  let addr := peer (calls s) in
  let r := sys s c in
  let connfd := fst r in
  let s := snd r in
  if connfd <? 0 then
    let savedErrno := errno s in
    let s := spdlog_error s (Failed c) in
    let s :=
      if bool_decide (savedErrno ∈ [EAGAIN; ECONNABORTED; EINTR; EPROTO; EMFILE])
      then set_errno s savedErrno
      else if bool_decide (savedErrno ∈ [EBADF; EFAULT; EINVAL; ENOBUFS; ENOMEM; ENOTSOCK; EOPNOTSUPP])
      then spdlog_error s (Unexpected savedErrno)
      else spdlog_error s (Unknown savedErrno) in
    (connfd, addr, s)
  else (connfd, addr, s).

Definition close (s : t) (sockfd : Z) : t := snd (logged_call s (SysClose sockfd)).
Definition shutdownWrite (s : t) (sockfd : Z) : t := snd (logged_call s (SysShutdown sockfd)).

Definition getSocketError (s : t) (sockfd : Z) : Z * t :=
  let optval := pending_error (calls s) in
  let r := sys s (SysGetError sockfd) in
  (if fst r <? 0 then errno (snd r) else optval, snd r).

(** ** [Socket]: it owns its descriptor *)

Definition bindAddress (s : t) (sockfd_ : Z) (localaddr : sockaddr_in) : t := bindOrDie s sockfd_ localaddr.
Definition listen (s : t) (sockfd_ : Z) : t := listenOrDie s sockfd_.
(** [Socket::accept], with the peer's address before it. *)
Definition socket_accept (s : t) (sockfd_ : Z) (peeraddr : sockaddr_in) : Z * sockaddr_in * t :=
  let r := accept s sockfd_ in
  let connfd := fst (fst r) in
  (connfd, if 0 <=? connfd then snd (fst r) else peeraddr, snd r).
Definition setReuseAddr (s : t) (sockfd_ : Z) (on : bool) : t :=
  snd (sys s (SysSetsockopt sockfd_ SO_REUSEADDR (if on then 1 else 0))).
Definition setTcpNoDelay (s : t) (sockfd_ : Z) (on : bool) : t :=
  snd (sys s (SysSetsockopt sockfd_ TCP_NODELAY (if on then 1 else 0))).
Definition socket_shutdownWrite (s : t) (sockfd_ : Z) : t := shutdownWrite s sockfd_.
(** [~Socket] *)
Definition destroy (s : t) (sockfd_ : Z) : t := close s sockfd_.

(** ** The acceptor and its socket *)

Record acceptor := mk_acceptor {
  acceptSocket_ : Z;
  newConnectionCallback_ : bool;
  listening_ : bool;
  (* the connections handed to the callback *)
  delivered : list (Z * sockaddr_in)
}.

Definition acceptor_new (s : t) (listenAddr : sockaddr_in) : acceptor * t :=
  let r := createNonblockingOrDie s in
  let fd := fst r in
  let s := setReuseAddr (snd r) fd true in
  let s := bindAddress s fd listenAddr in
  (mk_acceptor fd false false [], s).

Definition set_newConnectionCallback (a : acceptor) : acceptor :=
  mk_acceptor (acceptSocket_ a) true (listening_ a) (delivered a).

Definition acceptor_listen (a : acceptor) (s : t) : acceptor * t :=
  (mk_acceptor (acceptSocket_ a) (newConnectionCallback_ a) true (delivered a),
   listen s (acceptSocket_ a)).

(** [handleRead]; [InetAddress peerAddr(0)] is what the peer is before. *)
Definition handleRead (h : endianness) (a : acceptor) (s : t) : acceptor * t :=
  let '(connfd, peerAddr, s) := socket_accept s (acceptSocket_ a) (of_port h 0) in
  if 0 <=? connfd then
    if newConnectionCallback_ a then
      (mk_acceptor (acceptSocket_ a) true (listening_ a) (delivered a ++ [(connfd, peerAddr)]), s)
    else (a, close s connfd)
  else (a, s).

(** [~Acceptor], whose member's destructor closes the socket. *)
Definition acceptor_destroy (a : acceptor) (s : t) : t := destroy s (acceptSocket_ a).

(** ** What becomes of the descriptors *)

(** The descriptors the kernel handed out and those the program closed. *)
Definition opened (l : list (syscall * Z)) : list Z :=
  omap (fun p => match p.1 with
    | SysSocket | SysAccept4 _ => if 0 <=? p.2 then Some p.2 else None
    | _ => None
    end) l.
Definition closed (l : list (syscall * Z)) : list Z :=
  omap (fun p => match p.1 with SysClose fd => Some fd | _ => None end) l.

Lemma opened_app l1 l2 : opened (l1 ++ l2) = opened l1 ++ opened l2.
Proof. apply omap_app. Qed.
Lemma closed_app l1 l2 : closed (l1 ++ l2) = closed l1 ++ closed l2.
Proof. apply omap_app. Qed.

Lemma sys_calls s c : calls (snd (sys s c)) = calls s ++ [(c, fst (sys s c))].
Proof. done. Qed.
Lemma logged_call_result s c : fst (logged_call s c) = fst (sys s c).
Proof. done. Qed.

(** A line of the log changes no call. *)
Lemma logged_call_calls s c :
  calls (snd (logged_call s c)) = calls s ++ [(c, fst (sys s c))].
Proof. unfold logged_call, sys. simpl. by case_match. Qed.

Lemma accept_calls s fd :
  calls (snd (accept s fd)) = calls s ++ [(SysAccept4 fd, fst (fst (accept s fd)))].
Proof. unfold accept, sys. simpl. repeat case_match; done. Qed.

(** [accept] returns what [accept4] returned; of the errors, those that a
    server outlives are left in [errno] for the caller whatever the logging
    does, the others are logged as unexpected or unknown. *)
Theorem accept_errors s fd :
  let r := answer (calls s) (SysAccept4 fd) in
  let s' := snd (accept s fd) in
  fst (fst (accept s fd)) = fst r /\
  (0 <= fst r -> log s' = log s /\ errno s' = errno s) /\
  (fst r < 0 ->
     if bool_decide (snd r ∈ [EAGAIN; ECONNABORTED; EINTR; EPROTO; EMFILE])
     then errno s' = snd r /\ log s' = log s ++ [Failed (SysAccept4 fd)]
     else exists m, log s' = log s ++ [Failed (SysAccept4 fd); m] /\
       m = if bool_decide (snd r ∈ [EBADF; EFAULT; EINVAL; ENOBUFS; ENOMEM; ENOTSOCK; EOPNOTSUPP])
           then Unexpected (snd r) else Unknown (snd r)).
Proof.
  cbv zeta. unfold accept, sys. cbn [fst snd errno calls log].
  destruct (answer (calls s) (SysAccept4 fd)) as [n e]. cbn [fst snd].
  destruct (Z.ltb_spec n 0) as [Hn|Hn]; split_and!; try done; try lia; intros _.
  - repeat case_bool_decide; try done; eexists; (split; [|reflexivity]); simpl; by rewrite <- app_assoc.
Qed.

(** [setNonBlockAndCloseOnExec] never asks for non-blocking: it clears all the
    status flags, whatever they were. *)
Lemma nonblock_never_set s fd cmd arg :
  (SysFcntl fd cmd arg) ∈ (calls (setNonBlockAndCloseOnExec s fd)).*1 ->
  (SysFcntl fd cmd arg) ∉ (calls s).*1 -> cmd = F_SETFL -> arg = 0.
Proof.
  unfold setNonBlockAndCloseOnExec, sys. simpl. rewrite !fmap_app. simpl.
  rewrite !elem_of_app, !list_elem_of_singleton. intros [[[[H|H]|H]|H]|H] Hn Hc; simplify_eq; done.
Qed.

(** ** The life of an acceptor *)

Inductive event := SetCallback | Listen | Readable.

Section life.
Context (h : endianness).

Definition step (p : acceptor * t) (e : event) : acceptor * t :=
  let '(a, s) := p in
  match e with
  | SetCallback => (set_newConnectionCallback a, s)
  | Listen => acceptor_listen a s
  | Readable => handleRead h a s
  end.

Definition life (s : t) (listenAddr : sockaddr_in) (es : list event) : acceptor * t :=
  foldl step (acceptor_new s listenAddr) es.

(** The socket is open and each accepted descriptor delivered or closed. *)
Definition kept (p : acceptor * t) : Prop :=
  exists fd, acceptSocket_ p.1 = fd /\
    opened (calls p.2) ≡ₚ (if 0 <=? fd then [fd] else []) ++ (delivered p.1).*1 ++ closed (calls p.2).

Lemma new_kept s addr : calls s = [] -> kept (acceptor_new s addr).
Proof.
  intros Hs. unfold acceptor_new, createNonblockingOrDie, bindAddress, bindOrDie, setReuseAddr.
  eexists. split; [reflexivity|]. cbn [fst snd acceptSocket_ delivered].
  rewrite logged_call_calls, sys_calls, logged_call_calls, Hs. cbn [app].
  rewrite logged_call_result. set (fd := fst (sys s SysSocket)). unfold opened, closed.
  cbn [omap list_omap fst snd]. destruct (0 <=? fd); done.
Qed.

Lemma acceptor_step_kept p e : kept p -> kept (step p e).
Proof.
  destruct p as [a s]. intros (fd & Hfd & Ho). cbn [fst snd] in Hfd, Ho.
  destruct e; cbn [step].
  - by exists fd.
  - exists fd. split; [done|]. unfold acceptor_listen. cbn [fst snd delivered]. unfold listen, listenOrDie.
    rewrite logged_call_calls, opened_app, closed_app. simpl. by rewrite !app_nil_r.
  - unfold handleRead, socket_accept. rewrite Hfd. cbn [fst snd].
    pose proof (accept_calls s fd) as Hc. set (r := accept s fd) in *. clearbody r.
    destruct r as [[connfd addr] s']. cbn [fst snd] in *.
    destruct (Z.leb_spec 0 connfd) as [Hle|Hlt].
    + destruct (newConnectionCallback_ a).
      * exists fd. split; [done|]. cbn [fst snd delivered]. rewrite Hc, opened_app, closed_app, Ho, fmap_app. simpl.
        rewrite (proj2 (Z.leb_le 0 connfd)) by done. rewrite app_nil_r, <- !app_assoc. f_equiv. f_equiv.
        apply Permutation_app_comm.
      * exists fd. split; [done|]. cbn [fst snd delivered]. unfold close. rewrite logged_call_calls, Hc.
        rewrite !opened_app, !closed_app, Ho. simpl. rewrite (proj2 (Z.leb_le 0 connfd)) by done.
        by rewrite !app_nil_r, <- !app_assoc.
    + exists fd. split; [done|]. cbn [fst snd delivered]. rewrite Hc, opened_app, closed_app, Ho. simpl.
      rewrite (proj2 (Z.leb_gt 0 connfd)) by done. by rewrite !app_nil_r.
Qed.

Lemma life_kept es s addr : calls s = [] -> kept (life s addr es).
Proof.
  intros Hs. unfold life. generalize (acceptor_new s addr) (new_kept s addr Hs).
  induction es as [|e es IH]; intros p Hp; [done|]. simpl. by apply IH, acceptor_step_kept.
Qed.

(** Without a callback nothing is delivered. *)
Definition mute (p : acceptor * t) : Prop :=
  delivered p.1 = [] /\ newConnectionCallback_ p.1 = false.

Lemma mute_life es : forall p, SetCallback ∉ es -> mute p -> mute (foldl step p es).
Proof.
  induction es as [|e es IH]; intros [a s] Hn [H1 H2]; [done|].
  apply not_elem_of_cons in Hn as [Hn Hes]. cbn [foldl]. apply IH; [done|]. destruct e; cbn [step]; [done|done|].
  unfold handleRead. destruct (socket_accept s (acceptSocket_ a) (of_port h 0)) as [[connfd addr] s'].
  cbn [fst snd] in *. rewrite H2. by destruct (0 <=? connfd).
Qed.

(** C32. No descriptor is lost: when an acceptor is destroyed after any events,
    the descriptors the kernel gave it are those it handed to its callback and
    those it closed, no more and no less; without a callback it closes all. *)
Theorem acceptor_no_leak addr es :
  let p := life init addr es in
  0 <= acceptSocket_ p.1 ->
  let s := acceptor_destroy p.1 p.2 in
  opened (calls s) ≡ₚ (delivered p.1).*1 ++ closed (calls s) /\
  (SetCallback ∉ es -> opened (calls s) ≡ₚ closed (calls s)).
Proof.
  intros p Hfd s.
  assert (Hall : opened (calls s) ≡ₚ (delivered p.1).*1 ++ closed (calls s)).
  { destruct (life_kept es init addr eq_refl) as (fd & E & Ho). fold p in E, Ho. subst fd.
    rewrite (proj2 (Z.leb_le _ _)) in Ho by done.
    unfold s, acceptor_destroy, destroy, close. rewrite logged_call_calls, opened_app, closed_app, Ho.
    simpl. rewrite app_nil_r, Permutation_cons_append, <- app_assoc. done. }
  split; [done|]. intros Hn.
  rewrite Hall. unfold p, life. by rewrite (proj1 (mute_life es (acceptor_new init addr) Hn (conj eq_refl eq_refl))).
Qed.

End life.
End sockets.

(** ** A kernel that hands out 3, 4, ... and runs out at 6 *)

Definition demo_answer (l : list (syscall * Z)) (c : syscall) : Z * Z :=
  let n := 3 + zlen (opened l) in
  match c with
  | SysSocket | SysAccept4 _ => if n <? 6 then (n, 0) else (-1, EMFILE)
  | _ => (0, 0)
  end.

#[local] Instance demo_system : System :=
  {| answer := demo_answer; peer _ := zero; pending_error _ := 0; logged _ := EBADF |}.

Definition demo_events : list event := [Listen; Readable; SetCallback; Readable; Readable].

Lemma acceptor_no_leak_witness :
  let p := life Little init zero demo_events in
  delivered p.1 = [(5, zero)] /\ errno p.2 = EMFILE /\
  opened (calls (acceptor_destroy p.1 p.2)) ≡ₚ
    (delivered p.1).*1 ++ closed (calls (acceptor_destroy p.1 p.2)).
Proof.
  intros p. split; [vm_compute; reflexivity|]. split; [vm_compute; reflexivity|].
  apply (acceptor_no_leak Little zero demo_events). vm_compute. discriminate.
Defined.

End Sockets.
