(* ===== verification/EventLoopThread.v ===== *)
(** * EventLoopThread: the start of a loop in a thread of its own, and its end
      ([EventLoopThread.h], [EventLoopThread.cpp], [utils/Thread.h])

    Two threads, the owner and the new one, interleaved at the points where they
    lock, wait, notify, or touch [loop_] and [quit_].  The mutex is free or held;
    a waiting owner is woken by [notify_one] or, as the standard allows, for no
    reason.  [EventLoop::loop] is its reset of [quit_] followed by its test of
    [quit_]; the rest of the loop is the matter of [EventLoop]. *)

From S2P Require Import Prelude.

Module EventLoopThread.

(** Where the owner is: before [startLoop], in it (at the lock, at the test of
    the [while], waiting, woken and not yet holding the lock), after it, in the
    destructor (at [quit()], at [join()]) and after it. *)
Inductive owner_pc := Idle | Locking | Testing | Waiting | Woken | Returned | Quitting | Joining | Destroyed.

(** Where [threadFunc] is: not begun, at the construction of the loop, at the lock,
    at [loop_ = &loop], at the notification, at the unlock, at [loop.loop()],
    in the loop, and ended. *)
Inductive thread_pc :=
  NotBegun | Constructing | ThreadLocking | Publishing | Notifying | Unlocking | Entering | Looping | Ended.

Inductive holder := ByOwner | ByThread.

#[global] Instance owner_pc_eq_dec : EqDecision owner_pc.
Proof. solve_decision. Defined.
#[global] Instance thread_pc_eq_dec : EqDecision thread_pc.
Proof. solve_decision. Defined.
#[global] Instance holder_eq_dec : EqDecision holder.
Proof. solve_decision. Defined.

Record t := mk {
  owner : owner_pc;
  thread : thread_pc;
  mutex_ : option holder;
  (* whether [loop_] is set *)
  loop_ : bool;
  (* whether the loop object exists *)
  alive : bool;
  quit_ : bool;
  exiting_ : bool;
  started_ : bool
}.

#[global] Instance thread_state_eq_dec : EqDecision t.
Proof. solve_decision. Defined.

(** [EventLoopThread()] *)
Definition init : t := mk Idle NotBegun None false false false false false.

Inductive label :=
  (* the owner *)
  | StartLoop | OwnerLock | OwnerTest | Reacquire | Spurious | Destroy | Quit | Join
  (* the thread *)
  | Construct | ThreadLock | Publish | Notify | Unlock | Enter | TestQuit.

#[global] Instance label_eq_dec : EqDecision label.
Proof. solve_decision. Defined.

Definition set_owner (s : t) (o : owner_pc) (m : option holder) : t :=
  mk o (thread s) m (loop_ s) (alive s) (quit_ s) (exiting_ s) (started_ s).
Definition set_thread (s : t) (c : thread_pc) (m : option holder) : t :=
  mk (owner s) c m (loop_ s) (alive s) (quit_ s) (exiting_ s) (started_ s).

(** [startLoop] up to the lock: the assert, and [Thread::start]. *)
Definition startLoop (s : t) : res t :=
  assert_ (negb (started_ s)) ;;
  Ok (mk Locking Constructing (mutex_ s) (loop_ s) (alive s) (quit_ s) (exiting_ s) true).

(** The test of the [while]: [wait] releases the mutex. *)
Definition test (s : t) : t :=
  if loop_ s then set_owner s Returned None else set_owner s Waiting None.

(** [~EventLoopThread] up to [loop_->quit()]. *)
Definition destroy (s : t) : t :=
  mk Quitting (thread s) (mutex_ s) (loop_ s) (alive s) (quit_ s) true (started_ s).

(** [loop_->quit()] *)
Definition quit (s : t) : res t :=
  check (loop_ s) NullDeref ;;
  check (alive s) UseAfterFree ;;
  Ok (mk Joining (thread s) (mutex_ s) (loop_ s) (alive s) true (exiting_ s) (started_ s)).

(** [threadFunc], between its interleaving points. *)
Definition construct (s : t) : t :=
  mk (owner s) ThreadLocking (mutex_ s) (loop_ s) true false (exiting_ s) (started_ s).
Definition publish (s : t) : t :=
  mk (owner s) Notifying (mutex_ s) true (alive s) (quit_ s) (exiting_ s) (started_ s).
Definition notify (s : t) : t :=
  mk (if decide (owner s = Waiting) then Woken else owner s) Unlocking (mutex_ s) (loop_ s) (alive s)
    (quit_ s) (exiting_ s) (started_ s).
Definition enter (s : t) : t :=
  mk (owner s) Looping (mutex_ s) (loop_ s) (alive s) false (exiting_ s) (started_ s).
(** The loop ends, and with it the object on the thread's stack. *)
Definition leave (s : t) : t :=
  mk (owner s) Ended (mutex_ s) (loop_ s) false (quit_ s) (exiting_ s) (started_ s).

Definition free (s : t) : bool := bool_decide (mutex_ s = None).

(** One step, when its thread is there and not blocked. *)
Definition step (s : t) (l : label) : option (res t) :=
  match l, owner s, thread s with
  | StartLoop, Idle, _ => Some (startLoop s)
  | OwnerLock, Locking, _ => if free s then Some (Ok (set_owner s Testing (Some ByOwner))) else None
  | OwnerTest, Testing, _ => Some (Ok (test s))
  | Reacquire, Woken, _ => if free s then Some (Ok (set_owner s Testing (Some ByOwner))) else None
  | Spurious, Waiting, _ => Some (Ok (set_owner s Woken (mutex_ s)))
  | Destroy, (Idle | Returned), _ => Some (Ok (destroy s))
  | Quit, Quitting, _ => Some (quit s)
  | Join, Joining, (NotBegun | Ended) => Some (Ok (set_owner s Destroyed (mutex_ s)))
  | Construct, _, Constructing => Some (Ok (construct s))
  | ThreadLock, _, ThreadLocking => if free s then Some (Ok (set_thread s Publishing (Some ByThread))) else None
  | Publish, _, Publishing => Some (Ok (publish s))
  | Notify, _, Notifying => Some (Ok (notify s))
  | Unlock, _, Unlocking => Some (Ok (set_thread s Entering None))
  | Enter, _, Entering => Some (Ok (enter s))
  | TestQuit, _, Looping => if quit_ s then Some (Ok (leave s)) else None
  | _, _, _ => None
  end.

Definition starting (s : t) : bool :=
  match owner s with Locking | Testing | Waiting | Woken => true | _ => false end.

Inductive reachable : t -> Prop :=
  | reach_init : reachable init
  | reach_step s l s' : reachable s -> step s l = Some (Ok s') -> reachable s'.

(** ** The invariant, as a test *)

Definition inv (s : t) : bool :=
  let c := thread s in
  let o := owner s in
  (* the mutex is held where the code holds it *)
  bool_decide (mutex_ s = Some ByOwner <-> o = Testing) &&
  bool_decide (mutex_ s = Some ByThread <-> c = Publishing \/ c = Notifying \/ c = Unlocking) &&
  (* [loop_] is set by [Publishing], and the loop exists until the thread ends *)
  Bool.eqb (loop_ s) (negb (bool_decide (c = NotBegun \/ c = Constructing \/ c = ThreadLocking \/ c = Publishing))) &&
  Bool.eqb (alive s) (negb (bool_decide (c = NotBegun \/ c = Constructing \/ c = Ended))) &&
  Bool.eqb (started_ s) (negb (bool_decide (c = NotBegun))) &&
  (* a waiting owner will be notified *)
  implb (bool_decide (o = Waiting))
    (bool_decide (c = Constructing \/ c = ThreadLocking \/ c = Publishing \/ c = Notifying)) &&
  implb (bool_decide (o = Idle)) (bool_decide (c = NotBegun)) &&
  implb (starting s) (negb (bool_decide (c = NotBegun))) &&
  (* once [startLoop] has returned the thread is at its loop *)
  implb (bool_decide (o = Returned)) (bool_decide (c = Entering \/ c = Looping)) &&
  implb (bool_decide (o = Quitting)) (bool_decide (c = NotBegun \/ c = Entering \/ c = Looping)) &&
  implb (bool_decide (o = Joining)) (bool_decide (c = Entering \/ c = Looping \/ c = Ended)) &&
  implb (quit_ s) (bool_decide (o = Joining \/ o = Destroyed)) &&
  implb (bool_decide (c = Ended)) (quit_ s) &&
  Bool.eqb (exiting_ s) (bool_decide (o = Quitting \/ o = Joining \/ o = Destroyed)).

(** ** The states are finitely many, so a test of all of them decides a property *)

Definition owners : list owner_pc := [Idle; Locking; Testing; Waiting; Woken; Returned; Quitting; Joining; Destroyed].
Definition threads : list thread_pc :=
  [NotBegun; Constructing; ThreadLocking; Publishing; Notifying; Unlocking; Entering; Looping; Ended].
Definition holders : list (option holder) := [None; Some ByOwner; Some ByThread].
Definition labels : list label :=
  [StartLoop; OwnerLock; OwnerTest; Reacquire; Spurious; Destroy; Quit; Join;
   Construct; ThreadLock; Publish; Notify; Unlock; Enter; TestQuit].
Definition bools : list bool := [false; true].

Definition for_all {A} (l : list A) (f : A -> bool) : bool := forallb f l.

Lemma for_all_elem {A} (l : list A) f x : for_all l f = true -> In x l -> f x = true.
Proof. intros H. exact (proj1 (forallb_forall f l) H x). Qed.

Definition all_states (f : t -> bool) : bool :=
  for_all owners (fun o => for_all threads (fun c => for_all holders (fun m =>
  for_all bools (fun b1 => for_all bools (fun b2 => for_all bools (fun b3 =>
  for_all bools (fun b4 => for_all bools (fun b5 => f (mk o c m b1 b2 b3 b4 b5))))))))).

Lemma bools_in b : In b bools.
Proof. destruct b; simpl; auto. Qed.

Lemma all_states_ok f : all_states f = true -> forall s, f s = true.
Proof.
  intros H [o c m b1 b2 b3 b4 b5]. unfold all_states in H.
  apply (for_all_elem _ _ o) in H; [|destruct o; simpl; tauto].
  apply (for_all_elem _ _ c) in H; [|destruct c; simpl; tauto].
  apply (for_all_elem _ _ m) in H; [|destruct m as [[]|]; simpl; tauto].
  apply (for_all_elem _ _ b1) in H; [|apply bools_in]. apply (for_all_elem _ _ b2) in H; [|apply bools_in].
  apply (for_all_elem _ _ b3) in H; [|apply bools_in]. apply (for_all_elem _ _ b4) in H; [|apply bools_in].
  by apply (for_all_elem _ _ b5) in H; [|apply bools_in].
Qed.

Lemma labels_in l : In l labels.
Proof. destruct l; simpl; tauto. Qed.

(** What a step from a state of the invariant gives: the invariant again, or the
    one fault, [quit()] through a [loop_] that was never set. *)
Definition step_ok (s : t) (l : label) : bool :=
  match step s l with
  | Some (Ok s') => inv s'
  | Some (Err e) => bool_decide (e = NullDeref) && bool_decide (l = Quit) && negb (started_ s)
  | None => true
  end.

(** How far the start is from its end. *)
Definition thread_rank (c : thread_pc) : nat :=
  match c with
  | NotBegun => 8 | Constructing => 7 | ThreadLocking => 6 | Publishing => 5 | Notifying => 4
  | Unlocking => 3 | Entering => 2 | Looping => 1 | Ended => 0
  end.
Definition owner_rank (o : owner_pc) : nat :=
  match o with Locking | Woken => 3 | Testing => 2 | Waiting => 1 | _ => 0 end.
Definition rank (s : t) : nat := 4 * thread_rank (thread s) + owner_rank (owner s).

(** Some step other than a spurious wake-up can be made. *)
Definition can_step (s : t) : bool :=
  existsb (fun l => negb (bool_decide (l = Spurious)) && bool_decide (is_Some (step s l))) labels.

Lemma thread_inv_step s l : inv s = true -> step_ok s l = true.
Proof.
  intros Hs. assert (H : all_states (fun s => implb (inv s) (for_all labels (step_ok s))) = true)
    by (vm_compute; reflexivity).
  pose proof (all_states_ok _ H s) as H'. cbv beta in H'. rewrite Hs in H'. cbn [implb] in H'.
  exact (for_all_elem _ _ l H' (labels_in l)).
Qed.

Lemma thread_reachable_inv s : reachable s -> inv s = true.
Proof.
  induction 1 as [|s l s' _ IH E]; [vm_compute; reflexivity|].
  pose proof (thread_inv_step s l IH) as H. unfold step_ok in H. by rewrite E in H.
Qed.

(** A property of the states that the invariant implies. *)
Lemma by_states (P : t -> bool) s :
  all_states (fun s => implb (inv s) (P s)) = true -> reachable s -> P s = true.
Proof.
  intros H HR. pose proof (all_states_ok _ H s) as Hs. cbv beta in Hs.
  by rewrite (thread_reachable_inv s HR) in Hs.
Qed.

(** [goal] is reached whatever the threads and the scheduler do, spurious wake-ups
    aside: until then some step can be made, and none is a fault. *)
Inductive inevitable (goal : t -> Prop) : t -> Prop :=
  | now s : goal s -> inevitable goal s
  | later s : (exists l, l <> Spurious /\ is_Some (step s l)) ->
      (forall l r, l <> Spurious -> step s l = Some r -> exists s', r = Ok s' /\ inevitable goal s') ->
      inevitable goal s.

(** A test of all states for [inevitable], with a rank that falls. *)
Definition progress_test (during : t -> bool) (goal : t -> bool) (rank : t -> nat) (s : t) : bool :=
  implb (during s)
    (can_step s && for_all labels (fun l =>
       match step s l with
       | Some (Ok s') => bool_decide (l = Spurious) || (rank s' <? rank s)%nat && (during s' || goal s')
       | Some (Err _) => false
       | None => true
       end)).

Lemma inevitable_by_rank during goal rank :
  all_states (fun s => implb (inv s) (progress_test during goal rank s)) = true ->
  forall s, reachable s -> during s = true -> inevitable (fun s => goal s = true) s.
Proof.
  intros Ht. enough (Hn : forall n s, (rank s < n)%nat -> reachable s -> during s = true ->
    inevitable (fun s => goal s = true) s) by (intros s; apply (Hn (S (rank s))); lia).
  induction n as [|n IH]; intros s Hr HR Hd; [lia|].
  pose proof (by_states _ s Ht HR) as H. unfold progress_test in H. rewrite Hd in H. cbn [implb] in H.
  apply andb_true_iff in H as [Hc Hl]. apply later.
  - unfold can_step in Hc. apply existsb_exists in Hc as (l & _ & Hc). exists l.
    apply andb_true_iff in Hc as [H1 H2]. apply bool_decide_eq_true in H2. split; [|done].
    intros ->. done.
  - intros l r Hne E. pose proof (for_all_elem _ _ l Hl (labels_in l)) as H. cbv beta in H.
    rewrite E in H. destruct r as [s'|e]; [|done]. exists s'. split; [done|].
    rewrite bool_decide_false in H by done. cbn [orb] in H.
    apply andb_true_iff in H as [Hlt Hg]. apply Nat.ltb_lt in Hlt.
    destruct (during s') eqn:Hd'; [|by apply now].
    apply IH; [lia|by eapply reach_step|done].
Qed.

(** C21. [startLoop] returns under every interleaving of the two threads: no wake-up
    is lost, no deadlock is possible, and only finitely many steps are made
    between two spurious wake-ups of the wait. *)
Theorem start_returns s :
  reachable s -> starting s = true -> inevitable (fun s => bool_decide (owner s = Returned) = true) s.
Proof.
  apply (inevitable_by_rank starting (fun s => bool_decide (owner s = Returned)) rank).
  vm_compute. reflexivity.
Qed.

(** When [startLoop] has returned, [loop_] is the loop of a thread that was
    started, the loop exists, and the thread is at [loop.loop()] or in it, with the
    mutex free; and at no time do both threads hold the mutex or is [loop_]
    read and written at once. *)
Theorem started_loop_alive s :
  reachable s ->
  (owner s = Returned -> loop_ s = true /\ alive s = true /\ started_ s = true /\ mutex_ s = None /\
    (thread s = Entering \/ thread s = Looping)) /\
  ~ (owner s = Testing /\ thread s = Publishing).
Proof.
  intros HR.
  pose (P := fun s => implb (bool_decide (owner s = Returned))
    (loop_ s && alive s && started_ s && bool_decide (mutex_ s = None) &&
     bool_decide (thread s = Entering \/ thread s = Looping)) &&
    negb (bool_decide (owner s = Testing /\ thread s = Publishing))).
  assert (H : P s = true) by (apply by_states; [vm_compute; reflexivity|exact HR]).
  unfold P in H. apply andb_true_iff in H as [H1 H2]. split.
  - intros Ho. rewrite bool_decide_true in H1 by exact Ho. cbn [implb] in H1.
    repeat apply andb_true_iff in H1 as [H1 ?].
    repeat match goal with H : bool_decide _ = true |- _ => apply bool_decide_eq_true in H end.
    by split_and!.
  - apply negb_true_iff, bool_decide_eq_false in H2. exact H2.
Qed.

(** The destructor, begun when the thread is in its loop. *)
Definition ending (s : t) : bool :=
  (bool_decide (owner s = Quitting) || (bool_decide (owner s = Joining) && quit_ s)) &&
  (bool_decide (thread s = Looping) || (bool_decide (thread s = Ended) && bool_decide (owner s = Joining))).

Definition ending_rank (s : t) : nat :=
  match owner s with Quitting => 2 | Joining => 1 | _ => 0 end + thread_rank (thread s).

(** The destructor of a thread whose loop has begun ends under every
    interleaving: the loop sees the quit, the thread ends and [join] returns. *)
Theorem destructor_returns s :
  reachable s -> owner s = Quitting -> thread s = Looping ->
  inevitable (fun s => bool_decide (owner s = Destroyed) = true) s.
Proof.
  intros HR Ho Hc.
  apply (inevitable_by_rank ending (fun s => bool_decide (owner s = Destroyed)) ending_rank); [|exact HR|].
  - vm_compute. reflexivity.
  - unfold ending. by rewrite Ho, Hc.
Qed.

(** ** Runs *)

Fixpoint run (s : t) (ls : list label) : option t :=
  match ls with
  | [] => Some s
  | l :: ls => match step s l with Some (Ok s') => run s' ls | _ => None end
  end.

Lemma run_reaches ls : forall s s', reachable s -> run s ls = Some s' -> reachable s'.
Proof.
  induction ls as [|l ls IH]; intros s s' HR E; simpl in E; [congruence|].
  destruct (step s l) as [[s1|e]|] eqn:E1; try done. eapply IH; [|exact E]. by eapply reach_step.
Qed.

Definition start_run : list label :=
  [StartLoop; OwnerLock; OwnerTest; Construct; ThreadLock; Publish; Notify; Unlock; Reacquire; OwnerTest].

(** The destructor, called before the thread has entered [loop()], may hang: the
    loop resets [quit_], and the owner waits at [join] for a thread that nothing
    will end. *)
Theorem early_destructor_hangs :
  exists s, reachable s /\ owner s = Joining /\ thread s = Looping /\ exiting_ s = true /\
    forall l, step s l = None.
Proof.
  exists (default init (run init (start_run ++ [Destroy; Quit; Enter]))). split; [|split_and!].
  - apply (run_reaches (start_run ++ [Destroy; Quit; Enter]) init); [constructor|]. vm_compute. reflexivity.
  - vm_compute. reflexivity.
  - vm_compute. reflexivity.
  - vm_compute. reflexivity.
  - intros []; vm_compute; reflexivity.
Qed.

(** An object that is destroyed without [startLoop]: [loop_] is null. *)
Lemma unstarted_destructor s : step init Destroy = Some (Ok s) -> step s Quit = Some (Err NullDeref).
Proof. intros [= <-]. reflexivity. Qed.

Definition demo_waiting : t := default init (run init [StartLoop; OwnerLock; OwnerTest]).

Lemma start_returns_witness : inevitable (fun s => bool_decide (owner s = Returned) = true) demo_waiting.
Proof.
  assert (HR : reachable demo_waiting)
    by (apply (run_reaches [StartLoop; OwnerLock; OwnerTest] init); [constructor|vm_compute; reflexivity]).
  exact (start_returns demo_waiting HR eq_refl).
Defined.

Definition demo_started : t := default init (run init start_run).

Lemma thread_demo_started_reachable : reachable demo_started.
Proof. apply (run_reaches start_run init); [constructor|vm_compute; reflexivity]. Qed.

Lemma started_loop_alive_witness : loop_ demo_started = true /\ alive demo_started = true.
Proof.
  pose proof (proj1 (started_loop_alive demo_started thread_demo_started_reachable) eq_refl) as (H1 & H2 & _).
  exact (conj H1 H2).
Defined.

Definition demo_quitting : t := default init (run demo_started [Enter; Destroy]).

Lemma destructor_returns_witness :
  inevitable (fun s => bool_decide (owner s = Destroyed) = true) demo_quitting.
Proof.
  assert (HR : reachable demo_quitting)
    by (apply (run_reaches [Enter; Destroy] demo_started); [exact thread_demo_started_reachable|vm_compute; reflexivity]).
  exact (destructor_returns demo_quitting HR eq_refl eq_refl).
Defined.

End EventLoopThread.
