(* ===== verification/Socks4a.v ===== *)
(** * The SOCKS proxy's request handler ([examples/socks4a/socks4a.cpp])

    [onServerMessage] on the input buffer of a connection: the calls it makes, in
    order, and the buffer it leaves.  Whether the connection has a tunnel, and
    whether its context holds the tunnel's connection, are inputs, kept by
    [Tunnel]; the name service is a parameter.  Integers are read from memory as
    the host [h] reads them. *)

From S2P Require Import Prelude Endian Buffer InetAddress.

Module Socks4a.

Inductive call :=
  (* [setup] and [connect] of a new tunnel, and its entry in [g_tunnels] *)
  | OpenTunnel (addr : InetAddress.sockaddr_in)
  | Reply (d : list byte)
  | ShutdownConn
  (* [clientConn->send(buf)] *)
  | Forward (d : list byte).

(** [gethostbyname_r]: its result, and the entry's type, length and address. *)
Class Names := { gethostbyname : list byte -> Z * option (Z * Z * list byte) }.

Section handler.
Context (h : endianness) `{N : Names}.

Definition kNul : byte := x00.

(** The texts of the two answers. *)
Definition granted (addr : InetAddress.sockaddr_in) : list byte :=
  [x00; x5a] ++ mem h 2 (InetAddress.sin_port addr) ++ mem h 4 (InetAddress.s_addr addr).
Definition refused : list byte := [x00; x5b] ++ bytes "UVWXYZ".

(** A SOCKS4a request: the name behind [where], and the new [where]; [None]
    when the name is not complete, [okay] false when it is not known. *)
Definition read_name (l : list byte) (where_ : Z) (s_addr : Z) : res (option (bool * Z * Z)) :=
  let after := zdrop (where_ + 1) l in
  let e := index_of kNul after in
  if e =? zlen after then Ok None
  else
    let hostname := ztake e after in
    let answer := gethostbyname hostname in
    r ← InetAddress.resolve h (fst answer) (snd answer) (InetAddress.of_port h 0) ;
    let found : bool := fst r in
    let tmp := snd r in
    if found then
      ip ← InetAddress.ipv4NetEndian tmp ;
      Ok (Some (true, where_ + 1 + e, ip))
    else Ok (Some (false, where_ + 1 + e, s_addr)).

(** The request in [l], more than 8 bytes and at most 128; [None] when it is not
    complete: the version, the command, whether it is good, the end, the address. *)
Definition read_request (l : list byte) :
    res (option (byte * byte * bool * Z * InetAddress.sockaddr_in)) :=
  let region := zdrop 8 l in
  let n := index_of kNul region in
  if n =? zlen region then Ok None
  else
    let where_ := 8 + n in
    match l with
    | ver :: cmd :: _ =>
        let port := mem_val h (slice 2 2 l) in
        let ip := mem_val h (slice 4 4 l) in
        let socks4a := networkToHost32 h ip <? 256 in
        r ← (if socks4a then read_name l where_ ip else Ok (Some (true, where_, ip))) ;
        match r with
        | None => Ok None
        | Some (okay, where_, ip) =>
            Ok (Some (ver, cmd, okay, where_, InetAddress.mk InetAddress.AF_INET port ip))
        end
    | _ => Err OutOfBounds
    end.

Definition onServerMessage (hasTunnel hasContext clientConnected : bool) (buf : Buffer.t) :
    res (list call * Buffer.t) :=
  if negb hasTunnel then
    if 128 <? Buffer.readableBytes buf then Ok ([ShutdownConn], buf)
    else if 8 <? Buffer.readableBytes buf then
      l ← Buffer.load buf (Buffer.peek buf) (Buffer.readableBytes buf) ;
      q ← read_request l ;
      match q with
      | None => Ok ([], buf)
      | Some (ver, cmd, okay, where_, addr) =>
          if bool_decide (ver = x04) && bool_decide (cmd = x01) && okay then
            buf ← Buffer.retrieveUntil buf (Buffer.peek buf + where_ + 1) ;
            Ok ([OpenTunnel addr; Reply (granted addr)], buf)
          else Ok ([Reply refused; ShutdownConn], buf)
      end
    else Ok ([], buf)
  else if hasContext then
    if clientConnected then
      r ← Buffer.retrieveAsString buf ; Ok ([Forward (fst r)], snd r)
    else Ok ([], buf)
  else Ok ([], buf).

(** ** Requests *)

(** The SOCKS4 request of a port and an address, and the SOCKS4a request of a port
    and a name. *)
Definition request4 (port : Z) (ip user : list byte) : list byte :=
  [x04; x01] ++ be_bytes 2 port ++ ip ++ user ++ [kNul].
Definition request4a (port : Z) (d : byte) (user host : list byte) : list byte :=
  request4 port [x00; x00; x00; d] user ++ host ++ [kNul].

(** The documented answers of the name service. *)
Definition names_wf : Prop := forall n ret ty len a,
  gethostbyname n = (ret, Some (ty, len, a)) -> ret = 0 ->
  ty = InetAddress.AF_INET /\ len = 4 /\ length a = 4%nat.

Lemma network_value o : length o = 4%nat -> networkToHost32 h (mem_val h o) = le_val (reverse o).
Proof.
  intros Hl. assert (Hz : zlen o = 4) by (unfold zlen; by rewrite Hl).
  pose proof (le_val_range o) as Hr. pose proof (le_val_range (reverse o)) as Hr'.
  unfold zlen in Hz. unfold zlen in Hr, Hr'. rewrite length_reverse in Hr'. rewrite Hl in *.
  change (256 ^ Z.of_nat 4) with (2 ^ 32) in *.
  unfold networkToHost32, mem_val. destruct h; simpl; rewrite u32_small by done; [|done].
  unfold bswap. rewrite <- Hl at 1. by rewrite le_bytes_val.
Qed.

Lemma name_or_address a b c d :
  (networkToHost32 h (mem_val h [a; b; c; d]) <? 256) = bool_decide ([a; b; c] = [x00; x00; x00]).
Proof.
  rewrite network_value by done. cbn [reverse rev_append le_val]. unfold reverse. cbn [rev_append le_val].
  pose proof (byte_val_range a). pose proof (byte_val_range b). pose proof (byte_val_range c).
  pose proof (byte_val_range d). case_bool_decide as Hz.
  - injection Hz as -> -> ->. change (byte_val x00) with 0. lia.
  - apply Z.ltb_ge. destruct (decide (byte_val a = 0 /\ byte_val b = 0 /\ byte_val c = 0)) as [(Ha & Hb & Hc)|]; [|lia].
    destruct Hz. change 0 with (byte_val x00) in Ha, Hb, Hc.
    by rewrite (byte_val_inj _ _ Ha), (byte_val_inj _ _ Hb), (byte_val_inj _ _ Hc).
Qed.

(** The pieces of a request, whatever follows it. *)
Lemma request4_pieces port ip user rest :
  length ip = 4%nat -> kNul ∉ user ->
  let l := request4 port ip user ++ rest in
  slice 2 2 l = be_bytes 2 port /\ slice 4 4 l = ip /\
  index_of kNul (zdrop 8 l) = zlen user /\ (zlen user =? zlen (zdrop 8 l)) = false /\
  zdrop (8 + zlen user + 1) l = rest.
Proof.
  intros Hip Hu l. destruct ip as [|i1 [|i2 [|i3 [|i4 [|]]]]]; try done.
  assert (Hp : exists p1 p2, be_bytes 2 port = [p1; p2]) by (by do 2 eexists).
  destruct Hp as (p1 & p2 & Hp).
  assert (Hl : l = [x04; x01; p1; p2; i1; i2; i3; i4] ++ user ++ kNul :: rest).
  { unfold l, request4. rewrite Hp. simpl. by rewrite <- app_assoc. }
  assert (H8 : zdrop 8 l = user ++ kNul :: rest) by (rewrite Hl; reflexivity).
  rewrite H8, Hp. split_and!; [by rewrite Hl|by rewrite Hl|by apply index_of_app| |].
  - apply Z.eqb_neq. rewrite zlen_app, zlen_cons. pose proof (zlen_nonneg rest). lia.
  - pose proof (zlen_nonneg user). replace (8 + zlen user + 1) with (8 + (zlen user + 1)) by lia.
    rewrite <- zdrop_drop by lia. rewrite H8, zdrop_app_ge by lia.
    by replace (zlen user + 1 - zlen user) with 1 by lia.
Qed.

Lemma request4_head port ip user rest :
  exists t, request4 port ip user ++ rest = x04 :: x01 :: t.
Proof. unfold request4. by eexists. Qed.

Lemma port_of port : 0 <= port < 2 ^ 16 -> mem_val h (be_bytes 2 port) = hostToNetwork16 h port.
Proof.
  intros Hp. unfold hostToNetwork16. rewrite u16_small by done.
  rewrite <- (mem_swap_if_little h 2 port), mem_val_mem. apply Z.mod_small.
  apply (swap_if_little_range h 2). done.
Qed.

Lemma port_bytes port : mem h 2 (hostToNetwork16 h (u16 port)) = be_bytes 2 (u16 port).
Proof. unfold hostToNetwork16. rewrite mem_swap_if_little. by rewrite u16_small by (apply Z.mod_pos_bound; lia). Qed.

Lemma granted_bytes port ip : 0 <= port < 2 ^ 16 -> length ip = 4%nat ->
  granted (InetAddress.mk InetAddress.AF_INET (hostToNetwork16 h port) (mem_val h ip)) =
    [x00; x5a] ++ be_bytes 2 port ++ ip.
Proof.
  intros Hp Hl. unfold granted. cbn [InetAddress.sin_port InetAddress.s_addr].
  rewrite InetAddress.mem_mem_val by done. pose proof (port_bytes port) as Hb.
  by rewrite u16_small, Hb in * by done.
Qed.

(** A buffer on which the handler comes to read a request. *)
Lemma handle_request ctx cc buf l :
  Buffer.Inv buf -> Buffer.readable buf = l -> 8 < zlen l <= 128 ->
  onServerMessage false ctx cc buf =
    q ← read_request l ;
    match q with
    | None => Ok ([], buf)
    | Some (ver, cmd, okay, where_, addr) =>
        if bool_decide (ver = x04) && bool_decide (cmd = x01) && okay then
          buf ← Buffer.retrieveUntil buf (Buffer.peek buf + where_ + 1) ;
          Ok ([OpenTunnel addr; Reply (granted addr)], buf)
        else Ok ([Reply refused; ShutdownConn], buf)
    end.
Proof.
  intros HI Hl Hlen. unfold onServerMessage. cbn [negb].
  rewrite Buffer.readableBytes_len, Hl by done.
  rewrite (proj2 (Z.ltb_ge _ _)), (proj2 (Z.ltb_lt _ _)) by lia.
  pose proof (Buffer.load_readable buf HI) as Hload. rewrite Buffer.readableBytes_len, Hl in Hload by done.
  by rewrite Hload, bind_ret_l.
Qed.

Lemma consume buf l n :
  Buffer.Inv buf -> Buffer.readable buf = l -> 0 <= n <= zlen l ->
  exists buf', Buffer.retrieveUntil buf (Buffer.peek buf + n) = Ok buf' /\ Buffer.Inv buf' /\
    Buffer.readable buf' = zdrop n l.
Proof.
  intros HI Hl Hn. pose proof (Buffer.zlen_readable buf HI) as Hz. rewrite Hl in Hz.
  pose proof HI as (Hr & Hw & Hs).
  pose proof (Buffer.retrieveUntil_ok buf (Buffer.peek buf + n) HI ltac:(unfold Buffer.peek; lia)) as H.
  rewrite bool_decide_true in H by (unfold Buffer.peek, Buffer.beginWrite; lia).
  destruct H as (b' & E & HI' & Hb & _). exists b'. split_and!; [done|done|]. rewrite Hb, Hl. f_equal. lia.
Qed.

Lemma read_request4 port ip user rest :
  0 <= port < 2 ^ 16 -> length ip = 4%nat -> take 3 ip <> [x00; x00; x00] -> kNul ∉ user ->
  read_request (request4 port ip user ++ rest) =
    Ok (Some (x04, x01, true, 8 + zlen user,
      InetAddress.mk InetAddress.AF_INET (hostToNetwork16 h port) (mem_val h ip))).
Proof.
  intros Hp Hip Hno Hu.
  destruct (request4_pieces port ip user rest Hip Hu) as (H1 & H2 & H3 & H4 & _).
  destruct (request4_head port ip user rest) as [t Ht].
  unfold read_request. rewrite H3, H4. rewrite H1, H2. rewrite Ht at 1.
  destruct ip as [|a [|b [|c [|d [|]]]]]; try done. rewrite name_or_address, bool_decide_false by exact Hno.
  rewrite bind_ret_l. by rewrite port_of by done.
Qed.

(** A SOCKS4 request for an address, complete and within 128 bytes, is granted:
    a tunnel is opened to exactly that port and address, the answer repeats both,
    and what follows the request stays in the buffer for the tunnel. *)
Theorem socks4_granted ctx cc buf port ip user rest :
  Buffer.Inv buf -> Buffer.readable buf = request4 port ip user ++ rest ->
  zlen (Buffer.readable buf) <= 128 -> 0 <= port < 2 ^ 16 ->
  length ip = 4%nat -> take 3 ip <> [x00; x00; x00] -> kNul ∉ user ->
  exists addr buf',
    onServerMessage false ctx cc buf =
      Ok ([OpenTunnel addr; Reply ([x00; x5a] ++ be_bytes 2 port ++ ip)], buf') /\
    InetAddress.sin_family addr = InetAddress.AF_INET /\
    mem h 2 (InetAddress.sin_port addr) = be_bytes 2 port /\ mem h 4 (InetAddress.s_addr addr) = ip /\
    Buffer.readable buf' = rest.
Proof.
  intros HI Hl Hlen Hp Hip Hno Hu.
  destruct (request4_pieces port ip user rest Hip Hu) as (_ & _ & _ & _ & Hrest).
  set (l := request4 port ip user ++ rest) in *.
  assert (Hz : zlen l = 9 + zlen user + zlen rest).
  { unfold l, request4. rewrite !zlen_app, zlen_be_bytes. change (zlen [kNul]) with 1.
    change (zlen [x04; x01]) with 2. unfold zlen at 1. rewrite Hip. lia. }
  pose proof (zlen_nonneg user). pose proof (zlen_nonneg rest). rewrite Hl in Hlen.
  rewrite (handle_request ctx cc buf l) by (done || lia).
  unfold l at 1. rewrite read_request4, bind_ret_l by done.
  rewrite !bool_decide_true by done. cbn [andb].
  destruct (consume buf l (8 + zlen user + 1) HI Hl) as (buf' & E & _ & Hb); [lia|].
  rewrite Z.add_assoc in E. rewrite E, bind_ret_l. eexists _, buf'. split; [|split_and!].
  - rewrite granted_bytes by done. reflexivity.
  - done.
  - cbn [InetAddress.sin_port]. pose proof (port_bytes port) as Hb'. by rewrite u16_small in Hb' by done.
  - cbn [InetAddress.s_addr]. by apply InetAddress.mem_mem_val.
  - by rewrite Hb.
Qed.

Lemma read_request4a port d user host rest :
  0 <= port < 2 ^ 16 -> kNul ∉ user -> kNul ∉ host -> names_wf ->
  exists addr, read_request (request4a port d user host ++ rest) =
    Ok (Some (x04, x01, bool_decide (fst (gethostbyname host) = 0 /\ is_Some (snd (gethostbyname host))),
              9 + zlen user + zlen host, addr)) /\
    InetAddress.sin_family addr = InetAddress.AF_INET /\
    InetAddress.sin_port addr = hostToNetwork16 h port /\
    forall ty len a, gethostbyname host = (0, Some (ty, len, a)) ->
      length a = 4%nat /\ InetAddress.s_addr addr = mem_val h a.
Proof.
  intros Hp Hu Hh Hwf. unfold request4a. rewrite <- !app_assoc.
  destruct (request4_pieces port [x00; x00; x00; d] user (host ++ [kNul] ++ rest) eq_refl Hu)
    as (H1 & H2 & H3 & H4 & H5).
  destruct (request4_head port [x00; x00; x00; d] user (host ++ [kNul] ++ rest)) as [t Ht].
  unfold read_request, read_name. rewrite H3, H4, H1, H2, H5, Ht.
  rewrite name_or_address, bool_decide_true by done.
  change (host ++ [kNul] ++ rest) with (host ++ kNul :: rest). rewrite index_of_app, ztake_app_zlen by done.
  replace (zlen host =? zlen (host ++ kNul :: rest)) with false.
  2:{ symmetry. apply Z.eqb_neq. rewrite zlen_app, zlen_cons. pose proof (zlen_nonneg rest). lia. }
  rewrite port_of by done. destruct (gethostbyname host) as [ret [[[ty len] a]|]] eqn:Hg; cbn [fst snd].
  - destruct (decide (ret = 0)) as [->|Hne].
    + destruct (Hwf host 0 ty len a Hg eq_refl) as (-> & -> & Ha).
      rewrite bool_decide_true by (split; [done|by eexists]). cbn [InetAddress.resolve].
      eexists. split; [cbn; do 5 f_equal; lia|]. cbn. split_and!; try done.
      intros ty' len' a' [= <- <- <-]. done.
    + rewrite bool_decide_false by tauto. unfold InetAddress.resolve.
      rewrite (proj2 (Z.eqb_neq ret 0)) by done. eexists. split; [cbn; do 5 f_equal; lia|].
      cbn. split_and!; try done. by intros ty' len' a' [= ? ?].
  - rewrite bool_decide_false by (intros [_ [? ?]]; done). eexists. split; [cbn; do 5 f_equal; lia|].
    cbn. split_and!; done.
Qed.

(** A SOCKS4a request for a name, complete and within 128 bytes, is granted when
    the name service knows the name: the tunnel goes to the address it gives, with
    the port of the request; otherwise it is refused and the connection shut down. *)
Theorem socks4a_resolved ctx cc buf port d user host rest :
  names_wf -> Buffer.Inv buf -> Buffer.readable buf = request4a port d user host ++ rest ->
  zlen (Buffer.readable buf) <= 128 -> 0 <= port < 2 ^ 16 -> kNul ∉ user -> kNul ∉ host ->
  match gethostbyname host with
  | (0, Some (_, _, ip)) => exists addr buf',
      onServerMessage false ctx cc buf =
        Ok ([OpenTunnel addr; Reply ([x00; x5a] ++ be_bytes 2 port ++ ip)], buf') /\
      mem h 4 (InetAddress.s_addr addr) = ip /\ Buffer.readable buf' = rest
  | _ => onServerMessage false ctx cc buf = Ok ([Reply refused; ShutdownConn], buf)
  end.
Proof.
  intros Hwf HI Hl Hlen Hp Hu Hh. rewrite Hl in Hlen.
  pose proof (zlen_nonneg user). pose proof (zlen_nonneg host). pose proof (zlen_nonneg rest).
  assert (Hz : zlen (request4a port d user host ++ rest) = 10 + zlen user + zlen host + zlen rest).
  { unfold request4a, request4. rewrite !zlen_app, zlen_be_bytes. change (zlen [kNul]) with 1.
    change (zlen [x04; x01]) with 2. change (zlen [x00; x00; x00; d]) with 4. lia. }
  destruct (read_request4a port d user host rest Hp Hu Hh Hwf) as (addr & Hrd & Hf & Hpt & Hip).
  pose proof (handle_request ctx cc buf _ HI Hl ltac:(lia)) as HH. rewrite Hrd, bind_ret_l in HH.
  rewrite !(bool_decide_true (_ = _)) in HH by done. cbn [andb] in HH.
  destruct (gethostbyname host) as [ret [[[ty len] a]|]] eqn:Hg; cbn [fst snd] in HH.
  - destruct (decide (ret = 0)) as [->|Hne].
    + rewrite bool_decide_true in HH by (split; [done|by eexists]).
      destruct (Hip ty len a eq_refl) as [Ha Hs].
      assert (Haddr : addr = InetAddress.mk InetAddress.AF_INET (hostToNetwork16 h port) (mem_val h a))
        by (destruct addr; simpl in *; congruence).
      destruct (consume buf _ (9 + zlen user + zlen host + 1) HI Hl) as (buf' & E & _ & Hb); [lia|].
      rewrite Z.add_assoc in E. rewrite E, bind_ret_l in HH. exists addr, buf'. split_and!.
      * rewrite HH, Haddr. by rewrite granted_bytes.
      * rewrite Hs. by apply InetAddress.mem_mem_val.
      * rewrite Hb. rewrite zlen_app in Hz. rewrite zdrop_app_ge by lia.
        by replace (9 + zlen user + zlen host + 1 - zlen (request4a port d user host)) with 0 by lia.
    + rewrite bool_decide_false in HH by tauto. destruct ret; done.
  - rewrite bool_decide_false in HH by (intros [_ [? ?]]; done). destruct ret; done.
Qed.

Lemma resolve_total n out : names_wf -> exists r,
  InetAddress.resolve h (fst (gethostbyname n)) (snd (gethostbyname n)) out = Ok r /\
  InetAddress.sin_family (snd r) = InetAddress.sin_family out.
Proof.
  intros Hwf. unfold InetAddress.resolve. destruct (gethostbyname n) as [ret [[[ty len] a]|]] eqn:Hg; cbn [fst snd].
  - destruct (Z.eqb_spec ret 0) as [->|]; [|by eexists].
    destruct (Hwf n 0 ty len a Hg eq_refl) as (-> & -> & _). by eexists.
  - by eexists.
Qed.

Lemma index_of_lt c l : (index_of c l =? zlen l) = false -> 0 <= index_of c l < zlen l.
Proof. intros H. apply Z.eqb_neq in H. pose proof (index_of_range c l). lia. Qed.

Lemma read_request_total l : names_wf -> 8 < zlen l ->
  exists q, read_request l = Ok q /\
    match q with Some (_, _, _, where_, _) => 8 <= where_ < zlen l | None => True end.
Proof.
  intros Hwf Hl. unfold read_request, read_name.
  assert (H8 : zlen (zdrop 8 l) = zlen l - 8) by (rewrite zlen_drop; lia).
  destruct (index_of kNul (zdrop 8 l) =? zlen (zdrop 8 l)) eqn:E1; [by eexists|].
  apply index_of_lt in E1. set (n := index_of kNul (zdrop 8 l)) in *.
  assert (Hm : exists ver cmd, forall A (f : byte -> byte -> A) (d : A),
    match l with v :: c :: _ => f v c | _ => d end = f ver cmd).
  { clear -Hl. destruct l as [|ver [|cmd t]]; [done|by vm_compute in Hl|]. by exists ver, cmd. }
  destruct Hm as (ver & cmd & ->). case_match; [|eexists; split; [reflexivity|cbn iota beta; lia]].
  assert (Ha : zlen (zdrop (8 + n + 1) l) = zlen l - (9 + n)) by (rewrite zlen_drop; lia).
  destruct (index_of kNul (zdrop (8 + n + 1) l) =? zlen (zdrop (8 + n + 1) l)) eqn:E2; [by eexists|].
  apply index_of_lt in E2. set (e := index_of kNul (zdrop (8 + n + 1) l)) in *.
  destruct (resolve_total (ztake e (zdrop (8 + n + 1) l)) (InetAddress.of_port h 0) Hwf) as (r & -> & Hf).
  rewrite bind_ret_l. destruct (fst r); [|eexists; split; [reflexivity|cbn iota beta; lia]].
  unfold InetAddress.ipv4NetEndian. rewrite Hf. change (InetAddress.sin_family (InetAddress.of_port h 0)) with 2.
  change (2 =? InetAddress.AF_INET) with true. eexists. split; [reflexivity|cbn iota beta; lia].
Qed.

(** Whatever bytes arrive, in whatever pieces, the handler returns: no assert
    fails, nothing outside the buffer is read, and what it leaves in the buffer is
    the end of what was there; bytes without the end of a request wait. *)
Theorem handler_total hasTunnel ctx cc buf :
  names_wf -> Buffer.Inv buf ->
  exists calls buf', onServerMessage hasTunnel ctx cc buf = Ok (calls, buf') /\ Buffer.Inv buf' /\
    (exists l, Buffer.readable buf = l ++ Buffer.readable buf') /\
    (hasTunnel = false -> zlen (Buffer.readable buf) <= 128 -> kNul ∉ zdrop 8 (Buffer.readable buf) ->
     calls = [] /\ buf' = buf).
Proof.
  intros Hwf HI. destruct (decide (hasTunnel = false /\ 8 < zlen (Buffer.readable buf) <= 128)) as [[-> Hl]|Hno].
  - rewrite (handle_request ctx cc buf _ HI eq_refl Hl).
    destruct (read_request_total (Buffer.readable buf) Hwf (proj1 Hl)) as (q & Eq & Hq).
    rewrite Eq, bind_ret_l.
    assert (Hwait : kNul ∉ zdrop 8 (Buffer.readable buf) -> q = None).
    { intros Hn. unfold read_request in Eq. rewrite index_of_none, Z.eqb_refl in Eq by done. congruence. }
    destruct q as [[[[[ver cmd] okay] where_] addr]|].
    + case_match.
      * destruct (consume buf _ (where_ + 1) HI eq_refl) as (buf' & E & HI' & Hb); [lia|].
        rewrite Z.add_assoc in E. rewrite E, bind_ret_l. eexists _, buf'. split_and!; [done|done| |].
        -- exists (ztake (where_ + 1) (Buffer.readable buf)). by rewrite Hb, ztake_drop.
        -- intros _ _ Hn. by specialize (Hwait Hn).
      * eexists _, buf. split_and!; [done|done|by exists []|]. intros _ _ Hn. by specialize (Hwait Hn).
    + eexists _, buf. split_and!; [done|done|by exists []|done].
  - unfold onServerMessage. rewrite !Buffer.readableBytes_len by done. destruct hasTunnel; cbn [negb].
    + destruct ctx; [destruct cc|]; [|eexists _, buf; split_and!; (done || by exists [])..].
      rewrite Buffer.retrieveAsString_ok, bind_ret_l by done. eexists _, _.
      split_and!; [done|by apply Buffer.retrieveAll_inv| |done].
      exists (Buffer.readable buf). cbn [snd]. by rewrite Buffer.retrieveAll_readable, app_nil_r.
    + destruct (Z.ltb_spec 128 (zlen (Buffer.readable buf))).
      * eexists _, buf. split_and!; [done|done|by exists []|lia].
      * rewrite (proj2 (Z.ltb_ge _ _)) by (destruct (decide (8 < zlen (Buffer.readable buf))); [|lia]; exfalso; apply Hno; split; [done|lia]).
        eexists _, buf. split_and!; [done|done|by exists []|done].
Qed.

End handler.

(** ** Concrete requests *)

#[local] Instance demo_names : Names :=
  {| gethostbyname n := if bool_decide (n = bytes "localhost")
       then (0, Some (InetAddress.AF_INET, 4, [x7f; x00; x00; x01])) else (0, None) |}.

Lemma demo_names_wf : names_wf.
Proof.
  intros n ret ty len a. unfold gethostbyname, demo_names. case_bool_decide; [|done].
  intros [= <- <- <- <-] _. done.
Qed.

Definition demo4 : list byte := request4 80 [x0a; x00; x00; x02] (bytes "me") ++ bytes "GET".
Definition demo4a : list byte := request4a 80 x01 (bytes "me") (bytes "localhost") ++ bytes "GET".

Lemma socks4_granted_witness :
  exists addr buf',
    onServerMessage Little false false false (Buffer.buffer_of demo4) =
      Ok ([OpenTunnel addr; Reply ([x00; x5a] ++ be_bytes 2 80 ++ [x0a; x00; x00; x02])], buf') /\
    InetAddress.sin_family addr = InetAddress.AF_INET /\
    mem Little 2 (InetAddress.sin_port addr) = be_bytes 2 80 /\
    mem Little 4 (InetAddress.s_addr addr) = [x0a; x00; x00; x02] /\
    Buffer.readable buf' = bytes "GET".
Proof.
  destruct (Buffer.buffer_of_ok demo4) as [HI Hb]; [vm_compute; reflexivity|].
  apply (socks4_granted Little false false (Buffer.buffer_of demo4) 80 [x0a; x00; x00; x02] (bytes "me") (bytes "GET") HI Hb).
  - rewrite Hb. vm_compute. discriminate.
  - split; [discriminate|reflexivity].
  - reflexivity.
  - discriminate.
  - apply (bool_decide_unpack _). vm_compute. exact I.
Defined.

Lemma socks4a_resolved_witness :
  exists addr buf',
    onServerMessage Little false false false (Buffer.buffer_of demo4a) =
      Ok ([OpenTunnel addr; Reply ([x00; x5a] ++ be_bytes 2 80 ++ [x7f; x00; x00; x01])], buf') /\
    mem Little 4 (InetAddress.s_addr addr) = [x7f; x00; x00; x01] /\ Buffer.readable buf' = bytes "GET".
Proof.
  destruct (Buffer.buffer_of_ok demo4a) as [HI Hb]; [vm_compute; reflexivity|].
  apply (socks4a_resolved Little false false (Buffer.buffer_of demo4a) 80 x01 (bytes "me") (bytes "localhost")
    (bytes "GET") demo_names_wf HI Hb).
  - rewrite Hb. vm_compute. discriminate.
  - split; [discriminate|reflexivity].
  - apply (bool_decide_unpack _). vm_compute. exact I.
  - apply (bool_decide_unpack _). vm_compute. exact I.
Defined.

Lemma handler_total_witness :
  exists calls buf', onServerMessage Little false false false (Buffer.buffer_of (bytes "garbage, much of it")) =
    Ok (calls, buf').
Proof.
  destruct (Buffer.buffer_of_ok (bytes "garbage, much of it")) as [HI _]; [vm_compute; reflexivity|].
  destruct (handler_total Little false false false (Buffer.buffer_of (bytes "garbage, much of it")) demo_names_wf HI)
    as (calls & buf' & E & _).
  exists calls, buf'. exact E.
Defined.

End Socks4a.
