(* ===== verification/Tunnel.v ===== *)
(** * Tunnel: the two connections of a proxied session ([examples/socks4a/tunnel.h])

    What the tunnel keeps and changes: the input buffer of the server connection,
    which side is being read, which write-complete callbacks are the tunnel's, and
    what both connections were given to send.  Its callbacks are delivered by the
    connections in any order; the output buffers are inputs, as the sizes the
    callbacks see.  The forwarding of [onServerMessage] is that of [Socks4a] and of
    [tcprelay.cpp]. *)

From S2P Require Import Prelude Buffer.

Module Tunnel.

Inductive ServerClient := kServer | kClient.

(** The client connection: not made yet, up, or down for good. *)
Inductive phase := Opening | Open | Closed.

Record t := mk {
  (* [serverConn_->inputBuffer()] *)
  input : Buffer.t;
  serverReading : bool;
  clientReading : bool;
  (* whether the context of [serverConn_] holds the client connection *)
  context : bool;
  (* whether [clientConn_] is set *)
  clientConn_ : bool;
  clientPhase : phase;
  (* whether [serverConn_] is [kConnected] *)
  serverUp : bool;
  (* whether the write-complete callbacks of the connections are the tunnel's *)
  serverWriteComplete : bool;
  clientWriteComplete : bool;
  (* what [send] accepted *)
  toServer : list byte;
  toClient : list byte
}.

Definition set_input (s : t) (b : Buffer.t) (out : list byte) : t :=
  mk b (serverReading s) (clientReading s) (context s) (clientConn_ s) (clientPhase s) (serverUp s)
    (serverWriteComplete s) (clientWriteComplete s) (toServer s) (toClient s ++ out).
Definition set_reading (s : t) (server client serverWc clientWc : bool) : t :=
  mk (input s) server client (context s) (clientConn_ s) (clientPhase s) (serverUp s)
    serverWc clientWc (toServer s) (toClient s).

(** A session once the tunnel is set up: [reading] is false for the relay, whose
    server connection waits for the client's. *)
Definition setup (buf : Buffer.t) (reading : bool) : t :=
  mk buf reading true false false Opening true false false [] [].

(** [conn->send(buf)] of the input buffer, on the client connection. *)
Definition forward (s : t) : res t :=
  match clientPhase s with
  | Open => r ← Buffer.retrieveAsString (input s) ; Ok (set_input s (snd r) (fst r))
  | _ => Ok s
  end.

Definition teardown (s : t) : t :=
  mk (input s) (serverReading s) (clientReading s) false false Closed false
    (serverWriteComplete s) (clientWriteComplete s) (toServer s) (toClient s).

(** [onServerConnection] of a connection that went down: [disconnect] of the client
    only shuts it down for writing. *)
Definition serverDown (s : t) : t :=
  mk (input s) (serverReading s) (clientReading s) (context s) (clientConn_ s) (clientPhase s) false
    (serverWriteComplete s) (clientWriteComplete s) (toServer s) (toClient s).

Definition onClientConnection (s : t) (connected : bool) : res t :=
  if connected then
    let s := mk (input s) true (clientReading s) true true Open (serverUp s)
               (serverWriteComplete s) (clientWriteComplete s) (toServer s) (toClient s) in
    if 0 <? Buffer.readableBytes (input s) then forward s else Ok s
  else Ok (teardown s).

(** The bytes [d] of the client; a server connection that is not connected takes
    nothing. *)
Definition onClientMessage (s : t) (d : list byte) : t :=
  mk (input s) (serverReading s) (clientReading s) (context s) (clientConn_ s) (clientPhase s) (serverUp s)
    (serverWriteComplete s) (clientWriteComplete s)
    (if serverUp s then toServer s ++ d else toServer s) (toClient s).

(** The server connection reads [d]; [onServerMessage] forwards. *)
Definition onServerMessage (s : t) (d : list byte) : res t :=
  r ← Buffer.readFd (input s) (Buffer.RvData d) ;
  let s := set_input s (snd r) [] in
  if context s then forward s else Ok s.

Definition onHighWaterMark (s : t) (which : ServerClient) (outputBytes : Z) : res t :=
  match which with
  | kServer =>
      if 0 <? outputBytes then
        check (clientConn_ s) NullDeref ;;
        Ok (set_reading s (serverReading s) false true (clientWriteComplete s))
      else Ok s
  | kClient =>
      check (clientConn_ s) NullDeref ;;
      if 0 <? outputBytes then
        Ok (set_reading s false (clientReading s) (serverWriteComplete s) true)
      else Ok s
  end.

Definition onWriteComplete (s : t) (which : ServerClient) : res t :=
  check (clientConn_ s) NullDeref ;;
  match which with
  | kServer => Ok (set_reading s (serverReading s) true false (clientWriteComplete s))
  | kClient => Ok (set_reading s true (clientReading s) (serverWriteComplete s) false)
  end.

(** ** Runs *)

Inductive event :=
  | ClientUp
  | ClientDown
  | ServerDown
  | ClientData (d : list byte)
  | ServerData (d : list byte)
  | HighWater (which : ServerClient) (outputBytes : Z)
  | WriteComplete (which : ServerClient).

Definition step (s : t) (e : event) : res t :=
  match e with
  | ClientUp => onClientConnection s true
  | ClientDown => onClientConnection s false
  | ServerDown => Ok (serverDown s)
  | ClientData d => Ok (onClientMessage s d)
  | ServerData d => onServerMessage s d
  | HighWater which n => onHighWaterMark s which n
  | WriteComplete which => onWriteComplete s which
  end.

(** The client connection comes up once and goes down once, and gives data while it
    is up; the server connection gives none once it is down; a high-water mark needs
    a megabyte, which nobody sends before. *)
Definition allowed (s : t) (e : event) : Prop :=
  match e with
  | ClientUp => clientPhase s = Opening
  | ClientDown | ClientData _ => clientPhase s = Open
  | ServerDown => True
  | ServerData d =>
      (serverUp s = true \/ clientPhase s = Closed) /\ Buffer.rv_fits (input s) (Buffer.RvData d)
  | HighWater _ _ | WriteComplete _ => clientPhase s <> Opening
  end.

(** The bytes that arrived in a run from the server and from the client. *)
Definition from_server (es : list event) : list byte :=
  es ≫= fun e => match e with ServerData d => d | _ => [] end.
Definition from_client (es : list event) : list byte :=
  es ≫= fun e => match e with ClientData d => d | _ => [] end.

Inductive runs (buf : Buffer.t) (reading : bool) : list event -> t -> Prop :=
  | runs_setup : runs buf reading [] (setup buf reading)
  | runs_step es s e s' :
      runs buf reading es s -> allowed s e -> step s e = Ok s' -> runs buf reading (es ++ [e]) s'.

Record Inv (first : list byte) (es : list event) (s : t) : Prop := {
  inv_input : Buffer.Inv (input s);
  inv_open : clientConn_ s = true <-> clientPhase s = Open;
  inv_context : context s = clientConn_ s;
  inv_server_up : clientPhase s = Closed -> serverUp s = false;
  inv_opening : clientPhase s = Opening ->
    clientReading s = true /\ serverWriteComplete s = false /\ clientWriteComplete s = false;
  inv_client_paused : clientPhase s = Open -> clientReading s = negb (serverWriteComplete s);
  inv_server_paused : clientPhase s = Open -> serverReading s = negb (clientWriteComplete s);
  inv_to_client : first ++ from_server es = toClient s ++ Buffer.readable (input s);
  inv_forwarded : clientPhase s = Open -> Buffer.readable (input s) = [];
  inv_to_server : exists dropped,
    from_client es = toServer s ++ dropped /\ (serverUp s = true -> dropped = [])
}.

Lemma setup_inv buf reading : Buffer.Inv buf -> Inv (Buffer.readable buf) [] (setup buf reading).
Proof. intros HI. split; simpl; try done; [by rewrite app_nil_r|by exists []]. Qed.

Lemma from_server_snoc es e : from_server (es ++ [e]) = from_server es ++ from_server [e].
Proof. apply bind_app. Qed.
Lemma from_client_snoc es e : from_client (es ++ [e]) = from_client es ++ from_client [e].
Proof. apply bind_app. Qed.

(** [forward] on an open client connection moves the whole input buffer. *)
Lemma forward_open s : Buffer.Inv (input s) -> clientPhase s = Open ->
  exists b, forward s = Ok (set_input s b (Buffer.readable (input s))) /\ Buffer.Inv b /\ Buffer.readable b = [].
Proof.
  intros HI Hp. unfold forward. rewrite Hp, Buffer.retrieveAsString_ok, bind_ret_l by done.
  eexists. split; [done|]. split; [by apply Buffer.retrieveAll_inv|apply Buffer.retrieveAll_readable].
Qed.

(** The fields of the invariant of a state that is written out. *)
Ltac by_fields :=
  split; rewrite ?from_server_snoc, ?from_client_snoc; cbn; rewrite ?app_nil_r; try done.

Lemma tunnel_step_inv first es s e s' :
  Inv first es s -> allowed s e -> step s e = Ok s' -> Inv first (es ++ [e]) s'.
Proof.
  intros HI Ha E. destruct HI as [Hin Hop Hcx Hup Hog Hcp Hsp Htc Hfw Hts].
  destruct e as [| | |d|d|which n|which]; cbn [step allowed] in *.
  - (* the client connection comes up *)
    destruct (Hog Ha) as (Hcr & Hsw & Hcw). unfold onClientConnection in E.
    set (s1 := mk _ _ _ _ _ _ _ _ _ _ _) in E.
    assert (Hs1 : Buffer.readable (input s1) = Buffer.readable (input s)) by done.
    assert (Hcase : exists b, s' = set_input s1 b (Buffer.readable (input s)) /\
      Buffer.Inv b /\ Buffer.readable b = []).
    { rewrite Buffer.readableBytes_len in E by done. destruct (Z.ltb_spec 0 (zlen (Buffer.readable (input s1)))) as [Hlt|Hge].
      - destruct (forward_open s1 Hin eq_refl) as (b & Ef & Hb & Hr). exists b. split_and!; try done. congruence.
      - assert (Hnil : Buffer.readable (input s) = []).
        { apply zlen_zero_nil. rewrite Hs1 in Hge. pose proof (zlen_nonneg (Buffer.readable (input s))). lia. }
        exists (input s). rewrite Hnil. split_and!; try done. injection E as <-. unfold set_input. simpl.
        by rewrite app_nil_r. }
    destruct Hcase as (b & -> & Hb & Hr).
    by_fields; rewrite ?Hr, ?app_nil_r; try done; by rewrite ?Hcr, ?Hsw, ?Hcw.
  - (* it goes down *)
    injection E as <-. by_fields. destruct Hts as (u & Hu & _). by exists u.
  - (* the server connection goes down *)
    injection E as <-. by_fields. destruct Hts as (u & Hu & _). by exists u.
  - (* the client gives data *)
    injection E as <-. destruct Hts as (u & Hu & Hz). unfold onClientMessage.
    destruct (serverUp s) eqn:Hs; by_fields.
    + exists []. rewrite Hu, (Hz eq_refl), !app_nil_r. done.
    + exists (u ++ d). rewrite Hu. split; [by rewrite app_assoc|congruence].
  - (* the server connection reads *)
    unfold onServerMessage in E. pose proof (Buffer.readFd_wp (input s) d Hin (proj2 Ha)) as Hw.
    apply bind_ok in E as (r & Er & E). rewrite Er in Hw. destruct Hw as (_ & Hb & Hr).
    cbn [context set_input] in E. rewrite Hcx in E.
    destruct (clientConn_ s) eqn:Hc.
    + assert (Hop' : clientPhase s = Open) by by apply Hop.
      destruct (forward_open (set_input s (snd r) []) Hb Hop') as (b & Ef & Hb' & Hr').
      rewrite Ef in E. injection E as <-.
      by_fields; rewrite ?Hr', ?app_nil_r; try done; try (by rewrite Hc).
      rewrite Hr. by rewrite !app_assoc, Htc, <- app_assoc.
    + injection E as <-. by_fields; try (by rewrite Hc).
      * by rewrite Hr, !app_assoc, Htc.
      * intros Hop'. by apply Hop in Hop'.
  - destruct which; cbn [onHighWaterMark] in E.
    + destruct (0 <? n); [apply bind_ok in E as ([] & _ & E)|]; injection E as <-;
        by_fields; auto.
    + apply bind_ok in E as ([] & _ & E). destruct (0 <? n); injection E as <-;
        by_fields; auto.
  - unfold onWriteComplete in E.
    apply bind_ok in E as ([] & _ & E). destruct which; injection E as <-;
      by_fields; auto.
Qed.

Lemma tunnel_runs_inv buf reading es s :
  Buffer.Inv buf -> runs buf reading es s -> Inv (Buffer.readable buf) es s.
Proof.
  intros HB. induction 1 as [|es s e s' _ IH Ha E]; [by apply setup_inv|]. by eapply tunnel_step_inv.
Qed.

(** C24. No bytes are lost, repeated or reordered, whatever the connections deliver
    and in whatever order: what the server side received, with what followed the
    request, is what was sent to the client connection followed by the input buffer,
    which is empty while the client connection is up; and what the client side
    received was sent to the server connection, all of it while that is up and a
    prefix of it once that has gone or was shut down. *)
Theorem relay_stream buf reading es s :
  Buffer.Inv buf -> runs buf reading es s ->
  Buffer.readable buf ++ from_server es = toClient s ++ Buffer.readable (input s) /\
  (clientPhase s = Open -> Buffer.readable (input s) = []) /\
  toServer s `prefix_of` from_client es /\
  (serverUp s = true -> toServer s = from_client es).
Proof.
  intros HB HR. destruct (tunnel_runs_inv buf reading es s HB HR) as [_ _ _ _ _ _ _ Htc Hfw (u & Hu & Hz)].
  split_and!; [done|done|by exists u|]. intros Hs. by rewrite Hu, (Hz Hs), app_nil_r.
Qed.

(** Flow control: while the client connection is up, a side is not read exactly
    when the other side's write-complete callback is the tunnel's, so that it is
    read again when that side has sent everything; and the callback does that. *)
Theorem flow_control buf reading es s :
  Buffer.Inv buf -> runs buf reading es s -> clientPhase s = Open ->
  clientReading s = negb (serverWriteComplete s) /\
  serverReading s = negb (clientWriteComplete s) /\
  exists s1 s2, onWriteComplete s kServer = Ok s1 /\ clientReading s1 = true /\
    onWriteComplete s1 kClient = Ok s2 /\ serverReading s2 = true /\ clientReading s2 = true.
Proof.
  intros HB HR Hp. destruct (tunnel_runs_inv buf reading es s HB HR) as [_ Hop _ _ _ Hc Hs _ _ _].
  split_and!; [auto|auto|]. assert (Hcc : clientConn_ s = true) by (by apply Hop).
  unfold onWriteComplete. rewrite Hcc. eexists _, _.
  split; [reflexivity|]. split; [done|]. cbn [clientConn_ set_reading]. rewrite Hcc.
  split; [reflexivity|]. done.
Qed.

(** [teardown] resets [clientConn_] and leaves the write-complete callback of the
    server connection: once the client connection has gone down, the next
    completed write of the server connection, and the next high-water mark of the
    client connection, dereference a null pointer. *)
Theorem closed_callbacks_crash buf reading es s :
  Buffer.Inv buf -> runs buf reading es s -> clientPhase s = Closed ->
  onWriteComplete s kServer = Err NullDeref /\ onWriteComplete s kClient = Err NullDeref /\
  forall n, onHighWaterMark s kClient n = Err NullDeref.
Proof.
  intros HB HR Hp. destruct (tunnel_runs_inv buf reading es s HB HR) as [_ Hop _ _ _ _ _ _ _ _].
  assert (Hcc : clientConn_ s = false).
  { destruct (clientConn_ s); [|done]. assert (clientPhase s = Open) by (by apply Hop). congruence. }
  unfold onWriteComplete, onHighWaterMark. by rewrite Hcc.
Qed.

(** ** A concrete session *)

Definition run_event (m : res t) (e : event) : res t := s ← m ; step s e.
Definition demo_buf : Buffer.t := Buffer.buffer_of (bytes "GET").
Definition demo_events : list event :=
  [ServerData (bytes " /"); ClientUp; ClientData (bytes "200"); HighWater kServer 2000000;
   ServerData (bytes " HTTP")].
Definition demo_state (n : nat) : t :=
  match foldl run_event (Ok (setup demo_buf true)) (take n demo_events) with
  | Ok s => s | Err _ => setup demo_buf true end.
Definition demo_down : t := teardown (demo_state 5).

Lemma demo_buf_inv : Buffer.Inv demo_buf.
Proof. apply Buffer.buffer_of_ok. vm_compute. reflexivity. Qed.

Lemma demo_runs : runs demo_buf true demo_events (demo_state 5).
Proof.
  assert (Hstep : forall n e, runs demo_buf true (take n demo_events) (demo_state n) ->
    demo_events !! n = Some e -> allowed (demo_state n) e -> step (demo_state n) e = Ok (demo_state (S n)) ->
    runs demo_buf true (take (S n) demo_events) (demo_state (S n))).
  { intros n e HR He Ha E. rewrite (take_S_r demo_events n e He). by eapply runs_step. }
  assert (H0 : runs demo_buf true (take 0 demo_events) (demo_state 0)) by constructor.
  assert (H1 := Hstep 0%nat _ H0 eq_refl ltac:(vm_compute; first [discriminate | by split; [left|]]) ltac:(vm_compute; reflexivity)).
  assert (H2 := Hstep 1%nat _ H1 eq_refl ltac:(vm_compute; reflexivity) ltac:(vm_compute; reflexivity)).
  assert (H3 := Hstep 2%nat _ H2 eq_refl ltac:(vm_compute; reflexivity) ltac:(vm_compute; reflexivity)).
  assert (H4 := Hstep 3%nat _ H3 eq_refl ltac:(vm_compute; first [discriminate | by split; [left|]]) ltac:(vm_compute; reflexivity)).
  exact (Hstep 4%nat _ H4 eq_refl ltac:(vm_compute; first [discriminate | by split; [left|]]) ltac:(vm_compute; reflexivity)).
Qed.

Lemma demo_down_runs : runs demo_buf true (demo_events ++ [ClientDown]) demo_down.
Proof. eapply runs_step; [exact demo_runs|vm_compute; reflexivity|reflexivity]. Qed.

Lemma relay_stream_witness :
  Buffer.readable demo_buf ++ from_server demo_events =
    toClient (demo_state 5) ++ Buffer.readable (input (demo_state 5)) /\
  toClient (demo_state 5) = bytes "GET / HTTP" /\ toServer (demo_state 5) = bytes "200".
Proof.
  pose proof (relay_stream demo_buf true demo_events (demo_state 5) demo_buf_inv demo_runs) as (H & _).
  split; [exact H|]. split; vm_compute; reflexivity.
Defined.

Lemma flow_control_witness :
  clientReading (demo_state 5) = false /\
  clientReading (demo_state 5) = negb (serverWriteComplete (demo_state 5)).
Proof.
  split; [vm_compute; reflexivity|].
  assert (Hp : clientPhase (demo_state 5) = Open) by (vm_compute; reflexivity).
  exact (proj1 (flow_control demo_buf true demo_events (demo_state 5) demo_buf_inv demo_runs Hp)).
Defined.

Lemma closed_callbacks_crash_witness :
  serverWriteComplete demo_down = true /\ onWriteComplete demo_down kServer = Err NullDeref.
Proof.
  split; [vm_compute; reflexivity|].
  assert (Hp : clientPhase demo_down = Closed) by reflexivity.
  exact (proj1 (closed_callbacks_crash demo_buf true _ demo_down demo_buf_inv demo_down_runs Hp)).
Defined.

End Tunnel.
