(* ===== verification/Proxy.v ===== *)
(** * The proxies' tables of tunnels ([examples/socks4a/socks4a.cpp], [tcprelay.cpp])

    Both programs keep [g_tunnels], a map from the names of the connections that
    are up to their tunnels; the relay opens a tunnel when a connection comes up,
    the SOCKS proxy when a request has been read.  A tunnel outlives its entry:
    the callbacks of its client hold it, so [heap] keeps every tunnel made, by
    address.  The requests are read by [Socks4a], each tunnel runs as in
    [Tunnel].  A [run] keeps its transitions, from which [given] and [answered] read
    what the connections of a tunnel gave it. *)

From S2P Require Import Prelude Endian Buffer InetAddress Socks4a Tunnel.

#[local] Open Scope Z_scope.

Module Proxy.

Inductive program := Socks | Relay.

Section proxy.
Context (h : endianness) `{N : Socks4a.Names} (prog : program).

Notation name := String.string.

Record t := mk {
  (* the input buffers of the connections that are up and have no tunnel *)
  inputs : gmap name Buffer.t;
  g_tunnels : gmap name Z;
  heap : gmap Z Tunnel.t;
  (* where the next tunnel is made *)
  next : Z;
  (* what the SOCKS handler did for each connection *)
  log : list (name * Socks4a.call)
}.

Definition init : t := mk ∅ ∅ ∅ 0 [].

Definition tunnel (y : t) (p : Z) : res Tunnel.t :=
  match heap y !! p with Some s => Ok s | None => Err NullDeref end.
Definition set_tunnel (y : t) (p : Z) (s : Tunnel.t) : t :=
  mk (inputs y) (g_tunnels y) (<[p := s]> (heap y)) (next y) (log y).

(** [make_shared<Tunnel>], [setup], [connect], and the entry in the table; the
    connection's input buffer is [buf] from here on. *)
Definition open (y : t) (n : name) (buf : Buffer.t) (reading : bool) : t :=
  mk (delete n (inputs y)) (<[n := next y]> (g_tunnels y))
    (<[next y := Tunnel.setup buf reading]> (heap y)) (next y + 1) (log y).

(** [it->second->disconnect()] and the removal of the entry. *)
Definition hang_up (y : t) (n : name) (p : Z) : res t :=
  s ← tunnel y p ;
  Ok (mk (inputs y) (delete n (g_tunnels y)) (<[p := Tunnel.serverDown s]> (heap y)) (next y) (log y)).

Definition onServerConnection (y : t) (n : name) (connected : bool) : res t :=
  match prog, connected with
  | Socks, true => Ok (mk (<[n := Buffer.init]> (inputs y)) (g_tunnels y) (heap y) (next y) (log y))
  | Socks, false =>
      match g_tunnels y !! n with
      | Some p => hang_up y n p
      | None => Ok (mk (delete n (inputs y)) (g_tunnels y) (heap y) (next y) (log y))
      end
  | Relay, true => Ok (open y n Buffer.init false)
  | Relay, false =>
      assert_ (negb (bool_decide (g_tunnels y !! n = None))) ;;
      match g_tunnels y !! n with
      | Some p => hang_up y n p
      | None => Err NullDeref
      end
  end.

Definition is_open (c : Socks4a.call) : bool :=
  match c with Socks4a.OpenTunnel _ => true | _ => false end.

(** The bytes [d] arrive on connection [n], and [onServerMessage] runs. *)
Definition onServerMessage (y : t) (n : name) (d : list byte) : res t :=
  match g_tunnels y !! n with
  | Some p =>
      s ← tunnel y p ;
      s ← Tunnel.onServerMessage s d ;
      Ok (set_tunnel y p s)
  | None =>
      match inputs y !! n with
      | None => Err NullDeref
      | Some buf =>
          r ← Buffer.readFd buf (Buffer.RvData d) ;
          q ← Socks4a.onServerMessage h false false false (snd r) ;
          let calls := fst q in
          let y := mk (<[n := snd q]> (inputs y)) (g_tunnels y) (heap y) (next y)
                     (log y ++ ((fun c => (n, c)) <$> calls)) in
          Ok (if existsb is_open calls then open y n (snd q) true else y)
      end
  end.

Inductive event :=
  | Up (n : name)
  | Down (n : name)
  | Data (n : name) (d : list byte)
  (* a callback of the client connection of the tunnel at [p], or of its
     connections' buffers *)
  | Client (p : Z) (e : Tunnel.event).

Definition step (y : t) (e : event) : res t :=
  match e with
  | Up n => onServerConnection y n true
  | Down n => onServerConnection y n false
  | Data n d => onServerMessage y n d
  | Client p e => s ← tunnel y p ; s ← Tunnel.step s e ; Ok (set_tunnel y p s)
  end.

(** A connection is up from its first callback to its second. *)
Definition up (y : t) (n : name) : Prop := is_Some (inputs y !! n) \/ is_Some (g_tunnels y !! n).

Definition client_event (e : Tunnel.event) : bool :=
  match e with Tunnel.ServerDown | Tunnel.ServerData _ => false | _ => true end.

Definition allowed (y : t) (e : event) : Prop :=
  match e with
  | Up n => ~ up y n
  | Down n => up y n
  | Data n d => up y n /\
      (forall b, inputs y !! n = Some b -> Buffer.rv_fits b (Buffer.RvData d)) /\
      (forall p s, g_tunnels y !! n = Some p -> heap y !! p = Some s ->
         Buffer.rv_fits (Tunnel.input s) (Buffer.RvData d))
  | Client p e => client_event e = true /\
      exists s, heap y !! p = Some s /\ Tunnel.allowed s e
  end.

Inductive reachable : t -> Prop :=
  | reach_init : reachable init
  | reach_step y e y' : reachable y -> allowed y e -> step y e = Ok y' -> reachable y'.

(** ** The invariant *)

(** What holds of every tunnel made: it is in some run. *)
Definition session (s : Tunnel.t) : Prop :=
  exists buf reading es, Buffer.Inv buf /\ Tunnel.runs buf reading es s.

Record Inv (y : t) : Prop := {
  inv_table : forall n p, g_tunnels y !! n = Some p -> exists s, heap y !! p = Some s /\
    (Tunnel.clientPhase s <> Tunnel.Closed -> Tunnel.serverUp s = true);
  inv_inj : forall n1 n2 p, g_tunnels y !! n1 = Some p -> g_tunnels y !! n2 = Some p -> n1 = n2;
  inv_heap : forall p s, heap y !! p = Some s -> p < next y /\ session s;
  inv_gone : forall p s, heap y !! p = Some s -> (forall n, g_tunnels y !! n <> Some p) ->
    Tunnel.serverUp s = false;
  inv_inputs : forall n b, inputs y !! n = Some b ->
    Buffer.Inv b /\ g_tunnels y !! n = None /\ prog = Socks
}.

Lemma session_step s e s' :
  session s -> Tunnel.allowed s e -> Tunnel.step s e = Ok s' -> session s'.
Proof.
  intros (buf & reading & es & HB & HR) Ha E. exists buf, reading, (es ++ [e]).
  split; [done|]. by eapply Tunnel.runs_step.
Qed.

(** Only [teardown] takes the server connection down, and the client with it. *)
Lemma step_server s e s' :
  e <> Tunnel.ServerDown -> Tunnel.allowed s e -> Tunnel.step s e = Ok s' ->
  (Tunnel.serverUp s = false -> Tunnel.serverUp s' = false) /\
  ((Tunnel.clientPhase s <> Tunnel.Closed -> Tunnel.serverUp s = true) ->
   Tunnel.clientPhase s' <> Tunnel.Closed -> Tunnel.serverUp s' = true).
Proof.
  intros Hne Ha E.
  assert (Hf : forall x y, Tunnel.forward x = Ok y ->
    Tunnel.serverUp y = Tunnel.serverUp x /\ Tunnel.clientPhase y = Tunnel.clientPhase x).
  { intros x y. unfold Tunnel.forward. case_match; intros Ex; inv_ok; done. }
  destruct e as [| | |d|d|which n|which]; simpl in E; try done.
  - unfold Tunnel.onClientConnection in E. simpl in Ha. rewrite Ha. case_match.
    + apply Hf in E as [-> ->]. simpl. split; [done|]. intros Hu _. by apply Hu.
    + inv_ok. simpl. split; [done|]. intros Hu _. by apply Hu.
  - inv_ok. by split.
  - inv_ok. by split.
  - unfold Tunnel.onServerMessage in E. apply bind_ok in E as (r & _ & E).
    case_match; [|inv_ok; by split]. apply Hf in E as [E1 E2]. rewrite E1, E2. by split.
  - unfold Tunnel.onHighWaterMark in E. destruct which; repeat case_match; inv_ok; try done; by split.
  - unfold Tunnel.onWriteComplete in E. apply bind_ok in E as ([] & _ & E). destruct which; inv_ok; by split.
Qed.

(** A step of the tunnel at [p]. *)
Lemma set_tunnel_inv y p s e s' :
  Inv y -> heap y !! p = Some s -> e <> Tunnel.ServerDown -> Tunnel.allowed s e ->
  Tunnel.step s e = Ok s' -> Inv (set_tunnel y p s').
Proof.
  intros [H1 H2 H3 H4 H5] Hp Hne Ha E. destruct (step_server s e s' Hne Ha E) as [Hs1 Hs2].
  split; try done.
  - intros n q Hq. destruct (H1 n q Hq) as (s0 & Hs0 & Hup). simpl.
    destruct (decide (p = q)) as [<-|]; [|exists s0; by rewrite lookup_insert_ne].
    exists s'. rewrite lookup_insert_eq. split; [done|]. apply Hs2.
    assert (s0 = s) as -> by congruence. done.
  - simpl. intros q s0 [[<- <-]|[_ Hq]]%lookup_insert_Some; [|by apply H3].
    destruct (H3 p s Hp) as [? ?]. split; [done|]. by eapply session_step.
  - simpl. intros q s0 [[<- <-]|[_ Hq]]%lookup_insert_Some Hn; [|by apply (H4 q)].
    apply Hs1. by apply (H4 p).
Qed.

Lemma open_inv y n buf reading :
  Inv y -> Buffer.Inv buf -> g_tunnels y !! n = None -> Inv (open y n buf reading).
Proof.
  intros [H1 H2 H3 H4 H5] HB Hn.
  assert (Hold : forall q s, heap y !! q = Some s -> next y <> q) by (intros q s Hq; destruct (H3 q s Hq); lia).
  assert (Htab : forall m q, g_tunnels y !! m = Some q -> next y <> q).
  { intros m q Hq. destruct (H1 m q Hq) as (s & Hs & _). by apply (Hold q s). }
  split; simpl.
  - intros m q [[<- <-]|[Hne Hq]]%lookup_insert_Some.
    + eexists. rewrite lookup_insert_eq. split; [done|]. done.
    + destruct (H1 m q Hq) as (s & Hs & Hup). exists s. rewrite lookup_insert_ne; [done|]. by apply (Htab m).
  - intros m1 m2 q [[E1 Hz1]|[Hn1 Hq1]]%lookup_insert_Some [[E2 Hz2]|[Hn2 Hq2]]%lookup_insert_Some.
    + congruence.
    + by apply Htab in Hq2.
    + by apply Htab in Hq1.
    + by apply (H2 m1 m2 q).
  - intros q s [[<- <-]|[_ Hq]]%lookup_insert_Some.
    + split; [lia|]. exists buf, reading, []. split; [done|]. constructor.
    + destruct (H3 q s Hq). split; [lia|done].
  - intros q s [[<- <-]|[_ Hq]]%lookup_insert_Some Hall.
    + destruct (Hall n). by rewrite lookup_insert_eq.
    + apply (H4 q s Hq). intros m Hm. destruct (decide (n = m)) as [<-|Hne]; [congruence|].
      apply (Hall m). by rewrite lookup_insert_ne.
  - intros m b [Hne Hb]%lookup_delete_Some. rewrite lookup_insert_ne by done. by apply H5.
Qed.

Lemma proxy_hang_up_ok y n p :
  Inv y -> g_tunnels y !! n = Some p -> exists y', hang_up y n p = Ok y' /\ Inv y'.
Proof.
  intros [H1 H2 H3 H4 H5] Hp. destruct (H1 n p Hp) as (s & Hs & _).
  unfold hang_up, tunnel. rewrite Hs, bind_ret_l. eexists. split; [reflexivity|]. split; simpl.
  - intros m q [Hne Hq]%lookup_delete_Some. destruct (H1 m q Hq) as (s0 & Hs0 & Hup). exists s0.
    rewrite lookup_insert_ne; [done|]. intros <-. by apply Hne, (H2 n m p).
  - intros m1 m2 q [_ Hq1]%lookup_delete_Some [_ Hq2]%lookup_delete_Some. by apply (H2 m1 m2 q).
  - intros q s0 [[<- <-]|[_ Hq]]%lookup_insert_Some; [|by apply H3].
    destruct (H3 p s Hs) as [? Hsess]. split; [done|].
    by apply (session_step s Tunnel.ServerDown).
  - intros q s0 [[<- <-]|[Hne Hq]]%lookup_insert_Some Hall; [done|]. apply (H4 q s0 Hq).
    intros m Hm. apply (Hall m). apply lookup_delete_Some. split; [|done]. intros <-. congruence.
  - intros m b Hb. destruct (H5 m b Hb) as (? & Ht & ?). split_and!; [done| |done].
    apply lookup_delete_None. by right.
Qed.

(** The SOCKS handler leaves a well-formed buffer. *)
Lemma handler_inv buf l buf' :
  Buffer.Inv buf -> Socks4a.onServerMessage h false false false buf = Ok (l, buf') -> Buffer.Inv buf'.
Proof.
  intros HI. unfold Socks4a.onServerMessage. cbn [negb]. intros E.
  repeat (case_match; try (by inv_ok)). apply bind_ok in E as (d & _ & E).
  apply bind_ok in E as (q & _ & E). destruct q as [[[[[ver cmd] okay] wh] addr]|]; [|by inv_ok].
  case_match; [|by inv_ok]. apply bind_ok in E as (b & Er & E). injection E as _ <-.
  pose proof (Buffer.retrieveUntil_ok buf (Buffer.peek buf + wh + 1) HI) as Hr.
  assert (He : 0 <= Buffer.peek buf + wh + 1).
  { unfold Buffer.retrieveUntil in Er. apply bind_ok in Er as ([] & Hle%assert_ok & _).
    destruct HI as [Hle' _]. unfold Buffer.peek in *. lia. }
  specialize (Hr He). case_bool_decide; [|congruence]. destruct Hr as (b' & Eb & HI' & _). congruence.
Qed.

Lemma proxy_step_inv y e y' : Inv y -> allowed y e -> step y e = Ok y' -> Inv y'.
Proof.
  intros HI Ha E. destruct e as [n|n|n d|p e]; simpl in E, Ha.
  - assert (Hnone : inputs y !! n = None /\ g_tunnels y !! n = None).
    { split; apply eq_None_not_Some; intros H; apply Ha; [by left|by right]. }
    unfold onServerConnection in E. destruct prog eqn:Hprog; inv_ok.
    + destruct HI as [H1 H2 H3 H4 H5]. split; try done. simpl.
      intros m b [[<- <-]|[_ Hb]]%lookup_insert_Some; [|by apply H5].
      split_and!; [apply Buffer.buffer_init_inv|apply Hnone|done].
    + apply open_inv; [done|apply Buffer.buffer_init_inv|apply Hnone].
  - unfold onServerConnection in E. destruct prog eqn:Hprog.
    + destruct (g_tunnels y !! n) as [p|] eqn:Hp.
      * destruct (proxy_hang_up_ok y n p HI Hp) as (y2 & E2 & HI2). congruence.
      * inv_ok. destruct HI as [H1 H2 H3 H4 H5]. split; try done. simpl.
        intros m b [_ Hb]%lookup_delete_Some. by apply H5.
    + inv_ok. destruct (g_tunnels y !! n) as [p|] eqn:Hp; [|done].
      destruct (proxy_hang_up_ok y n p HI Hp) as (y2 & E2 & HI2). congruence.
  - unfold onServerMessage in E. destruct Ha as (_ & Hf1 & Hf2).
    destruct (g_tunnels y !! n) as [p|] eqn:Hp.
    + destruct (inv_table _ HI n p Hp) as (s & Hs & Hup). unfold tunnel in E. rewrite Hs, bind_ret_l in E.
      apply bind_ok in E as (s' & Es & E). injection E as <-.
      apply (set_tunnel_inv y p s (Tunnel.ServerData d) s'); try done. split; [|by apply (Hf2 p)].
      destruct (Tunnel.clientPhase s); [left; by apply Hup|left; by apply Hup|by right].
    + destruct (inputs y !! n) as [buf|] eqn:Hb; [|done]. destruct (inv_inputs _ HI n buf Hb) as (HB & _ & Hprog).
      apply bind_ok in E as (r & Er & E). apply bind_ok in E as ([l buf'] & Eq & E).
      pose proof (Buffer.readFd_wp buf d HB (Hf1 buf eq_refl)) as Hw. rewrite Er in Hw. destruct Hw as (_ & HB1 & _).
      apply handler_inv in Eq as HB2; [|done]. cbn [fst snd] in E.
      set (y1 := mk _ _ _ _ _) in E. assert (HI1 : Inv y1).
      { destruct HI as [H1 H2 H3 H4 H5]. split; try done. simpl.
        intros m b [[<- <-]|[_ Hm]]%lookup_insert_Some; [done|by apply H5]. }
      destruct (existsb is_open l); injection E as <-; [by apply open_inv|done].
  - destruct Ha as (Hc & s & Hs & Ha). unfold tunnel in E. rewrite Hs, bind_ret_l in E.
    apply bind_ok in E as (s' & Es & E). injection E as <-.
    apply (set_tunnel_inv y p s e s'); try done. by intros ->.
Qed.

Lemma proxy_reachable_inv y : reachable y -> Inv y.
Proof.
  induction 1 as [|y e y' _ HI Ha E]; [|by eapply proxy_step_inv].
  split; simpl; intros *; by rewrite ?lookup_empty.
Qed.

(** ** What each tunnel was given in a run *)

(** A run: each step with the state before it and the state after. *)
Inductive run : list (t * event * t) -> t -> Prop :=
  | run_nil : run [] init
  | run_step tr y e y' : run tr y -> allowed y e -> step y e = Ok y' -> run (tr ++ [(y, e, y')]) y'.

(** What the server side gave the tunnel at [p]: what its connection's buffer held
    after the request, when the tunnel was made, and what came in on the connection
    whose entry leads to it. *)
Definition given (p : Z) (x : t * event * t) : list byte :=
  let '(y, e, y') := x in
  match heap y !! p, heap y' !! p with
  | None, Some s => Buffer.readable (Tunnel.input s)
  | None, None => []
  | Some _, _ =>
      match e with
      | Data n d => if bool_decide (g_tunnels y !! n = Some p) then d else []
      | _ => []
      end
  end.
(** What its client side gave it. *)
Definition answered (p : Z) (x : t * event * t) : list byte :=
  match snd (fst x) with
  | Client q (Tunnel.ClientData d) => if q =? p then d else []
  | _ => []
  end.
Definition given_to (p : Z) (tr : list (t * event * t)) : list byte := tr ≫= given p.
Definition answered_to (p : Z) (tr : list (t * event * t)) : list byte := tr ≫= answered p.

(** How a step of the proxy changes the tunnels. *)
Inductive change (y : t) (e : event) (y' : t) : Prop :=
  | change_none : heap y' = heap y ->
      (forall n d p, e = Data n d -> g_tunnels y !! n <> Some p) -> (forall p e', e <> Client p e') -> change y e y'
  | change_new buf reading : heap y' = <[next y := Tunnel.setup buf reading]> (heap y) -> Buffer.Inv buf ->
      (forall n d p, e = Data n d -> g_tunnels y !! n <> Some p) -> (forall p e', e <> Client p e') -> change y e y'
  | change_step p s e' s' : heap y !! p = Some s -> heap y' = <[p := s']> (heap y) ->
      Tunnel.allowed s e' -> Tunnel.step s e' = Ok s' ->
      (forall n d q, e = Data n d -> g_tunnels y !! n = Some q -> q = p) ->
      Tunnel.from_server [e'] = given p (y, e, y') -> Tunnel.from_client [e'] = answered p (y, e, y') ->
      (forall q e2, e = Client q e2 -> q = p) -> change y e y'.

Lemma proxy_step_change y e y' : Inv y -> allowed y e -> step y e = Ok y' -> change y e y'.
Proof.
  intros HI Ha E. destruct e as [n|n|n d|p e]; simpl in E, Ha.
  - unfold onServerConnection in E. destruct prog; inv_ok; [by apply change_none|].
    by eapply change_new; [..|apply Buffer.buffer_init_inv| |].
  - assert (Hdown : forall p, g_tunnels y !! n = Some p -> hang_up y n p = Ok y' -> change y (Down n) y').
    { intros p Hp Eh. destruct (inv_table _ HI n p Hp) as (s & Hs & _). unfold hang_up, tunnel in Eh.
      rewrite Hs, bind_ret_l in Eh. injection Eh as <-.
      apply (change_step _ _ _ p s Tunnel.ServerDown (Tunnel.serverDown s)); try done. simpl. by rewrite Hs. }
    unfold onServerConnection in E. destruct prog.
    + destruct (g_tunnels y !! n) as [p|] eqn:Hp; [by apply (Hdown p)|]. inv_ok. by apply change_none.
    + inv_ok. destruct (g_tunnels y !! n) as [p|] eqn:Hp; [by apply (Hdown p)|done].
  - unfold onServerMessage in E. destruct Ha as (_ & Hf1 & Hf2).
    destruct (g_tunnels y !! n) as [p|] eqn:Hp.
    + destruct (inv_table _ HI n p Hp) as (s & Hs & Hup). unfold tunnel in E. rewrite Hs, bind_ret_l in E.
      apply bind_ok in E as (s' & Es & E). injection E as <-.
      apply (change_step _ _ _ p s (Tunnel.ServerData d) s'); try done.
      * split; [|by apply (Hf2 p)].
        destruct (Tunnel.clientPhase s); [left; by apply Hup|left; by apply Hup|by right].
      * intros n2 d2 q [= <- <-]. congruence.
      * simpl. rewrite Hs, bool_decide_true by done. apply app_nil_r.
    + assert (Hno : forall n2 d2 p, Data n d = Data n2 d2 -> g_tunnels y !! n2 <> Some p) by congruence.
      destruct (inputs y !! n) as [buf|] eqn:Hb; [|done]. destruct (inv_inputs _ HI n buf Hb) as (HB & _ & _).
      apply bind_ok in E as (r & Er & E). apply bind_ok in E as ([l buf'] & Eq & E).
      pose proof (Buffer.readFd_wp buf d HB (Hf1 buf eq_refl)) as Hw. rewrite Er in Hw. destruct Hw as (_ & HB1 & _).
      apply handler_inv in Eq as HB2; [|done]. cbn [fst snd] in E.
      destruct (existsb is_open l); injection E as <-; [by eapply change_new|by apply change_none].
  - destruct Ha as (Hc & s & Hs & Ha). unfold tunnel in E. rewrite Hs, bind_ret_l in E.
    apply bind_ok in E as (s' & Es & E). injection E as <-.
    apply (change_step _ _ _ p s e s'); try done.
    + unfold given. rewrite Hs. by destruct e.
    + unfold answered. cbn [fst snd]. rewrite Z.eqb_refl. destruct e; try done. apply app_nil_r.
    + congruence.
Qed.

(** The tunnel at [p] is in the run of [Tunnel] that the proxy's run [tr] makes. *)
Definition tracked (tr : list (t * event * t)) (p : Z) (s : Tunnel.t) : Prop :=
  exists buf reading es, Buffer.Inv buf /\ Tunnel.runs buf reading es s /\
    Buffer.readable buf ++ Tunnel.from_server es = given_to p tr /\
    Tunnel.from_client es = answered_to p tr.

Lemma run_tracked tr y : run tr y -> Inv y /\
  (forall p s, heap y !! p = Some s -> tracked tr p s) /\
  (forall p, heap y !! p = None -> given_to p tr = [] /\ answered_to p tr = []).
Proof.
  induction 1 as [|tr y e y' Hr (HI & HT & HN) Ha E].
  { split_and!; [apply proxy_reachable_inv, reach_init|intros p s Hp; simpl in Hp; by rewrite lookup_empty in Hp|done]. }
  split; [by apply (proxy_step_inv y e)|].
  assert (Hsnoc : forall p, given_to p (tr ++ [(y, e, y')]) = given_to p tr ++ given p (y, e, y') /\
    answered_to p (tr ++ [(y, e, y')]) = answered_to p tr ++ answered p (y, e, y')).
  { intros p. unfold given_to, answered_to. rewrite !bind_app. simpl. by rewrite !app_nil_r. }
  assert (Hidle : forall q, given q (y, e, y') = [] -> answered q (y, e, y') = [] ->
    (forall s, heap y !! q = Some s -> tracked (tr ++ [(y, e, y')]) q s) /\
    (heap y !! q = None -> given_to q (tr ++ [(y, e, y')]) = [] /\ answered_to q (tr ++ [(y, e, y')]) = [])).
  { intros q G1 G2. destruct (Hsnoc q) as [E1 E2]. split.
    - intros s Hq. unfold tracked. rewrite E1, E2, G1, G2, !app_nil_r. by apply HT.
    - intros Hq. rewrite E1, E2, G1, G2, !app_nil_r. by apply HN. }
  destruct (proxy_step_change y e y' HI Ha E) as [Hh Hd Hc|buf reading Hh HB Hd Hc|p s e' s' Hp Hh Hal Es Hd Hs Hcl Hc].
  - assert (Hi : forall q, given q (y, e, y') = [] /\ answered q (y, e, y') = []).
    { intros q. unfold given, answered. simpl. rewrite Hh.
      destruct e; destruct (heap y !! q); try done; try (by edestruct Hc); rewrite bool_decide_false; naive_solver. }
    rewrite Hh. split; intros q; destruct (Hi q) as [G1 G2]; by apply Hidle.
  - assert (Hfresh : heap y !! next y = None).
    { apply eq_None_not_Some. intros [s0 Hs0]. destruct (inv_heap _ HI _ _ Hs0). lia. }
    assert (Hi : forall q, q <> next y -> given q (y, e, y') = [] /\ answered q (y, e, y') = []).
    { intros q Hq. unfold given, answered. simpl. rewrite Hh, lookup_insert_ne by done.
      destruct e; destruct (heap y !! q); try done; try (by edestruct Hc); rewrite bool_decide_false; naive_solver. }
    rewrite Hh. split.
    + intros q s0 [[<- <-]|[Hne Hq]]%lookup_insert_Some; [|destruct (Hi q) as [G1 G2]; [done|by apply Hidle]].
      exists buf, reading, []. destruct (Hsnoc (next y)) as [E1 E2]. destruct (HN _ Hfresh) as [N1 N2].
      split_and!; [done|constructor| |].
      * rewrite E1, N1, app_nil_r. unfold given. by rewrite Hfresh, Hh, lookup_insert_eq.
      * rewrite E2, N2. unfold answered. simpl. destruct e; try done. by edestruct Hc.
    + intros q [Hq Hne]%lookup_insert_None. destruct (Hi q) as [G1 G2]; [done|]. by apply Hidle.
  - assert (Hi : forall q, q <> p -> given q (y, e, y') = [] /\ answered q (y, e, y') = []).
    { intros q Hq. unfold given, answered. simpl. rewrite Hh, lookup_insert_ne by done.
      destruct e as [n|n|n d|r e2]; destruct (heap y !! q); try done.
      - rewrite bool_decide_false; [done|]. intros Hn. by apply Hq, (Hd n d).
      - rewrite (Hc r e2 eq_refl). destruct e2; try done. by rewrite (proj2 (Z.eqb_neq p q)).
      - rewrite (Hc r e2 eq_refl). destruct e2; try done. by rewrite (proj2 (Z.eqb_neq p q)). }
    rewrite Hh. split.
    + intros q s0 [[<- <-]|[Hne Hq]]%lookup_insert_Some; [|destruct (Hi q) as [G1 G2]; [done|by apply Hidle]].
      destruct (HT p s Hp) as (buf & reading & es & HB & HR & G1 & G2). destruct (Hsnoc p) as [E1 E2].
      exists buf, reading, (es ++ [e']). split_and!; [done|by eapply Tunnel.runs_step| |].
      * rewrite E1, <- G1, <- Hs. unfold Tunnel.from_server. by rewrite bind_app, app_assoc.
      * rewrite E2, <- G2, <- Hcl. unfold Tunnel.from_client. by rewrite bind_app.
    + intros q [Hq Hne]%lookup_insert_None. destruct (Hi q) as [G1 G2]; [done|]. by apply Hidle.
Qed.

(** C34. The table and the tunnels agree, whatever the clients and the servers
    do: an entry leads to a tunnel, no two to the same one; a tunnel without an
    entry has lost its server connection; and every tunnel ever made relays intact
    in this run: what its server connection gave it, from the bytes that followed
    the request on, is what it sent to the client connection with what waits in its
    buffer, and what its client connection gave it went to the server connection,
    all of it while that is up and a prefix of it afterwards. *)
Theorem proxy_tunnels tr y :
  run tr y ->
  (forall n p, g_tunnels y !! n = Some p -> is_Some (heap y !! p)) /\
  (forall n1 n2 p, g_tunnels y !! n1 = Some p -> g_tunnels y !! n2 = Some p -> n1 = n2) /\
  (forall p s, heap y !! p = Some s -> (forall n, g_tunnels y !! n <> Some p) ->
     Tunnel.serverUp s = false) /\
  forall p s, heap y !! p = Some s ->
    given_to p tr = Tunnel.toClient s ++ Buffer.readable (Tunnel.input s) /\
    Tunnel.toServer s `prefix_of` answered_to p tr /\
    (Tunnel.serverUp s = true -> Tunnel.toServer s = answered_to p tr).
Proof.
  intros Hr. destruct (run_tracked tr y Hr) as ([H1 H2 H3 H4 H5] & HT & _). split_and!.
  - intros n p Hp. destruct (H1 n p Hp) as (s & Hs & _). by exists s.
  - exact H2.
  - exact H4.
  - intros p s Hp. destruct (HT p s Hp) as (buf & reading & es & HB & HR & <- & <-).
    destruct (Tunnel.tunnel_runs_inv buf reading es s HB HR) as [_ _ _ _ _ _ _ Htc _ (u & Hu & Hz)].
    split_and!; [done|by exists u|]. intros Hs. by rewrite Hu, (Hz Hs), app_nil_r.
Qed.

(** A connection that goes down is taken off the table by both programs, and
    its tunnel loses its server side: the assert of the relay never fails, and
    the SOCKS proxy need not have opened a tunnel. *)
Theorem proxy_down y n :
  reachable y -> up y n ->
  exists y', step y (Down n) = Ok y' /\ reachable y' /\ ~ up y' n /\
    (forall p, g_tunnels y !! n = Some p -> exists s,
       heap y' !! p = Some s /\ Tunnel.serverUp s = false) /\
    (forall m, m <> n -> g_tunnels y' !! m = g_tunnels y !! m).
Proof.
  intros Hr Hup. assert (HI := proxy_reachable_inv y Hr). destruct HI as [H1 H2 H3 H4 H5].
  assert (Hgoal : exists y', step y (Down n) = Ok y' /\ ~ up y' n /\
    (forall p, g_tunnels y !! n = Some p -> exists s, heap y' !! p = Some s /\ Tunnel.serverUp s = false) /\
    (forall m, m <> n -> g_tunnels y' !! m = g_tunnels y !! m)).
  { destruct (g_tunnels y !! n) as [p|] eqn:Hp.
    - assert (Hin : inputs y !! n = None).
      { destruct (inputs y !! n) as [b|] eqn:Hb; [|done]. destruct (H5 n b Hb) as (_ & Ht & _). congruence. }
      destruct (H1 n p Hp) as (s & Hs & _).
      assert (Eh : exists y', hang_up y n p = Ok y' /\ inputs y' = inputs y /\
        g_tunnels y' = delete n (g_tunnels y) /\ heap y' = <[p := Tunnel.serverDown s]> (heap y)).
      { unfold hang_up, tunnel. rewrite Hs, bind_ret_l. by eexists. }
      destruct Eh as (y' & Eh & Ei & Eg & Eheap). exists y'. split.
      { simpl. unfold onServerConnection. rewrite Hp, bool_decide_false by done. by destruct prog. }
      unfold up. rewrite Ei, Eg, Eheap, Hin, lookup_delete_eq. split_and!.
      + by intros [[? ?]|[? ?]].
      + intros q [= <-]. eexists. by rewrite lookup_insert_eq.
      + intros m Hm. by rewrite lookup_delete_ne.
    - assert (Hb : is_Some (inputs y !! n)) by (destruct Hup as [?|[? ?]]; congruence).
      destruct Hb as [b Hb]. destruct (H5 n b Hb) as (_ & _ & Hprog).
      simpl. unfold onServerConnection. rewrite Hprog, Hp. eexists. split; [reflexivity|]. simpl.
      split_and!; [|done|done]. unfold up. simpl. rewrite lookup_delete_eq, Hp. by intros [[? ?]|[? ?]]. }
  destruct Hgoal as (y' & E & Hn & Hd & Ho). exists y'. split_and!; try done. by apply (reach_step y (Down n)).
Qed.

End proxy.

(** ** A SOCKS client is granted a tunnel, and leaves *)

#[local] Instance demo_names : Socks4a.Names := {| Socks4a.gethostbyname _ := (1, None) |}.

Definition demo_request : list byte :=
  Socks4a.request4 80 [x0a; x00; x00; x01] (bytes "u") ++ bytes "GET".
Definition next_state (y : t) (e : event) : t :=
  match step Little Socks y e with Ok y' => y' | Err _ => y end.
Definition demo_up : t := next_state init (Up "a").
Definition demo_open : t := next_state demo_up (Data "a" demo_request).

Lemma proxy_up_reachable : reachable Little Socks demo_up.
Proof.
  apply (reach_step Little Socks init (Up "a")); [constructor| |by vm_compute].
  intros [[b Hb]|[p Hp]]; [by vm_compute in Hb|by vm_compute in Hp].
Qed.

Lemma proxy_open_reachable : reachable Little Socks demo_open.
Proof.
  apply (reach_step Little Socks demo_up (Data "a" demo_request)); [apply proxy_up_reachable| |by vm_compute].
  split_and!.
  - left. by eexists.
  - intros b Hb. vm_compute in Hb. injection Hb as <-. vm_compute. discriminate.
  - intros p s Hp. by vm_compute in Hp.
Qed.

(** The client connection comes up, takes what followed the request, and answers. *)
Definition demo_connected : t := next_state demo_open (Client 0 Tunnel.ClientUp).
Definition demo_answered : t := next_state demo_connected (Client 0 (Tunnel.ClientData (bytes "200"))).
Definition demo_run : list (t * event * t) :=
  [(init, Up "a", demo_up); (demo_up, Data "a" demo_request, demo_open);
   (demo_open, Client 0 Tunnel.ClientUp, demo_connected);
   (demo_connected, Client 0 (Tunnel.ClientData (bytes "200")), demo_answered)].
Definition demo_tunnel (y : t) : Tunnel.t := default (Tunnel.setup Buffer.init false) (heap y !! 0).

Lemma demo_client y e : client_event e = true ->
  bool_decide (is_Some (heap y !! 0)) = true -> Tunnel.allowed (demo_tunnel y) e -> allowed y (Client 0 e).
Proof.
  intros Hc Hs%bool_decide_eq_true Ha. split; [done|]. destruct Hs as [s Hs]. exists s. split; [done|].
  unfold demo_tunnel in Ha. by rewrite Hs in Ha.
Qed.

Lemma demo_run_ok : run Little Socks demo_run demo_answered.
Proof.
  apply (run_step Little Socks (take 3 demo_run) demo_connected (Client 0 (Tunnel.ClientData (bytes "200")))).
  - apply (run_step Little Socks (take 2 demo_run) demo_open (Client 0 Tunnel.ClientUp)).
    + apply (run_step Little Socks (take 1 demo_run) demo_up (Data "a" demo_request)).
      * apply (run_step Little Socks [] init (Up "a")); [constructor| |by vm_compute].
        intros [[b Hb]|[p Hp]]; [by vm_compute in Hb|by vm_compute in Hp].
      * split_and!; [left; by eexists| |].
        -- intros b Hb. vm_compute in Hb. injection Hb as <-. vm_compute. discriminate.
        -- intros p s Hp. by vm_compute in Hp.
      * by vm_compute.
    + apply demo_client; by vm_compute.
    + by vm_compute.
  - apply demo_client; by vm_compute.
  - by vm_compute.
Qed.

Lemma proxy_tunnels_witness :
  given_to 0 demo_run = bytes "GET" /\
  given_to 0 demo_run = Tunnel.toClient (demo_tunnel demo_answered) ++
    Buffer.readable (Tunnel.input (demo_tunnel demo_answered)) /\
  Tunnel.toServer (demo_tunnel demo_answered) = bytes "200".
Proof.
  assert (E : heap demo_answered !! 0 = Some (demo_tunnel demo_answered)) by (vm_compute; reflexivity).
  split; [vm_compute; reflexivity|].
  destruct (proxy_tunnels Little Socks demo_run demo_answered demo_run_ok) as (_ & _ & _ & H).
  destruct (H 0 _ E) as (H1 & _ & H2). split; [exact H1|].
  rewrite H2 by (vm_compute; reflexivity). vm_compute. reflexivity.
Defined.

Lemma proxy_down_witness :
  exists y', step Little Socks demo_open (Down "a") = Ok y' /\ ~ up y' "a".
Proof.
  assert (E : g_tunnels demo_open !! ("a" : String.string) = Some 0) by (vm_compute; reflexivity).
  destruct (proxy_down Little Socks demo_open "a" proxy_open_reachable) as (y' & Es & _ & Hn & _).
  - right. exists 0. exact E.
  - exists y'. exact (conj Es Hn).
Defined.

End Proxy.
