(* ===== verification/Bench.v ===== *)
(** * The pipe benchmark ([examples/pingpong/bench.cpp])

    The globals, [runOnce] up to the loop, and [readCallback].  A socket pair is the
    number of bytes that wait at its channel; [recv] blocks when there are none, and
    [send] when there are as many as the kernel keeps for the pair, [room] (both
    ends are made blocking).  [int] arithmetic is checked. *)

From S2P Require Import Prelude.

Module Bench.

Record t := mk {
  pipes : list Z;
  g_reads : Z;
  g_writes : Z;
  g_fired : Z;
  quit : bool
}.

Section bench.
(** The messages of one byte that fit in a socket pair. *)
Context (room : Z).

Definition numPipes (s : t) : Z := zlen (pipes s).

(** [::send(g_pipes[fd], "m", 1, 0)] on a writing end, [fd = 2 * i + 1]. *)
Definition send (s : t) (fd : Z) : res t :=
  if bool_decide (0 <= fd) && Z.odd fd then
    match pipes s !! Z.to_nat (fd / 2) with
    | Some n =>
        if n <? room then
          Ok (mk (<[Z.to_nat (fd / 2) := n + 1]> (pipes s)) (g_reads s) (g_writes s) (g_fired s) (quit s))
        else Err Blocked
    | None => Err OutOfBounds
    end
  else Err OutOfBounds.

(** [::recv(fd, &ch, 1, 0)] at the channel of the pipe [idx]. *)
Definition recv (s : t) (idx : Z) : res (Z * t) :=
  match pipes s !! Z.to_nat idx with
  | Some n =>
      if 0 <? n then
        Ok (1, mk (<[Z.to_nat idx := n - 1]> (pipes s)) (g_reads s) (g_writes s) (g_fired s) (quit s))
      else Err Blocked
  | None => Err OutOfBounds
  end.

Definition readCallback (s : t) (idx : Z) : res t :=
  r ← recv s idx ;
  let s := snd r in
  reads ← chk32 (g_reads s + fst r) ;
  let s := mk (pipes s) reads (g_writes s) (g_fired s) (quit s) in
  s ← (if 0 <? g_writes s then
         let widx := idx + 1 in
         let widx := if numPipes s <=? widx then widx - numPipes s else widx in
         s ← send s (2 * widx + 1) ;
         fired ← chk32 (g_fired s + 1) ;
         Ok (mk (pipes s) (g_reads s) (g_writes s - 1) fired (quit s))
       else Ok s) ;
  Ok (if g_fired s =? g_reads s then mk (pipes s) (g_reads s) (g_writes s) (g_fired s) true else s).

(** The first messages: to each of [numActive] pipes, [space] apart. *)
Fixpoint send_first (s : t) (space : Z) (is_ : list nat) : res t :=
  match is_ with
  | [] => Ok s
  | i :: is_ => s ← send s (Z.of_nat i * space + 1) ; send_first s space is_
  end.

(** [runOnce] up to [g_loop->loop()], which resets [quit_]. *)
Definition runOnce (pipes : list Z) (numActive numWrites : Z) : res t :=
  check (negb (numActive =? 0)) SignedOverflow ;;
  let space := (Z.quot (zlen pipes) numActive) * 2 in
  let s := mk pipes 0 0 0 false in
  s ← send_first s space (seq 0 (Z.to_nat numActive)) ;
  Ok (mk (Bench.pipes s) 0 numWrites numActive false).

(** ** The messages on their way *)

Definition in_flight (l : list Z) : Z := foldr Z.add 0 l.

Lemma in_flight_nonneg l : Forall (fun n => 0 <= n) l -> 0 <= in_flight l.
Proof. induction 1; simpl; lia. Qed.

Lemma in_flight_insert l i n m : l !! i = Some n -> in_flight (<[i := m]> l) = in_flight l - n + m.
Proof. revert i. induction l as [|x l IH]; intros [|i] H; simpl in *; try done; [injection H as ->; lia|]. rewrite (IH i H). lia. Qed.

Lemma in_flight_some l : 0 < in_flight l -> Forall (fun n => 0 <= n) l -> exists i n, l !! i = Some n /\ 0 < n.
Proof.
  induction l as [|x l IH]; simpl; intros Hp Hf; [lia|]. apply Forall_cons in Hf as [Hx Hf].
  destruct (decide (0 < x)); [by exists 0%nat, x|]. destruct IH as (i & k & H); [lia|done|]. by exists (S i), k.
Qed.

Lemma in_flight_elem l i n : Forall (fun n => 0 <= n) l -> l !! i = Some n -> n <= in_flight l.
Proof.
  revert i. induction l as [|x l IH]; intros [|i] Hf H; simpl in *; try done; apply Forall_cons in Hf as [Hx Hf].
  - injection H as ->. pose proof (in_flight_nonneg l Hf). lia.
  - specialize (IH i Hf H). lia.
Qed.

Record Inv (total : Z) (s : t) : Prop := {
  inv_pipes : Forall (fun n => 0 <= n) (pipes s);
  inv_fired : g_fired s = g_reads s + in_flight (pipes s);
  inv_writes : 0 <= g_writes s;
  inv_total : g_fired s + g_writes s = total;
  inv_small : total < 2 ^ 31;
  inv_reads : 0 <= g_reads s;
  inv_left : 0 < g_writes s -> 0 < in_flight (pipes s);
  inv_quit : quit s = true -> in_flight (pipes s) = 0;
  inv_room : in_flight (pipes s) <= room
}.

Definition ready (s : t) (idx : Z) : Prop := 0 <= idx /\ exists n, pipes s !! Z.to_nat idx = Some n /\ 0 < n.

Lemma send_ok s i :
  Forall (fun n => 0 <= n) (pipes s) -> in_flight (pipes s) < room -> 0 <= i < numPipes s ->
  exists n, pipes s !! Z.to_nat i = Some n /\
    send s (2 * i + 1) = Ok (mk (<[Z.to_nat i := n + 1]> (pipes s)) (g_reads s) (g_writes s) (g_fired s) (quit s)).
Proof.
  intros Hp Hroom Hi. destruct (lookup_lt_is_Some_2 (pipes s) (Z.to_nat i)) as [n Hn]; [unfold numPipes, zlen in Hi; lia|].
  exists n. split; [done|]. unfold send. rewrite bool_decide_true by lia.
  replace (2 * i + 1) with (1 + 2 * i) by lia. rewrite Z.odd_add_mul_2. cbn [andb Z.odd].
  pose proof (in_flight_elem _ _ _ Hp Hn).
  replace ((1 + 2 * i) / 2) with i; [by rewrite Hn, (proj2 (Z.ltb_lt n room)) by lia|].
  rewrite Z.mul_comm, Z.div_add by lia. done.
Qed.

Lemma bench_read_ok total s idx :
  Inv total s -> ready s idx -> quit s = false ->
  exists s', readCallback s idx = Ok s' /\ Inv total s' /\ g_reads s' = g_reads s + 1 /\
    length (pipes s') = length (pipes s) /\ (quit s' = true <-> g_reads s' = total).
Proof.
  intros HI (Hpos & n & Hn & Hlt) Hq. destruct HI as [Hp Hf Hw Ht Hs Hr Hl _ Hroom].
  pose proof (in_flight_elem _ _ _ Hp Hn) as Hle. pose proof (lookup_lt_Some _ _ _ Hn) as Hidx.
  unfold readCallback, recv. rewrite Hn, (proj2 (Z.ltb_lt 0 n)) by done. rewrite bind_ret_l. cbn [fst snd].
  set (l1 := <[Z.to_nat idx := n - 1]> (pipes s)).
  assert (Hp1 : Forall (fun n => 0 <= n) l1) by (apply Forall_insert; [done|lia]).
  assert (Hl1 : in_flight l1 = in_flight (pipes s) - 1) by (unfold l1; rewrite (in_flight_insert _ _ n) by done; lia).
  assert (Hlen : length l1 = length (pipes s)) by apply length_insert.
  cbn [g_reads g_writes g_fired pipes quit]. rewrite chk32_in, bind_ret_l by lia.
  cbn [g_reads g_writes g_fired pipes quit]. destruct (Z.ltb_spec 0 (g_writes s)) as [Hw0|Hw0].
  - set (s1 := mk l1 _ _ _ _). set (widx := if numPipes s1 <=? idx + 1 then idx + 1 - numPipes s1 else idx + 1).
    assert (Hwx : 0 <= widx < numPipes s1).
    { unfold widx, numPipes, zlen. cbn [pipes s1]. rewrite Hlen. case_match; lia. }
    destruct (send_ok s1 widx Hp1 ltac:(cbn [pipes s1]; lia) Hwx) as (m & Hm & ->). rewrite bind_ret_l. cbn [g_reads g_writes g_fired pipes quit s1].
    rewrite chk32_in, bind_ret_l by lia. cbn [mbind res_bind g_reads g_writes g_fired pipes quit].
    set (l2 := <[Z.to_nat widx := m + 1]> l1).
    assert (Hm0 : 0 <= m) by (rewrite Forall_lookup in Hp1; by apply (Hp1 (Z.to_nat widx))).
    assert (Hp2 : Forall (fun n => 0 <= n) l2) by (apply Forall_insert; [done|lia]).
    assert (Hl2 : in_flight l2 = in_flight (pipes s)).
    { unfold l2. rewrite (in_flight_insert _ _ m) by done. lia. }
    specialize (Hl Hw0). assert (Hlen2 : length l2 = length (pipes s)) by (unfold l2; by rewrite length_insert).
    rewrite (proj2 (Z.eqb_neq _ _)) by lia.
    eexists. split; [reflexivity|]. cbn [g_reads g_writes g_fired pipes quit]. rewrite Hq.
    split_and!; [|done|done|split; [done|lia]].
    split; cbn [g_reads g_writes g_fired pipes quit]; try lia; try done.
  - cbn [mbind res_bind g_reads g_writes g_fired pipes quit]. destruct (Z.eqb_spec (g_fired s) (g_reads s + 1));
      (eexists; split; [reflexivity|]); cbn [g_reads g_writes g_fired pipes quit];
      (split_and!; [|done|done|rewrite ?Hq; split; try done; lia]);
      split; cbn [g_reads g_writes g_fired pipes quit]; try lia; try done.
    rewrite Hq. done.
Qed.

Lemma send_first_ok space is_ : forall s,
  Forall (fun n => 0 <= n) (pipes s) -> Z.even space = true ->
  (forall i, i ∈ is_ -> 0 <= Z.of_nat i * space /\ Z.of_nat i * space < 2 * numPipes s) ->
  in_flight (pipes s) + zlen is_ <= room ->
  exists s', send_first s space is_ = Ok s' /\ Forall (fun n => 0 <= n) (pipes s') /\
    length (pipes s') = length (pipes s) /\ in_flight (pipes s') = in_flight (pipes s) + zlen is_.
Proof.
  induction is_ as [|i is_ IH]; intros s Hp He Hi Hroom.
  { exists s. split_and!; try done. change (zlen []) with 0. lia. }
  cbn [send_first]. destruct (Hi i) as [H1 H2]; [by left|].
  assert (Hev : exists k, Z.of_nat i * space = 2 * k).
  { apply Z.even_spec in He as [k ->]. exists (Z.of_nat i * k). lia. }
  destruct Hev as [k Hk]. rewrite Hk in *. destruct (send_ok s k) as (n & Hn & ->);
    [done|rewrite zlen_cons in Hroom; pose proof (zlen_nonneg is_); lia|lia|].
  rewrite bind_ret_l. set (s1 := mk _ _ _ _ _).
  assert (Hn0 : 0 <= n) by (rewrite Forall_lookup in Hp; by apply (Hp (Z.to_nat k))).
  assert (Hlen : length (pipes s1) = length (pipes s)) by apply length_insert.
  destruct (IH s1) as (s' & E & Hp' & Hl' & Hf').
  { apply Forall_insert; [done|lia]. } { done. }
  { intros j Hj. unfold numPipes, zlen. rewrite Hlen. apply Hi. by right. }
  { cbn [pipes s1]. rewrite (in_flight_insert _ _ n) by done. rewrite zlen_cons in Hroom. lia. }
  exists s'. split_and!; [done|done|congruence|]. rewrite Hf', zlen_cons. cbn [pipes s1].
  rewrite (in_flight_insert _ _ n) by done. lia.
Qed.

Lemma in_flight_zeros n : in_flight (replicate n 0) = 0.
Proof. induction n as [|n IH]; simpl; lia. Qed.

Lemma start_ok (np : nat) numActive numWrites :
  (0 < np)%nat -> 1 <= numActive -> 0 <= numWrites -> numActive + numWrites < 2 ^ 31 -> numActive <= room ->
  exists s, runOnce (replicate np 0) numActive numWrites = Ok s /\
    Inv (numActive + numWrites) s /\ g_reads s = 0 /\ quit s = false /\ length (pipes s) = np.
Proof.
  intros Hnp Ha Hw Ht Hroom. unfold runOnce. rewrite (proj2 (Z.eqb_neq _ _)) by lia.
  cbn [negb check mbind res_bind]. set (space := _ * 2). set (s := mk _ 0 0 0 false).
  assert (Hnz : numPipes s = Z.of_nat np) by (unfold numPipes, zlen, s; cbn [pipes]; by rewrite length_replicate).
  assert (Hsp : space = 2 * (Z.of_nat np / numActive)).
  { unfold space, zlen. rewrite length_replicate, Z.quot_div_nonneg by lia. lia. }
  destruct (send_first_ok space (seq 0 (Z.to_nat numActive)) s) as (s' & -> & Hp & Hl & Hf).
  - apply Forall_replicate. lia.
  - rewrite Hsp. by rewrite Z.even_mul.
  - intros i Hi. apply elem_of_seq in Hi. rewrite Hnz, Hsp.
    pose proof (Z.div_pos (Z.of_nat np) numActive). pose proof (Z.mul_div_le (Z.of_nat np) numActive). nia.
  - unfold s, zlen. cbn [pipes]. rewrite in_flight_zeros, length_seq. lia.
  - rewrite bind_ret_l. eexists. split; [reflexivity|].
    split; [|split_and!; [done..|cbn [pipes]; rewrite Hl; apply length_replicate]].
    assert (Hfl : in_flight (pipes s') = numActive).
    { rewrite Hf. unfold s. cbn [pipes]. rewrite in_flight_zeros. unfold zlen. rewrite length_seq. lia. }
    split; cbn [pipes g_reads g_writes g_fired quit]; try lia; done.
Qed.

(** The callbacks of a run, in whatever order the poller reports the channels. *)
Inductive run (s0 : t) : list Z -> t -> Prop :=
  | run_start : run s0 [] s0
  | run_read es s idx s' :
      run s0 es s -> quit s = false -> ready s idx -> readCallback s idx = Ok s' -> run s0 (es ++ [idx]) s'.

Lemma run_counts total s0 es s :
  Inv total s0 -> g_reads s0 = 0 -> quit s0 = false -> 0 < total -> run s0 es s ->
  Inv total s /\ g_reads s = zlen es /\ (quit s = true <-> zlen es = total).
Proof.
  intros HI Hr Hq Ht. induction 1 as [|es s idx s' _ IH Hqs Hrd E].
  { split_and!; [done|done|]. rewrite Hq. split; [done|]. change (zlen []) with 0. lia. }
  destruct IH as (HI' & Hr' & _). destruct (bench_read_ok total s idx HI' Hrd Hqs) as (s1 & E1 & HI1 & Hr1 & _ & Hq1).
  assert (s1 = s') as -> by congruence. rewrite zlen_app. change (zlen [idx]) with 1.
  split_and!; [done|lia|]. rewrite Hq1. lia.
Qed.

(** One run of the benchmark ends, whatever the order of the events, if a socket
    pair has room for the first messages: no callback fails or blocks, exactly
    [numActive + numWrites] messages are read before the loop is told
    to quit, the quit comes with the last of them, with no message on its way, and
    until then some channel is ready. *)
Theorem bench_ends (np : nat) numActive numWrites :
  (0 < np)%nat -> 1 <= numActive -> 0 <= numWrites -> numActive + numWrites < 2 ^ 31 -> numActive <= room ->
  exists s0, runOnce (replicate np 0) numActive numWrites = Ok s0 /\
    forall es s, run s0 es s ->
      zlen es <= numActive + numWrites /\
      (quit s = true <-> zlen es = numActive + numWrites) /\
      (quit s = true -> in_flight (pipes s) = 0 /\ g_writes s = 0) /\
      (quit s = false -> exists idx s', ready s idx /\ readCallback s idx = Ok s').
Proof.
  intros Hnp Ha Hw Ht Hroom. destruct (start_ok np numActive numWrites Hnp Ha Hw Ht Hroom) as (s0 & E & HI & Hr & Hq & _).
  exists s0. split; [done|]. intros es s HR.
  destruct (run_counts _ s0 es s HI Hr Hq ltac:(lia) HR) as (HI' & Hr' & Hq').
  assert (HI'' := HI'). destruct HI'' as [Hp Hf Hw' Htot Hsm Hrd Hleft Hqt _].
  pose proof (in_flight_nonneg _ Hp). split_and!; [lia|done| |].
  - intros Hqs. specialize (Hqt Hqs). split; [done|]. destruct (decide (0 < g_writes s)); lia.
  - intros Hqs. assert (Hpos : 0 < in_flight (pipes s)).
    { destruct (decide (0 < in_flight (pipes s))); [done|]. exfalso.
      assert (g_writes s = 0) by (destruct (decide (0 < g_writes s)); lia).
      assert (quit s = true) by (apply Hq'; lia). congruence. }
    destruct (in_flight_some _ Hpos Hp) as (i & n & Hn & Hlt).
    assert (Hrdy : ready s (Z.of_nat i)) by (split; [lia|]; exists n; by rewrite Nat2Z.id).
    destruct (bench_read_ok _ s (Z.of_nat i) HI' Hrdy Hqs) as (s' & E' & _). by exists (Z.of_nat i), s'.
Qed.

End bench.

Lemma bench_ends_witness :
  exists s0, runOnce 2 (replicate 4 0) 2 3 = Ok s0 /\ exists idx s', ready s0 idx /\ readCallback 2 s0 idx = Ok s'.
Proof.
  destruct (bench_ends 2 4 2 3) as (s0 & E & H); [lia|lia|lia|lia|lia|].
  exists s0. split; [exact E|]. vm_compute in E. injection E as E.
  destruct (H [] s0 (run_start 2 s0)) as (_ & _ & _ & Hr). apply Hr. by rewrite <- E.
Defined.

(** More first messages than fit in a pair: with more of them than pipes they all go
    to the first, and [runOnce] blocks for ever. *)
Example bench_blocks : runOnce 3 (replicate 2 0) 4 0 = Err Blocked.
Proof. vm_compute. reflexivity. Qed.

End Bench.
