(* ===== verification/BenchMain.v ===== *)
(** * The pipe benchmark from its options to its end ([examples/pingpong/bench.cpp])

    [main] and [runOnce] around the callbacks of [Bench]: the options, the channels
    on a poller (any [ChannelHost]), the loop over what the poller reports, the 25
    rounds, and the end, where the channels are disabled and destroyed but never
    removed.  What [getopt], [atoi], [setrlimit], [socketpair], the clock and the
    allocator give are inputs, and so is the [room] of a socket pair; [Polls] is
    what is asked of the poll: with every channel registered for reading it returns
    some of those whose bytes wait, each once. *)

From Stdlib Require Import String.
From S2P Require Import Prelude Timestamp Channel ChannelOwner EPoller Bench.

Module BenchMain.

(** ** The options *)

Record options := mk_options { numPipes : Z; numActive : Z; numWrites : Z }.

Definition default_options : options := mk_options 100 1 100.

(** The character [getopt] returned and the [atoi] of its argument; [None] is the
    [return -1] of an illegal one. *)
Definition set_option (o : options) (arg : Z * Z) : option options :=
  match arg with
  | (c, v) =>
      if c =? 110 then Some (mk_options v (numActive o) (numWrites o))
      else if c =? 97 then Some (mk_options (numPipes o) v (numWrites o))
      else if c =? 119 then Some (mk_options (numPipes o) (numActive o) v)
      else None
  end.

Fixpoint read_options (o : options) (args : list (Z * Z)) : option options :=
  match args with
  | [] => Some o
  | arg :: args => match set_option o arg with Some o => read_options o args | None => None end
  end.

(** ** The program *)

Section main.
Context {P : Type} `{HH : ChannelHost P}.
(** The room of a socket pair, the address of the channel [i], the descriptor it
    reads, what the poll of the poller reports given the bytes that wait, and the
    readings of the clock. *)
Context (room : Z) (addr fds : nat -> Z) (poll : P -> list Z -> list nat) (clock : nat -> Timestamp).

Record t := mk {
  poller : P;
  bench : Bench.t;
  (* the channels whose [handleEvent] has run *)
  handled : gset nat;
  printed : list (Z * Z)
}.

(** The [g_channels], made in order. *)
Fixpoint make_channels (w : P) (is_ : list nat) : P :=
  match is_ with
  | [] => w
  | i :: is_ => make_channels (newChannel w (addr i) (fds i)) is_
  end.

(** [enableReading()] or [disableAll()] on each channel. *)
Fixpoint switch (how : Channel.interest) (w : P) (is_ : list nat) : res P :=
  match is_ with
  | [] => Ok w
  | i :: is_ => w ← update w how (addr i) ; switch how w is_
  end.

(** The body of the loop over [activeChannels_]: [handleEvent] of each, which calls
    [readCallback]. *)
Fixpoint dispatch (s : t) (active : list nat) : res t :=
  match active with
  | [] => Ok s
  | i :: active =>
      b ← Bench.readCallback room (bench s) (Z.of_nat i) ;
      dispatch (mk (poller s) b ({[i]} ∪ handled s) (printed s)) active
  end.

(** [EventLoop::loop()]; nothing is ever queued. *)
Fixpoint loop (fuel : nat) (s : t) : res t :=
  match fuel with
  | O => Err OutOfFuel
  | S fuel =>
      if Bench.quit (bench s) then Ok s
      else s ← dispatch s (poll (poller s) (Bench.pipes (bench s))) ; loop fuel s
  end.

Definition elapsed (from to : Timestamp) : Z :=
  s32 (microSecondsSinceEpoch to - microSecondsSinceEpoch from).

(** The round [k]: [runOnce()] and the [printf] of its two times. *)
Definition round (fuel : nat) (o : options) (k : nat) (s : t) : res t :=
  w ← switch Channel.EnableReading (poller s) (seq 0 (Z.to_nat (numPipes o))) ;
  b ← Bench.runOnce room (Bench.pipes (bench s)) (numActive o) (numWrites o) ;
  s ← loop fuel (mk w b (handled s) (printed s)) ;
  Ok (mk (poller s) (bench s) (handled s) (printed s ++
    [(elapsed (clock (3 * k)) (clock (3 * k + 2)), elapsed (clock (3 * k + 1)) (clock (3 * k + 2)))])).

Fixpoint rounds (fuel : nat) (o : options) (ks : list nat) (s : t) : res t :=
  match ks with
  | [] => Ok s
  | k :: ks => s ← round fuel o k s ; rounds fuel o ks s
  end.

(** [g_channels.clear()]: the destructors, in order.  The poller keeps the pointers,
    but nothing uses it after this. *)
Fixpoint clear (s : t) (is_ : list nat) : res () :=
  match is_ with
  | [] => Ok ()
  | i :: is_ =>
      match channelAt (poller s) (addr i) with
      | None => Err NullDeref
      | Some c =>
          Channel.destroy (Channel.set_handling c (if decide (i ∈ handled s) then Some false else None)) ;;
          clear s is_
      end
  end.

(** From the constructed loop to the last [disableAll()]. *)
Definition measure (fuel : nat) (o : options) (w : P) : res t :=
  let is_ := seq 0 (Z.to_nat (numPipes o)) in
  s ← rounds fuel o (seq 0 25)
    (mk (make_channels w is_) (Bench.mk (replicate (Z.to_nat (numPipes o)) 0) 0 0 0 false) ∅ []) ;
  w ← switch Channel.DisableAll (poller s) is_ ;
  Ok (mk w (bench s) (handled s) (printed s)).

(** [main]; [None] is [return -1]. *)
Definition main (fuel : nat) (args : list (Z * Z)) (setrlimit : Z -> bool) (socketpair : nat -> bool) (w : P) :
    res (option t) :=
  match read_options default_options args with
  | None => Ok None
  | Some o =>
      doubled ← chk32 (numPipes o * 2) ;
      limit ← chk32 (doubled + 50) ;
      if negb (setrlimit (u64 limit)) then Ok None
      else
        check (0 <=? doubled) LengthError ;;
        if negb (forallb socketpair (seq 0 (Z.to_nat (numPipes o)))) then Ok None
        else
          s ← measure fuel o w ;
          clear s (seq 0 (Z.to_nat (numPipes o))) ;;
          Ok (Some s)
  end.


(** ** The channels on the poller *)

Section proof.
Context (n : nat).
Context (Haddr : forall i j, addr i = addr j -> i = j) (Hfds : forall i j, fds i = fds j -> i = j).












(** ** The loop *)











(** ** The rounds *)




End proof.


End main.
(** ** Runs on the epoll poller *)

#[local] Existing Instance EPoller.demo_kernel.
#[local] Existing Instance EPoller.epoller_owner.
#[local] Existing Instance EPoller.epoller_host.

(** Every channel whose bytes wait is reported, in order. *)
Definition demo_poll (w : EPoller.t) (ns : list Z) : list nat :=
  filter (fun i => 0 < default 0 (ns !! i)) (seq 0 (length ns)).

Definition demo_addr (i : nat) : Z := 1000 + Z.of_nat i.
Definition demo_fds (i : nat) : Z := 5 + 2 * Z.of_nat i.
Definition demo_clock (k : nat) : Timestamp := 1700000000000000000 + 250000 * Z.of_nat k.

Definition demo_main (fuel : nat) (args : list (Z * Z)) : res (option (t (P := EPoller.t))) :=
  main 16 demo_addr demo_fds demo_poll demo_clock fuel args (fun _ => true) (fun _ => true) EPoller.demo0.



(** With the default options every channel handles an event, and [main] returns. *)
Example bench_default_returns : is_ok (demo_main 102 []) = true.
Proof. vm_compute. reflexivity. Qed.

(** Three pipes but two messages: the third channel never handles an event. *)
Example bench_few_writes : demo_main 3 [(110, 3); (119, 1)] = Err BadCast.
Proof. vm_compute. reflexivity. Qed.

Example bench_illegal : demo_main 3 [(63, 0)] = Ok None.
Proof. reflexivity. Qed.

End BenchMain.
