(* ===== verification/PingPong.v ===== *)
(** * The pingpong programs ([examples/pingpong/client.cpp], [server.cpp])

    The sessions of the client run on the loops of a pool, so their callbacks
    interleave; each access to the atomic counter [numConnected_] is a step of its
    own.  A session is named by its index; what it gave its connection to send and
    what it received are recorded.  The connection delivers messages between its
    up and its down, and accepts [send] from its up until it is shut down by [stop],
    the work of [handleTimeout]. *)

From S2P Require Import Prelude Buffer.

Module PingPong.

(** [message_]: [blockSize] bytes, [i % 128] each. *)
Definition message_ (blockSize : Z) : list byte :=
  (fun i => byte_of (Z.rem (Z.of_nat i) 128)) <$> seq 0 (Z.to_nat blockSize).

(** Where a session is: not connected yet; in [onConnect], before the test; up; in
    [onDisconnect], before the test; disconnected. *)
Inductive phase := Starting | Connected | Up | Disconnected | Gone.

#[global] Instance phase_eq_dec : EqDecision phase.
Proof. solve_decision. Defined.

Record Session := mk_session {
  at_ : phase;
  (* its connection was shut down by [stop], which came too early for [late] ones *)
  stopped : bool;
  late : bool;
  bytesRead_ : Z;
  bytesWritten_ : Z;
  messagesRead_ : Z;
  (* the input buffer of its connection *)
  input_ : Buffer.t;
  (* what the connection was given to send, and the messages it delivered *)
  sent_ : list byte;
  received_ : list (list byte)
}.

(** [Session(...)] *)
Definition new_session : Session := mk_session Starting false false 0 0 0 Buffer.init [] [].

Definition set_at (s : Session) (p : phase) : Session :=
  mk_session p (stopped s) (late s) (bytesRead_ s) (bytesWritten_ s) (messagesRead_ s) (input_ s)
    (sent_ s) (received_ s).

(** [stop()], which is [TcpClient::disconnect()]: the connection, if there is one
    and it is up, will accept nothing more. *)
Definition stop (s : Session) : Session :=
  let up := bool_decide (at_ s = Connected) || bool_decide (at_ s = Up) in
  mk_session (at_ s) (stopped s || up) (late s || bool_decide (at_ s = Starting))
    (bytesRead_ s) (bytesWritten_ s) (messagesRead_ s) (input_ s) (sent_ s) (received_ s).

(** What [onDisconnect] prints: the bytes and the messages of all sessions. *)
Definition totals (l : list Session) : Z * Z :=
  (foldr Z.add 0 (bytesRead_ <$> l), foldr Z.add 0 (messagesRead_ <$> l)).

Record t := mk {
  numConnected_ : Z;
  sessions_ : list Session;
  (* how often "all connected" was printed *)
  allConnected : nat;
  (* what was printed with "all disconnected", each time queueing [quit] *)
  reports : list (Z * Z);
  (* the loop of [handleTimeout]: the session it stops next *)
  timeout_ : option nat;
  (* the loop of the client was told to quit *)
  over : bool
}.

Definition init (sessionCount : nat) : t := mk 0 (replicate sessionCount new_session) 0 [] None false.

Definition set_session (c : t) (i : nat) (s : Session) (n : Z) : t :=
  mk n (<[i := s]> (sessions_ c)) (allConnected c) (reports c) (timeout_ c) (over c).

(** [Session::onMessage], when [d] has arrived: the counters take all that is in the
    buffer; [send(buf)] takes it out and sends it while the connection is up, and
    otherwise leaves it there. *)
Definition onMessage (s : Session) (d : list byte) : res Session :=
  r ← Buffer.readFd (input_ s) (Buffer.RvData d) ;
  let buf := snd r in
  messages ← chk64 (messagesRead_ s + 1) ;
  read ← chk64 (bytesRead_ s + Buffer.readableBytes buf) ;
  written ← chk64 (bytesWritten_ s + Buffer.readableBytes buf) ;
  if stopped s then
    Ok (mk_session (at_ s) (stopped s) (late s) read written messages buf (sent_ s) (received_ s ++ [d]))
  else
    r ← Buffer.retrieveAsString buf ;
    Ok (mk_session (at_ s) (stopped s) (late s) read written messages (snd r)
          (sent_ s ++ fst r) (received_ s ++ [d])).

Section client.
Context (blockSize : Z).

(** [onConnection] of a connection that is up, to the [fetch_add]. *)
Definition connected (c : t) (i : nat) (s : Session) : t :=
  set_session c i (mk_session Connected (stopped s) (late s) (bytesRead_ s) (bytesWritten_ s) (messagesRead_ s)
    (input_ s) (sent_ s ++ message_ blockSize) (received_ s)) (numConnected_ c + 1).

(** The test in [onConnect]. *)
Definition onConnect_test (c : t) (i : nat) (s : Session) : t :=
  let c := if numConnected_ c =? zlen (sessions_ c)
           then mk (numConnected_ c) (sessions_ c) (S (allConnected c)) (reports c) (timeout_ c) (over c) else c in
  set_session c i (set_at s Up) (numConnected_ c).

(** [onDisconnect], to the [fetch_sub]. *)
Definition disconnected (c : t) (i : nat) (s : Session) : t :=
  set_session c i (set_at s Disconnected) (numConnected_ c - 1).

Definition onDisconnect_test (c : t) (i : nat) (s : Session) : t :=
  let c := if numConnected_ c =? 0
           then mk (numConnected_ c) (sessions_ c) (allConnected c) (reports c ++ [totals (sessions_ c)])
                  (timeout_ c) (over c)
           else c in
  set_session c i (set_at s Gone) (numConnected_ c).

(** The timer of the constructor fires. *)
Definition handleTimeout (c : t) : t :=
  mk (numConnected_ c) (sessions_ c) (allConnected c) (reports c) (Some 0%nat) (over c).

(** One turn of its loop. *)
Definition stop_next (c : t) (i : nat) (s : Session) : t :=
  mk (numConnected_ c) (<[i := stop s]> (sessions_ c)) (allConnected c) (reports c) (Some (S i)) (over c).

(** [Client::quit], queued with each report. *)
Definition quit (c : t) : t :=
  mk (numConnected_ c) (sessions_ c) (allConnected c) (reports c) (timeout_ c) true.

(** What happens to a session: its connection comes up, goes on to the test,
    delivers a message, goes down, goes on to the test; and to the client. *)
Inductive label :=
  | Establish (i : nat)
  | TestUp (i : nat)
  | Deliver (i : nat) (d : list byte)
  | Close (i : nat)
  | TestDown (i : nat)
  | Timeout
  | StopNext
  | Quit.

Definition step (c : t) (l : label) : option (res t) :=
  match l with
  | Establish i =>
      s ← sessions_ c !! i ;
      match at_ s with Starting => Some (Ok (connected c i s)) | _ => None end
  | TestUp i =>
      s ← sessions_ c !! i ;
      match at_ s with Connected => Some (Ok (onConnect_test c i s)) | _ => None end
  | Deliver i d =>
      s ← sessions_ c !! i ;
      match at_ s with
      | Up => Some (s' ← onMessage s d ; Ok (set_session c i s' (numConnected_ c)))
      | _ => None
      end
  | Close i =>
      s ← sessions_ c !! i ;
      match at_ s with Up => Some (Ok (disconnected c i s)) | _ => None end
  | TestDown i =>
      s ← sessions_ c !! i ;
      match at_ s with Disconnected => Some (Ok (onDisconnect_test c i s)) | _ => None end
  | Timeout => match timeout_ c with None => Some (Ok (handleTimeout c)) | Some _ => None end
  | StopNext =>
      i ← timeout_ c ;
      s ← sessions_ c !! i ;
      Some (Ok (stop_next c i s))
  | Quit => match reports c with [] => None | _ => Some (Ok (quit c)) end
  end.

(** A message is what one [readv] brings, at most 64 KiB here. *)
Definition allowed (l : label) : Prop :=
  match l with Deliver _ d => zlen d <= Buffer.kExtraBuf | _ => True end.

Inductive reachable (n : nat) : t -> Prop :=
  | reach_init : reachable n (init n)
  | reach_step c l c' : reachable n c -> allowed l -> step c l = Some (Ok c') -> reachable n c'.
End client.

(** ** Sums over the sessions *)

Definition sum (f : Session -> Z) (l : list Session) : Z := foldr Z.add 0 (f <$> l).
#[local] Arguments sum : simpl never.

Lemma sum_insert f (l : list Session) i s s' :
  l !! i = Some s -> sum f (<[i := s']> l) = sum f l - f s + f s'.
Proof.
  unfold sum. revert i. induction l as [|x l IH]; intros [|i] H; simplify_eq/=; [lia|].
  rewrite (IH i H). lia.
Qed.

Lemma sum_zero f (l : list Session) : Forall (fun s => f s = 0) l -> sum f l = 0.
Proof. unfold sum. induction 1 as [|s l Hs _ IH]; [done|]. cbn [fmap list_fmap foldr]. lia. Qed.

Definition counted (s : Session) : Z := match at_ s with Connected | Up => 1 | _ => 0 end.

(** What the counters take when the messages [after] come and nothing is taken out
    of a buffer of [waiting] bytes. *)
Fixpoint recount (waiting : Z) (after : list (list byte)) : Z :=
  match after with
  | [] => 0
  | d :: after => (waiting + zlen d) + recount (waiting + zlen d) after
  end.

Lemma recount_snoc after d : forall w,
  recount w (after ++ [d]) = recount w after + (w + zlen (concat after) + zlen d).
Proof.
  induction after as [|x l IH]; intros w; cbn [recount concat app].
  - change (zlen []) with 0. lia.
  - rewrite IH, zlen_app. lia.
Qed.

Lemma recount_least after : forall w, 0 <= w -> zlen (concat after) <= recount w after.
Proof.
  induction after as [|x l IH]; intros w Hw; cbn [recount concat]; [done|].
  rewrite zlen_app. pose proof (zlen_nonneg x). specialize (IH (w + zlen x)). lia.
Qed.

(** ** The invariant *)

Section invariant.
Context (blockSize : Z).

(** The messages that came before the session was stopped, and those after it. *)
Record split_at (s : Session) (before after : list (list byte)) : Prop := {
  inv_received : received_ s = before ++ after;
  inv_sent : sent_ s = (if decide (at_ s = Starting) then [] else message_ blockSize) ++ concat before;
  inv_after : stopped s = false -> after = [];
  inv_input : Buffer.readable (input_ s) = concat after;
  inv_read : bytesRead_ s = zlen (concat before) + recount 0 after;
  inv_written : bytesWritten_ s = bytesRead_ s;
  inv_messages : messagesRead_ s = zlen (received_ s);
  inv_start : at_ s = Starting -> received_ s = [] /\ stopped s = false
}.

Definition session_inv (s : Session) : Prop :=
  Buffer.Inv (input_ s) /\ exists before after, split_at s before after.

(** [stop] has reached the session, unless it came too early or too late. *)
Definition asked (s : Session) : Prop :=
  stopped s = true \/ late s = true \/ at_ s = Disconnected \/ at_ s = Gone.

Record Inv (n : nat) (c : t) : Prop := {
  inv_sessions : forall i s, sessions_ c !! i = Some s -> session_inv s;
  inv_length : length (sessions_ c) = n;
  inv_count : numConnected_ c = sum counted (sessions_ c);
  inv_report : (0 < n)%nat -> Forall (fun s => at_ s = Gone) (sessions_ c) ->
    last (reports c) = Some (totals (sessions_ c));
  inv_timeout : forall k i s, timeout_ c = Some k -> (i < k)%nat -> sessions_ c !! i = Some s -> asked s;
  inv_over : over c = true -> reports c <> []
}.

Lemma session_set_at s p :
  session_inv s -> at_ s <> Starting -> p <> Starting -> session_inv (set_at s p).
Proof.
  intros (HB & before & after & [H1 H2 H3 H4 H5 H6 H7 H8]) Hs Hp. split; [done|]. exists before, after.
  split; cbn; try done. rewrite decide_False in H2 by done. by rewrite decide_False by done.
Qed.

Lemma session_stop s : session_inv s -> session_inv (stop s).
Proof.
  intros (HB & before & after & [H1 H2 H3 H4 H5 H6 H7 H8]). split; [done|]. exists before, after.
  split; cbn; try done; [intros [? _]%orb_false_iff; by apply H3|].
  intros Hs. destruct (H8 Hs) as [Hr Hst]. split; [done|]. by rewrite Hst, Hs.
Qed.

Lemma asked_set_at s p : p <> Starting -> (p = Connected -> at_ s = Starting) -> (p = Up -> at_ s = Connected) ->
  asked s -> asked (set_at s p).
Proof.
  unfold asked. intros Hp Hc Hu [H|[H|[H|H]]]; cbn; auto; destruct p; auto; try done;
    [specialize (Hc eq_refl)|specialize (Hu eq_refl)|specialize (Hc eq_refl)|specialize (Hu eq_refl)]; congruence.
Qed.

Lemma asked_stop s : asked (stop s).
Proof. unfold asked. cbn. destruct (at_ s), (stopped s), (late s); cbn; auto. Qed.

Lemma onMessage_ok s d :
  session_inv s -> at_ s <> Starting -> zlen d <= Buffer.kExtraBuf ->
  forall s', onMessage s d = Ok s' ->
  session_inv s' /\ at_ s' = at_ s /\ received_ s' = received_ s ++ [d] /\ stopped s' = stopped s /\ late s' = late s.
Proof.
  intros (HB & before & after & [H1 H2 H3 H4 H5 H6 H7 H8]) Hs Hd s' E. unfold onMessage in E.
  assert (Hfit : Buffer.rv_fits (input_ s) (Buffer.RvData d)).
  { unfold Buffer.rv_fits. destruct HB as (_ & Hw & _). lia. }
  pose proof (Buffer.readFd_wp _ _ HB Hfit) as Hr.
  destruct (Buffer.readFd _ _) as [[r b]|f]; cbn [wp] in Hr; [|done]. rewrite bind_ret_l in E. cbn [fst snd] in *.
  destruct Hr as (_ & HB' & Hb). rewrite Buffer.readableBytes_len, Hb, H4, zlen_app in E by done.
  apply bind_ok in E as (m & [-> _]%chk64_ok & E). apply bind_ok in E as (x & [-> _]%chk64_ok & E).
  apply bind_ok in E as (y & [-> _]%chk64_ok & E). destruct (stopped s) eqn:Hst.
  - injection E as <-. split_and!; try done. split; [done|]. exists before, (after ++ [d]).
    split; cbn; try done.
    + by rewrite H1, app_assoc.
    + by rewrite Hb, H4, concat_app; cbn; rewrite app_nil_r.
    + rewrite recount_snoc. lia.
    + lia.
    + rewrite zlen_app. change (zlen [d]) with 1. lia.
  - rewrite Buffer.retrieveAsString_ok, bind_ret_l in E by done. injection E as <-. split_and!; try done.
    rewrite (H3 eq_refl) in *. cbn [fst snd]. split; [by apply Buffer.retrieveAll_inv|]. exists (before ++ [d]), [].
    rewrite app_nil_r in *. cbn [concat recount] in *. change (zlen []) with 0 in *.
    split; cbn; try done.
    + by rewrite H1, app_nil_r.
    + rewrite H2, Hb, H4, concat_app, <- app_assoc. cbn. by rewrite app_nil_r.
    + rewrite concat_app, zlen_app. cbn. rewrite app_nil_r. lia.
    + lia.
    + rewrite zlen_app. change (zlen [d]) with 1. lia.
Qed.

Lemma not_all_gone (l : list Session) i s : l !! i = Some s -> at_ s <> Gone -> ~ Forall (fun s => at_ s = Gone) l.
Proof. intros Hi Hs HF. by apply Hs, (Forall_lookup_1 _ _ _ _ HF Hi). Qed.

Lemma insert_not_gone (l : list Session) i s : (i < length l)%nat -> at_ s <> Gone ->
  ~ Forall (fun s => at_ s = Gone) (<[i := s]> l).
Proof. intros Hi Hs. apply (not_all_gone _ i s); [by apply list_lookup_insert_eq|done]. Qed.

(** A session replaced by one with the same counts of bytes and messages. *)
Lemma totals_insert (l : list Session) i s s' : l !! i = Some s ->
  bytesRead_ s' = bytesRead_ s -> messagesRead_ s' = messagesRead_ s -> totals (<[i := s']> l) = totals l.
Proof.
  intros Hi Hb Hm. change (totals (<[i := s']> l)) with
    (sum bytesRead_ (<[i := s']> l), sum messagesRead_ (<[i := s']> l)).
  rewrite !(sum_insert _ l i s) by done. change (totals l) with (sum bytesRead_ l, sum messagesRead_ l).
  f_equal; lia.
Qed.

(** What every session is, after one of them is replaced. *)
Lemma each_insert (Q : Session -> Prop) (l : list Session) i s' :
  (forall j x, l !! j = Some x -> Q x) -> Q s' -> forall j x, <[i := s']> l !! j = Some x -> Q x.
Proof. intros H Hs j x [(<- & <- & _)|[_ Hj]]%list_lookup_insert_Some; [done|by eapply H]. Qed.

Lemma asked_insert (l : list Session) k i s s' :
  (forall j x, (j < k)%nat -> l !! j = Some x -> asked x) -> l !! i = Some s -> (asked s -> asked s') ->
  forall j x, (j < k)%nat -> <[i := s']> l !! j = Some x -> asked x.
Proof.
  intros H Hi Ha j x Hj [(<- & <- & _)|[_ Hx]]%list_lookup_insert_Some; [by apply Ha, (H i)|by apply (H j)].
Qed.

(** A session that is not gone takes the place of one. *)
Lemma inv_put n c i s s' num ac :
  Inv n c -> sessions_ c !! i = Some s -> session_inv s' -> (asked s -> asked s') -> at_ s' <> Gone ->
  num = numConnected_ c - counted s + counted s' ->
  Inv n (mk num (<[i := s']> (sessions_ c)) ac (reports c) (timeout_ c) (over c)).
Proof.
  intros [HS HL HC HR HT HO] Hi Hs' Ha Hg ->. split; cbn.
  - by apply each_insert.
  - by rewrite length_insert.
  - rewrite (sum_insert _ _ _ s) by done. lia.
  - intros _ HF. apply insert_not_gone in HF; [done|by eapply lookup_lt_Some|done].
  - intros k j x Hk. revert j x. apply (asked_insert _ k i s); [|done..]. intros j x. by apply HT.
  - done.
Qed.

Lemma inv_testdown n c i s :
  Inv n c -> sessions_ c !! i = Some s -> at_ s = Disconnected -> Inv n (onDisconnect_test c i s).
Proof.
  intros [HS HL HC HR HT HO] Hi Hat.
  assert (Hsum : sum counted (<[i := set_at s Gone]> (sessions_ c)) = numConnected_ c)
    by (rewrite (sum_insert _ _ _ s) by done; unfold counted at 2 3; rewrite Hat; cbn; lia).
  assert (Hs' : session_inv (set_at s Gone)) by (apply session_set_at; [by apply (HS i)|congruence|done]).
  assert (HT' : forall k j x, timeout_ c = Some k -> (j < k)%nat ->
    <[i := set_at s Gone]> (sessions_ c) !! j = Some x -> asked x).
  { intros k j x Hk. revert j x. apply (asked_insert _ k i s); [intros j x; by apply HT|done|].
    intros _. do 3 right. done. }
  unfold onDisconnect_test. destruct (Z.eqb_spec (numConnected_ c) 0) as [Hz|Hnz];
    (split; cbn; [by apply each_insert|by rewrite length_insert|done| |done|]); try done.
  - intros _ _. by rewrite last_snoc, (totals_insert _ i s).
  - intros _. by destruct (reports c).
  - intros Hn HF. exfalso. apply Hnz. rewrite <- Hsum. apply sum_zero. eapply Forall_impl; [exact HF|].
    intros x Hx. unfold counted. by rewrite Hx.
Qed.

Lemma inv_stop_next n c i s :
  Inv n c -> timeout_ c = Some i -> sessions_ c !! i = Some s -> Inv n (stop_next c i s).
Proof.
  intros [HS HL HC HR HT HO] Ht Hi. split; cbn.
  - apply each_insert; [done|]. by apply session_stop, (HS i).
  - by rewrite length_insert.
  - rewrite (sum_insert _ _ _ s) by done. unfold counted at 2 3. cbn. lia.
  - intros Hn HF. rewrite (totals_insert _ i s) by done. apply HR; [done|].
    apply Forall_lookup. intros j x Hx. destruct (decide (j = i)) as [->|Hne].
    + assert (x = s) as -> by congruence. apply (Forall_lookup_1 _ _ i (stop s)) in HF; [done|].
      apply list_lookup_insert_eq. by eapply lookup_lt_Some.
    + apply (Forall_lookup_1 _ _ j x HF). by rewrite list_lookup_insert_ne.
  - intros k j x [= <-] Hj Hx. apply list_lookup_insert_Some in Hx as [(<- & <- & _)|[Hne Hx]]; [apply asked_stop|].
    apply (HT i j x Ht); [lia|done].
  - done.
Qed.

Lemma pingpong_step_inv n c l c' :
  Inv n c -> allowed l -> step blockSize c l = Some (Ok c') -> Inv n c'.
Proof.
  intros HI Ha E. assert (HS := inv_sessions n c HI).
  destruct l as [i|i|i d|i|i| | |]; cbn [step] in E;
    try (destruct (sessions_ c !! i) as [s|] eqn:Hi; simplify_eq/=; destruct (at_ s) eqn:Hat; simplify_eq;
         assert (Hs := HS i s Hi)).
  - apply (inv_put n c i s); [done..| | |done|unfold counted; rewrite Hat; cbn; lia].
    + destruct Hs as (HB & before & after & [H1 H2 H3 H4 H5 H6 H7 H8]). split; [done|]. destruct (H8 Hat) as [Hr Hst].
      rewrite Hr in H1. symmetry in H1. apply app_eq_nil in H1 as [-> ->]. exists [], [].
      split; cbn; try done. rewrite decide_True in H2 by done. rewrite H2. by rewrite !app_nil_r.
    + unfold asked. cbn. rewrite Hat. naive_solver.
  - unfold onConnect_test. destruct (numConnected_ c =? zlen (sessions_ c));
      (apply (inv_put n c i s); [done..| | |done|unfold counted; rewrite Hat; cbn; lia]);
      solve [apply session_set_at; congruence | apply asked_set_at; congruence].
  - destruct (onMessage s d) as [s'|] eqn:Em; simplify_eq/=.
    destruct (onMessage_ok s d Hs ltac:(congruence) Ha s' Em) as (Hs' & Hat' & _ & Hst & Hlt).
    apply (inv_put n c i s); [done..| |congruence|unfold counted; rewrite Hat', Hat; lia].
    unfold asked. by rewrite Hat', Hst, Hlt.
  - apply (inv_put n c i s); [done..| | |done|unfold counted; rewrite Hat; cbn; lia].
    + apply session_set_at; congruence.
    + apply asked_set_at; congruence.
  - by apply inv_testdown.
  - destruct (timeout_ c) eqn:Ht; simplify_eq. destruct HI as [H1 H2 H3 H4 H5 H6]. split; try done.
    cbn. intros k i s [= <-]. lia.
  - destruct (timeout_ c) as [i|] eqn:Ht; simplify_eq/=.
    destruct (sessions_ c !! i) as [s|] eqn:Hi; simplify_eq/=. by apply inv_stop_next.
  - destruct (reports c) eqn:Hr; simplify_eq/=. destruct HI as [H1 H2 H3 H4 H5 H6]. split; try done.
    cbn. intros _. by rewrite Hr.
Qed.

Lemma pingpong_reachable_inv n c : reachable blockSize n c -> Inv n c.
Proof.
  induction 1 as [|c l c' _ IH Ha E]; [|by eapply pingpong_step_inv].
  split; cbn; try done.
  - intros i s [-> _]%lookup_replicate. split; [apply Buffer.buffer_init_inv|]. exists [], []. by split.
  - apply length_replicate.
  - rewrite sum_zero; [done|]. by apply Forall_replicate.
  - intros Hn HF. exfalso. destruct n as [|n]; [lia|]. by apply Forall_inv in HF.
Qed.

(** Each session sends the message once and then every byte it receives, in order,
    until it is stopped; what comes after that stays in the input buffer, is sent
    nowhere, and is counted again with every message that follows. *)
Theorem sessions_echo n c i s :
  reachable blockSize n c -> sessions_ c !! i = Some s ->
  exists before after, received_ s = before ++ after /\ (stopped s = false -> after = []) /\
    sent_ s = (if decide (at_ s = Starting) then [] else message_ blockSize) ++ concat before /\
    Buffer.readable (input_ s) = concat after /\
    bytesRead_ s = zlen (concat before) + recount 0 after /\ bytesWritten_ s = bytesRead_ s /\
    messagesRead_ s = zlen (received_ s).
Proof.
  intros HR Hi. destruct (inv_sessions n c (pingpong_reachable_inv n c HR) i s Hi)
    as (_ & before & after & [H1 H2 H3 H4 H5 H6 H7 _]). exists before, after. by split_and!.
Qed.

Lemma sum_le f g (l : list Session) : (forall s, s ∈ l -> f s <= g s) -> sum f l <= sum g l.
Proof.
  unfold sum. induction l as [|s l IH]; intros H; [done|]. cbn [fmap list_fmap foldr].
  pose proof (H s ltac:(by left)). specialize (IH ltac:(intros x Hx; apply H; by right)). lia.
Qed.

Lemma bytes_least s : session_inv s -> zlen (concat (received_ s)) <= bytesRead_ s.
Proof.
  intros (_ & before & after & [H1 _ _ _ H5 _ _ _]). rewrite H1, concat_app, zlen_app, H5.
  pose proof (recount_least after 0). lia.
Qed.

(** When every session has come and gone, under any interleaving of the loops, the
    counter is back at zero, the quit has been queued, and the last report printed
    is the one of the whole run: all messages every session received, and at least
    as many bytes, exactly as many if no session was stopped.  The decrement and the
    test are two steps, so there may be earlier reports; and the loop of the client
    is told to quit only after a report. *)
Theorem last_disconnect_reports n c :
  (0 < n)%nat -> reachable blockSize n c -> Forall (fun s => at_ s = Gone) (sessions_ c) ->
  numConnected_ c = 0 /\
  (exists bytes, last (reports c) = Some (bytes, sum (fun s => zlen (received_ s)) (sessions_ c)) /\
    sum (fun s => zlen (concat (received_ s))) (sessions_ c) <= bytes /\
    (Forall (fun s => stopped s = false) (sessions_ c) ->
      bytes = sum (fun s => zlen (concat (received_ s))) (sessions_ c))) /\
  (over c = true -> reports c <> []).
Proof.
  intros Hn HR HF. destruct (pingpong_reachable_inv n c HR) as [HS _ HC HP _ HO].
  assert (HS' : forall s, s ∈ sessions_ c -> session_inv s).
  { intros s [i Hi]%list_elem_of_lookup. by apply (HS i). }
  split_and!; [| |done].
  - rewrite HC. apply sum_zero. eapply Forall_impl; [exact HF|]. intros s Hs. unfold counted. by rewrite Hs.
  - exists (sum bytesRead_ (sessions_ c)). split_and!.
    + rewrite (HP Hn HF). unfold totals, sum. do 3 f_equal. apply list_fmap_ext. intros i s Hi.
      destruct (HS i s Hi) as (_ & before & after & [_ _ _ _ _ _ H7 _]). congruence.
    + apply sum_le. intros s Hs. by apply bytes_least, HS'.
    + intros Hst. unfold sum. f_equal. apply list_fmap_ext. intros i s Hi.
      destruct (HS i s Hi) as (_ & before & after & [H1 _ H3 _ H5 _ _ _]).
      rewrite (H3 (Forall_lookup_1 _ _ _ _ Hst Hi)) in H1, H5. rewrite H1, app_nil_r. cbn [recount] in H5. lia.
Qed.

(** Once [handleTimeout] has returned, every session is stopped or down, except those
    whose connection was not yet made when their turn came: nothing stops those. *)
Theorem timeout_reaches n c i s :
  reachable blockSize n c -> timeout_ c = Some n -> sessions_ c !! i = Some s ->
  stopped s = true \/ late s = true \/ at_ s = Disconnected \/ at_ s = Gone.
Proof.
  intros HR Ht Hi. pose proof (pingpong_reachable_inv n c HR) as HI.
  apply (inv_timeout n c HI n i s Ht); [|done]. rewrite <- (inv_length n c HI). by eapply lookup_lt_Some.
Qed.
End invariant.

(** ** The server: what it received is sent back *)

Definition server_onMessage (buf : Buffer.t) : res (action * Buffer.t) :=
  r ← Buffer.retrieveAsString buf ; Ok (Send (fst r), snd r).

Lemma server_echoes buf : Buffer.Inv buf ->
  exists b, server_onMessage buf = Ok (Send (Buffer.readable buf), b) /\ Buffer.readable b = [].
Proof.
  intros HI. unfold server_onMessage. rewrite Buffer.retrieveAsString_ok, bind_ret_l by done.
  eexists. split; [done|]. apply Buffer.retrieveAll_readable.
Qed.

(** ** Two sessions: the first goes down before the second comes up, which is stopped
    and then gets two more messages *)

Fixpoint perform (c : t) (ls : list label) : option t :=
  match ls with
  | [] => Some c
  | l :: ls => match step 4 c l with Some (Ok c') => perform c' ls | _ => None end
  end.

Lemma perform_reachable n ls : forall c c',
  reachable 4 n c -> Forall allowed ls -> perform c ls = Some c' -> reachable 4 n c'.
Proof.
  induction ls as [|l ls IH]; intros c c' HR Ha E; cbn [perform] in E; [congruence|].
  apply Forall_cons in Ha as [Hl Ha]. destruct (step 4 c l) as [[c1|]|] eqn:E1; try done.
  apply (IH c1); [|done..]. by eapply reach_step.
Qed.

Definition demo_run : list label :=
  [Establish 0; TestUp 0; Deliver 0 (bytes "ab"); Close 0; TestDown 0;
   Establish 1; TestUp 1; Deliver 1 (bytes "c"); Timeout; StopNext; StopNext;
   Deliver 1 (bytes "de"); Deliver 1 (bytes "f"); Close 1; TestDown 1; Quit].
Definition demo_end : t := default (init 2) (perform (init 2) demo_run).

Lemma demo_end_reachable : reachable 4 2 demo_end.
Proof.
  apply (perform_reachable 2 demo_run (init 2)); [constructor| |vm_compute; reflexivity].
  repeat constructor; vm_compute; discriminate.
Qed.

(** Six bytes came, and eight are reported. *)
Lemma last_disconnect_reports_witness :
  reports demo_end = [(2, 1); (8, 4)] /\ numConnected_ demo_end = 0 /\
  sum (fun s => zlen (concat (received_ s))) (sessions_ demo_end) = 6.
Proof.
  assert (HF : Forall (fun s => at_ s = Gone) (sessions_ demo_end)) by (vm_compute; repeat constructor).
  assert (H2 : (0 < 2)%nat) by lia.
  pose proof (last_disconnect_reports 4 2 demo_end H2 demo_end_reachable HF) as (H & _ & _).
  split; [vm_compute; reflexivity|]. split; [exact H|vm_compute; reflexivity].
Defined.

Lemma timeout_reaches_witness :
  exists s, sessions_ demo_end !! 1%nat = Some s /\
    (stopped s = true \/ late s = true \/ at_ s = Disconnected \/ at_ s = Gone).
Proof.
  assert (Hs : exists s, sessions_ demo_end !! 1%nat = Some s) by (eexists; vm_compute; reflexivity).
  destruct Hs as [s Hs]. exists s. split; [exact Hs|].
  exact (timeout_reaches 4 2 demo_end 1 s demo_end_reachable eq_refl Hs).
Defined.

(** A session that comes up after the timeout is up for good. *)
Example late_session :
  option_map (fun c => (timeout_ c, (fun s => (at_ s, stopped s)) <$> sessions_ c, reports c))
    (perform (init 1) [Timeout; StopNext; Establish 0; TestUp 0; Deliver 0 (bytes "a")]) =
  Some (Some 1%nat, [(Up, false)], []).
Proof. vm_compute. reflexivity. Qed.

End PingPong.
