(* ===== verification/FileTransfer.v ===== *)
(** * The file transfer server ([examples/filetransfer/server.cpp])

    The message and write-complete callbacks, as the calls they make on the
    connection.  The connection's context is the rest of an open file, if it holds
    one; [fopen] is a parameter; [g_file] is a pointer that is null, or points to the
    characters of a string that is gone. *)

From S2P Require Import Prelude Buffer.

Module FileTransfer.

Definition kBufSize : Z := 64 * 1024.

Inductive pointer :=
  | Null
  | PointsTo (name : list byte)
  (* the string it was taken from has been destroyed *)
  | Dangling.

Definition deref (p : pointer) : res (list byte) :=
  match p with Null => Err NullDeref | PointsTo name => Ok name | Dangling => Err UseAfterFree end.

Class Files := { fopen : list byte -> option (list byte) }.

Section server.
Context `{F : Files}.

(** The calls and the connection's context after [transFile], or [onMessage]. *)
Definition transFile (connected : bool) (g_file : pointer) (context : option (list byte)) :
    res (list action * option (list byte)) :=
  if connected then
    name ← deref g_file ;
    match fopen name with
    | Some content => Ok ([Send (ztake kBufSize content)], Some (zdrop kBufSize content))
    | None => Ok ([Shutdown], context)
    end
  else Ok ([], context).

(** [std::any_cast] throws when the context holds no file. *)
Definition onWriteComplete (context : option (list byte)) : res (list action * option (list byte)) :=
  match context with
  | None => Err BadCast
  | Some rest =>
      let block := ztake kBufSize rest in
      if 0 <? zlen block then Ok ([Send block], Some (zdrop kBufSize rest))
      else Ok ([Shutdown], Some rest)
  end.

(** [filename] lives in the block of the first [if]. *)
Definition onMessage (connected : bool) (g_file : pointer) (context : option (list byte)) (buf : Buffer.t) :
    res (list action * pointer * option (list byte) * Buffer.t) :=
  if connected then
    crlf ← Buffer.findCRLF buf ;
    p ← match crlf with
        | Some crlf =>
            filename ← Buffer.load buf (Buffer.peek buf) (crlf - Buffer.peek buf) ;
            buf ← Buffer.retrieveUntil buf (crlf + 2) ;
            let g_file := PointsTo filename in
            (* the end of the block *)
            Ok (Dangling, buf)
        | None => Ok (g_file, buf)
        end ;
    match fst p with
    | Null => Ok ([], Null, context, snd p)
    | g_file =>
        r ← transFile connected g_file context ;
        Ok (fst r, g_file, snd r, snd p)
    end
  else Ok ([Shutdown], g_file, context, buf).

(** ** Transfers *)

(** The write-complete callbacks that follow, until the shutdown. *)
Fixpoint drain (fuel : nat) (context : option (list byte)) : res (list action) :=
  match fuel with
  | O => Err OutOfFuel
  | S fuel =>
      r ← onWriteComplete context ;
      match fst r with
      | [Shutdown] => Ok [Shutdown]
      | a => l ← drain fuel (snd r) ; Ok (a ++ l)
      end
  end.

Lemma transfer_drain_ok fuel : forall rest, (length rest < fuel)%nat ->
  exists l, drain fuel (Some rest) = Ok (l ++ [Shutdown]) /\ sent l = rest /\
    Forall (fun a => match a with Send d => 0 < zlen d <= kBufSize | Shutdown => False end) l.
Proof.
  induction fuel as [|fuel IH]; intros rest Hl; [lia|]. cbn [drain onWriteComplete].
  destruct (Z.ltb_spec 0 (zlen (ztake kBufSize rest))) as [Hb|Hb]; rewrite bind_ret_l; cbn [fst snd].
  - rewrite zlen_take in Hb. destruct (IH (zdrop kBufSize rest)) as (l & -> & Hs & Hf).
    { unfold zdrop, kBufSize in *. rewrite length_drop. unfold zlen in Hb. lia. }
    rewrite bind_ret_l. exists (Send (ztake kBufSize rest) :: l). split_and!; [done| |].
    + change (sent (Send (ztake kBufSize rest) :: l)) with (ztake kBufSize rest ++ sent l).
      rewrite Hs. apply ztake_drop.
    + constructor; [|done]. rewrite zlen_take. unfold kBufSize in *. lia.
  - assert (rest = []) as ->.
    { rewrite zlen_take in Hb. apply zlen_zero_nil. unfold kBufSize in Hb. pose proof (zlen_nonneg rest). lia. }
    exists []. by split_and!.
Qed.

(** A transfer that is begun with a name that can be read is whole: the first
    block and those of the write-complete callbacks are, in order, the contents of
    the file, in blocks of at most 64 KiB, and then the connection is shut down. *)
Theorem transfer_whole name content ctx :
  fopen name = Some content ->
  exists first rest l,
    transFile true (PointsTo name) ctx = Ok ([Send first], Some rest) /\
    drain (S (length content)) (Some rest) = Ok (l ++ [Shutdown]) /\
    first ++ sent l = content /\ zlen first <= kBufSize /\
    Forall (fun a => match a with Send d => 0 < zlen d <= kBufSize | Shutdown => False end) l.
Proof.
  intros Hf. unfold transFile. cbn [deref]. rewrite bind_ret_l, Hf.
  destruct (transfer_drain_ok (S (length content)) (zdrop kBufSize content)) as (l & Hd & Hs & Hb).
  { unfold zdrop. rewrite length_drop. lia. }
  exists (ztake kBufSize content), (zdrop kBufSize content), l. split_and!; [done|done| | |done].
  - rewrite Hs. apply ztake_drop.
  - rewrite zlen_take. unfold kBufSize. lia.
Qed.

(** The server never gets as far: every request line leads to a read of the name
    after the string that held it has been destroyed, and so does every message
    after it. *)
Theorem request_use_after_free g_file ctx buf :
  Buffer.Inv buf ->
  Buffer.search Buffer.kCRLF (Buffer.readable buf) <> zlen (Buffer.readable buf) \/ g_file = Dangling ->
  onMessage true g_file ctx buf = Err UseAfterFree.
Proof.
  intros HI Hor. unfold onMessage. rewrite Buffer.findCRLF_ok, bind_ret_l by done. cbv zeta.
  destruct (Z.eqb_spec (Buffer.search Buffer.kCRLF (Buffer.readable buf)) (zlen (Buffer.readable buf))) as [He|Hne].
  - destruct Hor as [H| ->]; [done|]. done.
  - pose proof (Buffer.crlf_line buf HI) as Hl. cbv zeta in Hl. destruct (Hl Hne) as [-> (b & -> & _)]. done.
Qed.
End server.

#[local] Instance demo_files : Files := {| fopen name := if bool_decide (name = bytes "a") then Some (bytes "hello") else None |}.

Lemma transfer_whole_witness :
  exists first rest l, transFile true (PointsTo (bytes "a")) None = Ok ([Send first], Some rest) /\
    drain 6 (Some rest) = Ok (l ++ [Shutdown]) /\ first ++ sent l = bytes "hello".
Proof.
  assert (Hf : fopen (bytes "a") = Some (bytes "hello")) by (vm_compute; reflexivity).
  destruct (transfer_whole (bytes "a") (bytes "hello") None Hf) as (first & rest & l & E1 & E2 & E3 & _).
  exists first, rest, l. exact (conj E1 (conj E2 E3)).
Defined.

Lemma request_use_after_free_witness :
  onMessage true Null None (Buffer.buffer_of (bytes "a" ++ Buffer.kCRLF)) = Err UseAfterFree.
Proof.
  destruct (Buffer.buffer_of_ok (bytes "a" ++ Buffer.kCRLF)) as [HI Hb]; [vm_compute; reflexivity|].
  apply (request_use_after_free Null None _ HI). left. rewrite Hb. vm_compute. discriminate.
Defined.

End FileTransfer.
